(* ===== verification/_CoqProject ===== *)
-Q . S2P
Prelude.v
GoStd.v
GoTime.v
Json.v
JsonText.v
JsonRound.v
Errors.v
Types.v
Validation.v
Repository.v
Memory.v
MemoryInvariant.v
Samples.v
StoreHistory.v
Feed.v
StoreSpec.v
Service.v
Migration.v
Execution.v
Distribution.v
Sql.v
Postgres.v
SqlSpec.v
PostgresSpec.v
PostgresRefine.v
PostgresRecords.v
PostgresDefinitions.v
PostgresLifecycle.v
DistributionSpec.v
Desired.v
Machine.v
FeedWire.v
Puller.v
PullerSpec.v
Console.v
ConsoleSpec.v
GaramPorts.v
MachineToken.v
MachineSpec.v
MachineTokenSpec.v
Certificate.v
Concurrent.v
Requests.v
AgentLifecycle.v
ServiceSpec.v
ActivationSpec.v
LifecycleSpec.v
Findings.v
Kube.v
AgentApi.v
AgentTypes.v
Names.v
Fence.v
Workload.v
Renderer.v
RendererSpec.v
FeedSamples.v
PostgresColumns.v
PostgresStore.v
Registrar.v
RegistrarSpec.v
PlacementWire.v
Recoverer.v
RecovererSpec.v
Refresher.v
RefresherSpec.v
KubeSamples.v
FenceSpec.v
Move.v
Build.v
BuildSpec.v
Isolation.v
Reconcile.v
AgentLoop.v
LastWriter.v
MoveSpec.v
MoveProps.v
ReconcileSpec.v
LoopSamples.v
Commands.v
