(* ===== verification/Prelude.v ===== *)
(** * The garam agent operator, verified

    The program is two processes and what lies between them. The _control service_ ([src/internal/definition],
    [execution], [distribution], [console], [src/cmd/control]) keeps the definition of every agent in PostgreSQL: its
    revisions, where it is placed, its activations, stops and credential recoveries. The _manager_ ([src/internal/desired], [src/internal/controller], [src/internal/garam], [src/cmd/main.go])
    runs beside a cluster: it pulls the revisions placed on it, renders each to an Agent object, and reconciles every
    Agent to a StatefulSet, fencing its writers and moving its memory. garam, the outside service that registers
    agents, introspects tokens and activates runtimes, the Kubernetes API server and the clock answer calls of both;
    nothing is assumed of their answers except where a theorem says so.

    This file is the prelude: programs with effects ([prog]), their run over a state ([run]), the property of every
    call under every answer ([safe]), the notations of [effect_scope], the tactics and the lemmas on lists and maps
    that the components share.

    ** How code is modelled

    - A function that calls nothing outside is a Rocq function; one that does is a [prog] over an event type, one
      constructor per method of the interface it calls ([Repository.repoE], [Kube.kubeE], [Desired.clientE], ...), in
      the order the source makes the calls, with its early returns. A Go error is a value ([Errors.error]), wrapped as
      [fmt.Errorf] wraps with %w; a panic of the source is the error [Panic]. [e ←? p; k] is "if err != nil return".
    - State a type keeps across calls is a record passed on ([Memory.mem], [Puller.puller], [Recoverer.recoverer]).
    - [safe P Q h p] says that, whatever each call is answered, every call of [p] satisfies [P] of the history of
      calls and answers before it, and every result [Q]; the theorems about the loops and the controller have this
      form. Theorems about the service run it over the store ([run]) or interleave it with others ([Concurrent]).
    - A Go int64 is a [Z] with its range checked where the source converts, and wrapped where it multiplies
      durations; a string is its bytes; a map is a [gmap], a nil map or slice the empty one; an index out of range
      panics.

    ** The files

    Language and library: [GoStd] ([strings], [strconv], [encoding/hex], [crypto/sha256], executable), [GoTime]
    ([time.RFC3339], printed and parsed), [Json] (reading
    [encoding/json]), [JsonText] (printing it, and decoding into a type, member by member), [JsonRound] (what is
    printed reads back), [Errors].

    Control service, [src/internal/definition]:
    - [Types] is [definition.go] and [operator.go]; [Validation] their checks, [secretref] and [DecidePlacement];
    - [Repository] is the interface [repository.go] and [registrar.go]; [Memory] its implementation in
      [repository/memory*.go], each method the one step it takes under its mutex; [Service] the methods of
      [service.go], [configure.go], [create.go], [publish.go], [activation.go], [stop.go], [recovery.go], [placement.go],
      [status.go], [read.go], [desired.go], [query.go];
    - [MemoryInvariant] (well-formedness, kept by every call), [StoreHistory] (what is never taken back), [Feed] (the
      feed's pages), [StoreSpec] (over every sequence of calls), [ServiceSpec], [ActivationSpec], [LifecycleSpec]
      (each request's outcomes), [Concurrent] (threads over the shared store, agents' locks, rely and guarantee),
      [Requests] (every request and route keeps its guarantee), [AgentLifecycle] (the abstract lifecycle of an agent
      and the refinement), [Findings], [Samples].
    Its store in PostgreSQL, [src/internal/definition/repository]:
    - [Sql] is the tables of [migrations/*.sql] with their keys, references and checks, each statement of
      [postgres_queries.go], the database's transactions, whose calls the driver may fail, and the advisory locks its
      sessions hold ([Sql.server]); [Postgres] is [postgres.go], [postgres_lifecycle.go] and [postgres_operators.go],
      each method a program of statements and transactions, and the agent's lock ([Postgres.WithAgentLock]) taken and
      given back on a session of its own; [Migration] is [migrate.go] and [schema_version.go], with its theorems;
    - [SqlSpec] is the reasoning on such programs ([wp], and [wps] with the locks); [PostgresSpec] relates the tables to the store in memory and says
      which calls are ones a caller may make; [PostgresRefine] holds the rules every method's proof shares; then each
      method against its counterpart in [Memory]: [PostgresRefine] (profiles, templates and publications),
      [PostgresRecords] (their lists, operators, statuses, the position, activations), [PostgresDefinitions] (revisions and creations), [PostgresLifecycle] (placements, stops,
      recoveries), [PostgresColumns] (the JSON columns), and [PostgresStore] (the feed, the refinement, its clients, a
      concrete database, and two registrations that race).
    Its routes:
    - [Execution] is [src/internal/execution]; [Distribution] is [src/internal/distribution], with [DistributionSpec];
      [Console] is [src/internal/console], with [ConsoleSpec].
    garam's machine listener, which both processes call:
    - [Machine] is [src/internal/garammachine], with [MachineSpec]; [GaramPorts] are the implementations over it of the
      interfaces [Registrar], [Garam], [Introspector], [Lifecycle] and [Prover]; [MachineToken] is
      [src/internal/machinetoken], with [MachineTokenSpec]; [Certificate] is [src/internal/certificate]; [Refresher] is
      [src/internal/garam], with its [constructor/tokens.go], and [RefresherSpec].
    The commands:
    - [Commands] is [src/cmd/control] (module [Control]), [src/cmd/main.go] ([Operator]) and [src/hack/imageref]
      ([ImageReference]), over Go's [flag] ([Flag]), with their theorems ([CommandsSpec]).

    Manager, [src/internal/desired]:
    - [Desired] is [desired.go], [client.go] and [images.go]; [Puller] is [puller.go], the image report and [self/pod.go];
      [Registrar] is [registrar.go] and [placement/pods.go]; [Recoverer] is [recoverer.go] and [credential/*.go];
      [Renderer] is [renderer/agent.go]; each with its [...Spec]. [FeedWire] and [PlacementWire] compose the two
      processes: what one writes, the other reads. [FeedSamples] holds concrete answers.

    Manager, [src/internal/controller] and [src/api/v1alpha1]:
    - [Kube] is what is read and written of the API server; [AgentApi] is [agent_types.go] of the API; [Names] is
      [src/internal/agentname]; [AgentTypes] is [agent_types.go] of the controller;
    - [Fence] is [agent_fence.go], with [FenceSpec]; [Move] is [agent_move.go], with [MoveSpec], [MoveProps] and
      [LastWriter] (the record the two share); [Workload] and [Build] are the builders of [agent_statefulset.go], with
      [BuildSpec] and [Isolation]; [Reconcile] is its reconciling half, [agent_status.go] and the parts of
      [agent_controller.go]; [AgentLoop] is the pass and the deletion, with [ReconcileSpec]. [KubeSamples] and
      [LoopSamples] (with the workload's, [WorkloadSamples]) are the objects the examples evaluate on.

    ** What the theorems show

    - Of the store, over every sequence of legal calls: it stays well formed, takes nothing back, lets a waiting
      controller miss nothing, and replaces a placement only on evidence.
    - Of the service under concurrent requests, of every route, every interleaving of calls and every answer of
      garam: the store's invariant is kept, nothing is activated under a stop, no lock deadlocks, and what the store
      holds of an agent refines the agent's lifecycle.
    - Of the store in PostgreSQL, whatever the driver fails of a call: a method called as the service may call it answers
      as the store in memory does and leaves tables that hold what it holds, or fails opaquely with the call done whole
      or not at all; so do its clients, whole programs of such calls; the agent's lock is taken only where no session
      held it, and given back; and what is written to a JSON column is read back.
    - Of two registrations over PostgreSQL that race: the one whose locking read waited can supersede a placement no
      writer of which was seen to stop, which neither order of the two allows.
    - Of each request: its outcome on every branch, errors included, and what a repeat of it answers.
    - Of the routes: nothing is read or recorded without the proof the route needs, bound to the request it is for.
    - Of the wire: the feed's page and the placement's report are read as they were written.
    - Of the manager's loops, over any number of turns and under any answers: what is reported was done, what was
      settled is not sent again, what is sent was persisted, and every wait is bounded.
    - Of the calls of garam's listener: how often one is sent, what ends it, that a token presented was answered and is
      within its lifetime, and that tokens are written as garam minted them.
    - Of the commands, whatever their files and calls answer: the control service migrates once, under its lock, and serves
      only over the schema it knows; profiles are published in order, over that schema alone; the operator runs its loops
      only where all they need is set; no redirect leaves the service.
    - Of the controller, under any answers of the API server: a Pod is let go only on evidence its writers stopped, a
      memory moves only to a verified copy, a replica runs only on the memory, an Agent is let go only after its Pod,
      each key of a Secret reaches only the container it is for, applying an Agent leaves the workload it would build
      from nothing, and a move whose step's Job ended records the step or that the move is refused.
    - [Findings], [MoveProps] and theorems of [FenceSpec], [RendererSpec] and [DistributionSpec] show where the code
      does less than its documentation says.

    ** Fuel and bounds

    [Json.value] is given twice the text's length and one, more than its recursion can use ([JsonRound] proves that a
    printed text is read). SHA-256 runs over the blocks of the padded message. [Move.stateInUse] follows at most
    [maxMoves] claims, as the source does. The feed's wait ([Distribution.poll]) counts its polls, and
    [DistributionSpec.feed_answers] shows that one more than fit in the longest wait are enough, whatever is
    answered. The loops ([Puller.Start], [Registrar.Start], [Recoverer.Start]) run for any number of turns [n], for the
    source's run until they are cancelled; so do the token source's [Keep] and the refresher's [Start]. A call of garam's
    listener is sent at most the client's attempts ([Machine.send_from]), and a placement decided again at most
    [Postgres.placementAttempts] times, as in the source.

    ** What is not modelled

    - The interleaving of two connections' statements in PostgreSQL, which serves transactions one at a time here (an
      advisory lock another session holds is waited for: the run that would take it does not end), but for
      the race of [PostgresStore.PostgresRaces]: a locking read at [READ COMMITTED] that waits sees, of the rows its
      snapshot shows, what the transaction it waited for left, and no row stored since. The text of a migration is the
      tables it leaves.
    - The HTTP server's routing and transport: a request is what the handler reads of it, an answer its status,
      headers and body. Log lines are calls with their text; the random trace id is dropped.
    - Generated deep copies, [SetupWithManager], the routes' registration with the server's mux, the logger's set-up,
      [Client.Target] of garam's client, which nothing calls, [src/hack/buildcontext], which runs [go list] and a matcher of
      [.dockerignore], and [src/test]. Metrics are not kept, but for the feed's refusal.
    - Parameters, with what their documentation says as laws where a theorem needs it: Kubernetes' name validators,
      quantities and semantic equality ([Validation]), the JSON of resource requirements ([Distribution.ResourcesJSON],
      [FeedWire.WireLaws]) and of instants ([Execution.TimeJSON]), conditions' helpers and DeepEqual ([AgentApi],
      [Reconcile]), [yaml.Marshal] ([AgentTypes]), canonical JSON ([Fence]), PEM, PKCS#8 keys, thumbprints and signed
      tokens ([MachineToken.Signing]), a certificate pool's PEM, YAML files, [net/url]'s reading of an origin, image
      references and the flags controller-runtime and the logger read ([Commands]), what the JSON decoder says of a text
      it refuses ([Postgres], [GaramPorts]), how PostgreSQL keeps a JSON document, orders text and picks one of several
      rows, its clock, its hash of a lock's name and whether a call may fail ([Sql.Database], [Postgres.agentKey], with [PostgresSpec.DatabaseLaws] and
      [PostgresColumns.JsonbLaws]), and what golang-migrate answers ([Migration]).

    ** Abstractions to know

    [controllerutil.CreateOrUpdate] is a read, the mutation and a write. A patch of a status is answered by the object
    patched. A Go map ranged over is a call answered by an order ([Recoverer.RangeOrder]) or read in the order of the
    [gmap] where the source sorts after. A duplicated member of a JSON object decodes onto what the earlier one left,
    a slice's elements included. A nil map printed in the feed prints as the empty object. The move's Job is what it
    depends on, not the shell script its container runs. *)
From stdpp Require Export base tactics gmap sets list strings sorting.
From Stdlib Require Export ZArith Lia.

#[global] Set Default Goal Selector "!".
#[global] Open Scope string_scope.
#[global] Open Scope list_scope.
#[global] Open Scope Z_scope.
#[global] Generalizable All Variables.

Declare Scope effect_scope.
Delimit Scope effect_scope with effect.
#[global] Open Scope effect_scope.

(** ** Programs with effects

    A handler of the source is a program that performs calls, each answered by something outside
    it: the store, [garam], the API server. A program is a tree of calls: what answers them is
    decided later, by running it over a state ([run]), by any answers at all ([safe]), or
    interleaved with others (file Concurrent). *)
Inductive prog (E : Type → Type) (A : Type) : Type :=
| Ret (a : A)
| Vis (X : Type) (e : E X) (k : X → prog E A).
Arguments Ret {E A} a.
Arguments Vis {E A X} e k.

#[global] Instance prog_mret E : MRet (prog E) := λ A a, Ret a.

Definition prog_bind {E A B} (k : A → prog E B) : prog E A → prog E B :=
  fix go p := match p with
  | Ret a => k a
  | Vis e k' => Vis e (λ x, go (k' x))
  end.
#[global] Instance prog_mbind E : MBind (prog E) := λ A B k p, prog_bind k p.

(** The calls a component makes are an event type of their own; a program over several of them
    names each through an injection. *)
Class SubEvent (F E : Type → Type) := inject : ∀ X, F X → E X.
Arguments inject {F E _ X} e.

Inductive sumE (F G : Type → Type) (X : Type) : Type :=
| InL (e : F X)
| InR (e : G X).
Arguments InL {F G X} e.
Arguments InR {F G X} e.
Infix "+'" := sumE (at level 50, left associativity) : type_scope.

#[global] Instance sub_refl E : SubEvent E E | 0 := λ X e, e.
#[global] Instance sub_inl F G E `{!SubEvent F E} : SubEvent F (E +' G) | 2 :=
  λ X e, InL (inject e).
#[global] Instance sub_inr F G E `{!SubEvent G E} : SubEvent G (F +' E) | 3 :=
  λ X e, InR (inject e).

Definition call {F E X} `{!SubEvent F E} (e : F X) : prog E X := Vis (inject e) Ret.

(** ** Running a program over a state *)
Definition handler (E : Type → Type) (S : Type) := ∀ X, E X → S → X * S.

Fixpoint run {E S A} (h : handler E S) (p : prog E A) (s : S) : A * S :=
  match p with
  | Ret a => (a, s)
  | Vis e k => let '(x, s') := h _ e s in run h (k x) s'
  end.

Definition sum_handler {F G S} (h1 : handler F S) (h2 : handler G S) : handler (F +' G) S :=
  λ X e, match e with InL e => h1 X e | InR e => h2 X e end.

Lemma run_bind {E S A B} (h : handler E S) (k : A → prog E B) p s :
  run h (mbind k p) s = let '(a, s') := run h p s in run h (k a) s'.
Proof.
  revert s. induction p as [a|X e k' IH]; intros s; [done|].
  cbn. destruct (h X e s) as [x s']. apply IH.
Qed.

Lemma run_call {F E S X} `{!SubEvent F E} (h : handler E S) (e : F X) s :
  run h (call e) s = h X (inject e) s.
Proof. cbn. by destruct (h X (inject e) s). Qed.

Lemma run_ret {E S A} (h : handler E S) (a : A) s : run h (mret a) s = (a, s).
Proof. done. Qed.

(** ** Every answer at all

    [safe P Q h p]: after the calls of [h], most recent first, whatever each call of [p] is
    answered, every call [p] makes satisfies [P] of the calls before it, and where [p] ends, [Q]
    holds of the calls made and the result. *)
Inductive event (E : Type → Type) : Type :=
| Ev {X : Type} (e : E X) (x : X).
Arguments Ev {E X} e x.

Section safe.
Context {E : Type → Type}.
Abbreviation history := (list (event E)).
Implicit Types (P : history → ∀ X, E X → Prop) (h : history).

Fixpoint safe {A} P (Q : history → A → Prop) h (p : prog E A) : Prop :=
  match p with
  | Ret a => Q h a
  | Vis e k => P h _ e ∧ ∀ x, safe P Q (Ev e x :: h) (k x)
  end.

Lemma safe_bind {A B} P (Q : history → B → Prop) (k : A → prog E B) p h :
  safe P Q h (mbind k p) ↔ safe P (λ h' a, safe P Q h' (k a)) h p.
Proof.
  revert h. induction p as [a|X e k' IH]; intros h; [done|].
  cbn. split; intros [? H]; (split; [done|]); intros x; apply IH, H.
Qed.

Lemma safe_mono {A} P (Q Q' : history → A → Prop) p h :
  (∀ h' a, Q h' a → Q' h' a) → safe P Q h p → safe P Q' h p.
Proof.
  intros HQ. revert h. induction p as [a|X e k IH]; intros h; [apply HQ|].
  cbn. intros [? H]. split; [done|]. intros x. by apply IH.
Qed.

(** The calls made before stay made. *)
Lemma safe_suffix {A} P (Q : history → A → Prop) p h :
  safe P Q h p → safe P (λ h' a, h `suffix_of` h' ∧ Q h' a) h p.
Proof.
  revert h. induction p as [a|X e k IH]; intros h; [by split|].
  intros [? Hx]. split; [done|]. intros x. eapply safe_mono, IH, Hx.
  intros h' a [Hs ?]. split; [|done]. etrans; [|exact Hs]. by exists [Ev e x].
Qed.

(** A call answered [x] after the history [h] leaves the program's remainder. *)
Inductive reaches {A} : prog E A → history → prog E A → history → Prop :=
| reaches_refl p h : reaches p h p h
| reaches_step X (e : E X) k x h p' h' :
  reaches (k x) (Ev e x :: h) p' h' → reaches (Vis e k) h p' h'.

(** What [safe] promises, in terms of executions: each call made, at whatever point, satisfies
[P], and the result satisfies [Q]. *)
Lemma safe_reaches {A} P (Q : history → A → Prop) p h p' h' :
  reaches p h p' h' → safe P Q h p → safe P Q h' p'.
Proof. induction 1; [done|]. cbn. intros [_ H']. auto. Qed.

Lemma safe_issued {A} P (Q : history → A → Prop) p h X (e : E X) k h' :
  safe P Q h p → reaches p h (Vis e k) h' → P h' X e.
Proof. intros Hs Hr. by destruct (safe_reaches _ _ _ _ _ _ Hr Hs). Qed.

Lemma safe_result {A} P (Q : history → A → Prop) p h a h' :
  safe P Q h p → reaches p h (Ret a) h' → Q h' a.
Proof. intros Hs Hr. exact (safe_reaches _ _ _ _ _ _ Hr Hs). Qed.

(** Every execution that runs over a state is one of the executions [reaches] describes. *)
Lemma run_reaches {S A} (hd : handler E S) (p : prog E A) s h :
  ∃ h', reaches p h (Ret (run hd p s).1) h'.
Proof.
  revert s h. induction p as [a|X e k IH]; intros s h; cbn.
  { exists h. constructor. }
  destruct (hd X e s) as [x s'].
  destruct (IH x s' (Ev e x :: h)) as [h' Hr]. exists h'. by eapply reaches_step.
Qed.

(** Run over answers that all satisfy [ok], it makes calls whose answers do. *)
Lemma run_reaches_answered {S A} (ok : event E → Prop) (hd : handler E S) (p : prog E A) (s : S) h :
  (∀ X (e : E X) (s : S), ok (Ev e (hd X e s).1)) → Forall ok h →
  ∃ h' a, reaches p h (Ret a) h' ∧ Forall ok h'.
Proof.
  intros Hok. revert s h. induction p as [a|X e k IH]; intros s h Hh.
  { exists h, a. split; [constructor|done]. }
  destruct (IH (hd X e s).1 (hd X e s).2 (Ev e (hd X e s).1 :: h)) as (h' & a & Hr & Hh').
  { constructor; [apply Hok|done]. }
  exists h', a. split; [by eapply reaches_step|done].
Qed.

(** A call in the history of what is reached was made on the way. *)
Definition issued {A} (p : prog E A) h (ev : event E) : Prop :=
  match ev with Ev e _ => ∃ k h', reaches p h (Vis e k) h' end.
Lemma reaches_made {A} (p : prog E A) h p' h' ev :
  reaches p h p' h' → ev ∈ h' → ev ∈ h ∨ issued p h ev.
Proof.
  intros Hr. revert ev. induction Hr as [p h|X e k x h p' h' Hr IH]; intros ev Hin; [by left|].
  destruct (IH ev Hin) as [Hin'|Hi].
  - apply elem_of_cons in Hin' as [->|?]; [right; exists k, h; constructor|by left].
  - right. destruct ev as [Y e' y]. destruct Hi as (k' & h1 & Hi). exists k', h1. by eapply reaches_step.
Qed.
(** Whether a program run over a state makes a call some test accepts. *)
Fixpoint makes {S A} (test : ∀ X, E X → bool) (hd : handler E S) (p : prog E A) (s : S) : bool :=
  match p with
  | Ret _ => false
  | Vis e k => test _ e || let '(x, s') := hd _ e s in makes test hd (k x) s'
  end.
Lemma makes_reaches {S A} test (hd : handler E S) (p : prog E A) s h :
  makes test hd p s = true → ∃ X (e : E X) k h', reaches p h (Vis e k) h' ∧ test X e = true.
Proof.
  revert s h. induction p as [a|X e k IH]; intros s h; [done|]. cbn.
  intros [Ht|Hm]%orb_true_iff; [exists X, e, k, h; split; [constructor|done]|].
  destruct (hd X e s) as [x s']. destruct (IH x s' (Ev e x :: h) Hm) as (Y & e' & k' & h' & Hr & Ht).
  exists Y, e', k', h'. split; [by eapply reaches_step|done].
Qed.
End safe.

(** A call, and what follows on each answer. *)
Lemma safe_call {F E X A} `{!SubEvent F E} P (Q : list (event E) → A → Prop) (e : F X) (k : X → prog E A) h :
  safe P Q h (x ← call e; k x) ↔ P h _ (inject e) ∧ ∀ x, safe P Q (Ev (inject e) x :: h) (k x).
Proof. done. Qed.

(** ** A program among the calls of a larger one *)
Fixpoint embed {F G A} (p : prog F A) : prog (F +' G) A :=
  match p with
  | Ret a => Ret a
  | Vis e k => Vis (InL e) (λ x, embed (k x))
  end.

(** The calls of the smaller kind in a history. *)
Definition narrow_event {F G} (ev : event (F +' G)) : option (event F) :=
  match ev with
  | Ev e x => match e with InL e => λ x, Some (Ev e x) | InR _ => λ _, None end x
  end.
Definition narrow {F G} (h : list (event (F +' G))) : list (event F) := omap narrow_event h.

Lemma safe_embed {F G A} (P : list (event F) → ∀ X, F X → Prop) (Q : list (event F) → A → Prop)
    (P' : list (event (F +' G)) → ∀ X, (F +' G) X → Prop) (Q' : list (event (F +' G)) → A → Prop) p h :
  (∀ h X (e : F X), P (narrow h) X e → P' h X (InL e)) →
  (∀ h a, Q (narrow h) a → Q' h a) →
  safe P Q (narrow h) p → safe P' Q' h (embed p).
Proof.
  intros HP HQ. revert h. induction p as [a|X e k IH]; intros h; [apply HQ|].
  cbn. intros [He Hk]. split; [by apply HP|]. intros x. apply IH, Hk.
Qed.

Lemma narrow_event_Some {F G} (ev : event (F +' G)) ev' :
  narrow_event ev = Some ev' → ev = match ev' with Ev e x => Ev (InL e) x end.
Proof. destruct ev as [X [e|e] x]; [|done]. by intros [= <-]. Qed.

Lemma elem_of_narrow {F G X} (h : list (event (F +' G))) (e : F X) x : Ev e x ∈ narrow h → Ev (InL e) x ∈ h.
Proof.
  unfold narrow. rewrite list_elem_of_omap. intros (ev & Hin & ->%narrow_event_Some). done.
Qed.

(** ** Lemmas on lists and maps the components share *)
(** The first value of a map some test accepts, in the map's own order. Go ranges over a map in an
    order it does not state; each use has a lemma that the value is the only one. *)
Definition find_value `{Countable K} {A} (f : A → bool) (m : gmap K A) : option A :=
  List.find f (map_to_list m).*2.

Section find_value.
Context `{Countable K} {A : Type}.
Implicit Types (m : gmap K A) (f : A → bool).

Lemma find_value_Some f m a :
  find_value f m = Some a → f a = true ∧ ∃ k, m !! k = Some a.
Proof.
  intros [Hin Hf]%find_some. split; [done|].
  apply list_elem_of_In, list_elem_of_fmap in Hin as [[k v] [-> Hin]].
  exists k. by apply elem_of_map_to_list.
Qed.

Lemma find_value_None f m k a :
  find_value f m = None → m !! k = Some a → f a = false.
Proof.
  intros Hn Hk. apply (find_none _ _ Hn).
  apply list_elem_of_In, list_elem_of_fmap. exists (k, a).
  split; [done|]. by apply elem_of_map_to_list.
Qed.

(** Where at most one key's value is accepted, it is the one found, in whatever order. *)
Lemma find_value_unique f m k a :
  m !! k = Some a → f a = true →
  (∀ k' a', m !! k' = Some a' → f a' = true → a' = a) →
  find_value f m = Some a.
Proof.
  intros Hk Ha Hu. destruct (find_value f m) as [a'|] eqn:Hf.
  - apply find_value_Some in Hf as [Ha' [k' Hk']]. f_equal. eauto.
  - by rewrite (find_value_None f m k a Hf Hk) in Ha.
Qed.
End find_value.

(** A value counted once: what a map lookup is updated to. *)
Lemma lookup_insert_cases `{Countable K} {A} (m : gmap K A) i j x y :
  <[i:=x]> m !! j = Some y → (i = j ∧ x = y) ∨ (i ≠ j ∧ m !! j = Some y).
Proof.
  destruct (decide (i = j)) as [->|Hne].
  - rewrite lookup_insert_eq. intros [= ->]. by left.
  - rewrite lookup_insert_ne by done. by right.
Qed.

Lemma bool_decide_eq_false_ne `{EqDecision A} (x y : A) : bool_decide (x = y) = false ↔ x ≠ y.
Proof. apply bool_decide_eq_false. Qed.

Lemma last_snoc_Some {A} (l : list A) x : last (l ++ [x]) = Some x.
Proof. apply last_snoc. Qed.

Lemma lookup_snoc {A} (l : list A) x : (l ++ [x]) !! length l = Some x.
Proof. rewrite lookup_app_r by done. by rewrite Nat.sub_diag. Qed.

Lemma lookup_snoc_Some {A} (l : list A) x i y :
  (l ++ [x]) !! i = Some y → l !! i = Some y ∨ (i = length l ∧ y = x).
Proof.
  intros H. destruct (decide (i < length l)%nat) as [Hlt|Hge].
  - left. by rewrite lookup_app_l in H.
  - right. rewrite lookup_app_r in H by lia.
    destruct (i - length l)%nat eqn:Hi; cbn in H; [|done]. split; [lia|congruence].
Qed.

(** A pair by what its first component evaluates to. *)
Lemma pair_by_fst {A B} (p : A * B) a : p.1 = a → p = (a, p.2).
Proof. destruct p. cbn. by intros ->. Qed.

Lemma list_insert_snoc {A} (l : list A) x y : <[length l := y]> (l ++ [x]) = l ++ [y].
Proof. rewrite insert_app_r_alt by lia. by rewrite Nat.sub_diag. Qed.

(** ** Automation *)

(** Splits the conditions of the code met in a goal or a hypothesis. *)
Ltac split_code :=
  repeat (case_match || case_bool_decide); simplify_eq/=.

(** Inverts an equation between pairs or results and substitutes. *)
Ltac inv_eq :=
  repeat match goal with
  | H : (_, _) = (_, _) |- _ => injection H as ??; subst
  | H : Some _ = Some _ |- _ => injection H as ?; subst
  end; simplify_eq/=.

Create HintDb later.
Create HintDb garam discriminated.
#[export] Hint Resolve lookup_insert_eq lookup_snoc last_snoc_Some : garam.
Create Rewrite HintDb garam_run.
#[export] Hint Rewrite @run_bind @run_call @run_ret : garam_run.

(** Runs the calls of a program one at a time. *)
Ltac run_step := autorewrite with garam_run; cbn.
