(* ===== verification/GoStd.v ===== *)
(** The parts of Go and its standard library the modelled code uses, executable: 64-bit integers,
    [strings], [strconv], [encoding/hex], [crypto/sha256] and the string form of
    [encoding/json]. A Go string is a sequence of bytes, here a [string] of 8-bit characters. *)
From S2P Require Import Prelude.
From Stdlib Require Import Decimal DecimalString DecimalN DecimalPos Ascii.

#[global] Arguments Ascii.eqb : simpl never.

Module GoStd.

(** ** Integers *)
Definition maxInt64 : Z := 2 ^ 63 - 1.
Definition minInt64 : Z := - 2 ^ 63.

(** An int64 result wraps. *)
Definition int64 (z : Z) : Z := (z + 2 ^ 63) mod 2 ^ 64 - 2 ^ 63.

Lemma int64_small (z : Z) : minInt64 ≤ z ≤ maxInt64 → int64 z = z.
Proof. unfold int64, minInt64, maxInt64. intros. rewrite Z.mod_small; lia. Qed.

Lemma int64_range (z : Z) : minInt64 ≤ int64 z ≤ maxInt64.
Proof.
  unfold int64, minInt64, maxInt64.
  pose proof (Z.mod_pos_bound (z + 2 ^ 63) (2 ^ 64)). lia.
Qed.

(** ** strings *)
Definition byte_of (c : ascii) : Z := Z.of_N (N_of_ascii c).
Definition of_byte (z : Z) : ascii := ascii_of_N (Z.to_N z).

(** [strings.Cut] with a one-byte separator: what is before it, after it, and whether it occurs. *)
Fixpoint Cut (s : string) (sep : ascii) : string * string * bool :=
  match s with
  | EmptyString => (EmptyString, EmptyString, false)
  | String c r =>
      if Ascii.eqb c sep then (EmptyString, r, true)
      else let '(before, after, found) := Cut r sep in (String c before, after, found)
  end.

(** [strings.TrimLeft] with the bytes a test accepts for its cut set. *)
Fixpoint TrimLeft (s : string) (cutset : ascii → bool) : string :=
  match s with
  | String c r => if cutset c then TrimLeft r cutset else s
  | EmptyString => s
  end.

Fixpoint CutPrefix (s prefix : string) : option string :=
  match prefix, s with
  | EmptyString, _ => Some s
  | String p prefix', String c s' => if Ascii.eqb p c then CutPrefix s' prefix' else None
  | String _ _, EmptyString => None
  end.

Fixpoint string_contains (c : ascii) (s : string) : bool :=
  match s with
  | EmptyString => false
  | String c' r => Ascii.eqb c' c || string_contains c r
  end.

Fixpoint string_forall (f : ascii → bool) (s : string) : bool :=
  match s with
  | EmptyString => true
  | String c r => f c && string_forall f r
  end.

(** [strings.Join]. *)
Definition Join (l : list string) (sep : string) : string := String.concat sep l.

Definition is_digit (c : ascii) : bool := bool_decide (48 ≤ byte_of c ≤ 57).
Definition is_lower_hex (c : ascii) : bool := is_digit c || bool_decide (97 ≤ byte_of c ≤ 102).

(** ** strconv *)

(** [strconv.FormatInt(z, 10)]. *)
Definition FormatInt (z : Z) : string :=
  if bool_decide (z < 0)
  then String "-" (NilZero.string_of_uint (N.to_uint (Z.to_N (- z))))
  else NilZero.string_of_uint (N.to_uint (Z.to_N z)).

Fixpoint digits_value (s : string) (acc : Z) : option Z :=
  match s with
  | EmptyString => Some acc
  | String c r => if is_digit c then digits_value r (10 * acc + (byte_of c - 48)) else None
  end.

(** [strconv.ParseInt(s, 10, 64)]: [None] is its error, a syntax or a range error. *)
Definition ParseInt (s : string) : option Z :=
  let unsigned r := match r with EmptyString => None | _ => digits_value r 0 end in
  let ranged o := z ← o; if bool_decide (minInt64 ≤ z ≤ maxInt64) then Some z else None in
  match s with
  | String "+" r => ranged (unsigned r)
  | String "-" r => ranged (Z.opp <$> unsigned r)
  | _ => ranged (unsigned s)
  end.

(** ** encoding/hex *)
Definition hex_digit (z : Z) : ascii := of_byte (if bool_decide (z < 10) then 48 + z else 87 + z).
Definition hex_byte (z : Z) : string :=
  String (hex_digit (Z.shiftr z 4)) (String (hex_digit (Z.land z 15)) EmptyString).
Definition EncodeToString (bytes : list Z) : string :=
  foldr (λ b s, hex_byte b +:+ s) EmptyString bytes.

Definition bytes_of (s : string) : list Z := byte_of <$> String.list_ascii_of_string s.

(** ** fmt: the verb %q, exact on ASCII; a byte above it is kept, as a printable rune is. *)
Definition quote_byte (c : ascii) : string :=
  let z := byte_of c in
  if bool_decide (z = 34) then String "\" (String c EmptyString)
  else if bool_decide (z = 92) then "\\"
  else if bool_decide (z = 7) then "\a" else if bool_decide (z = 8) then "\b"
  else if bool_decide (z = 12) then "\f" else if bool_decide (z = 10) then "\n"
  else if bool_decide (z = 13) then "\r" else if bool_decide (z = 9) then "\t"
  else if bool_decide (z = 11) then "\v"
  else if bool_decide (z < 32 ∨ z = 127) then "\x" +:+ hex_byte z
  else String c EmptyString.
Definition dquote : string := String (of_byte 34) EmptyString.
Definition quote (s : string) : string :=
  dquote +:+ foldr (λ c r, quote_byte c +:+ r) EmptyString (String.list_ascii_of_string s) +:+ dquote.

(** ** crypto/sha256 *)
Definition w32 (z : Z) : Z := Z.land z 4294967295.
Definition rotr (n x : Z) : Z := Z.lor (Z.shiftr x n) (w32 (Z.shiftl x (32 - n))).

Definition sha256_k : list Z :=
  [1116352408; 1899447441; 3049323471; 3921009573; 961987163; 1508970993; 2453635748; 2870763221;
   3624381080; 310598401; 607225278; 1426881987; 1925078388; 2162078206; 2614888103; 3248222580;
   3835390401; 4022224774; 264347078; 604807628; 770255983; 1249150122; 1555081692; 1996064986;
   2554220882; 2821834349; 2952996808; 3210313671; 3336571891; 3584528711; 113926993; 338241895;
   666307205; 773529912; 1294757372; 1396182291; 1695183700; 1986661051; 2177026350; 2456956037;
   2730485921; 2820302411; 3259730800; 3345764771; 3516065817; 3600352804; 4094571909; 275423344;
   430227734; 506948616; 659060556; 883997877; 958139571; 1322822218; 1537002063; 1747873779;
   1955562222; 2024104815; 2227730452; 2361852424; 2428436474; 2756734187; 3204031479; 3329325298].

Definition sha256_init : list Z :=
  [1779033703; 3144134277; 1013904242; 2773480762; 1359893119; 2600822924; 528734635; 1541459225].

Definition nth_word (n : nat) (l : list Z) : Z := nth n l 0.

(** The message schedule, most recent word first. *)
Fixpoint sha256_schedule (n : nat) (rev : list Z) : list Z :=
  match n with
  | O => rev
  | S n' =>
      let w2 := nth_word 1 rev in let w15 := nth_word 14 rev in
      let s0 := Z.lxor (Z.lxor (rotr 7 w15) (rotr 18 w15)) (Z.shiftr w15 3) in
      let s1 := Z.lxor (Z.lxor (rotr 17 w2) (rotr 19 w2)) (Z.shiftr w2 10) in
      sha256_schedule n' (w32 (nth_word 15 rev + s0 + nth_word 6 rev + s1) :: rev)
  end.

Definition sha256_round (st : list Z) (kw : Z * Z) : list Z :=
  match st with
  | [a; b; c; d; e; f; g; h] =>
      let s1 := Z.lxor (Z.lxor (rotr 6 e) (rotr 11 e)) (rotr 25 e) in
      let ch := Z.lxor (Z.land e f) (Z.land (Z.lxor e 4294967295) g) in
      let t1 := w32 (h + s1 + ch + kw.1 + kw.2) in
      let s0 := Z.lxor (Z.lxor (rotr 2 a) (rotr 13 a)) (rotr 22 a) in
      let maj := Z.lxor (Z.lxor (Z.land a b) (Z.land a c)) (Z.land b c) in
      [w32 (t1 + s0 + maj); a; b; c; w32 (d + t1); e; f; g]
  | _ => st
  end.

Definition sha256_block (st : list Z) (words : list Z) : list Z :=
  let w := reverse (sha256_schedule 48 (reverse words)) in
  zip_with (λ x y, w32 (x + y)) st (foldl sha256_round st (zip sha256_k w)).

(** Big-endian words of a sequence of bytes, and the bytes of words. *)
Fixpoint words_of (bytes : list Z) : list Z :=
  match bytes with
  | a :: b :: c :: d :: r =>
      (Z.shiftl a 24 + Z.shiftl b 16 + Z.shiftl c 8 + d) :: words_of r
  | _ => []
  end.
Definition bytes_of_word (w : Z) : list Z :=
  [Z.land (Z.shiftr w 24) 255; Z.land (Z.shiftr w 16) 255; Z.land (Z.shiftr w 8) 255; Z.land w 255].

Definition sha256_pad (bytes : list Z) : list Z :=
  let len := Z.of_nat (length bytes) in
  bytes ++ [128] ++ replicate (Z.to_nat ((55 - len) mod 64)) 0 ++
  bytes_of_word (w32 (Z.shiftr (8 * len) 32)) ++ bytes_of_word (w32 (8 * len)).

Fixpoint sha256_blocks (n : nat) (words : list Z) (st : list Z) : list Z :=
  match n with
  | O => st
  | S n' => sha256_blocks n' (drop 16 words) (sha256_block st (take 16 words))
  end.

(** [sha256.Sum256]. *)
Definition Sum256 (bytes : list Z) : list Z :=
  let padded := sha256_pad bytes in
  let words := words_of padded in
  sha256_blocks (Nat.div (length padded) 64) words sha256_init ≫= bytes_of_word.

(** ** encoding/json: a string, as [json.Marshal] writes it *)

(** [utf8.DecodeRune] on a sequence starting with a byte of 128 or more: the rune and its width
    where the bytes are well formed. *)
Definition cont (z : Z) : bool := bool_decide (128 ≤ z ≤ 191).
Definition decode_rune (bytes : list Z) : option (Z * nat) :=
  match bytes with
  | a :: b :: c :: d :: _ =>
      if bool_decide (194 ≤ a ≤ 223) && cont b then Some (64 * (a - 192) + (b - 128), 2%nat)
      else if bool_decide (224 ≤ a ≤ 239) && cont b && cont c &&
              bool_decide (a = 224 → 160 ≤ b) && bool_decide (a = 237 → b ≤ 159)
      then Some (4096 * (a - 224) + 64 * (b - 128) + (c - 128), 3%nat)
      else if bool_decide (240 ≤ a ≤ 244) && cont b && cont c && cont d &&
              bool_decide (a = 240 → 144 ≤ b) && bool_decide (a = 244 → b ≤ 143)
      then Some (262144 * (a - 240) + 4096 * (b - 128) + 64 * (c - 128) + (d - 128), 4%nat)
      else None
  | _ => None
  end.

(** A byte under 128, escaped as the encoder escapes it: quotes, backslashes, control characters
    and the three characters HTML reads. *)
Definition json_ascii (z : Z) : string :=
  let c := String (of_byte z) EmptyString in
  if bool_decide (z = 34 ∨ z = 92) then "\" +:+ c
  else if bool_decide (z = 8) then "\b" else if bool_decide (z = 12) then "\f"
  else if bool_decide (z = 10) then "\n" else if bool_decide (z = 13) then "\r"
  else if bool_decide (z = 9) then "\t"
  else if bool_decide (z < 32 ∨ z = 60 ∨ z = 62 ∨ z = 38) then "\u00" +:+ hex_byte z
  else c.

Fixpoint json_bytes (fuel : nat) (bytes : list Z) : string :=
  match fuel, bytes with
  | S fuel', z :: r =>
      if bool_decide (z < 128) then json_ascii z +:+ json_bytes fuel' r
      else match decode_rune (bytes ++ [0; 0; 0]) with
      | None => "\ufffd" +:+ json_bytes fuel' r
      | Some (rune, width) =>
          (if bool_decide (rune = 8232) then "\u2028" else if bool_decide (rune = 8233) then "\u2029"
           else String.string_of_list_ascii (of_byte <$> take width bytes)) +:+
          json_bytes fuel' (drop width bytes)
      end
  | _, _ => EmptyString
  end.

Definition json_string (s : string) : string :=
  dquote +:+ json_bytes (String.length s) (bytes_of s) +:+ dquote.

(** ** strings, by rune *)

(** [unicode.IsSpace]. *)
Definition is_space (r : Z) : bool :=
  bool_decide (9 ≤ r ≤ 13 ∨ r = 32 ∨ r = 133 ∨ r = 160 ∨ r = 5760 ∨ 8192 ≤ r ≤ 8202 ∨ r = 8232 ∨
               r = 8233 ∨ r = 8239 ∨ r = 8287 ∨ r = 12288).

(** The runes of a text, each as its bytes and whether it is a space. *)
Fixpoint runes (fuel : nat) (bytes : list Z) : list (list Z * bool) :=
  match fuel, bytes with
  | S fuel', z :: r =>
      if bool_decide (z < 128) then ([z], is_space z) :: runes fuel' r
      else match decode_rune (bytes ++ [0; 0; 0]) with
      | Some (rune, width) => (take width bytes, is_space rune) :: runes fuel' (drop width bytes)
      | None => ([z], false) :: runes fuel' r
      end
  | _, _ => []
  end.

(** The runs of runes that are no space, [word] the bytes of the one begun. *)
Fixpoint words (rs : list (list Z * bool)) (word : list Z) : list (list Z) :=
  let ended := match word with [] => [] | _ => [word] end in
  match rs with
  | [] => ended
  | (b, true) :: rs => ended ++ words rs []
  | (b, false) :: rs => words rs (word ++ b)
  end.

(** [strings.FieldsSeq], collected, and [strings.TrimSpace]. *)
Definition string_of (l : list Z) : string := String.string_of_list_ascii (of_byte <$> l).
Definition Fields (s : string) : list string :=
  string_of <$> words (runes (String.length s) (bytes_of s)) [].
Fixpoint drop_spaces (rs : list (list Z * bool)) : list (list Z * bool) :=
  match rs with (_, true) :: rs' => drop_spaces rs' | _ => rs end.
Definition TrimSpace (s : string) : string :=
  string_of (mjoin (reverse (drop_spaces (reverse (drop_spaces (runes (String.length s) (bytes_of s)))))).*1).

(** ** Paths ([path]) *)

(** The elements of a path, between its slashes. *)
Fixpoint split_on (sep : ascii) (s : string) : list string :=
  match s with
  | EmptyString => [""]
  | String c s =>
      if bool_decide (c = sep) then "" :: split_on sep s
      else match split_on sep s with
           | x :: xs => String c x :: xs
           | [] => [String c EmptyString]
           end
  end.

(** One element of a path being cleaned, onto the elements kept, the last first. *)
Definition clean_element (rooted : bool) (kept : list string) (x : string) : list string :=
  if bool_decide (x = "") || bool_decide (x = ".") then kept
  else if bool_decide (x = "..") then
    match kept with
    | [] => if rooted then [] else [".."]
    | y :: ys => if bool_decide (y = "..") then x :: kept else ys
    end
  else x :: kept.

(** [path.Clean] and [path.Dir]. *)
Definition Clean (path : string) : string :=
  let rooted := match path with String c _ => bool_decide (c = "/"%char) | EmptyString => false end in
  let cleaned := Join (reverse (foldl (clean_element rooted) [] (split_on "/"%char path))) "/" in
  if rooted then "/" +:+ cleaned else if bool_decide (cleaned = "") then "." else cleaned.
Definition Dir (path : string) : string :=
  match removelast (split_on "/"%char path) with
  | [] => "."
  | els => Clean (Join (els ++ [""]) "/")
  end.

(** The nanoseconds of [time.Second]. *)
Definition Second : Z := 1000000000.

(** The published vectors of SHA-256, and the encoder on each kind of byte. *)
Example sha256_abc :
  EncodeToString (Sum256 (bytes_of "abc")) =
  "ba7816bf8f01cfea414140de5dae2223b00361a396177a9cb410ff61f20015ad".
Proof. vm_compute. reflexivity. Qed.

Example sha256_two_blocks :
  EncodeToString (Sum256 (bytes_of "abcdbcdecdefdefgefghfghighijhijkijkljklmklmnlmnomnopnopq")) =
  "248d6a61d20638b8e5c026930c3e6039a33ce45964ff2167f6ecedd419db06c1".
Proof. vm_compute. reflexivity. Qed.

Example json_string_escapes :
  json_string ("a<" +:+ dquote +:+ String (of_byte 1) (String (of_byte 255) "é")) =
  dquote +:+ "a\u003c\" +:+ dquote +:+ "\u0001\ufffdé" +:+ dquote.
Proof. vm_compute. reflexivity. Qed.

Example fields_of : Fields " source=a  target=b\u extra=0 " = ["source=a"; "target=b\u"; "extra=0"].
Proof. vm_compute. reflexivity. Qed.
Example trimmed : TrimSpace "  a b  " = "a b".
Proof. vm_compute. reflexivity. Qed.

(** ** Lemmas *)

Lemma app_empty (s : string) : "" +:+ s = s.
Proof. done. Qed.
Lemma app_String c (s t : string) : String c s +:+ t = String c (s +:+ t).
Proof. done. Qed.

Lemma Cut_join (a b : string) c :
  string_contains c a = false → Cut (a +:+ String c b) c = (a, b, true).
Proof.
  induction a as [|x a IH]; rewrite ?app_empty, ?app_String; cbn.
  - by rewrite Ascii.eqb_refl.
  - intros [-> Ha]%orb_false_iff. by rewrite IH.
Qed.

Lemma Cut_before (s : string) c : string_contains c (Cut s c).1.1 = false.
Proof.
  induction s as [|x s IH]; cbn; [done|].
  destruct (Ascii.eqb x c) eqn:Hx; [done|].
  destruct (Cut s c) as [[before after] found]. cbn in *. by rewrite Hx, IH.
Qed.

Lemma Cut_found (s : string) c before after :
  Cut s c = (before, after, true) → s = before +:+ String c after.
Proof.
  revert before. induction s as [|x s IH]; intros before; cbn; [done|].
  destruct (Ascii.eqb x c) eqn:Hx.
  - intros [= <- <-]. by apply Ascii.eqb_eq in Hx as ->.
  - destruct (Cut s c) as [[before' after'] found]. intros [= <- -> ->].
    by rewrite app_String, (IH before').
Qed.

Lemma Cut_not_found (s : string) c before after :
  Cut s c = (before, after, false) → s = before ∧ after = "".
Proof.
  revert before. induction s as [|x s IH]; intros before; cbn; [by intros [= <- <-]|].
  destruct (Ascii.eqb x c) eqn:Hx; [done|].
  destruct (Cut s c) as [[before' after'] found]. intros [= <- -> ->].
  by destruct (IH before') as [-> ->].
Qed.

Lemma TrimLeft_empty s f : TrimLeft s f = "" ↔ string_forall f s = true.
Proof.
  induction s as [|c s IH]; cbn; [done|].
  destruct (f c); cbn; [done|]. split; discriminate.
Qed.

Lemma digits_value_pos d p :
  digits_value (NilEmpty.string_of_uint d) (Zpos p) = Some (Zpos (Pos.of_uint_acc d p)).
Proof.
  revert p. induction d as [|d IH|d IH|d IH|d IH|d IH|d IH|d IH|d IH|d IH|d IH]; intros p; [done|..];
    cbn [NilEmpty.string_of_uint digits_value Pos.of_uint_acc];
    match goal with |- context [is_digit ?c] => change (is_digit c) with true end; cbn iota;
    match goal with |- context [byte_of ?c] => let v := eval vm_compute in (byte_of c) in
      change (byte_of c) with v end;
    rewrite <- IH; f_equal; lia.
Qed.

Lemma digits_value_uint d :
  digits_value (NilEmpty.string_of_uint d) 0 = Some (Z.of_N (N.of_uint d)).
Proof.
  induction d as [|d IH|d IH|d IH|d IH|d IH|d IH|d IH|d IH|d IH|d IH]; [done|..];
    cbn [NilEmpty.string_of_uint digits_value];
    match goal with |- context [is_digit ?c] => change (is_digit c) with true end; cbn iota;
    [exact IH|..];
    match goal with |- context [byte_of ?c] => let v := eval vm_compute in (byte_of c) in
      change (byte_of c) with v end; cbn -[digits_value];
    apply digits_value_pos.
Qed.

Lemma digits_uint s :
  string_forall is_digit s = true → ∃ d, s = NilEmpty.string_of_uint d.
Proof.
  induction s as [|c s IH]; cbn; [by exists Nil|].
  intros [Hc [d ->]%IH]%andb_true_iff.
  assert (c = "0" ∨ c = "1" ∨ c = "2" ∨ c = "3" ∨ c = "4" ∨ c = "5" ∨ c = "6" ∨ c = "7" ∨
          c = "8" ∨ c = "9")%char as Hcases.
  { destruct c as [[] [] [] [] [] [] [] []]; vm_compute in Hc; try discriminate Hc; tauto. }
  destruct Hcases as [->|[->|[->|[->|[->|[->|[->|[->|[->| ->]]]]]]]]];
    [exists (D0 d)|exists (D1 d)|exists (D2 d)|exists (D3 d)|exists (D4 d)|exists (D5 d)
    |exists (D6 d)|exists (D7 d)|exists (D8 d)|exists (D9 d)]; done.
Qed.

Lemma string_of_uint_digits d : string_forall is_digit (NilEmpty.string_of_uint d) = true.
Proof. by induction d. Qed.

(** A positive number prints as digits, the first not zero, which read back as it. *)
Lemma FormatInt_pos z :
  0 < z →
  ∃ d, FormatInt z = NilEmpty.string_of_uint d ∧ N.of_uint d = Z.to_N z ∧ d ≠ Nil ∧ nzhead d = d.
Proof.
  intros Hz. unfold FormatInt. rewrite bool_decide_false by lia.
  exists (N.to_uint (Z.to_N z)).
  pose proof (DecimalN.Unsigned.of_to (Z.to_N z)) as Hof.
  assert (N.to_uint (Z.to_N z) ≠ Nil) as Hnil.
  { intros Hn. rewrite Hn in Hof. cbn in Hof. lia. }
  split_and!; [|done|done|].
  - by destruct (N.to_uint (Z.to_N z)).
  - pose proof (DecimalN.Unsigned.to_of (N.to_uint (Z.to_N z))) as Hto.
    rewrite Hof in Hto. unfold unorm in Hto.
    destruct (nzhead (N.to_uint (Z.to_N z))) eqn:Hd; [|by symmetry..].
    rewrite Hto in Hof. cbn in Hof. lia.
Qed.

Lemma nzhead_first d c s :
  nzhead d = d → NilEmpty.string_of_uint d = String c s → c ≠ "0"%char.
Proof.
  destruct d; cbn; intros Hd [= <- _]; try done.
  assert (∀ d, Decimal.nb_digits (nzhead d) ≤ Decimal.nb_digits d)%nat as Hle.
  { intros d'. induction d'; cbn; lia. }
  specialize (Hle d). rewrite Hd in Hle. cbn in Hle. lia.
Qed.

Lemma first_nzhead d c s :
  NilEmpty.string_of_uint d = String c s → c ≠ "0"%char → nzhead d = d.
Proof. destruct d; cbn; intros [= <- _]; done. Qed.

Lemma digits_value_mono s a z : 0 ≤ a → digits_value s a = Some z → a ≤ z.
Proof.
  revert a. induction s as [|c s IH]; intros a Ha; cbn; [intros [= <-]; lia|].
  unfold is_digit. case_bool_decide; [|done]. intros Hz.
  specialize (IH (10 * a + (byte_of c - 48)) ltac:(lia) Hz). lia.
Qed.

End GoStd.
