(* ===== verification/GoTime.v ===== *)
(** [time], as far as the modelled code uses it: instants and durations as numbers of nanoseconds, the proleptic
    Gregorian calendar, [time.RFC3339] printed and parsed, and the float64 arithmetic a fraction of a duration is
    taken by; and that an instant printed reads back to its second. *)
From S2P Require Import Prelude GoStd.
From Stdlib Require Import Ascii SpecFloat.
Import GoStd.

Module GoTime.

(** ** The calendar *)
Definition isLeap (y : Z) : bool :=
  bool_decide (y mod 4 = 0) && (negb (bool_decide (y mod 100 = 0)) || bool_decide (y mod 400 = 0)).
Definition daysIn (m y : Z) : Z :=
  if bool_decide (m = 2) then if isLeap y then 29 else 28
  else if bool_decide (m ∈ [4; 6; 9; 11]) then 30 else 31.

(** Days since 1 January 1970, by eras of 400 years that begin on 1 March. *)
Definition day_of_era (yoe m d : Z) : Z :=
  yoe * 365 + yoe / 4 - yoe / 100 + ((153 * ((m + 9) mod 12) + 2) / 5 + d - 1).
Definition days_of_date (y m d : Z) : Z :=
  let y := if bool_decide (m ≤ 2) then y - 1 else y in
  y / 400 * 146097 + day_of_era (y mod 400) m d - 719468.

(** A day of an era: its year, counted from March, its month and its day. *)
Definition date_of_era (doe : Z) : Z * Z * Z :=
  let yoe := (doe - doe / 1460 + doe / 36524 - doe / 146096) / 365 in
  let doy := doe - (365 * yoe + yoe / 4 - yoe / 100) in
  let mp := (5 * doy + 2) / 153 in
  (yoe, if bool_decide (mp < 10) then mp + 3 else mp - 9, doy - (153 * mp + 2) / 5 + 1).
Definition date_of_days (days : Z) : Z * Z * Z :=
  let z := days + 719468 in
  let '(yoe, m, d) := date_of_era (z mod 146097) in
  (yoe + z / 146097 * 400 + (if bool_decide (m ≤ 2) then 1 else 0), m, d).

(** ** Instants: nanoseconds since 1 January 1970 UTC *)

(** The zero [time.Time], 1 January of the year 1, and [IsZero]. *)
Definition zeroTime : Z := -62135596800 * Second.
Definition IsZero (t : Z) : bool := bool_decide (t = zeroTime).
(** [t.Sub(u)], a duration that saturates. *)
Definition Sub (t u : Z) : Z := minInt64 `max` (maxInt64 `min` (t - u)).
(** [time.Date] of UTC. *)
Definition Date (y m d hour min sec nsec : Z) : Z :=
  (((days_of_date y m d * 24 + hour) * 60 + min) * 60 + sec) * Second + nsec.

(** ** [Format(time.RFC3339)] of an instant in UTC *)
Definition zeros (n : nat) : string := foldr (λ _ s, String "0" s) EmptyString (replicate n tt).
Definition appendInt (x : Z) (width : nat) : string :=
  let digits := FormatInt (Z.abs x) in
  (if bool_decide (x < 0) then "-" else "") +:+ zeros (width - String.length digits) +:+ digits.
Definition FormatRFC3339 (t : Z) : string :=
  let secs := t / Second in
  let '(y, m, d) := date_of_days (secs / 86400) in
  let s := secs mod 86400 in
  appendInt y 4 +:+ "-" +:+ appendInt m 2 +:+ "-" +:+ appendInt d 2 +:+ "T" +:+
  appendInt (s / 3600) 2 +:+ ":" +:+ appendInt (s mod 3600 / 60) 2 +:+ ":" +:+ appendInt (s mod 60) 2 +:+ "Z".

(** ** [time.Parse(time.RFC3339, value)] *)
Definition digit_value (c : ascii) : Z := byte_of c - 48.

(** [getnum]: two digits, or one where [fixed] does not ask for two. *)
Definition getnum (fixed : bool) (s : string) : option (Z * string) :=
  match s with
  | String a s =>
      if is_digit a then
        match s with
        | String b s' =>
            if is_digit b then Some (10 * digit_value a + digit_value b, s')
            else if fixed then None else Some (digit_value a, s)
        | EmptyString => if fixed then None else Some (digit_value a, s)
        end
      else None
  | EmptyString => None
  end.
Definition skip (c : ascii) (s : string) : option string :=
  match s with String a s => if Ascii.eqb a c then Some s else None | EmptyString => None end.
(** A number in a range. *)
Definition ranged (lo hi : Z) (z : Z) : option Z := if bool_decide (lo ≤ z ≤ hi) then Some z else None.
(** A year: four bytes, all of them digits. *)
Definition getyear (s : string) : option (Z * string) :=
  '(high, s) ← getnum true s; '(low, s) ← getnum true s; Some (100 * high + low, s).

(** The digits a text begins with, and what follows them. *)
Fixpoint take_digits (s : string) : list Z * string :=
  match s with
  | String c r => if is_digit c then let '(ds, rest) := take_digits r in (digit_value c :: ds, rest) else ([], s)
  | EmptyString => ([], s)
  end.
(** A fraction of a second after a period or a comma, of which nine digits count; none is zero nanoseconds. *)
Definition getfraction (s : string) : Z * string :=
  match s with
  | String c r =>
      if Ascii.eqb c "."%char || Ascii.eqb c ","%char then
        match take_digits r with
        | ([], _) => (0, s)
        | (ds, rest) => (foldl (λ n d, 10 * n + d) 0 (take 9 (ds ++ replicate 9 0)), rest)
        end
      else (0, s)
  | EmptyString => (0, s)
  end.
(** The zone, which ends the text: the seconds it is east of UTC. *)
Definition getzone (s : string) : option Z :=
  if bool_decide (s = "Z") then Some 0
  else match s with
  | String sign s =>
      '(hour, s) ← getnum true s; s ← skip ":"%char s; '(min, s) ← getnum true s;
      hour ← ranged 0 24 hour; min ← ranged 0 60 min;
      if negb (bool_decide (s = "")) then None
      else if Ascii.eqb sign "+"%char then Some ((hour * 60 + min) * 60)
      else if Ascii.eqb sign "-"%char then Some (- ((hour * 60 + min) * 60))
      else None
  | EmptyString => None
  end.

(** [None] where the text is refused. *)
Definition ParseRFC3339 (s : string) : option Z :=
  '(y, s) ← getyear s; s ← skip "-"%char s;
  '(m, s) ← getnum true s; m ← ranged 1 12 m; s ← skip "-"%char s;
  '(d, s) ← getnum true s; s ← skip "T"%char s;
  '(hour, s) ← getnum false s; hour ← ranged 0 23 hour; s ← skip ":"%char s;
  '(min, s) ← getnum true s; min ← ranged 0 59 min; s ← skip ":"%char s;
  '(sec, s) ← getnum true s; sec ← ranged 0 59 sec;
  let '(nsec, s) := getfraction s in
  offset ← getzone s; d ← ranged 1 (daysIn m y) d;
  Some (Date y m d hour min sec nsec - offset * Second).

Example parse_utc : ParseRFC3339 "2026-02-28T23:59:09.5Z" = Some 1772323149500000000.
Proof. vm_compute. reflexivity. Qed.
Example parse_zone : ParseRFC3339 "2024-02-29T9:00:00,25+01:30" = Some 1709191800250000000.
Proof. vm_compute. reflexivity. Qed.
Example parse_refused :
  ParseRFC3339 "2023-02-29T09:00:00Z" = None ∧ ParseRFC3339 "2023-02-28 09:00:00Z" = None ∧
  ParseRFC3339 "2023-02-28T09:00:00Z " = None ∧ ParseRFC3339 "soon" = None.
Proof. vm_compute. done. Qed.
Example zero_time : ParseRFC3339 "0001-01-01T00:00:00Z" = Some zeroTime ∧ FormatRFC3339 zeroTime = "0001-01-01T00:00:00Z".
Proof. vm_compute. done. Qed.

(** ** A fraction of a duration, in float64 *)
Definition float64 := spec_float.
Definition float64_of (z : Z) : float64 := binary_normalize 53 1024 z 0 false.
Definition mul64 : float64 → float64 → float64 := SFmul 53 1024.
Definition add64 : float64 → float64 → float64 := SFadd 53 1024.
Definition div64 : float64 → float64 → float64 := SFdiv 53 1024.
(** The conversion to an int64, towards zero. *)
Definition int_of (f : float64) : Z :=
  match f with
  | S754_finite s m e =>
      let z := if bool_decide (0 ≤ e) then Zpos m * 2 ^ e else Zpos m / 2 ^ (- e) in
      if s then - z else z
  | _ => 0
  end.

(** ** What is printed reads back *)
Section calendar.

Fixpoint all_below (n : nat) (z : Z) (f : Z → bool) : bool :=
  match n with O => true | S n => f z && all_below n (z + 1) f end.

Lemma all_below_spec n z f x : all_below n z f = true → z ≤ x < z + Z.of_nat n → f x = true.
Proof.
  revert z. induction n as [|n IH]; intros z; [lia|]. cbn.
  intros [Hz Hn]%andb_true_iff Hx. destruct (decide (x = z)) as [->|]; [done|]. apply (IH (z + 1)); [done|lia].
Qed.

(** Every day of a year that begins in March: its month and day are of the calendar, and count to it. *)
Definition year_day_ok (doy : Z) : bool :=
  let mp := (5 * doy + 2) / 153 in
  let m := if bool_decide (mp < 10) then mp + 3 else mp - 9 in
  let d := doy - (153 * mp + 2) / 5 + 1 in
  bool_decide (1 ≤ m ≤ 12) && bool_decide (1 ≤ d) &&
  bool_decide (d ≤ if bool_decide (m = 2) then if bool_decide (doy = 365) then 29 else 28 else daysIn m 0) &&
  bool_decide ((153 * ((m + 9) mod 12) + 2) / 5 + d - 1 = doy).
Lemma year_days_checked : all_below 366 0 year_day_ok = true.
Proof. vm_compute. reflexivity. Qed.

(** The year of a day of an era, and the day in it. *)
Lemma era_year doe yoe :
  0 ≤ doe < 146097 → yoe = (doe - doe / 1460 + doe / 36524 - doe / 146096) / 365 →
  0 ≤ yoe < 400 ∧ 0 ≤ doe - (365 * yoe + yoe / 4 - yoe / 100) ≤ 365.
Proof. intros. Z.div_mod_to_equations; lia. Qed.
Lemma era_leap doe yoe :
  0 ≤ doe < 146097 → yoe = (doe - doe / 1460 + doe / 36524 - doe / 146096) / 365 →
  doe - (365 * yoe + yoe / 4 - yoe / 100) = 365 →
  (yoe + 1) mod 4 = 0 ∧ ((yoe + 1) mod 100 ≠ 0 ∨ (yoe + 1) mod 400 = 0).
Proof. intros. Z.div_mod_to_equations; lia. Qed.

Lemma daysIn_other m y y' : m ≠ 2 → daysIn m y = daysIn m y'.
Proof. intros H. unfold daysIn. by rewrite bool_decide_false by done. Qed.

(** Every day of an era: its date is a day of its month, and the day is the date's. *)
Lemma era_day doe yoe m d :
  0 ≤ doe < 146097 → date_of_era doe = (yoe, m, d) →
  0 ≤ yoe < 400 ∧ 1 ≤ m ≤ 12 ∧ 1 ≤ d ≤ daysIn m (yoe + (if bool_decide (m ≤ 2) then 1 else 0)) ∧ day_of_era yoe m d = doe.
Proof.
  intros Hb Hd. unfold date_of_era in Hd. injection Hd as Hy Hm Hdd. symmetry in Hy.
  destruct (era_year doe yoe Hb Hy) as [Hyr Hdoy]. pose proof (era_leap doe yoe Hb Hy) as Hleap.
  rewrite <- Hy in Hm, Hdd. set (doy := doe - (365 * yoe + yoe / 4 - yoe / 100)) in *.
  assert (year_day_ok doy = true) as Ho by (apply (all_below_spec _ _ _ _ year_days_checked); lia).
  unfold year_day_ok in Ho. rewrite Hm, Hdd, !andb_true_iff, !bool_decide_eq_true in Ho.
  destruct Ho as [[[Hm12 Hd1] Hdm] Hr]. split; [done|]. split; [done|]. split.
  - split; [done|]. destruct (decide (m = 2)) as [->|Hne].
    + rewrite bool_decide_true in Hdm by done. unfold daysIn. cbn [bool_decide]. rewrite !bool_decide_true by done.
      destruct (decide (doy = 365)) as [H365|H365];
        [|rewrite bool_decide_false in Hdm by done; destruct (isLeap _); lia].
      rewrite bool_decide_true in Hdm by done. destruct (Hleap H365) as [H4 H100]. unfold isLeap. rewrite (bool_decide_true (_ mod 4 = 0)) by done. cbn.
      destruct H100; [rewrite (bool_decide_false (_ mod 100 = 0)) by done; done|].
      rewrite (bool_decide_true (_ mod 400 = 0)) by done. by rewrite orb_true_r.
    + rewrite bool_decide_false in Hdm by done. by rewrite (daysIn_other _ _ 0).
  - unfold day_of_era. lia.
Qed.

Lemma leap_shift y k : isLeap (y + k * 400) = isLeap y.
Proof.
  unfold isLeap.
  replace ((y + k * 400) mod 4) with (y mod 4) by (replace (k * 400) with (k * 100 * 4) by lia; by rewrite Z_mod_plus_full).
  replace ((y + k * 400) mod 100) with (y mod 100) by (replace (k * 400) with (k * 4 * 100) by lia; by rewrite Z_mod_plus_full).
  by rewrite Z_mod_plus_full.
Qed.

(** The date of a day is a date of the calendar, and that day's. *)
Lemma date_of_days_spec days y m d :
  date_of_days days = (y, m, d) → 1 ≤ m ≤ 12 ∧ 1 ≤ d ≤ daysIn m y ∧ days_of_date y m d = days.
Proof.
  unfold date_of_days. intros Hd.
  pose proof (Z.mod_pos_bound (days + 719468) 146097 ltac:(lia)) as Hb.
  pose proof (Z.div_mod (days + 719468) 146097 ltac:(lia)) as He.
  destruct (date_of_era _) as [[yoe m'] d'] eqn:Ho. injection Hd as <- <- <-.
  apply era_day in Ho as (Hy & Hm & Hdd & Hr); [|done].
  split; [done|]. split.
  - unfold daysIn in *. replace (yoe + (days + 719468) / 146097 * 400 + (if bool_decide (m' ≤ 2) then 1 else 0)) with
      ((yoe + (if bool_decide (m' ≤ 2) then 1 else 0)) + (days + 719468) / 146097 * 400) by lia.
    by rewrite leap_shift.
  - unfold days_of_date.
    replace (if bool_decide (m' ≤ 2) then _ - 1 else _) with (yoe + (days + 719468) / 146097 * 400) by (case_bool_decide; lia).
    rewrite Z.div_add, Z_mod_plus_full, Z.div_small, Z.mod_small, Hr by lia. lia.
Qed.
End calendar.

Lemma app_assoc_str (a b c : string) : (a +:+ b) +:+ c = a +:+ b +:+ c.
Proof. induction a as [|x a IH]; [done|]. by rewrite !app_String, IH. Qed.

(** A printed number reads back. *)
Definition two_ok (z : Z) : bool :=
  match appendInt z 2 with
  | String a (String b EmptyString) =>
      is_digit a && is_digit b && bool_decide (10 * digit_value a + digit_value b = z)
  | _ => false
  end.
Definition four_ok (z : Z) : bool :=
  bool_decide (appendInt z 4 = appendInt (z / 100) 2 +:+ appendInt (z mod 100) 2).
Lemma two_checked : all_below 100 0 two_ok = true.
Proof. vm_compute. reflexivity. Qed.
Lemma four_checked : all_below (Z.to_nat 10000) 0 four_ok = true.
Proof. vm_compute. reflexivity. Qed.

Lemma getnum_two fixed z rest : 0 ≤ z < 100 → getnum fixed (appendInt z 2 +:+ rest) = Some (z, rest).
Proof.
  intros Hz. assert (two_ok z = true) as Ho by (apply (all_below_spec _ _ _ _ two_checked); lia).
  unfold two_ok in Ho. destruct (appendInt z 2) as [|a [|b [|]]]; [done..| |done].
  rewrite !andb_true_iff, bool_decide_eq_true in Ho. destruct Ho as [[Ha Hb] Hv].
  rewrite !app_String, app_empty. unfold getnum. by rewrite Ha, Hb, Hv.
Qed.

Lemma getyear_four y rest : 0 ≤ y < 10000 → getyear (appendInt y 4 +:+ rest) = Some (y, rest).
Proof.
  intros Hy. assert (four_ok y = true) as Ho by (apply (all_below_spec _ _ _ _ four_checked); lia).
  unfold four_ok in Ho. rewrite bool_decide_eq_true in Ho. rewrite Ho. unfold getyear.
  assert (0 ≤ y / 100 < 100) by (split; [apply Z.div_pos|apply Z.div_lt_upper_bound]; lia).
  pose proof (Z.mod_pos_bound y 100 ltac:(lia)).
  rewrite app_assoc_str, getnum_two by done. cbn [mbind option_bind]. rewrite getnum_two by done. cbn [mbind option_bind].
  do 2 f_equal. pose proof (Z.div_mod y 100). lia.
Qed.

Lemma skip_byte c rest : skip c (String c EmptyString +:+ rest) = Some rest.
Proof. rewrite app_String, app_empty. unfold skip. by rewrite Ascii.eqb_refl. Qed.
Lemma ranged_ok lo hi z : lo ≤ z ≤ hi → ranged lo hi z = Some z.
Proof. intros H. unfold ranged. by rewrite bool_decide_true. Qed.

(** The instants [time.RFC3339] prints with a year of four digits. *)
Definition printed_year (t : Z) : Prop := 0 ≤ (date_of_days (t / Second / 86400)).1.1 < 10000.
#[global] Instance printed_year_dec t : Decision (printed_year t).
Proof. unfold printed_year. apply _. Defined.

(** Printed in UTC and parsed, an instant is read to its second. *)
Lemma Parse_Format t : printed_year t → ParseRFC3339 (FormatRFC3339 t) = Some (t / Second * Second).
Proof.
  unfold printed_year, FormatRFC3339. intros Hy.
  destruct (date_of_days _) as [[y m] d] eqn:Hd. cbn in Hy.
  apply date_of_days_spec in Hd as (Hm & Hdd & Hdays).
  set (secs := t / Second) in *. set (s := secs mod 86400).
  assert (0 ≤ s < 86400) as Hs by (apply Z.mod_pos_bound; lia).
  assert (0 ≤ s / 3600 < 24) by (split; [apply Z.div_pos|apply Z.div_lt_upper_bound]; lia).
  assert (0 ≤ s mod 3600 / 60 < 60) by (pose proof (Z.mod_pos_bound s 3600); split; [apply Z.div_pos|apply Z.div_lt_upper_bound]; lia).
  assert (0 ≤ s mod 60 < 60) by (apply Z.mod_pos_bound; lia).
  assert (daysIn m y ≤ 31) by (unfold daysIn; repeat case_match; lia).
  unfold ParseRFC3339.
  rewrite getyear_four by done. cbn [mbind option_bind]. rewrite skip_byte. cbn [mbind option_bind].
  rewrite getnum_two by lia. cbn [mbind option_bind]. rewrite ranged_ok by done. cbn [mbind option_bind].
  rewrite skip_byte. cbn [mbind option_bind].
  rewrite getnum_two by lia. cbn [mbind option_bind]. rewrite skip_byte. cbn [mbind option_bind].
  rewrite getnum_two by lia. cbn [mbind option_bind]. rewrite ranged_ok by lia. cbn [mbind option_bind].
  rewrite skip_byte. cbn [mbind option_bind].
  rewrite getnum_two by lia. cbn [mbind option_bind]. rewrite ranged_ok by lia. cbn [mbind option_bind].
  rewrite skip_byte. cbn [mbind option_bind].
  rewrite getnum_two by lia. cbn [mbind option_bind]. rewrite ranged_ok by lia. cbn [mbind option_bind].
  change (getfraction "Z") with (0, "Z"). cbn [getzone]. change (getzone "Z") with (Some 0). cbn [mbind option_bind].
  rewrite ranged_ok by lia. cbn [mbind option_bind]. f_equal. unfold Date. rewrite Hdays.
  assert (secs = secs / 86400 * 86400 + s) by (unfold s; pose proof (Z.div_mod secs 86400 ltac:(done)); lia).
  assert (s mod 60 = (s mod 3600) mod 60) by (Z.div_mod_to_equations; lia).
  pose proof (Z.div_mod s 3600 ltac:(lia)). pose proof (Z.div_mod (s mod 3600) 60 ltac:(lia)). lia.
Qed.
End GoTime.
