(* ===== verification/Json.v ===== *)
(** [encoding/json]: reading a text, executable. A text is a sequence of bytes; what is read keeps an
    object's members in their order, and a number as it was written. *)
From S2P Require Import Prelude GoStd.
Import GoStd.

Module Json.

Inductive json :=
| JNull
| JBool (b : bool)
| JNumber (literal : string)
| JString (s : string)
| JArray (l : list json)
| JObject (members : list (string * json)).

(** ** The scanner's tokens *)
Definition space (z : Z) : bool := bool_decide (z = 32 ∨ z = 9 ∨ z = 10 ∨ z = 13).
Fixpoint skip (l : list Z) : list Z :=
  match l with
  | z :: r => if space z then skip r else l
  | [] => []
  end.

Definition hex_value (z : Z) : option Z :=
  if bool_decide (48 ≤ z ≤ 57) then Some (z - 48)
  else if bool_decide (97 ≤ z ≤ 102) then Some (z - 87)
  else if bool_decide (65 ≤ z ≤ 70) then Some (z - 55)
  else None.

(** Four hexadecimal digits. *)
Definition getu4 (l : list Z) : option (Z * list Z) :=
  match l with
  | a :: b :: c :: d :: r =>
      a ← hex_value a; b ← hex_value b; c ← hex_value c; d ← hex_value d;
      Some (4096 * a + 256 * b + 16 * c + d, r)
  | _ => None
  end.

(** [utf8.AppendRune]. *)
Definition encode_rune (r : Z) : list Z :=
  if bool_decide (r < 128) then [r]
  else if bool_decide (r < 2048) then [192 + r / 64; 128 + r mod 64]
  else if bool_decide (r < 65536) then [224 + r / 4096; 128 + (r / 64) mod 64; 128 + r mod 64]
  else [240 + r / 262144; 128 + (r / 4096) mod 64; 128 + (r / 64) mod 64; 128 + r mod 64].
Definition replacement : list Z := encode_rune 65533.

(** An escape of one byte. *)
Definition escape (z : Z) : option Z :=
  if bool_decide (z = 34 ∨ z = 92 ∨ z = 47) then Some z
  else if bool_decide (z = 98) then Some 8 else if bool_decide (z = 102) then Some 12
  else if bool_decide (z = 110) then Some 10 else if bool_decide (z = 114) then Some 13
  else if bool_decide (z = 116) then Some 9 else None.

(** After [\u]: the bytes of the rune, a surrogate with its pair, or the replacement. *)
Definition unicode_escape (l : list Z) : option (list Z * list Z) :=
  '(r, rest) ← getu4 l;
  if bool_decide (55296 ≤ r ≤ 57343) then
    match rest with
    | 92 :: 117 :: rest' =>
        match getu4 rest' with
        | Some (r2, rest2) =>
            if bool_decide (r ≤ 56319) && bool_decide (56320 ≤ r2 ≤ 57343)
            then Some (encode_rune (65536 + 1024 * (r - 55296) + (r2 - 56320)), rest2)
            else Some (replacement, rest)
        | None => Some (replacement, rest)
        end
    | _ => Some (replacement, rest)
    end
  else Some (encode_rune r, rest).

(** A string's bytes, after its opening quote, and what follows its closing one. *)
Fixpoint string_tail (fuel : nat) (l : list Z) : option (list Z * list Z) :=
  match fuel, l with
  | S fuel', z :: r =>
      if bool_decide (z = 34) then Some ([], r)
      else if bool_decide (z = 92) then
        match r with
        | 117 :: r' =>
            '(bytes, rest) ← unicode_escape r';
            '(s, rest) ← string_tail fuel' rest; Some (bytes ++ s, rest)
        | c :: r' => e ← escape c; '(s, rest) ← string_tail fuel' r'; Some (e :: s, rest)
        | [] => None
        end
      else if bool_decide (z < 32) then None
      else if bool_decide (z < 128) then '(s, rest) ← string_tail fuel' r; Some (z :: s, rest)
      else match decode_rune (l ++ [0; 0; 0]) with
      | Some (_, width) =>
          '(s, rest) ← string_tail fuel' (drop width l); Some (take width l ++ s, rest)
      | None => '(s, rest) ← string_tail fuel' r; Some (replacement ++ s, rest)
      end
  | _, _ => None
  end.

Definition digit (z : Z) : bool := bool_decide (48 ≤ z ≤ 57).
Fixpoint digits (l : list Z) : list Z * list Z :=
  match l with
  | z :: r => if digit z then let '(d, rest) := digits r in (z :: d, rest) else ([], l)
  | [] => ([], [])
  end.
Definition some_digits (l : list Z) : option (list Z * list Z) :=
  match digits l with ([], _) => None | dr => Some dr end.

(** A number's literal, from its first byte. *)
Definition number (l : list Z) : option (list Z * list Z) :=
  let '(sign, l) := match l with 45 :: r => ([45], r) | _ => ([], l) end in
  '(int, l) ← match l with 48 :: r => Some ([48], r) | _ => some_digits l end;
  '(frac, l) ← match l with
               | 46 :: r => '(d, r) ← some_digits r; Some (46 :: d, r)
               | _ => Some ([], l)
               end;
  '(exp, l) ← match l with
              | e :: r =>
                  if bool_decide (e = 101 ∨ e = 69) then
                    let '(s, r) := match r with
                                   | z :: r' => if bool_decide (z = 43 ∨ z = 45) then ([z], r') else ([], r)
                                   | [] => ([], r)
                                   end in
                    '(d, r) ← some_digits r; Some (e :: s ++ d, r)
                  else Some ([], l)
              | [] => Some ([], l)
              end;
  Some (sign ++ int ++ frac ++ exp, l).

Fixpoint literal (w l : list Z) : option (list Z) :=
  match w, l with
  | [], _ => Some l
  | a :: w', b :: l' => if bool_decide (a = b) then literal w' l' else None
  | _, [] => None
  end.

(** ** Values *)

(** The scanner nests values no deeper. *)
Definition maxNestingDepth : Z := 10000.

(** A value from its first byte, what follows it, [depth] values around it. An array or an object is
    read to its closing byte by [elements] and [members], past its opening one or a comma. *)
Fixpoint value (fuel : nat) (depth : Z) (l : list Z) : option (json * list Z) :=
  match fuel with
  | O => None
  | S fuel' =>
      match l with
      | 110 :: _ => rest ← literal [110; 117; 108; 108] l; Some (JNull, rest)
      | 116 :: _ => rest ← literal [116; 114; 117; 101] l; Some (JBool true, rest)
      | 102 :: _ => rest ← literal [102; 97; 108; 115; 101] l; Some (JBool false, rest)
      | 34 :: r => '(s, rest) ← string_tail (length r) r; Some (JString (string_of s), rest)
      | 91 :: r =>
          if bool_decide (maxNestingDepth ≤ depth) then None
          else match skip r with
          | 93 :: rest => Some (JArray [], rest)
          | r => '(vs, rest) ← elements fuel' (depth + 1) r; Some (JArray vs, rest)
          end
      | 123 :: r =>
          if bool_decide (maxNestingDepth ≤ depth) then None
          else match skip r with
          | 125 :: rest => Some (JObject [], rest)
          | r => '(ms, rest) ← members fuel' (depth + 1) r; Some (JObject ms, rest)
          end
      | _ => '(n, rest) ← number l; Some (JNumber (string_of n), rest)
      end
  end
with elements (fuel : nat) (depth : Z) (l : list Z) : option (list json * list Z) :=
  match fuel with
  | O => None
  | S fuel' =>
      '(v, rest) ← value fuel' depth l;
      match skip rest with
      | 44 :: r => '(vs, rest) ← elements fuel' depth (skip r); Some (v :: vs, rest)
      | 93 :: rest => Some ([v], rest)
      | _ => None
      end
  end
with members (fuel : nat) (depth : Z) (l : list Z) : option (list (string * json) * list Z) :=
  match fuel with
  | O => None
  | S fuel' =>
      match l with
      | 34 :: r =>
          '(key, rest) ← string_tail (length r) r;
          match skip rest with
          | 58 :: r =>
              '(v, rest) ← value fuel' depth (skip r);
              let m := (string_of key, v) in
              match skip rest with
              | 44 :: r => '(ms, rest) ← members fuel' depth (skip r); Some (m :: ms, rest)
              | 125 :: rest => Some ([m], rest)
              | _ => None
              end
          | _ => None
          end
      | _ => None
      end
  end.

(** The one value of a text, with nothing but space around it. Each step of [value] reads a byte or
    goes one inwards past one, so twice the text's length is fuel enough. *)
Definition parse (text : string) : option json :=
  let l := bytes_of text in
  '(v, rest) ← value (2 * length l + 1) 0 (skip l);
  match skip rest with [] => Some v | _ => None end.

(** [foldName]: a member's name as a field's is matched when none is the same: letters in upper case,
    and the two runes that fold to an ASCII letter as that letter. *)
Fixpoint fold_bytes (l : list Z) : list Z :=
  match l with
  | 197 :: 191 :: r => 83 :: fold_bytes r
  | 226 :: 132 :: 170 :: r => 75 :: fold_bytes r
  | z :: r => (if bool_decide (97 ≤ z ≤ 122) then z - 32 else z) :: fold_bytes r
  | [] => []
  end.
Definition same_name (key name : string) : bool :=
  bool_decide (fold_bytes (bytes_of key) = fold_bytes (bytes_of name)).

Example parse_object :
  parse (" {" +:+ dquote +:+ "a\u00e9\ud83d\ude00" +:+ dquote +:+ ": [1, -2.5e+1, null], " +:+
         dquote +:+ dquote +:+ ":{}} ") =
  Some (JObject [("aé😀", JArray [JNumber "1"; JNumber "-2.5e+1"; JNull]); ("", JObject [])]).
Proof. vm_compute. reflexivity. Qed.
Example parse_refuses :
  (parse <$> ["01"; "[1,]"; "{} x"; "tru"; ""; "1."; "-"]) = replicate 7 None.
Proof. vm_compute. reflexivity. Qed.
End Json.
