(* ===== verification/JsonText.v ===== *)
(** [encoding/json], printed: the text of a value as [json.Marshal] writes it, HTML escaped, and that
    reading the text gives the value back; and a value decoded into a variable of a type, member by member. *)
From S2P Require Import Prelude GoStd Json.
From Stdlib Require Import Ascii DecimalString DecimalN.
Import GoStd Json.

Module JsonText.

(** ** Printing *)
Definition encode_string (s : string) : list Z := bytes_of (json_string s).

(** The bytes of a value; of an array's elements, and of an object's members, up to the byte that closes it. *)
Fixpoint encode (j : json) : list Z :=
  match j with
  | JNull => bytes_of "null"
  | JBool b => bytes_of (if b then "true" else "false")
  | JNumber n => bytes_of n
  | JString s => encode_string s
  | JArray l => 91 ::
      (fix elements l := match l with
         | [] => [93]
         | j :: l => encode j ++ match l with [] => [93] | _ => 44 :: elements l end
         end) l
  | JObject ms => 123 ::
      (fix members ms := match ms with
         | [] => [125]
         | (key, j) :: ms => encode_string key ++ 58 :: encode j ++
             match ms with [] => [125] | _ => 44 :: members ms end
         end) ms
  end.
Fixpoint encode_elements (l : list json) : list Z :=
  match l with
  | [] => [93]
  | j :: l => encode j ++ match l with [] => [93] | _ => 44 :: encode_elements l end
  end.
Fixpoint encode_members (ms : list (string * json)) : list Z :=
  match ms with
  | [] => [125]
  | (key, j) :: ms => encode_string key ++ 58 :: encode j ++
      match ms with [] => [125] | _ => 44 :: encode_members ms end
  end.

Definition Marshal (j : json) : string := string_of (encode j).
(** [json.NewEncoder(w).Encode]. *)
Definition Encoded (j : json) : string := Marshal j +:+ String (of_byte 10) EmptyString.

(** ** Reading one value, and what is left: [json.Decoder] *)
Definition Decode (text : string) : option (json * list Z) :=
  let l := bytes_of text in value (2 * length l + 1) 0 (skip l).
(** [Decoder.More], after the value: it is false before a closing brace or bracket. *)
Definition More (rest : list Z) : bool :=
  match skip rest with
  | [] => false
  | z :: _ => negb (bool_decide (z = 93 ∨ z = 125))
  end.

(** ** Decoding into a variable

    What a value leaves a variable holding, [None] where the decoder keeps an error, which its caller
    returns whatever else it read. *)
Definition into (T : Type) := json → T → option T.

Definition into_string : into string := λ j s,
  match j with JNull => Some s | JString s' => Some s' | _ => None end.
Definition into_bool : into bool := λ j b,
  match j with JNull => Some b | JBool b' => Some b' | _ => None end.
(** An integer of a type that holds [lo] to [hi]. *)
Definition into_int (lo hi : Z) : into Z := λ j z,
  match j with
  | JNull => Some z
  | JNumber n => z ← ParseInt n; if bool_decide (lo ≤ z ≤ hi) then Some z else None
  | _ => None
  end.
Definition into_int32 : into Z := into_int (-2147483648) 2147483647.
Definition into_int64 : into Z := into_int minInt64 maxInt64.
(** A pointer, [zero] what a new one points to. *)
Definition into_pointer {T} (zero : T) (i : into T) : into (option T) := λ j p,
  match j with JNull => Some None | _ => Some <$> i j (default zero p) end.

(** A member of a struct: its name and how its value changes the struct. *)
Record field (T : Type) := Field { field_name : string; field_into : into T }.
Arguments Field {T}.
Arguments field_name {T}.
Arguments field_into {T}.
Definition at_field {T F} name (i : into F) (get : T → F) (set : T → F → T) : field T :=
  Field name (λ j t, set t <$> i j (get t)).

(** A member's value set on the field its name is, or folds to; [strict] is [DisallowUnknownFields]. *)
Definition member {T} (strict : bool) (fields : list (field T)) (t : option T) (m : string * json) : option T :=
  t ← t;
  match List.find (λ f, same_name m.1 (field_name f)) fields with
  | Some f => field_into f m.2 t
  | None => if strict then None else Some t
  end.
Definition into_struct {T} (strict : bool) (fields : list (field T)) : into T := λ j t,
  match j with
  | JNull => Some t
  | JObject ms => foldl (member strict fields) (Some t) ms
  | _ => None
  end.

(** A [map[string]string], a nil one as no map. *)
Definition into_map : into (gmap string string) := λ j m,
  match j with
  | JNull => Some ∅
  | JObject ms => foldl (λ m kv, m ← m; s ← into_string kv.2 ""; Some (<[kv.1 := s]> m)) (Some m) ms
  | _ => None
  end.

(** A slice, an element decoded onto the one it holds at that place, or else onto [zero]. *)
Fixpoint into_elements {T} (zero : T) (i : into T) (js : list json) (l : list T) : option (list T) :=
  match js with
  | [] => Some []
  | j :: js => t ← i j (default zero (head l)); ts ← into_elements zero i js (tail l); Some (t :: ts)
  end.
Definition into_slice {T} (zero : T) (i : into T) : into (list T) := λ j l,
  match j with JNull => Some [] | JArray js => into_elements zero i js l | _ => None end.

(** Exactly one value of a type, as a handler reads a body: [decoder.Decode(&in); decoder.More()]. *)
Definition decode_one {T} (i : into T) (zero : T) (text : string) : option T :=
  '(j, rest) ← Decode text;
  t ← i j zero;
  if More rest then None else Some t.
(** The first value of a text, as a client reads an answer. *)
Definition decode_first {T} (i : into T) (zero : T) (text : string) : option T :=
  '(j, _) ← Decode text; i j zero.

(** [json.Unmarshal]. *)
Definition Unmarshal {T} (i : into T) (zero : T) (text : string) : option T := j ← parse text; i j zero.

(** ** Texts the encoder keeps: well-formed UTF-8 *)
Fixpoint utf8_bytes (fuel : nat) (l : list Z) : bool :=
  match fuel, l with
  | _, [] => true
  | S fuel, z :: r =>
      if bool_decide (z < 128) then utf8_bytes fuel r
      else match decode_rune (l ++ [0; 0; 0]) with
      | Some (_, width) => utf8_bytes fuel (drop width l)
      | None => false
      end
  | O, _ => false
  end.
Definition utf8 (s : string) : bool := utf8_bytes (String.length s) (bytes_of s).

(** Values that print as what reads back: strings of UTF-8, integers, nested no deeper than the scanner
    takes. *)
Fixpoint printable (depth : nat) (j : json) {struct j} : Prop :=
  match j with
  | JNull | JBool _ => True
  | JNumber n => ∃ z, n = FormatInt z
  | JString s => utf8 s = true
  | JArray l =>
      match depth with
      | O => False
      | S depth => (fix all l := match l with [] => True | j :: l => printable depth j ∧ all l end) l
      end
  | JObject ms =>
      match depth with
      | O => False
      | S depth => (fix all ms := match ms with
          | [] => True | (key, j) :: ms => utf8 key = true ∧ printable depth j ∧ all ms end) ms
      end
  end.
End JsonText.
