(* ===== verification/JsonRound.v ===== *)
(** What [encoding/json] prints, it reads back: the round trip of strings, numbers and values, for every
    text of well-formed UTF-8 and every int64. *)
From S2P Require Import Prelude GoStd Json JsonText.
From Stdlib Require Import Ascii DecimalString DecimalN.
Import GoStd Json JsonText.

Module JsonRound.

(** ** Bytes and strings *)
Lemma bytes_of_app s t : bytes_of (s +:+ t) = bytes_of s ++ bytes_of t.
Proof. induction s as [|c s IH]; [done|]. exact (f_equal (cons (byte_of c)) IH). Qed.

Lemma of_byte_of c : of_byte (byte_of c) = c.
Proof. unfold of_byte, byte_of. by rewrite N2Z.id, ascii_N_embedding. Qed.

Lemma byte_of_range c : 0 ≤ byte_of c < 256.
Proof. by destruct c as [[] [] [] [] [] [] [] []]; vm_compute. Qed.

Lemma byte_of_byte z : 0 ≤ z < 256 → byte_of (of_byte z) = z.
Proof. intros Hz. unfold of_byte, byte_of. rewrite N_ascii_embedding by lia. lia. Qed.

Lemma string_of_bytes_of s : string_of (bytes_of s) = s.
Proof. induction s as [|c s IH]; [done|]. cbn. rewrite of_byte_of. f_equal. apply IH. Qed.

Definition is_bytes (l : list Z) : Prop := Forall (λ z, 0 ≤ z < 256) l.
Lemma bytes_of_string_of l : is_bytes l → bytes_of (string_of l) = l.
Proof.
  induction 1 as [|z l Hz Hl IH]; [done|]. cbn. rewrite byte_of_byte by done. f_equal. apply IH.
Qed.
Lemma bytes_of_is_bytes s : is_bytes (bytes_of s).
Proof. induction s as [|c s IH]; constructor; [apply byte_of_range|apply IH]. Qed.

Lemma length_bytes_of s : length (bytes_of s) = String.length s.
Proof. induction s as [|c s IH]; [done|]. exact (f_equal S IH). Qed.

(** ** Runes *)

(** A rune is decoded of its own bytes, whatever follows them. *)
Lemma decode_rune_spec z l r w :
  decode_rune ((z :: l) ++ [0; 0; 0]) = Some (r, w) →
  ∃ t rest, l = t ++ rest ∧ w = S (length t) ∧ 128 ≤ z ∧ (length t ≤ 3)%nat ∧
    (r = 8232 → z :: t = [226; 128; 168]) ∧ (r = 8233 → z :: t = [226; 128; 169]) ∧
    ∀ l', (3 ≤ length l')%nat → decode_rune (z :: t ++ l') = Some (r, w).
Proof.
  assert (cont 0 = false) as Hc0 by done. intros Hd.
  assert (∃ b c d e, (z :: l) ++ [0; 0; 0] = z :: b :: c :: d :: e) as (b & c & d & e & Hl).
  { destruct l as [|b [|c [|d e]]]; cbn; by eauto 10. }
  rewrite Hl in Hd. cbn in Hl. injection Hl as Hl. unfold decode_rune in Hd.
  repeat match type of Hd with context [if ?x then _ else _] => destruct x eqn:?; [|] end; simplify_eq/=.
  all: repeat match goal with
    | H : _ && _ = true |- _ => apply andb_true_iff in H as [? ?]
    | H : bool_decide _ = true |- _ => apply bool_decide_eq_true in H
    end.
  all: unfold cont in *; repeat match goal with H : bool_decide _ = true |- _ => apply bool_decide_eq_true in H end.
  1: destruct l as [|b' l']; [exfalso; simplify_eq/=; lia|]; exists [b'], l'.
  2: destruct l as [|b' [|c' l']]; [exfalso; simplify_eq/=; lia..|]; exists [b'; c'], l'.
  3: destruct l as [|b' [|c' [|d' l']]]; [exfalso; simplify_eq/=; lia..|]; exists [b'; c'; d'], l'.
  all: simplify_eq/=; split_and!; try done; try lia.
  all: try (intros; exfalso; lia).
  all: try (intros; repeat f_equal; lia).
  all: intros [|x1 [|x2 [|x3 l'']]] Hlen; cbn in Hlen; try lia; unfold decode_rune, cont.
  all: repeat first [rewrite bool_decide_true by (lia || tauto)|rewrite bool_decide_false by lia]; done.
Qed.

(** ** Strings *)

(** The escape of a byte under 128 is read back as that byte. *)
Lemma string_tail_ascii z n l :
  0 ≤ z < 128 →
  string_tail (S n) (bytes_of (json_ascii z) ++ l) = '(s, rest) ← string_tail n l; Some (z :: s, rest).
Proof.
  intros Hz. assert (z ∈ seqZ 0 128) as Hin by (apply elem_of_seqZ; lia). clear Hz.
  vm_compute in Hin. repeat (apply elem_of_cons in Hin as [->|Hin]; [reflexivity|]).
  by apply elem_of_nil in Hin.
Qed.

Lemma length_json_ascii z : 0 ≤ z < 128 → (1 ≤ length (bytes_of (json_ascii z)))%nat.
Proof.
  intros Hz. assert (z ∈ seqZ 0 128) as Hin by (apply elem_of_seqZ; lia). clear Hz.
  vm_compute in Hin. repeat (apply elem_of_cons in Hin as [->|Hin]; [vm_compute; lia|]).
  by apply elem_of_nil in Hin.
Qed.

Lemma length_bytes_app s t : length (bytes_of (s +:+ t)) = (length (bytes_of s) + length (bytes_of t))%nat.
Proof. by rewrite bytes_of_app, length_app. Qed.

Lemma string_tail_2028 n l :
  string_tail (S n) (bytes_of "\u2028" ++ l) = '(s, rest) ← string_tail n l; Some ([226; 128; 168] ++ s, rest).
Proof. reflexivity. Qed.
Lemma string_tail_2029 n l :
  string_tail (S n) (bytes_of "\u2029" ++ l) = '(s, rest) ← string_tail n l; Some ([226; 128; 169] ++ s, rest).
Proof. reflexivity. Qed.

Lemma string_tail_rune z t rest r w n l :
  128 ≤ z → w = S (length t) → decode_rune ((z :: t ++ l) ++ [0; 0; 0]) = Some (r, w) →
  string_tail n l = Some rest → string_tail (S n) ((z :: t) ++ l) = Some (z :: t ++ rest.1, rest.2).
Proof.
  intros Hz -> Hd Hr. cbn [app] in Hd |- *. cbn [string_tail app].
  do 2 (rewrite bool_decide_false by lia). do 2 (rewrite bool_decide_false by lia).
  rewrite Hd. cbn [drop take]. rewrite drop_app_length, take_app_length, Hr. by destruct rest.
Qed.

(** Well-formed UTF-8 is read back as it was printed, up to the closing quote, and prints no shorter. *)
Lemma string_tail_printed m l n rest :
  utf8_bytes m l = true → is_bytes l → (length l ≤ m)%nat → (length l < n)%nat →
  string_tail n (bytes_of (json_bytes m l) ++ 34 :: rest) = Some (l, rest) ∧
  (length l ≤ length (bytes_of (json_bytes m l)))%nat.
Proof.
  revert l n. induction m as [|m IH]; intros [|z l] n Hu Hb Hm Hn; cbn in Hm, Hn; try lia;
    (destruct n as [|n]; [lia|]); try (cbn; split; [done|lia]).
  cbn [utf8_bytes json_bytes] in *. apply Forall_cons in Hb as [Hz Hb].
  destruct (bool_decide_reflect (z < 128)) as [Hlt|Hge].
  - destruct (IH l n Hu Hb) as [IHt IHl]; [lia..|]. rewrite bytes_of_app, <- app_assoc.
    rewrite string_tail_ascii by lia. rewrite IHt. split; [done|].
    rewrite length_app. pose proof (length_json_ascii z ltac:(lia)). cbn. lia.
  - destruct (decode_rune _) as [[r w]|] eqn:Hd; [|done].
    destruct (decode_rune_spec z l r w Hd) as (t & l' & -> & -> & ? & Ht & H28 & H29 & Hmore).
    cbn [drop take] in *. rewrite drop_app_length in Hu |- *. rewrite take_app_length.
    apply Forall_app in Hb as [Hbt Hb]. rewrite length_app in *.
    destruct (IH l' n Hu Hb) as [IHt IHl]; [lia..|]. rewrite length_bytes_app, bytes_of_app, <- app_assoc.
    case_bool_decide as H8; [|case_bool_decide as H9].
    + specialize (H28 H8). simplify_eq. rewrite (string_tail_2028 n). rewrite IHt. split; [done|cbn; lia].
    + specialize (H29 H9). simplify_eq. rewrite (string_tail_2029 n). rewrite IHt. split; [done|cbn; lia].
    + change (String.string_of_list_ascii (of_byte <$> z :: t)) with (string_of (z :: t)).
      rewrite bytes_of_string_of by (by constructor). split; [|cbn; rewrite length_app; lia].
      erewrite (string_tail_rune z t (l', rest)); [done|done|done| |done].
      cbn [app]. rewrite <- app_assoc. apply Hmore. rewrite !length_app. cbn [length]. lia.
Qed.

Lemma encode_string_eq s : encode_string s = 34 :: bytes_of (json_bytes (String.length s) (bytes_of s)) ++ [34].
Proof. unfold encode_string, json_string. by rewrite !bytes_of_app. Qed.

Lemma value_string s fuel depth rest :
  utf8 s = true → value (S fuel) depth (encode_string s ++ rest) = Some (JString s, rest).
Proof.
  intros Hu. rewrite encode_string_eq. cbn [value app]. rewrite <- app_assoc. cbn [app].
  edestruct (string_tail_printed (String.length s) (bytes_of s)) as [-> _];
    [done|apply bytes_of_is_bytes|by rewrite length_bytes_of| |cbn; by rewrite string_of_bytes_of].
  rewrite length_app. cbn.
  edestruct (string_tail_printed (String.length s) (bytes_of s) (S (length (bytes_of s))) []) as [_ Hl];
    [done|apply bytes_of_is_bytes|by rewrite length_bytes_of|lia|]. lia.
Qed.

(** ** Numbers *)
Ltac eval_bytes :=
  repeat match goal with
  | |- context [byte_of (Ascii ?a ?b ?c ?d ?e ?f ?g ?h)] =>
      let v := eval vm_compute in (byte_of (Ascii a b c d e f g h)) in
      change (byte_of (Ascii a b c d e f g h)) with v
  end.

(** What follows a value: nothing, or a byte that ends it. *)
Definition delimited (r : list Z) : Prop :=
  match r with [] => True | z :: _ => z = 44 ∨ z = 93 ∨ z = 125 ∨ z = 10 end.

Lemma digits_string d r :
  delimited r → digits (bytes_of (NilEmpty.string_of_uint d) ++ r) = (bytes_of (NilEmpty.string_of_uint d), r).
Proof.
  intros Hr. induction d as [|d IH|d IH|d IH|d IH|d IH|d IH|d IH|d IH|d IH|d IH];
    [destruct r as [|z r]; [done|]; by destruct Hr as [->|[->|[->| ->]]]|..];
    cbn; unfold bytes_of in IH; by rewrite IH.
Qed.

(** A number with no leading zero, signed or not. *)
Lemma number_digits (neg : bool) d r (sign := if neg then [45] else []) :
  d ≠ Decimal.Nil → Decimal.nzhead d = d → delimited r →
  number (sign ++ bytes_of (NilEmpty.string_of_uint d) ++ r) = Some (sign ++ bytes_of (NilEmpty.string_of_uint d), r).
Proof.
  intros Hn Hz Hr. subst sign. destruct d as [|d|d|d|d|d|d|d|d|d|d]; [done|..].
  { by destruct (nzhead_first (Decimal.D0 d) "0"%char (NilEmpty.string_of_uint d) Hz eq_refl). }
  all: pose proof (digits_string d r Hr) as Hd; unfold bytes_of in Hd;
    unfold number, some_digits; destruct neg; cbn; eval_bytes; cbn; rewrite Hd;
    match goal with |- context [digit ?v] => change (digit v) with true end;
    unfold mbind, option_bind; cbn; destruct r as [|z r]; cbn; rewrite ?app_nil_r; try done;
    destruct Hr as [->|[->|[->| ->]]]; cbn; rewrite ?bool_decide_false by lia; cbn; by rewrite ?app_nil_r.
Qed.

(** How an integer prints: zero, or a sign and digits that read back as it. *)
Lemma FormatInt_cases z :
  z = 0 ∨ ∃ (neg : bool) d, d ≠ Decimal.Nil ∧ Decimal.nzhead d = d ∧
    FormatInt z = (if neg then "-" else "") +:+ NilEmpty.string_of_uint d ∧
    z = (if neg then -1 else 1) * Z.of_N (N.of_uint d).
Proof.
  destruct (decide (z = 0)) as [->|Hz]; [by left|right]. destruct (decide (0 < z)) as [Hp|Hneg].
  - destruct (FormatInt_pos z Hp) as (d & He & Hv & ? & ?). exists false, d. rewrite Hv. split_and!; [done..|lia].
  - destruct (FormatInt_pos (- z)) as (d & He & Hv & ? & ?); [lia|]. exists true, d. rewrite Hv.
    split_and!; [done..| |lia]. rewrite <- He. unfold FormatInt.
    rewrite bool_decide_true by lia. by rewrite bool_decide_false by lia.
Qed.

Lemma number_FormatInt z r :
  delimited r → number (bytes_of (FormatInt z) ++ r) = Some (bytes_of (FormatInt z), r).
Proof.
  intros Hr. destruct (FormatInt_cases z) as [->|(neg & d & Hn & Hd & -> & _)].
  { destruct r as [|z r]; [done|]. by destruct Hr as [->|[->|[->| ->]]]. }
  rewrite bytes_of_app, <- app_assoc. destruct neg.
  - by apply (number_digits true).
  - by apply (number_digits false).
Qed.

Lemma ParseInt_signed (neg : bool) c s n (z := (if neg then -1 else 1) * n) :
  is_digit c = true → digits_value (String c s) 0 = Some n → minInt64 ≤ z ≤ maxInt64 →
  ParseInt ((if neg then "-" else "") +:+ String c s) = Some z.
Proof.
  intros Hc Hv Hz. subst z. destruct neg.
  - change (ParseInt _) with (z ← Z.opp <$> digits_value (String c s) 0;
      if bool_decide (minInt64 ≤ z ≤ maxInt64) then Some z else None).
    rewrite Hv. cbn. rewrite bool_decide_true by lia. f_equal; lia.
  - assert (ParseInt ("" +:+ String c s) = (z ← digits_value (String c s) 0;
      if bool_decide (minInt64 ≤ z ≤ maxInt64) then Some z else None)) as ->.
    { by destruct c as [[] [] [] [] [] [] [] []]; vm_compute in Hc. }
    rewrite Hv. cbn. rewrite bool_decide_true by lia. f_equal; lia.
Qed.

Lemma ParseInt_FormatInt z : minInt64 ≤ z ≤ maxInt64 → ParseInt (FormatInt z) = Some z.
Proof.
  intros Hz. destruct (FormatInt_cases z) as [->|(neg & d & Hn & Hd & -> & ->)]; [done|].
  pose proof (digits_value_uint d) as Hv. pose proof (string_of_uint_digits d) as Hc.
  destruct (NilEmpty.string_of_uint d) as [|c s] eqn:Hs; [by destruct d|].
  apply andb_true_iff in Hc as [Hc _]. by apply ParseInt_signed.
Qed.

(** An integer begins with a digit or a minus sign. *)
Lemma FormatInt_first z : ∃ b t, bytes_of (FormatInt z) = b :: t ∧ (b = 45 ∨ 48 ≤ b ≤ 57).
Proof.
  destruct (FormatInt_cases z) as [->|([] & d & Hn & _ & -> & _)]; [by eexists _, _; split; [|right]| |].
  { eexists _, _. split; [done|by left]. }
  pose proof (string_of_uint_digits d) as Hc. destruct (NilEmpty.string_of_uint d) as [|c s] eqn:Hs; [by destruct d|].
  apply andb_true_iff in Hc as [Hc _]. apply bool_decide_eq_true in Hc. eexists _, _. split; [done|by right].
Qed.

Lemma value_number z fuel depth rest :
  delimited rest →
  value (S fuel) depth (bytes_of (FormatInt z) ++ rest) = Some (JNumber (FormatInt z), rest).
Proof.
  intros Hr. assert (value (S fuel) depth (bytes_of (FormatInt z) ++ rest) =
    '(n, rest) ← number (bytes_of (FormatInt z) ++ rest); Some (JNumber (string_of n), rest)) as ->.
  { destruct (FormatInt_first z) as (b & t & -> & Hb). assert (b = 45 ∨ b ∈ seqZ 48 10) as Hin.
    { destruct Hb; [by left|right; apply elem_of_seqZ; lia]. }
    destruct Hin as [->|Hin]; [done|]. vm_compute in Hin.
    repeat (apply elem_of_cons in Hin as [->|Hin]; [done|]). by apply elem_of_nil in Hin. }
  rewrite number_FormatInt by done. cbn. by rewrite string_of_bytes_of.
Qed.

(** ** Values *)
Lemma encode_JArray l : encode (JArray l) = 91 :: encode_elements l.
Proof. done. Qed.
Lemma encode_JObject ms : encode (JObject ms) = 123 :: encode_members ms.
Proof. done. Qed.

(** Induction over a value, its elements and its members. *)
Lemma json_ind' (P : json → Prop) :
  P JNull → (∀ b, P (JBool b)) → (∀ n, P (JNumber n)) → (∀ s, P (JString s)) →
  (∀ l, Forall P l → P (JArray l)) → (∀ ms, Forall (λ m, P m.2) ms → P (JObject ms)) → ∀ j, P j.
Proof.
  intros Hn Hb Hu Hs Ha Ho. fix IH 1. intros [|b|n|s|l|ms]; [done|apply Hb|apply Hu|apply Hs|apply Ha|apply Ho].
  - induction l; by constructor.
  - induction ms; by constructor.
Qed.

(** Elements and members printable at a depth. *)
Lemma printable_JArray depth l : printable depth (JArray l) ↔ ∃ d, depth = S d ∧ Forall (printable d) l.
Proof.
  destruct depth as [|d]; [split; [done|intros (? & ? & ?); done]|].
  assert (printable (S d) (JArray l) ↔ Forall (printable d) l) as ->.
  { cbn. induction l as [|j l IH]; [done|]. by rewrite Forall_cons, <- IH. }
  split; [by exists d|]. by intros (? & [= <-] & ?).
Qed.
Lemma printable_JObject depth ms :
  printable depth (JObject ms) ↔ ∃ d, depth = S d ∧ Forall (λ m, utf8 m.1 = true ∧ printable d m.2) ms.
Proof.
  destruct depth as [|d]; [split; [done|intros (? & ? & ?); done]|].
  assert (printable (S d) (JObject ms) ↔ Forall (λ m, utf8 m.1 = true ∧ printable d m.2) ms) as ->.
  { cbn. induction ms as [|[key j] ms IH]; [done|]. rewrite Forall_cons, <- IH. cbn. tauto. }
  split; [by exists d|]. by intros (? & [= <-] & ?).
Qed.

Lemma space_digit b : b = 45 ∨ 48 ≤ b ≤ 57 → space b = false.
Proof. intros Hb. unfold space. apply bool_decide_eq_false. lia. Qed.

(** A printed value begins with a byte that is no space and ends nothing. *)
Lemma encode_first j d :
  printable d j → ∃ b t, encode j = b :: t ∧ space b = false ∧ b ≠ 93 ∧ b ≠ 125.
Proof.
  destruct j as [|[]|n|s|l|ms]; intros Hp; [by eexists _, _..| | | |].
  - destruct Hp as [z ->]. cbn. destruct (FormatInt_first z) as (b & t & -> & Hb).
    eexists _, _. split_and!; [done|by apply space_digit|lia..].
  - cbn. rewrite encode_string_eq. by eexists _, _.
  - rewrite encode_JArray. by eexists _, _.
  - rewrite encode_JObject. by eexists _, _.
Qed.
Lemma skip_first b t : space b = false → skip (b :: t) = b :: t.
Proof. cbn. by intros ->. Qed.
Lemma skip_encode j d rest : printable d j → skip (encode j ++ rest) = encode j ++ rest.
Proof. intros Hp. destruct (encode_first j d Hp) as (b & t & -> & Hs & _). by apply skip_first. Qed.

(** A value is read back of its own text, with the text's length for fuel. *)
Definition reads (j : json) : Prop := ∀ fuel depth d rest,
  printable d j → Z.of_nat d ≤ maxNestingDepth - depth → (length (encode j) ≤ fuel)%nat → delimited rest →
  value fuel depth (encode j ++ rest) = Some (j, rest).

(** The texts of a list of two or more. *)
Lemma encode_elements_cons j j' l : encode_elements (j :: j' :: l) = encode j ++ 44 :: encode_elements (j' :: l).
Proof. done. Qed.
Lemma encode_members_cons key j m ms :
  encode_members ((key, j) :: m :: ms) = encode_string key ++ 58 :: encode j ++ 44 :: encode_members (m :: ms).
Proof. done. Qed.

Lemma skip_elements j l d rest :
  printable d j → skip (encode_elements (j :: l) ++ rest) = encode_elements (j :: l) ++ rest.
Proof. intros Hp. cbn [encode_elements]. rewrite <- app_assoc. by eapply skip_encode. Qed.
Lemma skip_members m ms rest : skip (encode_members (m :: ms) ++ rest) = encode_members (m :: ms) ++ rest.
Proof. destruct m as [key j]. cbn [encode_members]. by rewrite encode_string_eq. Qed.

Lemma reads_elements l j fuel depth d rest :
  Forall reads (j :: l) → Forall (printable d) (j :: l) → Z.of_nat d ≤ maxNestingDepth - depth →
  (length (encode_elements (j :: l)) ≤ fuel)%nat →
  elements fuel depth (encode_elements (j :: l) ++ rest) = Some (j :: l, rest).
Proof.
  revert j fuel. induction l as [|j' l IH]; intros j fuel [Hj Hl]%Forall_cons [Pj Pl]%Forall_cons Hd Hf.
  - cbn [encode_elements] in Hf |- *. rewrite length_app in Hf. cbn [length] in Hf.
    destruct fuel as [|fuel]; [lia|]. cbn [elements]. rewrite <- app_assoc.
    by rewrite (Hj fuel depth d) by (done || lia || (cbn; tauto)).
  - rewrite encode_elements_cons in Hf |- *. rewrite length_app in Hf. cbn [length] in Hf.
    destruct fuel as [|fuel]; [lia|]. cbn [elements]. rewrite <- app_assoc, <- app_comm_cons.
    rewrite (Hj fuel depth d) by (done || lia || (cbn; tauto)). cbn [mbind option_bind].
    change (skip (44 :: ?l)) with (44 :: l). cbv iota.
    rewrite (skip_elements j' l d) by (by apply Forall_cons in Pl as [? _]). by rewrite IH by (done || lia).
Qed.

Lemma members_read fuel depth key j c rest :
  utf8 key = true → skip (encode j ++ c :: rest) = encode j ++ c :: rest →
  value fuel depth (encode j ++ c :: rest) = Some (j, c :: rest) →
  members (S fuel) depth (encode_string key ++ 58 :: encode j ++ c :: rest) =
  match skip (c :: rest) with
  | 44 :: r => '(ms, rest) ← members fuel depth (skip r); Some ((key, j) :: ms, rest)
  | 125 :: rest => Some ([(key, j)], rest)
  | _ => None
  end.
Proof.
  intros Hk Hs Hv. pose proof (value_string key 0 0 (58 :: encode j ++ c :: rest) Hk) as Hst.
  rewrite encode_string_eq in Hst |- *. rewrite <- app_comm_cons in Hst |- *. cbn [value] in Hst. cbn [members].
  destruct (string_tail _ _) as [[s rest']|]; [|done]. cbn -[skip] in Hst |- *. injection Hst as -> ->.
  change (skip (58 :: ?l)) with (58 :: l). cbv iota. by rewrite Hs, Hv.
Qed.

Lemma reads_members ms key j fuel depth d rest :
  Forall (λ m, reads m.2) ((key, j) :: ms) → Forall (λ m, utf8 m.1 = true ∧ printable d m.2) ((key, j) :: ms) →
  Z.of_nat d ≤ maxNestingDepth - depth → (length (encode_members ((key, j) :: ms)) ≤ fuel)%nat →
  members fuel depth (encode_members ((key, j) :: ms) ++ rest) = Some ((key, j) :: ms, rest).
Proof.
  revert key j fuel. induction ms as [|[key' j'] ms IH]; intros key j fuel;
    intros [Hj Hl]%Forall_cons [[Pk Pj] Pl]%Forall_cons Hd Hf; cbn [fst snd] in *.
  - cbn [encode_members] in Hf |- *. do 2 (rewrite length_app in Hf; cbn [length] in Hf).
    destruct fuel as [|fuel]; [lia|]. rewrite <- app_assoc, <- app_comm_cons, <- app_assoc. cbn [app].
    rewrite members_read; [done|done|by eapply skip_encode|]. apply (Hj fuel depth d); (done || lia || (cbn; tauto)).
  - rewrite encode_members_cons in Hf |- *. do 2 (rewrite length_app in Hf; cbn [length] in Hf).
    destruct fuel as [|fuel]; [lia|]. rewrite <- app_assoc, <- app_comm_cons, <- app_assoc, <- app_comm_cons.
    rewrite members_read; [|done|by eapply skip_encode|apply (Hj fuel depth d); (done || lia || (cbn; tauto))].
    change (skip (44 :: ?l)) with (44 :: l). cbv iota. rewrite skip_members. by rewrite IH by (done || lia).
Qed.

Lemma reads_all j : reads j.
Proof.
  induction j as [|b|n|s|l IH|ms IH] using json_ind'; intros fuel depth d rest Hp Hd Hf Hr.
  - destruct fuel; [cbn in Hf; lia|done].
  - destruct b, fuel; try (cbn in Hf; lia); done.
  - destruct Hp as [z ->]. destruct fuel as [|fuel].
    { cbn in Hf. destruct (FormatInt_first z) as (? & ? & Hz & _). rewrite Hz in Hf. cbn in Hf. lia. }
    by apply value_number.
  - destruct fuel as [|fuel]; [cbn in Hf; rewrite encode_string_eq in Hf; cbn in Hf; lia|].
    by apply value_string.
  - apply printable_JArray in Hp as (d' & -> & Hp). rewrite encode_JArray in Hf |- *. cbn [length] in Hf.
    destruct fuel as [|fuel]; [lia|]. cbn [app value]. rewrite bool_decide_false by lia.
    destruct l as [|j l]; [done|].
    assert (∃ b t, encode_elements (j :: l) ++ rest = b :: t ∧ space b = false ∧ b ≠ 93) as (b & t & He & Hs & Hb).
    { apply Forall_cons in Hp as [Hp _]. destruct (encode_first j d' Hp) as (b & t & He & ? & ? & _).
      cbn [encode_elements]. rewrite He. by eexists b, _. }
    pose proof (reads_elements l j fuel (depth + 1) d' rest IH Hp ltac:(lia) ltac:(lia)) as Hread.
    rewrite He in Hread |- *. rewrite skip_first by done.
    transitivity ('(vs, rest) ← elements fuel (depth + 1) (b :: t); Some (JArray vs, rest)); [|by rewrite Hread].
    destruct b as [|b|b]; [done| |done]. do 7 (destruct b as [b|b|]; [..|done]; try done).
  - apply printable_JObject in Hp as (d' & -> & Hp). rewrite encode_JObject in Hf |- *. cbn [length] in Hf.
    destruct fuel as [|fuel]; [lia|]. cbn [app value]. rewrite bool_decide_false by lia.
    destruct ms as [|[key j] ms]; [done|].
    pose proof (reads_members ms key j fuel (depth + 1) d' rest IH Hp ltac:(lia) ltac:(lia)) as Hread.
    assert (∃ t, encode_members ((key, j) :: ms) ++ rest = 34 :: t) as [t He].
    { cbn [encode_members]. rewrite encode_string_eq. by eexists. }
    rewrite He in Hread |- *. change (skip (34 :: t)) with (34 :: t). cbv iota. by rewrite Hread.
Qed.

(** The whole text of a value, as [Marshal] and [Encode] print it. *)
Lemma is_bytes_app l l' : is_bytes l → is_bytes l' → is_bytes (l ++ l').
Proof. intros. by apply Forall_app. Qed.

Lemma encode_is_bytes j : is_bytes (encode j).
Proof.
  induction j as [|b|n|s|l IH|ms IH] using json_ind'; try apply bytes_of_is_bytes.
  - rewrite encode_JArray. constructor; [lia|]. induction IH as [|j l Hj Hl IH]; [repeat constructor; lia|].
    cbn [encode_elements]. apply is_bytes_app; [done|]. destruct l; constructor; (done || lia).
  - rewrite encode_JObject. constructor; [lia|]. induction IH as [|[key j] ms Hj Hl IH]; [repeat constructor; lia|].
    cbn [encode_members]. apply is_bytes_app; [apply bytes_of_is_bytes|]. constructor; [lia|].
    apply is_bytes_app; [done|]. destruct ms; constructor; (done || lia).
Qed.

Definition printed (j : json) : Prop := ∃ d, printable d j ∧ Z.of_nat d ≤ maxNestingDepth.

Lemma Decode_Encoded j : printed j → Decode (Encoded j) = Some (j, [10]).
Proof.
  intros (d & Hp & Hd). unfold Decode, Encoded, Marshal. rewrite bytes_of_app.
  rewrite bytes_of_string_of by apply encode_is_bytes. change (bytes_of _) with [10].
  rewrite (skip_encode j d) by done. apply (reads_all j _ _ d); [done|lia| |cbn; tauto].
  rewrite length_app. lia.
Qed.
Lemma Decode_Marshal j : printed j → Decode (Marshal j) = Some (j, []).
Proof.
  intros (d & Hp & Hd). unfold Decode, Marshal. rewrite bytes_of_string_of by apply encode_is_bytes.
  rewrite <- (app_nil_r (encode j)) at 2. rewrite (skip_encode j d) by done.
  apply (reads_all j _ _ d); [done|lia| |done]. lia.
Qed.

Lemma parse_Marshal j : printed j → parse (Marshal j) = Some j.
Proof. intros Hp%Decode_Marshal. unfold Decode in Hp. unfold parse. by rewrite Hp. Qed.

(** What one side prints, the other decodes as it decodes the value. *)
Lemma decode_one_Marshal {T} (i : into T) zero j : printed j → decode_one i zero (Marshal j) = i j zero.
Proof. intros Hp. unfold decode_one. rewrite Decode_Marshal by done. cbn. by destruct (i j zero). Qed.
Lemma decode_first_Encoded {T} (i : into T) zero j : printed j → decode_first i zero (Encoded j) = i j zero.
Proof. intros Hp. unfold decode_first. by rewrite Decode_Encoded. Qed.

(** Decides which field each member's name is. *)
Ltac eval_names :=
  cbn; repeat match goal with
  | |- context [same_name ?a ?b] => let v := eval vm_compute in (same_name a b) in change (same_name a b) with v; cbn
  end.

(** An object decoded into a struct, a member at a time. *)
Lemma foldl_member_None {T} strict (fields : list (field T)) ms : foldl (member strict fields) None ms = None.
Proof. by induction ms. Qed.
Lemma into_struct_nil {T} strict (fields : list (field T)) t : into_struct strict fields (JObject []) t = Some t.
Proof. done. Qed.
Lemma into_struct_cons {T} strict (fields : list (field T)) t key j ms f :
  List.find (λ f, same_name key (field_name f)) fields = Some f →
  into_struct strict fields (JObject ((key, j) :: ms)) t =
  match field_into f j t with Some t => into_struct strict fields (JObject ms) t | None => None end.
Proof.
  intros Hf. cbn. rewrite Hf. destruct (field_into f j t); [done|]. apply foldl_member_None.
Qed.
Lemma into_at_field {T F} name (i : into F) (get : T → F) set j t :
  field_into (at_field name i get set) j t = set t <$> i j (get t).
Proof. done. Qed.
Lemma into_string_JString s s' : into_string (JString s) s' = Some s.
Proof. done. Qed.
Lemma into_pointer_Some {T} (zero : T) i j t x :
  j ≠ JNull → i j (default zero t) = Some x → into_pointer zero i j t = Some (Some x).
Proof. intros Hj Hi. destruct j; [done|..]; cbn in *; by rewrite Hi. Qed.

(** Reads the next member of an object. *)
Ltac read_member :=
  rewrite into_struct_nil ||
  (erewrite into_struct_cons by reflexivity; rewrite into_at_field; rewrite ?into_string_JString; cbn [fmap option_fmap option_map]).

(** ** Typed values read back *)
Lemma into_int64_FormatInt z z' : minInt64 ≤ z ≤ maxInt64 → into_int64 (JNumber (FormatInt z)) z' = Some z.
Proof. intros Hz. cbn. rewrite ParseInt_FormatInt by done. cbn. by rewrite bool_decide_true. Qed.
Lemma into_int32_FormatInt z z' : -2147483648 ≤ z ≤ 2147483647 → into_int32 (JNumber (FormatInt z)) z' = Some z.
Proof.
  intros Hz. unfold into_int32, into_int. rewrite ParseInt_FormatInt by (unfold minInt64, maxInt64; lia).
  cbn. by rewrite bool_decide_true.
Qed.
End JsonRound.
