(* ===== verification/Errors.v ===== *)
(** Go errors: the sentinel values of the modelled packages, wrapping as [fmt.Errorf] does it with
    %w, [errors.Is], and results that are a value or an error. *)
From S2P Require Import Prelude GoStd GoTime.

Module Errors.

(** The package-level error values, by the names the source gives them. *)
Inductive sentinel :=
  (* internal/definition *)
  | ErrNotFound | ErrStaleRevision | ErrRequestReused | ErrInvalidRevision | ErrInvalidStatus
  | ErrRegistrationRefused | ErrRegistrationConflict | ErrRegistrationUndecided
  | ErrGaramContractUnsupported | ErrAssignmentMoved | ErrInvalidSecretRef | ErrEmbeddingRequired
  | ErrEmbeddingImmutable | ErrActivationMismatch | ErrPlacementSuperseded | ErrPreviousMismatch
  | ErrEvidenceMissing | ErrPlacementConflict | ErrInvalidProfile | ErrProfileVersionConflict
  | ErrProfileVersionGap | ErrRecoveryOpen | ErrRecoveryStage | ErrRecoveryMismatch
  | ErrRecoveryEpoch | ErrAgentStopped | ErrAgentNotStopped | ErrInvalidImages
  (* internal/secretref *)
  | ErrInvalid
  (* internal/execution *)
  | ErrUndecided | ErrNotAuthorized | ErrCredentialRefused | ErrActivationSuperseded
  (* internal/controller *)
  | errReplacing | errReplacingForMove
  (* internal/distribution; its ErrUndecided, ErrGaramContractUnsupported and errEpochSuperseded share
     their names with other packages' *)
  | ErrNoToken | ErrTokenRefused | ErrNotProved | ErrProofUndecided | ErrProofContractUnsupported
  | ErrAnotherOperator | errNotPlaced | errProvedEpochSuperseded | errInvalidQuery | errTooManyAgents
  | errInvalidStatusBody | errInvalidPlacementBody | errInvalidRecoveryBody | errInvalidImagesBody
  (* internal/desired *)
  | ErrNotControlSource | ErrMalformed | ErrNoPodName
  (* internal/console; its ErrGaramContractUnsupported shares its name with another package's *)
  | ErrNoAuthority | ErrAuthorityUnknown | ErrAuthorityForbidden | ErrAuthorityUndecided
  | ErrAuthorityContractUnsupported | ErrDigestMismatch | errInvalidBody | errInvalidPublish
  | ErrLifecycleUndecided
  (* internal/garammachine; its ErrUndecided shares its name with other packages' *)
  | ErrMachineUndecided
  (* internal/garam *)
  | ErrAgentNotHeld | ErrEpochUnreadable | ErrMintEpochSuperseded
  (* internal/machinetoken *)
  | ErrInvalidClient | errCallRefused
  (* internal/definition/repository *)
  | errSchemaRefused | ErrSchemaNotCurrent
  (* github.com/jackc/pgx, github.com/golang-migrate/migrate *)
  | ErrNoRows | ErrNilVersion | ErrNoChange
  (* net/http *)
  | ErrServerClosed.

#[global] Instance sentinel_eq_dec : EqDecision sentinel.
Proof. solve_decision. Defined.

(** Why the API server refused a call, as [apierrors] reads it. *)
Inductive api_reason := ApiNotFound | ApiAlreadyExists | ApiOther.
#[global] Instance api_reason_eq_dec : EqDecision api_reason.
Proof. solve_decision. Defined.

Inductive error :=
  | Sentinel (s : sentinel)
  (** [fmt.Errorf] with one %w: what it prints before the wrapped error, and after it. *)
  | Wrapf (before : string) (e : error) (after : string)
  (** With two %w. *)
  | Wrapf2 (before : string) (e1 : error) (between : string) (e2 : error) (after : string)
  (** [fmt.Errorf] or [errors.New] wrapping nothing. *)
  | Errorf (text : string)
  (** The [*refusal] of package execution: a status, a kind and a message. *)
  | Refusal (status : Z) (kind message : string)
  (** The [*RefusalError] of package desired: a definite answer of the control service. *)
  | RefusalError (route : string) (status : Z) (kind message : string)
  (** [*console.MismatchError] and [*console.LifecycleRefusal]. *)
  | MismatchError (field_ : string)
  | LifecycleRefusal (status : Z) (kind message : string)
  (** [*execution.GaramContractError]. *)
  | GaramContractError (call contract : string)
  (** [*garammachine.ContractError]. *)
  | ContractError (path : string) (status : Z) (got want : string)
  (** The [*refusal] of package garam. *)
  | GaramRefusal (status : Z) (kind message : string)
  (** [*machinetoken.Error], which unwraps to [e]. *)
  | TokenError (reason : string) (until : Z) (e : error)
  (** A run-time panic of the goroutine, such as an index out of range. *)
  | Panic (text : string)
  (** The API server's answer that refuses a call. *)
  | ApiError (reason : api_reason) (text : string)
  (** PostgreSQL's refusal of a statement, by its SQLSTATE. *)
  | PgError (code text : string)
  (** golang-migrate's [database.Error], with the database's own error it carries. *)
  | MigrateError (text : string) (cause : error).
Coercion Sentinel : sentinel >-> error.

#[global] Instance error_eq_dec : EqDecision error.
Proof. solve_decision. Defined.

(** What each sentinel prints. *)
Definition sentinel_text (s : sentinel) : string :=
  match s with
  | ErrNotFound => "not found"
  | ErrStaleRevision => "stale revision"
  | ErrRequestReused => "request id reused for a different request"
  | ErrInvalidRevision => "revision is not a canonical decimal string of 1 or more"
  | ErrInvalidStatus => "status names a revision the agent does not have"
  | ErrRegistrationRefused => "registration refused"
  | ErrRegistrationConflict => "registration conflicts"
  | ErrRegistrationUndecided => "registration undecided"
  | ErrGaramContractUnsupported => "garam answered under a contract this service does not take"
  | ErrAssignmentMoved => "the agent's assignment moved since its creation"
  | ErrInvalidSecretRef => "model key reference is not <secret-name>/<key>"
  | ErrEmbeddingRequired => "the model needs an embeddings endpoint with a base URL and a name"
  | ErrEmbeddingImmutable => "an agent's embedding cannot be changed or removed once set"
  | ErrActivationMismatch => "garam answered another activation for the request"
  | ErrPlacementSuperseded => "the placement was superseded"
  | ErrPreviousMismatch => "the previous placement is not the one held for the agent"
  | ErrEvidenceMissing => "the replaced placement carries no writer-stopped evidence"
  | ErrPlacementConflict => "the placement was registered differently"
  | ErrInvalidProfile => "the profile is not one an agent can run with"
  | ErrProfileVersionConflict => "the profile version is published with other settings"
  | ErrProfileVersionGap => "the profile version is not the next one"
  | ErrRecoveryOpen => "another recovery is open for the agent"
  | ErrRecoveryStage => "the recovery is not at a stage this step follows"
  | ErrRecoveryMismatch => "the body is not the prepared recovery request"
  | ErrRecoveryEpoch => "the recovery request names another epoch than the recovery"
  | ErrAgentStopped => "the agent is stopped"
  | ErrAgentNotStopped => "the agent is not stopped"
  | ErrInvalidImages => "the report is not a list of named images with references"
  | ErrInvalid => "reference is not <secret-name>/<key>"
  | ErrUndecided => "garam left the decision undecided"
  | ErrNotAuthorized => "garam refused the authority"
  | ErrCredentialRefused => "garam refused the agent's token"
  | ErrActivationSuperseded => "garam refused the activation as superseded"
  | errReplacing => "the statefulset is being replaced"
  | errReplacingForMove => "the statefulset is being replaced for a memory move"
  | ErrNoToken => "no controller token presented"
  | ErrTokenRefused => "garam refused the controller's token"
  | ErrNotProved => "controller authority not proved"
  | ErrProofUndecided => "controller authority undecided"
  | ErrProofContractUnsupported => "garam answered under a contract this service does not take"
  | ErrAnotherOperator => "proof names another operator than the request"
  | errNotPlaced => "agent is not placed on this controller under its latest revision"
  | errProvedEpochSuperseded => "the agent's assignment epoch is not the one requested"
  | errInvalidQuery => "cursor or waitSeconds is not one the feed answers"
  | errTooManyAgents => "controller has more agents than one desired answer carries"
  | errInvalidStatusBody => "request body is not a status report"
  | errInvalidPlacementBody => "request body is not a placement registration"
  | errInvalidRecoveryBody => "request body is not a recovery request"
  | errInvalidImagesBody => "request body is not an image report"
  | ErrNotControlSource => "the agent's desired state does not come from the control service"
  | ErrMalformed => "the revision cannot be rendered"
  | ErrNoPodName => "the manager's Pod name is unset"
  | ErrNoAuthority => "no operation authority presented"
  | ErrAuthorityUnknown => "operation authority unknown or expired"
  | ErrAuthorityForbidden => "operation authority no longer authorized"
  | ErrAuthorityUndecided => "operation authority undecided"
  | ErrAuthorityContractUnsupported => "garam answered under a contract this service does not take"
  | ErrDigestMismatch => "request body is not the body the authority binds"
  | errInvalidBody => "request body is not a configure request"
  | errInvalidPublish => "request body is not a publish request"
  | ErrLifecycleUndecided => "garam left the recovery or the deactivation undecided"
  | ErrMachineUndecided => "garam answered without deciding"
  | ErrAgentNotHeld => "garam holds this agent for another operator, or holds no such agent"
  | ErrEpochUnreadable => "the agent's spec names an assignment epoch that is not an integer"
  | ErrMintEpochSuperseded => "garam minted the token at another epoch than the agent's spec names"
  | ErrInvalidClient => "garam refused this operator's client assertion (invalid_client)"
  | errCallRefused => "a call presenting this operator's token was answered 401"
  | errSchemaRefused => "database schema refused"
  | ErrSchemaNotCurrent => "the database's schema is not the one this binary knows"
  | ErrNoRows => "no rows in result set"
  | ErrNilVersion => "no migration"
  | ErrNoChange => "no change"
  | ErrServerClosed => "http: Server closed"
  end.

(** [err.Error()]. *)
Fixpoint error_text (e : error) : string :=
  match e with
  | Sentinel s => sentinel_text s
  | Wrapf before e' after => before +:+ error_text e' +:+ after
  | Wrapf2 before e1 between e2 after => before +:+ error_text e1 +:+ between +:+ error_text e2 +:+ after
  | Errorf text => text
  | Refusal _ _ message => message
  | RefusalError route status kind message =>
      "control refused the " +:+ route +:+ " route with " +:+ GoStd.FormatInt status +:+
      (if bool_decide (kind = "") then ": " else " " +:+ kind +:+ ": ") +:+ message
  | MismatchError field_ => "operation authority binds another " +:+ field_
  | LifecycleRefusal status kind message =>
      "garam refused (" +:+ GoStd.FormatInt status +:+ " " +:+ kind +:+ "): " +:+ message
  | GaramContractError call contract =>
      "garam answered " +:+ call +:+ " under contract " +:+ GoStd.quote contract +:+
      ", which this service does not take"
  | ContractError path status got want =>
      path +:+ " answered " +:+ GoStd.FormatInt status +:+ " under contract " +:+ GoStd.quote got +:+
      ", want " +:+ GoStd.quote want
  | GaramRefusal status kind message =>
      "garam answered " +:+ GoStd.FormatInt status +:+
      (if bool_decide (kind = "") then "" else " " +:+ kind +:+ ": " +:+ message)
  | TokenError reason until e' =>
      "exchange a client assertion for a garam token (" +:+ reason +:+ ", next attempt at " +:+
      GoTime.FormatRFC3339 until +:+ "): " +:+ error_text e'
  | Panic text => text
  | ApiError _ text => text
  | PgError code text => text +:+ " (SQLSTATE " +:+ code +:+ ")"
  | MigrateError text _ => text
  end.

(** [errors.As]: the first error of the tree [pick] takes, in the order of the wrapping. *)
Fixpoint errors_as {A} (pick : error → option A) (e : error) : option A :=
  match pick e with
  | Some a => Some a
  | None =>
      match e with
      | Wrapf _ e' _ => errors_as pick e'
      | Wrapf2 _ e1 _ e2 _ => match errors_as pick e1 with Some a => Some a | None => errors_as pick e2 end
      | TokenError _ _ e' => errors_as pick e'
      | _ => None
      end
  end.

(** [errors.As] for the control service's refusals: their status and kind. *)
Definition asRefusal : error → option (Z * string) :=
  errors_as (λ e, match e with RefusalError _ status kind _ => Some (status, kind) | _ => None end).
(** [errors.As] for garam's refusals of a mint, and for the answers of its machine listener under another contract. *)
Definition asGaramRefusal : error → option (Z * string * string) :=
  errors_as (λ e, match e with GaramRefusal status kind message => Some (status, kind, message) | _ => None end).
Definition asContractError : error → option (string * string) :=
  errors_as (λ e, match e with ContractError path _ got _ => Some (path, got) | _ => None end).

(** [errors.Is(e, s)], for a sentinel [s]. *)
Fixpoint errors_is (e : error) (s : sentinel) : bool :=
  match e with
  | Sentinel s' => bool_decide (s' = s)
  | Wrapf _ e' _ => errors_is e' s
  | Wrapf2 _ e1 _ e2 _ => errors_is e1 s || errors_is e2 s
  | TokenError _ _ e' => errors_is e' s
  | _ => false
  end.

(** [apierrors.IsNotFound] and [apierrors.IsAlreadyExists]. *)
Definition api_reason_of : error → option api_reason :=
  errors_as (λ e, match e with ApiError r _ => Some r | _ => None end).
Definition IsNotFound (e : error) : bool := bool_decide (api_reason_of e = Some ApiNotFound).
Definition IsAlreadyExists (e : error) : bool :=
  bool_decide (api_reason_of e = Some ApiAlreadyExists).

(** ** Results *)
Inductive result (A : Type) := Ok (a : A) | Err (e : error).
Arguments Ok {A} a.
Arguments Err {A} e.

#[global] Instance result_eq_dec `{EqDecision A} : EqDecision (result A).
Proof. solve_decision. Defined.

(** What a Go caller tests: [errors.Is(err, s)], where [err] may be nil. *)
Definition err_is {A} (r : result A) (s : sentinel) : bool :=
  match r with Ok _ => false | Err e => errors_is e s end.

Definition result_map {A B} (f : A → B) (r : result A) : result B :=
  match r with Ok a => Ok (f a) | Err e => Err e end.

#[global] Instance result_ret : MRet result := @Ok.
#[global] Instance result_bind : MBind result := λ A B k r,
  match r with Ok a => k a | Err e => Err e end.

(** [x ←? p; k]: run [p]; return its error, or go on with its value, as
    [if err != nil { return err }] does. *)
Definition try_bind {E A B} (p : prog E (result A)) (k : A → prog E (result B)) :
    prog E (result B) :=
  r ← p; match r with Ok a => k a | Err e => mret (Err e) end.

(** [x ←? p wrap f; k]: the same, with the error wrapped as [f] wraps it. *)
Definition try_wrap {E A B} (f : error → error) (p : prog E (result A))
    (k : A → prog E (result B)) : prog E (result B) :=
  r ← p; match r with Ok a => k a | Err e => mret (Err (f e)) end.

Definition lift {E A} (r : result A) : prog E (result A) := mret r.

End Errors.
Export Errors.

Notation "x ←? p ; k" := (try_bind p (λ x, k))
  (at level 20, p at level 100, k at level 200, only parsing) : effect_scope.
Notation "' x ←? p ; k" := (try_bind p (λ x, k))
  (at level 20, x pattern, p at level 100, k at level 200, only parsing) : effect_scope.
Notation "x ←? p 'wrap' f ; k" := (try_wrap f p (λ x, k))
  (at level 20, p at level 100, f at level 100, k at level 200, only parsing) : effect_scope.
Notation "' x ←? p 'wrap' f ; k" := (try_wrap f p (λ x, k))
  (at level 20, x pattern, p at level 100, f at level 100, k at level 200, only parsing) : effect_scope.

Section try_lemmas.
Context {E : Type → Type} {S : Type} (h : handler E S).

Lemma run_try_bind {A B} (p : prog E (result A)) (k : A → prog E (result B)) s :
  run h (try_bind p k) s =
  match run h p s with (Ok a, s') => run h (k a) s' | (Err e, s') => (Err e, s') end.
Proof. unfold try_bind. rewrite run_bind. by destruct (run h p s) as [[a|e] s']. Qed.

Lemma run_try_wrap {A B} f (p : prog E (result A)) (k : A → prog E (result B)) s :
  run h (try_wrap f p k) s =
  match run h p s with (Ok a, s') => run h (k a) s' | (Err e, s') => (Err (f e), s') end.
Proof. unfold try_wrap. rewrite run_bind. by destruct (run h p s) as [[a|e] s']. Qed.

Lemma run_lift {A} (r : result A) s : run h (lift r) s = (r, s).
Proof. done. Qed.
End try_lemmas.
#[export] Hint Rewrite @run_try_bind @run_try_wrap @run_lift : garam_run.

Section safe_try.
Context {E : Type → Type} (P : list (event E) → ∀ X, E X → Prop).

Lemma safe_try_bind {A B} Q (p : prog E (result A)) (k : A → prog E (result B)) h :
  safe P Q h (try_bind p k) ↔
  safe P (λ h' r, match r with Ok a => safe P Q h' (k a) | Err e => Q h' (Err e) end) h p.
Proof.
  unfold try_bind. rewrite safe_bind. split; apply safe_mono; by intros h' [a|e].
Qed.

Lemma safe_try_wrap {A B} f Q (p : prog E (result A)) (k : A → prog E (result B)) h :
  safe P Q h (try_wrap f p k) ↔
  safe P (λ h' r, match r with Ok a => safe P Q h' (k a) | Err e => Q h' (Err (f e)) end) h p.
Proof.
  unfold try_wrap. rewrite safe_bind. split; apply safe_mono; by intros h' [a|e].
Qed.
End safe_try.

Lemma is_Wrapf before e after s : errors_is (Wrapf before e after) s = errors_is e s.
Proof. done. Qed.
Lemma is_Sentinel s s' : errors_is (Sentinel s) s' = true ↔ s = s'.
Proof. cbn. apply bool_decide_eq_true. Qed.
