(* ===== verification/Types.v ===== *)
(** The data of package definition ([src/internal/definition/definition.go], [operator.go]): each
    struct a record with the source's field names after its type's, each closed interface an
    inductive type, each string type a [string]. A Go pointer used as an optional value is an
    [option]; an instant ([time.Time]) is a number that orders instants. *)
From S2P Require Import Prelude GoStd Errors.

(** What the code uses of Kubernetes' API machinery: resource quantities
    ([k8s.io/apimachinery/pkg/api/resource]), by their sign, their comparison, their printed
    form and their zero value, and two validators ([k8s.io/apimachinery/pkg/util/validation]), each answering its list
    of problems. *)
Class Kubernetes := {
  Quantity : Type;
  Quantity_eq_dec :: EqDecision Quantity;
  Quantity_Sign : Quantity → Z;
  Quantity_Cmp : Quantity → Quantity → Z;
  Quantity_String : Quantity → string;
  Quantity_zero : Quantity;
  IsDNS1123Subdomain : string → list string;
  IsConfigMapKey : string → list string;
}.

Definition GRN := string.
Definition Revision := Z.
Definition Version := Z.
Definition SecretRef := string.
Definition Position := Z.
Definition Time := Z.
#[global] Typeclasses Transparent GRN Revision Version SecretRef Position Time.

(** ** Configurations *)
Definition ToolPins := gmap string string.
#[global] Typeclasses Transparent ToolPins.

Record Embedding := mkEmbedding {
  Embedding_BaseURL : string;
  Embedding_Name : string;
  Embedding_APIKey : SecretRef;
}.
#[global] Instance Embedding_eq_dec : EqDecision Embedding.
Proof. solve_decision. Defined.

Record Model := mkModel {
  Model_Provider : string;
  Model_BaseURL : string;
  Model_Name : string;
  Model_APIKey : SecretRef;
  Model_Embedding : option Embedding;
}.
#[global] Instance Model_eq_dec : EqDecision Model.
Proof. solve_decision. Defined.

(** [Model{}]. *)
Definition zeroModel : Model := mkModel "" "" "" "" None.

Definition mockProvider : string := "mock".

Record Configuration := mkConfiguration {
  Configuration_Model : Model;
  Configuration_Ego : string;
  Configuration_Tools : ToolPins;
}.
#[global] Instance Configuration_eq_dec : EqDecision Configuration.
Proof. solve_decision. Defined.

(** ** Profiles and templates *)
Record ProfileRef := mkProfileRef { ProfileRef_Name : string; ProfileRef_Version : Version }.
#[global] Instance ProfileRef_eq_dec : EqDecision ProfileRef.
Proof. solve_decision. Defined.

Record TemplateRef := mkTemplateRef { TemplateRef_Name : string; TemplateRef_Version : Version }.
#[global] Instance TemplateRef_eq_dec : EqDecision TemplateRef.
Proof. solve_decision. Defined.

Section settings.
Context `{K8s : Kubernetes}.

(** [corev1.ResourceRequirements]: what a container asks for at least, at most, and of the Pod's own claims. *)
Record ResourceClaim := mkResourceClaim { ResourceClaim_Name : string; ResourceClaim_Request : string }.
#[global] Instance ResourceClaim_eq_dec : EqDecision ResourceClaim.
Proof. solve_decision. Defined.
Record ResourceRequirements := mkResourceRequirements {
  Resources_Requests : gmap string Quantity;
  Resources_Limits : gmap string Quantity;
  Resources_Claims : list ResourceClaim;
}.
#[global] Instance ResourceRequirements_eq_dec : EqDecision ResourceRequirements.
Proof. solve_decision. Defined.

Record ExecutionSettings := mkExecutionSettings {
  Settings_Resources : ResourceRequirements;
  Settings_StorageSize : Quantity;
  Settings_StorageClassName : option string;
  Settings_WorkspaceStorageSize : option Quantity;
}.
#[global] Instance ExecutionSettings_eq_dec : EqDecision ExecutionSettings.
Proof. solve_decision. Defined.

Record Profile := mkProfile {
  Profile_Name : string;
  Profile_Version : Version;
  Profile_Settings : ExecutionSettings;
}.
#[global] Instance Profile_eq_dec : EqDecision Profile.
Proof. solve_decision. Defined.
End settings.

(** [equality.Semantic.DeepEqual] on two sets of settings
    ([k8s.io/apimachinery/pkg/api/equality]). *)
Class SemanticEquality `{K8s : Kubernetes} :=
  DeepEqual : ExecutionSettings → ExecutionSettings → bool.

(** Documented behaviour the code relies on: it is reflexive. *)
Class SemanticEqualityLaws `{K8s : Kubernetes} (SE : SemanticEquality) : Prop :=
  DeepEqual_refl : ∀ s, DeepEqual s s = true.

Record Template := mkTemplate {
  Template_Name : string;
  Template_Version : Version;
  Template_Profile : ProfileRef;
  Template_Config : Configuration;
}.
#[global] Instance Template_eq_dec : EqDecision Template.
Proof. solve_decision. Defined.

(** ** Definitions *)
Record Assignment := mkAssignment { Assignment_Operator : string; Assignment_Epoch : string }.
#[global] Instance Assignment_eq_dec : EqDecision Assignment.
Proof. solve_decision. Defined.

Record Definition_ := mkDefinition {
  Definition_Agent : GRN;
  Definition_Organization : string;
  Definition_Revision : Revision;
  Definition_Profile : ProfileRef;
  Definition_Config : Configuration;
  Definition_Assignment : option Assignment;
}.
#[global] Instance Definition_eq_dec : EqDecision Definition_.
Proof. solve_decision. Defined.

Record OpenRecovery := mkOpenRecovery {
  OpenRecovery_RequestID : string;
  OpenRecovery_Epoch : string;
}.
#[global] Instance OpenRecovery_eq_dec : EqDecision OpenRecovery.
Proof. solve_decision. Defined.

Record DesiredRevision `{K8s : Kubernetes} := mkDesiredRevision {
  Desired_Definition : Definition_;
  Desired_Settings : ExecutionSettings;
  Desired_Stopped : bool;
  Desired_Recovery : option OpenRecovery;
}.

Record DesiredPage `{K8s : Kubernetes} := mkDesiredPage {
  Page_Position : Position;
  Page_Revisions : list DesiredRevision;
}.
Arguments mkDesiredRevision {K8s}.
Arguments mkDesiredPage {K8s}.

Record Status := mkStatus {
  Status_Observed : Revision;
  Status_Rendered : Revision;
  Status_Applied : option Revision;
}.
#[global] Instance Status_eq_dec : EqDecision Status.
Proof. solve_decision. Defined.
Definition zeroStatus : Status := mkStatus 0 0 None.

(** ** Console requests *)
Record RequestKey := mkRequestKey { Key_Organization : string; Key_RequestID : string }.
#[global] Instance RequestKey_eq_dec : EqDecision RequestKey.
Proof. solve_decision. Defined.
#[global] Program Instance RequestKey_countable : Countable RequestKey :=
  inj_countable' (λ k, (Key_Organization k, Key_RequestID k)) (λ p, mkRequestKey p.1 p.2) _.
Next Obligation. by intros []. Qed.

Record Binding := mkBinding {
  Binding_Actor : string;
  Binding_Operation : string;
  Binding_Target : string;
  Binding_BodySHA256 : string;
  Binding_OperationRef : string;
  Binding_Assignment : Assignment;
}.
#[global] Instance Binding_eq_dec : EqDecision Binding.
Proof. solve_decision. Defined.

Record CreateInput := mkCreateInput {
  Create_Request : RequestKey;
  Create_Binding : Binding;
  Create_Controller : string;
  Create_Template : TemplateRef;
  Create_Profile : ProfileRef;
}.

Record Registered := mkRegistered { Registered_Agent : GRN; Registered_Epoch : string }.
#[global] Instance Registered_eq_dec : EqDecision Registered.
Proof. solve_decision. Defined.

Inductive Outcome :=
  | Pending
  | RegisteredAs (r : Registered)
  | Failed (Reason : string) (Conflict : bool).
#[global] Instance Outcome_eq_dec : EqDecision Outcome.
Proof. solve_decision. Defined.

Record Creation := mkCreation {
  Creation_Key : RequestKey;
  Creation_Binding : Binding;
  Creation_Controller : string;
  Creation_Template : TemplateRef;
  Creation_Profile : ProfileRef;
  Creation_Outcome : Outcome;
}.
#[global] Instance Creation_eq_dec : EqDecision Creation.
Proof. solve_decision. Defined.

Record Registration := mkRegistration {
  Registration_Request : RequestKey;
  Registration_Controller : string;
  Registration_OperationRef : string;
}.

Record PublishInput := mkPublishInput {
  Publish_Request : RequestKey;
  Publish_Binding : Binding;
  Publish_Template : Template;
}.

Record Publication := mkPublication {
  Publication_Key : RequestKey;
  Publication_Binding : Binding;
  Publication_Template : TemplateRef;
}.
#[global] Instance Publication_eq_dec : EqDecision Publication.
Proof. solve_decision. Defined.

Record Effective := mkEffective {
  Effective_Revision : Revision;
  Effective_Generation : string;
  Effective_ObservedAt : Time;
}.
#[global] Instance Effective_eq_dec : EqDecision Effective.
Proof. solve_decision. Defined.

Record Execution_ := mkExecution {
  Execution_Desired : Revision;
  Execution_Rendered : Revision;
  Execution_Effective : option Effective;
}.
#[global] Instance Execution_eq_dec : EqDecision Execution_.
Proof. solve_decision. Defined.

Record ConfigureInput := mkConfigureInput {
  Configure_Request : RequestKey;
  Configure_Binding : Binding;
  Configure_Agent : GRN;
  Configure_ExpectedRevision : Revision;
  Configure_Profile : ProfileRef;
  Configure_Config : Configuration;
}.

Inductive RequestOutcome := Applied (r : Revision) | Stale.
#[global] Instance RequestOutcome_eq_dec : EqDecision RequestOutcome.
Proof. solve_decision. Defined.

Record Request := mkRequest {
  Request_Key : RequestKey;
  Request_Binding : Binding;
  Request_Agent : GRN;
  Request_Outcome : RequestOutcome;
}.
#[global] Instance Request_eq_dec : EqDecision Request.
Proof. solve_decision. Defined.

(** ** Placements and activations *)
Record PreviousPlacement := mkPrevious {
  Previous_PodUID : string;
  Previous_WriterStoppedSHA256 : string;
}.
#[global] Instance PreviousPlacement_eq_dec : EqDecision PreviousPlacement.
Proof. solve_decision. Defined.
Definition zeroPrevious : PreviousPlacement := mkPrevious "" "".

Record PlacementRequest := mkPlacementRequest {
  PlacementRequest_PodUID : string;
  PlacementRequest_PVCUID : string;
  PlacementRequest_Epoch : string;
  PlacementRequest_TokenSHA256 : string;
  PlacementRequest_Previous : PreviousPlacement;
}.
#[global] Instance PlacementRequest_eq_dec : EqDecision PlacementRequest.
Proof. solve_decision. Defined.

Record PlacementInput := mkPlacementInput {
  PlacementInput_Agent : GRN;
  PlacementInput_Controller : string;
  PlacementInput_Request : PlacementRequest;
}.

Record Placement := mkPlacement {
  Placement_Agent : GRN;
  Placement_Controller : string;
  Placement_Request : PlacementRequest;
  Placement_Superseded : bool;
}.
#[global] Instance Placement_eq_dec : EqDecision Placement.
Proof. solve_decision. Defined.

Inductive PlacementAction := PlacementRepeat | PlacementRegister.
#[global] Instance PlacementAction_eq_dec : EqDecision PlacementAction.
Proof. solve_decision. Defined.

Record ActivationRequest := mkActivationRequest {
  ActivationRequest_RequestID : string;
  ActivationRequest_Epoch : string;
  ActivationRequest_Generation : string;
  ActivationRequest_ConfigRevision : Revision;
  ActivationRequest_PlacementPodUID : string;
}.
#[global] Instance ActivationRequest_eq_dec : EqDecision ActivationRequest.
Proof. solve_decision. Defined.

Record Activation := mkActivation {
  Activation_Agent : GRN;
  Activation_Request : ActivationRequest;
  Activation_ReplacesActivationID : string;
  Activation_OperationRef : string;
  Activation_ActivationID : string;
}.
#[global] Instance Activation_eq_dec : EqDecision Activation.
Proof. solve_decision. Defined.

Record RuntimeApplied := mkRuntimeApplied {
  RuntimeApplied_Revision : Revision;
  RuntimeApplied_ActivationID : string;
  RuntimeApplied_Generation : string;
  RuntimeApplied_ObservedAt : Time;
}.
#[global] Instance RuntimeApplied_eq_dec : EqDecision RuntimeApplied.
Proof. solve_decision. Defined.

Record RuntimeReport := mkRuntimeReport {
  RuntimeReport_ActivationID : string;
  RuntimeReport_Generation : string;
  RuntimeReport_ConfigRevision : string;
  RuntimeReport_Serving : bool;
  RuntimeReport_ObservedAt : Time;
}.

(** ** Recoveries and stops *)
Inductive RecoveryStage := RecoveryRequested | RecoveryPrepared | RecoveryFinalized.
#[global] Instance RecoveryStage_eq_dec : EqDecision RecoveryStage.
Proof. solve_decision. Defined.

Record RecoveredCredential := mkRecovered { Recovered_Lineage : string }.
#[global] Instance RecoveredCredential_eq_dec : EqDecision RecoveredCredential.
Proof. solve_decision. Defined.

(** [Recovery_Body] is the empty string where the source's slice is nil. *)
Record Recovery := mkRecovery {
  Recovery_Agent : GRN;
  Recovery_RequestID : string;
  Recovery_Key : RequestKey;
  Recovery_Binding : Binding;
  Recovery_Epoch : string;
  Recovery_Stage : RecoveryStage;
  Recovery_Body : string;
  Recovery_Recovered : option RecoveredCredential;
}.
#[global] Instance Recovery_eq_dec : EqDecision Recovery.
Proof. solve_decision. Defined.

Record RecoveryRequest := mkRecoveryRequest {
  RecoveryRequest_RequestID : string;
  RecoveryRequest_Epoch : string;
}.

Record OpenRecoveryInput := mkOpenRecoveryInput {
  OpenRecoveryInput_Key : RequestKey;
  OpenRecoveryInput_Binding : Binding;
  OpenRecoveryInput_Agent : GRN;
  OpenRecoveryInput_RequestID : string;
}.

Record StopEnd := mkStopEnd { StopEnd_Key : RequestKey; StopEnd_Binding : Binding }.
#[global] Instance StopEnd_eq_dec : EqDecision StopEnd.
Proof. solve_decision. Defined.

Record Stop := mkStop {
  Stop_Agent : GRN;
  Stop_Key : RequestKey;
  Stop_Binding : Binding;
  Stop_ActivationID : string;
  Stop_Deactivated : bool;
  Stop_Start : option StopEnd;
}.
#[global] Instance Stop_eq_dec : EqDecision Stop.
Proof. solve_decision. Defined.

Record StopInput := mkStopInput {
  StopInput_Key : RequestKey;
  StopInput_Binding : Binding;
  StopInput_Agent : GRN;
}.

(** ** Operators *)
Record OperatorImage := mkOperatorImage {
  OperatorImage_Name : string;
  OperatorImage_Ref : string;
  OperatorImage_Digest : option string;
}.
#[global] Instance OperatorImage_eq_dec : EqDecision OperatorImage.
Proof. solve_decision. Defined.

Record Operator := mkOperator {
  Operator_GRN : string;
  Operator_Images : list OperatorImage;
  Operator_ReportedAt : option Time;
  Operator_LastContactAt : option Time;
}.
#[global] Instance Operator_eq_dec : EqDecision Operator.
Proof. solve_decision. Defined.
