(* ===== verification/Validation.v ===== *)
(** What package definition refuses before it stores anything: revision strings, secret references,
    configurations, execution settings, and the decision on a placement registration
    ([src/internal/definition/definition.go], [src/internal/secretref/secretref.go]). *)
From S2P Require Import Prelude GoStd Errors Types.
From Stdlib Require Import Decimal DecimalString DecimalN Ascii.
Import GoStd.

Module Validation.

(** ** Revisions on the wire *)
Definition Revision_String (r : Revision) : string := FormatInt r.

Definition ParseRevision (s : string) : result Revision :=
  match s with
  | EmptyString => Err ErrInvalidRevision
  | String c _ =>
      if Ascii.eqb c "0" || negb (bool_decide (TrimLeft s is_digit = "")) then Err ErrInvalidRevision
      else match ParseInt s with
      | None => Err ErrInvalidRevision
      | Some n => Ok n
      end
  end.

Section validation.
Context `{K8s : Kubernetes}.

(** ** Secret references: [secretref.Parse] and [SecretRef.Parts] *)
Definition secretref_Parse (ref : string) : result (string * string) :=
  let '(name, key, _) := Cut ref "/" in
  match IsDNS1123Subdomain name with
  | [] =>
    match IsConfigMapKey key with
    | [] => Ok (name, key)
    | problems => Err (Wrapf "" ErrInvalid (": key " +:+ quote key +:+ ": " +:+ Join problems "; "))
    end
  | problems =>
    Err (Wrapf "" ErrInvalid (": secret name " +:+ quote name +:+ ": " +:+ Join problems "; "))
  end.

Definition SecretRef_Parts (r : SecretRef) : result (string * string) :=
  match secretref_Parse r with
  | Ok parts => Ok parts
  | Err e => Err (Wrapf "" ErrInvalidSecretRef (": " +:+ error_text e))
  end.

(** ** Configurations *)
Definition Configuration_check (c : Configuration) : result () :=
  let m := Configuration_Model c in
  if bool_decide (m = zeroModel) then Ok tt else
  match SecretRef_Parts (Model_APIKey m) with
  | Err e => Err e
  | Ok _ =>
    match Model_Embedding m with
    | None =>
      if negb (bool_decide (Model_Provider m = mockProvider))
      then Err (Wrapf "" ErrEmbeddingRequired
        (": model provider " +:+ quote (Model_Provider m) +:+ " names no embedding"))
      else Ok tt
    | Some e =>
      if bool_decide (Embedding_BaseURL e = "") || bool_decide (Embedding_Name e = "")
      then Err (Wrapf "" ErrEmbeddingRequired ": an embedding missing its base URL or name")
      else if negb (bool_decide (Embedding_APIKey e = ""))
      then result_map (λ _, tt) (SecretRef_Parts (Embedding_APIKey e))
      else Ok tt
    end
  end.

Definition sameEndpoint (e : option Embedding) (was : Embedding) : bool :=
  match e with
  | None => false
  | Some e => bool_decide (Embedding_BaseURL e = Embedding_BaseURL was) &&
    bool_decide (Embedding_Name e = Embedding_Name was)
  end.

(** ** Execution settings *)

(** The loop over the resource requests: the first one above its limit, if any. *)
Fixpoint requests_within (requests : list (string * Quantity)) (limits : gmap string Quantity) :
  result () :=
  match requests with
  | [] => Ok tt
  | (name, request) :: rest =>
    match limits !! name with
    | Some limit =>
      if bool_decide (Quantity_Cmp request limit > 0)
      then Err (Wrapf "" ErrInvalidProfile
        (": " +:+ name +:+ " request " +:+ Quantity_String request +:+
          " is above its limit " +:+ Quantity_String limit))
      else requests_within rest limits
    | None => requests_within rest limits
    end
  end.

Definition Settings_check (s : ExecutionSettings) : result () :=
  if bool_decide (Quantity_Sign (Settings_StorageSize s) ≤ 0)
  then Err (Wrapf "" ErrInvalidProfile
    (": storage size " +:+ Quantity_String (Settings_StorageSize s) +:+ " is not above zero"))
  else
  _ ← match Settings_WorkspaceStorageSize s with
  | Some w =>
    if bool_decide (Quantity_Sign w ≤ 0)
    then Err (Wrapf "" ErrInvalidProfile
      (": workspace storage size " +:+ Quantity_String w +:+ " is not above zero"))
    else Ok tt
  | None => Ok tt
  end;
  _ ← match Settings_StorageClassName s with
  | Some class =>
    match IsDNS1123Subdomain class with
    | [] => Ok tt
    | problems =>
      Err (Wrapf "" ErrInvalidProfile
        (": storage class " +:+ quote class +:+ ": " +:+ Join problems "; "))
    end
  | None => Ok tt
  end;
  requests_within (map_to_list (Resources_Requests (Settings_Resources s)))
  (Resources_Limits (Settings_Resources s)).

Definition Settings_Same `{SE : !SemanticEquality} (s o : ExecutionSettings) : bool :=
  DeepEqual s o.

(** ** Placements *)
Definition DecidePlacement (current same : option Placement) (input : PlacementInput) :
  result PlacementAction :=
  let request := PlacementInput_Request input in
  match same with
  | Some same =>
    if Placement_Superseded same then Err ErrPlacementSuperseded
    else if negb (bool_decide (Placement_Request same = request)) ||
    negb (bool_decide (Placement_Controller same = PlacementInput_Controller input))
    then Err ErrPlacementConflict
    else Ok PlacementRepeat
  | None =>
    let previous := PlacementRequest_Previous request in
    if bool_decide (previous = zeroPrevious)
    then match current with Some _ => Err ErrPreviousMismatch | None => Ok PlacementRegister end
    else match current with
    | None => Err ErrPreviousMismatch
    | Some current =>
      if negb (bool_decide (PlacementRequest_PodUID (Placement_Request current)
        = Previous_PodUID previous))
      then Err ErrPreviousMismatch
      else if bool_decide (Previous_WriterStoppedSHA256 previous = "")
      then Err ErrEvidenceMissing
      else Ok PlacementRegister
    end
  end.

(** ** Operator image reports *)
Definition maxOperatorImages : Z := 16.

(** [imageDigest]: [^sha256:[0-9a-f]{64}$]. *)
Definition imageDigest (s : string) : bool :=
  match CutPrefix s "sha256:" with
  | Some hex => bool_decide (String.length hex = 64%nat) && string_forall is_lower_hex hex
  | None => false
  end.

(** The loop over the report's images, with the names seen so far. *)
Fixpoint images_named (names : gset string) (images : list OperatorImage) : result () :=
  match images with
  | [] => Ok tt
  | image :: rest =>
    if bool_decide (OperatorImage_Name image = "") || bool_decide (OperatorImage_Ref image = "") ||
    bool_decide (OperatorImage_Name image ∈ names) ||
    match OperatorImage_Digest image with
    | Some digest => negb (imageDigest digest)
    | None => false
    end
    then Err ErrInvalidImages
    else images_named ({[OperatorImage_Name image]} ∪ names) rest
  end.

Definition OperatorImages_check (images : list OperatorImage) : result () :=
  if bool_decide (length images = 0%nat) || bool_decide (Z.of_nat (length images) > maxOperatorImages)
  then Err ErrInvalidImages
  else images_named ∅ images.
End validation.

(** What the reference form relies on of the validators: a data key is not empty, and neither a
    Secret's name nor a data key holds a "/". *)
Class ValidatorLaws `{K8s : Kubernetes} : Prop := {
  key_nonempty : IsConfigMapKey "" ≠ [];
  name_no_slash : ∀ s, IsDNS1123Subdomain s = [] → string_contains "/" s = false;
  key_no_slash : ∀ s, IsConfigMapKey s = [] → string_contains "/" s = false;
}.

(** ** Revisions *)

Lemma ParseInt_digits c s :
  is_digit c = true →
  ParseInt (String c s) = (z ← digits_value (String c s) 0;
                           if bool_decide (minInt64 ≤ z ≤ maxInt64) then Some z else None).
Proof.
  intros Hc. unfold ParseInt.
  destruct c as [[] [] [] [] [] [] [] []]; vm_compute in Hc; try discriminate Hc; done.
Qed.

Lemma ParseRevision_String r : 1 ≤ r ≤ maxInt64 → ParseRevision (Revision_String r) = Ok r.
Proof.
  intros Hr. unfold Revision_String.
  destruct (FormatInt_pos r) as (d & -> & Hd & Hnil & Hhead); [lia|].
  pose proof (string_of_uint_digits d) as Hdig.
  destruct (NilEmpty.string_of_uint d) as [|c s] eqn:Hs; [by destruct d|].
  cbn [ParseRevision].
  assert (Ascii.eqb c "0" = false) as ->.
  { apply Ascii.eqb_neq. by eapply nzhead_first. }
  rewrite bool_decide_true by (by apply TrimLeft_empty). cbn [negb orb].
  cbn in Hdig. apply andb_true_iff in Hdig as [Hc _].
  rewrite (ParseInt_digits _ _ Hc), <- Hs, digits_value_uint, Hd. cbn.
  rewrite Z2N.id by lia. rewrite bool_decide_true; [done|].
  unfold minInt64 in *. lia.
Qed.

(** A string is read as revision [r] exactly where [r] is an int64 of 1 or more and the string
    is [r]'s own printed form: the wire form is canonical, and every other string is refused. *)
Theorem ParseRevision_canonical (s : string) (r : Revision) :
  ParseRevision s = Ok r ↔ 1 ≤ r ≤ maxInt64 ∧ s = Revision_String r.
Proof.
  split; [|intros [Hr ->]; by apply ParseRevision_String].
  unfold ParseRevision. destruct s as [|c s]; [done|].
  destruct (Ascii.eqb c "0") eqn:Hc0; [done|]. cbn [orb].
  case_bool_decide as Hdig; [|done]. cbn [negb].
  apply TrimLeft_empty in Hdig. pose proof Hdig as [Hc _]%andb_true_iff.
  rewrite (ParseInt_digits _ _ Hc).
  destruct (digits_uint _ Hdig) as [d Hd]. rewrite Hd, digits_value_uint. cbn.
  case_bool_decide as Hrange; [|done]. intros [= <-].
  assert (nzhead d = d) as Hhead.
  { apply (first_nzhead d c s); [by symmetry|]. by apply Ascii.eqb_neq. }
  assert (N.to_uint (N.of_uint d) = d) as Hto.
  { rewrite DecimalN.Unsigned.to_of. unfold unorm. rewrite Hhead. by destruct d. }
  assert (N.of_uint d ≠ 0%N) as Hne.
  { intros Hz. rewrite Hz in Hto. cbn in Hto. subst d. cbn in Hhead. done. }
  split; [lia|]. unfold Revision_String, FormatInt. rewrite bool_decide_false by lia.
  rewrite N2Z.id, Hto. by destruct d.
Qed.

Section theorems.
Context `{K8s : Kubernetes}.

(** A reference parses to a name and a key exactly where it is the two joined by one "/" and
Kubernetes accepts each: the split is the only one there is. *)
Theorem secretref_Parse_iff `{!ValidatorLaws} ref name key :
  secretref_Parse ref = Ok (name, key) ↔
  ref = name +:+ String "/" key ∧ IsDNS1123Subdomain name = [] ∧ IsConfigMapKey key = [].
Proof.
  unfold secretref_Parse. split.
  - destruct (Cut ref "/") as [[n k] found] eqn:Hcut.
    destruct (IsDNS1123Subdomain n) eqn:Hn; [|done].
    destruct (IsConfigMapKey k) eqn:Hk; [|done]. intros [= <- <-].
    destruct found; [by apply Cut_found in Hcut as ->|].
    apply Cut_not_found in Hcut as [_ ->]. by destruct key_nonempty.
  - intros (-> & Hn & Hk). rewrite Cut_join by (by apply name_no_slash). by rewrite Hn, Hk.
Qed.

Lemma SecretRef_Parts_ok r : (∃ p, SecretRef_Parts r = Ok p) ↔ ∃ p, secretref_Parse r = Ok p.
Proof. unfold SecretRef_Parts. destruct (secretref_Parse r); naive_solver. Qed.

Lemma SecretRef_Parts_err r e : SecretRef_Parts r = Err e → errors_is e ErrInvalidSecretRef = true.
Proof. unfold SecretRef_Parts. destruct (secretref_Parse r); [done|]. by intros [= <-]. Qed.

(** A configuration the manager can render: it names no model, or a model with a readable key
that is the mock or names a whole embeddings endpoint, whose own key, if any, is readable. *)
Definition renderable (c : Configuration) : Prop :=
  let m := Configuration_Model c in
  m = zeroModel ∨
  (∃ p, secretref_Parse (Model_APIKey m) = Ok p) ∧
  match Model_Embedding m with
  | None => Model_Provider m = mockProvider
  | Some e => Embedding_BaseURL e ≠ "" ∧ Embedding_Name e ≠ "" ∧
    (Embedding_APIKey e = "" ∨ ∃ p, secretref_Parse (Embedding_APIKey e) = Ok p)
  end.

(** [Configuration.check] accepts exactly the configurations with no model, or whose key references parse
and whose model names an embedding with its base URL and name, as the mock's need not; a refusal is [ErrInvalidSecretRef] or [ErrEmbeddingRequired] and no other error. *)
Theorem Configuration_check_spec c :
  (Configuration_check c = Ok tt ↔ renderable c) ∧
  (∀ e, Configuration_check c = Err e →
    errors_is e ErrInvalidSecretRef = true ∨ errors_is e ErrEmbeddingRequired = true).
Proof.
  unfold Configuration_check, renderable.
  destruct (decide (Configuration_Model c = zeroModel)) as [Hz|Hz];
    [rewrite bool_decide_true by done; naive_solver|rewrite bool_decide_false by done].
  pose proof (SecretRef_Parts_ok (Model_APIKey (Configuration_Model c))) as Hp.
  destruct (SecretRef_Parts (Model_APIKey (Configuration_Model c))) as [p|e] eqn:Hk; last first.
  { apply SecretRef_Parts_err in Hk. split; [|naive_solver].
    split; [done|]. intros [?|[Hq%Hp _]]; [done|]. naive_solver. }
  destruct (Model_Embedding (Configuration_Model c)) as [e|]; last first.
  { case_bool_decide; cbn; [naive_solver|]. split; [naive_solver|].
    intros ? [= <-]. by right. }
  case_bool_decide; cbn; [split; [naive_solver|intros ? [= <-]; by right]|].
  case_bool_decide; cbn; [split; [naive_solver|intros ? [= <-]; by right]|].
  case_bool_decide; cbn; [naive_solver|].
  pose proof (SecretRef_Parts_ok (Embedding_APIKey e)) as Hp'.
  destruct (SecretRef_Parts (Embedding_APIKey e)) as [p'|e'] eqn:Hk'; cbn; [naive_solver|].
  apply SecretRef_Parts_err in Hk'. naive_solver.
Qed.

Lemma requests_within_ok l limits :
  requests_within l limits = Ok tt ↔
  ∀ name q limit, (name, q) ∈ l → limits !! name = Some limit → Quantity_Cmp q limit ≤ 0.
Proof.
  induction l as [|[n q] l IH]; cbn.
  { split; [|done]. intros _ ??? []%not_elem_of_nil. }
  setoid_rewrite elem_of_cons.
  destruct (limits !! n) as [limit|] eqn:Hn; [case_bool_decide|].
  - split; [done|]. intros Hall. specialize (Hall n q limit (or_introl eq_refl) Hn). lia.
  - rewrite IH. split; [|naive_solver]. intros Hall ??? [[= -> ->]|?]; [|eauto]. naive_solver lia.
  - rewrite IH. split; [|naive_solver]. intros Hall ??? [[= -> ->]|?]; [|eauto]. congruence.
Qed.

Lemma requests_within_err l limits e :
  requests_within l limits = Err e → errors_is e ErrInvalidProfile = true.
Proof.
  induction l as [|[n q] l IH]; cbn; [done|].
  destruct (limits !! n); [case_bool_decide|]; [|exact IH..]. by intros [= <-].
Qed.

(** [ExecutionSettings.check] accepts settings exactly where every size is above zero, a
storage class is one Kubernetes accepts and no request is above its own limit, in whatever
order the requests are read; every refusal is [ErrInvalidProfile]. *)
Theorem Settings_check_spec s :
  (Settings_check s = Ok tt ↔
    Quantity_Sign (Settings_StorageSize s) > 0 ∧
    (∀ w, Settings_WorkspaceStorageSize s = Some w → Quantity_Sign w > 0) ∧
    (∀ c, Settings_StorageClassName s = Some c → IsDNS1123Subdomain c = []) ∧
    (∀ name request limit,
      Resources_Requests (Settings_Resources s) !! name = Some request →
      Resources_Limits (Settings_Resources s) !! name = Some limit →
      Quantity_Cmp request limit ≤ 0)) ∧
  (∀ e, Settings_check s = Err e → errors_is e ErrInvalidProfile = true).
Proof.
  unfold Settings_check.
  pose proof (requests_within_ok (map_to_list (Resources_Requests (Settings_Resources s)))
    (Resources_Limits (Settings_Resources s))) as Hreq.
  setoid_rewrite elem_of_map_to_list in Hreq.
  pose proof (requests_within_err (map_to_list (Resources_Requests (Settings_Resources s)))
    (Resources_Limits (Settings_Resources s))) as Herr.
  case_bool_decide as Hsize.
  { split; [split; [done|intros (? & _); lia]|by intros ? [= <-]]. }
  destruct (match Settings_WorkspaceStorageSize s with Some _ => _ | None => _ end) as [[]|] eqn:Hw;
    cbn; last first.
  { destruct (Settings_WorkspaceStorageSize s) as [w|]; [case_bool_decide|]; simplify_eq.
    split; [split; [done|intros (_ & Hw & _); specialize (Hw w eq_refl); lia]|by intros ? [= <-]]. }
  destruct (match Settings_StorageClassName s with Some _ => _ | None => _ end) as [[]|] eqn:Hc;
    cbn; last first.
  { destruct (Settings_StorageClassName s) as [class|]; [|done].
    destruct (IsDNS1123Subdomain class) eqn:Hclass; simplify_eq.
    split; [split; [done|intros (_ & _ & Hc & _); by rewrite Hc in Hclass]|by intros ? [= <-]]. }
  split; [|done]. rewrite Hreq. split; [intros Hall; split_and!|by intros (_ & _ & _ & ?)].
  - lia.
  - intros w Hs. rewrite Hs in Hw. case_bool_decide; [done|lia].
  - intros c Hs. rewrite Hs in Hc. by destruct (IsDNS1123Subdomain c).
  - exact Hall.
Qed.
End theorems.
End Validation.
