(* ===== verification/Repository.v ===== *)
(** The interface between package definition's service and its stores
    ([src/internal/definition/repository.go]): one call per method, each answered in one step, and
    the registrar the service creates agents through ([registrar.go]). *)
From S2P Require Import Prelude Errors Types.

Section repository.
Context `{K8s : Kubernetes}.

(** [definition.Repository]. [Lock] and [Unlock] bracket the function [WithAgentLock] runs,
    which runs only where [Lock] answers well. *)
Inductive repoE : Type → Type :=
| PublishProfile (org name : string) (settings : ExecutionSettings) : repoE (result Profile)
| PublishProfileVersion (org : string) (p : Profile) : repoE (result (Profile * bool))
| GetProfile (org : string) (ref : ProfileRef) : repoE (result Profile)
| PublishTemplate (org : string) (t : Template) : repoE (result Template)
| GetTemplate (org : string) (ref : TemplateRef) : repoE (result Template)
| ListTemplates (org : string) : repoE (result (list Template))
| ListProfiles (org : string) : repoE (result (list ProfileRef))
| PublishOnce (p : Publication) (t : Template) : repoE (result (Publication * bool))
| Configure (r : Request) (d : Definition_) : repoE (result Request)
| GetDefinition (agent : GRN) : repoE (result Definition_)
| GetPosition : repoE (result Position)
| Desired (operator : string) (limit : Z) : repoE (result DesiredPage)
| GetStatus (agent : GRN) : repoE (result Status)
| RecordStatus (agent : GRN) (s : Status) : repoE (result Status)
| BeginCreation (c : Creation) : repoE (result Creation)
| RegisterCreation (key : RequestKey) (d : Definition_) : repoE (result (Creation * bool))
| FailCreation (key : RequestKey) (reason : string) (conflict : bool) : repoE (result Creation)
| CreationOf (agent : GRN) : repoE (result Creation)
| RegisterPlacement (input : PlacementInput) : repoE (result (Placement * bool))
| CurrentPlacement (agent : GRN) : repoE (result Placement)
| Lock (agent : GRN) : repoE (result ())
| Unlock (agent : GRN) : repoE ()
| InsertActivation (a : Activation) : repoE (result Activation)
| GetActivation (agent : GRN) (requestID : string) : repoE (result Activation)
| RecordActivation (agent : GRN) (requestID activationID : string) : repoE (result ())
| LatestActivation (agent : GRN) : repoE (result string)
| ActivationOfGeneration (agent : GRN) (generation : string) : repoE (result string)
| ConfigureReference (agent : GRN) (revision : Revision) : repoE (result string)
| RecordRuntimeApplied (agent : GRN) (applied : RuntimeApplied) : repoE (result ())
| GetRuntimeApplied (agent : GRN) : repoE (result RuntimeApplied)
| OpenRecovery_ (r : Recovery) : repoE (result (Recovery * bool))
| LatestRecovery (agent : GRN) : repoE (result Recovery)
| PrepareRecovery (agent : GRN) (requestID epoch body : string) : repoE (result Recovery)
| FinalizeRecovery (agent : GRN) (requestID : string) (c : RecoveredCredential) :
  repoE (result Recovery)
| RecordStop (s : Stop) : repoE (result (Stop * bool))
| RecordDeactivation (key : RequestKey) : repoE (result ())
| RecordStart (agent : GRN) (end_ : StopEnd) : repoE (result Stop)
| CurrentStop (agent : GRN) : repoE (result Stop)
| RecordOperatorContact (orgGRN operator : string) (at_ : Time) : repoE (result ())
| ReportOperatorImages (orgGRN operator : string) (images : list OperatorImage) (at_ : Time) :
  repoE (result ())
| ListOperators (orgGRN : string) : repoE (result (list Operator)).

End repository.

(** [definition.Registrar]: garam, asked to create an agent. *)
Inductive registrarE : Type → Type :=
| Register (r : Registration) : registrarE (result Registered).
