(* ===== verification/Memory.v ===== *)
(** The in-process store ([src/internal/definition/repository/memory.go], [memory_lifecycle.go],
    [memory_operators.go]): its state, and each method as the one step it takes under the store's
    mutex. A Go map is a [gmap]; a map's missing slice reads as nil. *)
From S2P Require Import Prelude GoStd Errors Types Validation Repository.
Import Validation.

Module Memory.

(** [l[i]], which panics out of range. *)
Definition index {A} (l : list A) (i : Z) : option A :=
  if bool_decide (0 ≤ i) then l !! Z.to_nat i else None.
Definition out_of_range : error := Panic "index out of range".

(** [m[k]] where a missing key reads as nil. *)
Definition slice `{Countable K} {A} (m : gmap K (list A)) (k : K) : list A := default [] (m !! k).

Record storedOperator := mkStoredOperator { stored_orgGRN : string; stored_operator : Operator }.

Section memory.
Context `{K8s : Kubernetes, SE : !SemanticEquality}.

Record mem := mkMem {
  profiles : gmap (string * string) (list Profile);
  templates : gmap (string * string) (list Template);
  definitions : gmap GRN (list Definition_);
  positions : gmap GRN (list Position);
  position : Position;
  statuses : gmap GRN Status;
  creations : gmap RequestKey Creation;
  requests : gmap RequestKey Request;
  placements : gmap GRN (gmap string Placement);
  activations : gmap GRN (gmap string Activation);
  latest : gmap GRN string;
  applied : gmap GRN RuntimeApplied;
  publications : gmap RequestKey Publication;
  recoveries : gmap GRN (list Recovery);
  stops : gmap RequestKey Stop;
  stopEnds : gmap RequestKey RequestKey;
  operators : gmap string storedOperator;
}.

Definition NewMemory : mem := mkMem ∅ ∅ ∅ ∅ 0 ∅ ∅ ∅ ∅ ∅ ∅ ∅ ∅ ∅ ∅ ∅ ∅.

(** Assignments to one field. *)
Definition set_profiles v m := mkMem v (templates m) (definitions m) (positions m) (position m)
  (statuses m) (creations m) (requests m) (placements m) (activations m) (latest m) (applied m)
  (publications m) (recoveries m) (stops m) (stopEnds m) (operators m).
Definition set_templates v m := mkMem (profiles m) v (definitions m) (positions m) (position m)
  (statuses m) (creations m) (requests m) (placements m) (activations m) (latest m) (applied m)
  (publications m) (recoveries m) (stops m) (stopEnds m) (operators m).
Definition set_definitions v m := mkMem (profiles m) (templates m) v (positions m) (position m)
  (statuses m) (creations m) (requests m) (placements m) (activations m) (latest m) (applied m)
  (publications m) (recoveries m) (stops m) (stopEnds m) (operators m).
Definition set_positions v m := mkMem (profiles m) (templates m) (definitions m) v (position m)
  (statuses m) (creations m) (requests m) (placements m) (activations m) (latest m) (applied m)
  (publications m) (recoveries m) (stops m) (stopEnds m) (operators m).
Definition set_position v m := mkMem (profiles m) (templates m) (definitions m) (positions m) v
  (statuses m) (creations m) (requests m) (placements m) (activations m) (latest m) (applied m)
  (publications m) (recoveries m) (stops m) (stopEnds m) (operators m).
Definition set_statuses v m := mkMem (profiles m) (templates m) (definitions m) (positions m)
  (position m) v (creations m) (requests m) (placements m) (activations m) (latest m) (applied m)
  (publications m) (recoveries m) (stops m) (stopEnds m) (operators m).
Definition set_creations v m := mkMem (profiles m) (templates m) (definitions m) (positions m)
  (position m) (statuses m) v (requests m) (placements m) (activations m) (latest m) (applied m)
  (publications m) (recoveries m) (stops m) (stopEnds m) (operators m).
Definition set_requests v m := mkMem (profiles m) (templates m) (definitions m) (positions m)
  (position m) (statuses m) (creations m) v (placements m) (activations m) (latest m) (applied m)
  (publications m) (recoveries m) (stops m) (stopEnds m) (operators m).
Definition set_placements v m := mkMem (profiles m) (templates m) (definitions m) (positions m)
  (position m) (statuses m) (creations m) (requests m) v (activations m) (latest m) (applied m)
  (publications m) (recoveries m) (stops m) (stopEnds m) (operators m).
Definition set_activations v m := mkMem (profiles m) (templates m) (definitions m) (positions m)
  (position m) (statuses m) (creations m) (requests m) (placements m) v (latest m) (applied m)
  (publications m) (recoveries m) (stops m) (stopEnds m) (operators m).
Definition set_latest v m := mkMem (profiles m) (templates m) (definitions m) (positions m)
  (position m) (statuses m) (creations m) (requests m) (placements m) (activations m) v (applied m)
  (publications m) (recoveries m) (stops m) (stopEnds m) (operators m).
Definition set_applied v m := mkMem (profiles m) (templates m) (definitions m) (positions m)
  (position m) (statuses m) (creations m) (requests m) (placements m) (activations m) (latest m) v
  (publications m) (recoveries m) (stops m) (stopEnds m) (operators m).
Definition set_publications v m := mkMem (profiles m) (templates m) (definitions m) (positions m)
  (position m) (statuses m) (creations m) (requests m) (placements m) (activations m) (latest m)
  (applied m) v (recoveries m) (stops m) (stopEnds m) (operators m).
Definition set_recoveries v m := mkMem (profiles m) (templates m) (definitions m) (positions m)
  (position m) (statuses m) (creations m) (requests m) (placements m) (activations m) (latest m)
  (applied m) (publications m) v (stops m) (stopEnds m) (operators m).
Definition set_stops v m := mkMem (profiles m) (templates m) (definitions m) (positions m)
  (position m) (statuses m) (creations m) (requests m) (placements m) (activations m) (latest m)
  (applied m) (publications m) (recoveries m) v (stopEnds m) (operators m).
Definition set_stopEnds v m := mkMem (profiles m) (templates m) (definitions m) (positions m)
  (position m) (statuses m) (creations m) (requests m) (placements m) (activations m) (latest m)
  (applied m) (publications m) (recoveries m) (stops m) v (operators m).
Definition set_operators v m := mkMem (profiles m) (templates m) (definitions m) (positions m)
  (position m) (statuses m) (creations m) (requests m) (placements m) (activations m) (latest m)
  (applied m) (publications m) (recoveries m) (stops m) (stopEnds m) v.

(** [m.position++]: one step per stored row, never near 2^63. *)
Definition bump (m : mem) : mem := set_position (position m + 1) m.

(** ** Profiles and templates *)
Definition publish_profile org name settings m : result Profile * mem :=
  let versions := slice (profiles m) (org, name) in
  let p := mkProfile name (Z.of_nat (length versions) + 1) settings in
  (Ok p, set_profiles (<[(org, name) := versions ++ [p]]> (profiles m)) m).

Definition publish_profile_version org (p : Profile) m : result (Profile * bool) * mem :=
  let key := (org, Profile_Name p) in
  let versions := slice (profiles m) key in
  let len := Z.of_nat (length versions) in
  if bool_decide (Profile_Version p ≤ len) then
  match index versions (Profile_Version p - 1) with
  | None => (Err out_of_range, m)
  | Some stored =>
    if negb (Settings_Same (Profile_Settings stored) (Profile_Settings p))
    then (Err ErrProfileVersionConflict, m)
    else (Ok (stored, false), m)
  end
  else if negb (bool_decide (Profile_Version p = len + 1)) then (Err ErrProfileVersionGap, m)
  else
  let p := mkProfile (Profile_Name p) (Profile_Version p) (Profile_Settings p) in
  (Ok (p, true), set_profiles (<[key := versions ++ [p]]> (profiles m)) m).

(** Versions are read at [ref.Version-1], refusing one below 1 or past the last. *)
Definition get_version {A} (versions : list A) (version : Version) : result A :=
  if bool_decide (version < 1) || bool_decide (version > Z.of_nat (length versions))
  then Err ErrNotFound
  else match index versions (version - 1) with Some v => Ok v | None => Err out_of_range end.

Definition get_profile org (ref : ProfileRef) m : result Profile * mem :=
  (get_version (slice (profiles m) (org, ProfileRef_Name ref)) (ProfileRef_Version ref), m).

Definition with_version (t : Template) (v : Version) : Template :=
  mkTemplate (Template_Name t) v (Template_Profile t) (Template_Config t).

Definition publish_template org (t : Template) m : result Template * mem :=
  let key := (org, Template_Name t) in
  let versions := slice (templates m) key in
  let t := with_version t (Z.of_nat (length versions) + 1) in
  (Ok t, set_templates (<[key := versions ++ [t]]> (templates m)) m).

Definition get_template org (ref : TemplateRef) m : result Template * mem :=
  (get_version (slice (templates m) (org, TemplateRef_Name ref)) (TemplateRef_Version ref), m).

(** [cmp.Compare] on two names. *)
Definition template_le (a b : Template) : Prop := String.le (Template_Name a) (Template_Name b).
#[global] Instance template_le_dec : RelDecision template_le.
Proof. intros a b. unfold template_le. apply _. Defined.

Definition list_templates org m : result (list Template) * mem :=
  let latest := omap (λ '(key, versions), if bool_decide (key.1 = org) then last versions else None)
  (map_to_list (templates m)) in
  (Ok (merge_sort template_le latest), m).

Definition ref_le (a b : ProfileRef) : Prop :=
  if bool_decide (ProfileRef_Name a = ProfileRef_Name b)
  then ProfileRef_Version a ≤ ProfileRef_Version b
  else String.le (ProfileRef_Name a) (ProfileRef_Name b).
#[global] Instance ref_le_dec : RelDecision ref_le.
Proof. intros a b. unfold ref_le. case_bool_decide; apply _. Defined.

Definition list_profiles org m : result (list ProfileRef) * mem :=
  let refs := map_to_list (profiles m) ≫= (λ '(key, versions),
    if bool_decide (key.1 = org)
    then (λ p, mkProfileRef (Profile_Name p) (Profile_Version p)) <$> versions else []) in
  (Ok (merge_sort ref_le refs), m).

Definition publish_once (p : Publication) (t : Template) m : result (Publication * bool) * mem :=
  match publications m !! Publication_Key p with
  | Some stored => (Ok (stored, false), m)
  | None =>
    let key := (Key_Organization (Publication_Key p), Template_Name t) in
    let versions := slice (templates m) key in
    let t := with_version t (Z.of_nat (length versions) + 1) in
    let p := mkPublication (Publication_Key p) (Publication_Binding p)
    (mkTemplateRef (Template_Name t) (Template_Version t)) in
    (Ok (p, true),
      set_publications (<[Publication_Key p := p]> (publications m))
      (set_templates (<[key := versions ++ [t]]> (templates m)) m))
  end.

(** ** Definitions *)

(** [appendLocked]: stores [d] where its revision is one past the agent's latest. *)
Definition append (d : Definition_) m : result () * mem :=
  let revisions := slice (definitions m) (Definition_Agent d) in
  if negb (bool_decide (Definition_Revision d = Z.of_nat (length revisions) + 1))
  then (Err ErrStaleRevision, m)
  else
  let m := bump m in
  let m := set_definitions (<[Definition_Agent d := revisions ++ [d]]> (definitions m)) m in
  (Ok tt,
    set_positions (<[Definition_Agent d :=
      slice (positions m) (Definition_Agent d) ++ [position m]]> (positions m)) m).

Definition with_outcome (r : Request) (o : RequestOutcome) : Request :=
  mkRequest (Request_Key r) (Request_Binding r) (Request_Agent r) o.

Definition configure (r : Request) (d : Definition_) m : result Request * mem :=
  match requests m !! Request_Key r with
  | Some stored => (Ok stored, m)
  | None =>
    match slice (definitions m) (Definition_Agent d) with
    | [] => (Err ErrNotFound, m)
    | first :: _ =>
      if negb (bool_decide (Definition_Organization first = Definition_Organization d))
      then (Err ErrNotFound, m)
      else
      let '(appended, m) := append d m in
      let r := with_outcome r match appended with
      | Ok _ => Applied (Definition_Revision d)
      | Err _ => Stale
      end in
      (Ok r, set_requests (<[Request_Key r := r]> (requests m)) m)
    end
  end.

Definition get_definition agent m : result Definition_ * mem :=
  (match last (slice (definitions m) agent) with Some d => Ok d | None => Err ErrNotFound end, m).

Definition get_position m : result Position * mem := (Ok (position m), m).

(** ** Stops and recoveries *)

(** [currentStopLocked]. *)
Definition current_stop_locked agent m : option Stop :=
  find_value (λ s, bool_decide (Stop_Agent s = agent) && bool_decide (Stop_Start s = None)) (stops m).

(** [openRecoveryLocked]. *)
Definition open_recovery_locked agent m : option OpenRecovery :=
  r ← List.find (λ r, negb (bool_decide (Recovery_Stage r = RecoveryFinalized)))
  (slice (recoveries m) agent);
  Some (mkOpenRecovery (Recovery_RequestID r) (Recovery_Epoch r)).

(** [recoveryLocked]: the index of the agent's recovery [requestID]. *)
Definition recovery_locked agent requestID m : option nat :=
  fst <$> list_find (λ r, Recovery_RequestID r = requestID) (slice (recoveries m) agent).

(** ** The feed *)
Record owed := mkOwed { owed_revision : DesiredRevision; owed_position : Position }.
Definition owed_le (a b : owed) : Prop := owed_position a ≤ owed_position b.
#[global] Instance owed_le_dec : RelDecision owed_le.
Proof. intros a b. unfold owed_le. apply _. Defined.

(** What the loop of [Desired] adds for one agent: nothing for one recorded for no assignment or
for another controller. *)
Definition owed_of operator m (entry : GRN * list Definition_) : result (option owed) :=
  let '(agent, revisions) := entry in
  match last revisions with
  | None => Err out_of_range
  | Some latest =>
    match Definition_Assignment latest with
    | None => Ok None
    | Some a =>
      if negb (bool_decide (Assignment_Operator a = operator)) then Ok None
      else
      match index (slice (profiles m)
        (Definition_Organization latest, ProfileRef_Name (Definition_Profile latest)))
        (ProfileRef_Version (Definition_Profile latest) - 1),
        index (slice (positions m) agent) (Z.of_nat (length revisions) - 1) with
      | Some profile, Some pos =>
        Ok (Some (mkOwed
          (mkDesiredRevision latest (Profile_Settings profile)
            (bool_decide (current_stop_locked agent m ≠ None))
            (open_recovery_locked agent m)) pos))
      | _, _ => Err out_of_range
      end
    end
  end.

Fixpoint collect_owed operator m (entries : list (GRN * list Definition_)) : result (list owed) :=
  match entries with
  | [] => Ok []
  | entry :: rest =>
    o ← owed_of operator m entry;
    found ← collect_owed operator m rest;
    Ok (match o with Some o => o :: found | None => found end)
  end.

Definition desired operator (limit : Z) m : result DesiredPage * mem :=
  (found ← collect_owed operator m (map_to_list (definitions m));
    let found := merge_sort owed_le found in
    if bool_decide (limit < 0) then Err out_of_range
    else Ok (mkDesiredPage (position m)
      (owed_revision <$> take (Z.to_nat (limit `min` Z.of_nat (length found))) found)),
    m).

(** ** Statuses *)
Definition status_of agent m : Status := default zeroStatus (statuses m !! agent).
Definition get_status agent m : result Status * mem := (Ok (status_of agent m), m).

Definition record_status agent (s : Status) m : result Status * mem :=
  let stored := status_of agent m in
  let stored := mkStatus (Status_Observed stored `max` Status_Observed s)
  (Status_Rendered stored `max` Status_Rendered s) (Status_Applied stored) in
  (Ok stored, set_statuses (<[agent := stored]> (statuses m)) m).

(** ** Creations *)
Definition creation_outcome (c : Creation) (o : Outcome) : Creation :=
  mkCreation (Creation_Key c) (Creation_Binding c) (Creation_Controller c) (Creation_Template c)
  (Creation_Profile c) o.

Definition begin_creation (c : Creation) m : result Creation * mem :=
  match creations m !! Creation_Key c with
  | Some stored => (Ok stored, m)
  | None =>
    let c := creation_outcome c Pending in
    (Ok c, set_creations (<[Creation_Key c := c]> (creations m)) m)
  end.

Definition register_creation key (d : Definition_) m : result (Creation * bool) * mem :=
  match creations m !! key with
  | None => (Err ErrNotFound, m)
  | Some c =>
    if negb (bool_decide (Creation_Outcome c = Pending)) then (Ok (c, false), m)
    else match append d m with
    | (Err e, m) => (Err e, m)
    | (Ok _, m) =>
      match Definition_Assignment d with
      | None => (Err (Panic "nil pointer dereference"), m)
      | Some a =>
        let c := creation_outcome c
        (RegisteredAs (mkRegistered (Definition_Agent d) (Assignment_Epoch a))) in
        (Ok (c, true), set_creations (<[key := c]> (creations m)) m)
      end
    end
  end.

Definition fail_creation key reason conflict m : result Creation * mem :=
  match creations m !! key with
  | None => (Err ErrNotFound, m)
  | Some c =>
    if negb (bool_decide (Creation_Outcome c = Pending)) then (Ok c, m)
    else let c := creation_outcome c (Failed reason conflict) in
    (Ok c, set_creations (<[key := c]> (creations m)) m)
  end.

(** Whether a creation's outcome registered [agent]. *)
Definition registered_agent agent (c : Creation) : bool :=
  match Creation_Outcome c with
  | RegisteredAs r => bool_decide (Registered_Agent r = agent)
  | _ => false
  end.

Definition creation_of agent m : result Creation * mem :=
  (match find_value (registered_agent agent) (creations m) with
  | Some c => Ok c
  | None => Err ErrNotFound
  end, m).

(** ** Placements *)
Definition superseded (p : Placement) : Placement :=
  mkPlacement (Placement_Agent p) (Placement_Controller p) (Placement_Request p) true.

Definition agent_placements agent m : gmap string Placement := default ∅ (placements m !! agent).

Definition register_placement (input : PlacementInput) m : result (Placement * bool) * mem :=
  let agent := PlacementInput_Agent input in
  let uid := PlacementRequest_PodUID (PlacementInput_Request input) in
  let stored := agent_placements agent m in
  let current := find_value (λ p, negb (Placement_Superseded p)) stored in
  let same := stored !! uid in
  match DecidePlacement current same input with
  | Err e => (Err e, m)
  | Ok PlacementRepeat =>
    match same with
    | Some same => (Ok (same, false), m)
    | None => (Err (Panic "nil pointer dereference"), m)
    end
  | Ok PlacementRegister =>
    let stored := match current with
    | Some current =>
      <[PlacementRequest_PodUID (Placement_Request current) := superseded current]> stored
    | None => stored
    end in
    let p := mkPlacement agent (PlacementInput_Controller input) (PlacementInput_Request input) false in
    (Ok (p, true), set_placements (<[agent := <[uid := p]> stored]> (placements m)) m)
  end.

Definition current_placement agent m : result Placement * mem :=
  (match find_value (λ p, negb (Placement_Superseded p)) (agent_placements agent m) with
  | Some p => Ok p
  | None => Err ErrNotFound
  end, m).

(** ** Activations *)
Definition agent_activations agent m : gmap string Activation := default ∅ (activations m !! agent).

Definition insert_activation (a : Activation) m : result Activation * mem :=
  let stored := agent_activations (Activation_Agent a) m in
  let m := set_activations (<[Activation_Agent a := stored]> (activations m)) m in
  let id := ActivationRequest_RequestID (Activation_Request a) in
  match stored !! id with
  | Some existing => (Ok existing, m)
  | None => (Ok a, set_activations (<[Activation_Agent a := <[id := a]> stored]> (activations m)) m)
  end.

Definition get_activation agent requestID m : result Activation * mem :=
  (match agent_activations agent m !! requestID with Some a => Ok a | None => Err ErrNotFound end, m).

Definition with_activation (a : Activation) id : Activation :=
  mkActivation (Activation_Agent a) (Activation_Request a) (Activation_ReplacesActivationID a)
  (Activation_OperationRef a) id.

Definition record_activation agent requestID activationID m : result () * mem :=
  match agent_activations agent m !! requestID with
  | None => (Err ErrNotFound, m)
  | Some a =>
    if negb (bool_decide (Activation_ActivationID a = "")) &&
    negb (bool_decide (Activation_ActivationID a = activationID))
    then (Err ErrActivationMismatch, m)
    else
    let m := set_activations
    (<[agent := <[requestID := with_activation a activationID]> (agent_activations agent m)]>
      (activations m)) m in
    (Ok tt, set_latest (<[agent := activationID]> (latest m)) m)
  end.

Definition latest_activation agent m : result string * mem :=
  (match latest m !! agent with Some id => Ok id | None => Err ErrNotFound end, m).

Definition activation_of_generation agent generation m : result string * mem :=
  (match find_value (λ a,
    bool_decide (ActivationRequest_Generation (Activation_Request a) = generation) &&
    negb (bool_decide (Activation_ActivationID a = ""))) (agent_activations agent m) with
  | Some a => Ok (Activation_ActivationID a)
  | None => Err ErrNotFound
  end, m).

(** Whether a configure request applied the agent's [revision]. *)
Definition applied_revision agent revision (r : Request) : bool :=
  match Request_Outcome r with
  | Applied r' => bool_decide (Request_Agent r = agent) && bool_decide (r' = revision)
  | Stale => false
  end.

Definition configure_reference agent revision m : result string * mem :=
  (match find_value (applied_revision agent revision) (requests m) with
  | Some r => Ok (Binding_OperationRef (Request_Binding r))
  | None => Err ErrNotFound
  end, m).

Definition record_runtime_applied agent (a : RuntimeApplied) m : result () * mem :=
  let m := set_applied (<[agent := a]> (applied m)) m in
  let status := status_of agent m in
  (Ok tt, set_statuses (<[agent := mkStatus (Status_Observed status) (Status_Rendered status)
    (Some (RuntimeApplied_Revision a))]> (statuses m)) m).

Definition get_runtime_applied agent m : result RuntimeApplied * mem :=
  (match applied m !! agent with Some a => Ok a | None => Err ErrNotFound end, m).

(** ** Recoveries *)
Definition open_recovery (r : Recovery) m : result (Recovery * bool) * mem :=
  match List.find (λ stored, bool_decide (Recovery_Key stored = Recovery_Key r))
    (concat (map_to_list (recoveries m)).*2) with
  | Some stored => (Ok (stored, false), m)
  | None =>
    match recovery_locked (Recovery_Agent r) (Recovery_RequestID r) m with
    | Some _ => (Err ErrRequestReused, m)
    | None =>
      match open_recovery_locked (Recovery_Agent r) m with
      | Some _ => (Err ErrRecoveryOpen, m)
      | None =>
        let all := slice (recoveries m) (Recovery_Agent r) ++ [r] in
        (Ok (r, true), bump (set_recoveries (<[Recovery_Agent r := all]> (recoveries m)) m))
      end
    end
  end.

Definition latest_recovery agent m : result Recovery * mem :=
  (match last (slice (recoveries m) agent) with Some r => Ok r | None => Err ErrNotFound end, m).

Definition prepared (r : Recovery) body : Recovery :=
  mkRecovery (Recovery_Agent r) (Recovery_RequestID r) (Recovery_Key r) (Recovery_Binding r)
  (Recovery_Epoch r) RecoveryPrepared body (Recovery_Recovered r).
Definition finalized (r : Recovery) c : Recovery :=
  mkRecovery (Recovery_Agent r) (Recovery_RequestID r) (Recovery_Key r) (Recovery_Binding r)
  (Recovery_Epoch r) RecoveryFinalized (Recovery_Body r) (Some c).

(** Writes [r] at index [i] of the agent's recoveries, as through the pointer the source holds. *)
Definition write_recovery agent i (r : Recovery) m : mem :=
  set_recoveries (<[agent := <[i := r]> (slice (recoveries m) agent)]> (recoveries m)) m.

Definition prepare_recovery agent requestID epoch body m : result Recovery * mem :=
  match recovery_locked agent requestID m with
  | None => (Err ErrNotFound, m)
  | Some i =>
    match slice (recoveries m) agent !! i with
    | None => (Err out_of_range, m)
    | Some r =>
      if negb (bool_decide (Recovery_Epoch r = epoch)) then (Err ErrRecoveryEpoch, m)
      else if bool_decide (Recovery_Stage r = RecoveryRequested)
      then let r := prepared r body in (Ok r, write_recovery agent i r m)
      else if negb (bool_decide (Recovery_Body r = body)) &&
      bool_decide (Recovery_Stage r = RecoveryFinalized)
      then (Err ErrRecoveryStage, m)
      else if negb (bool_decide (Recovery_Body r = body)) then (Err ErrRequestReused, m)
      else (Ok r, m)
    end
  end.

Definition finalize_recovery agent requestID (c : RecoveredCredential) m : result Recovery * mem :=
  match recovery_locked agent requestID m with
  | None => (Err ErrNotFound, m)
  | Some i =>
    match slice (recoveries m) agent !! i with
    | None => (Err out_of_range, m)
    | Some r =>
      match Recovery_Stage r with
      | RecoveryFinalized => (Ok r, m)
      | RecoveryPrepared =>
        let r := finalized r c in (Ok r, bump (write_recovery agent i r m))
      | RecoveryRequested => (Err ErrRecoveryStage, m)
      end
    end
  end.

(** ** Stops *)
Definition record_stop (s : Stop) m : result (Stop * bool) * mem :=
  match stops m !! Stop_Key s with
  | Some stored => (Ok (stored, false), m)
  | None =>
    match current_stop_locked (Stop_Agent s) m with
    | Some _ => (Err ErrAgentStopped, m)
    | None =>
      let s := mkStop (Stop_Agent s) (Stop_Key s) (Stop_Binding s) (Stop_ActivationID s) false None in
      (Ok (s, true), bump (set_stops (<[Stop_Key s := s]> (stops m)) m))
    end
  end.

Definition record_deactivation key m : result () * mem :=
  match stops m !! key with
  | None => (Err ErrNotFound, m)
  | Some s =>
    let s := mkStop (Stop_Agent s) (Stop_Key s) (Stop_Binding s) (Stop_ActivationID s) true
    (Stop_Start s) in
    (Ok tt, set_stops (<[key := s]> (stops m)) m)
  end.

Definition zeroStop : Stop :=
  mkStop "" (mkRequestKey "" "") (mkBinding "" "" "" "" "" (mkAssignment "" "")) "" false None.

Definition record_start agent (end_ : StopEnd) m : result Stop * mem :=
  match stopEnds m !! StopEnd_Key end_ with
  | Some stopKey => (Ok (default zeroStop (stops m !! stopKey)), m)
  | None =>
    match current_stop_locked agent m with
    | None => (Err ErrAgentNotStopped, m)
    | Some current =>
      let stored := mkStop (Stop_Agent current) (Stop_Key current) (Stop_Binding current)
      (Stop_ActivationID current) (Stop_Deactivated current) (Some end_) in
      (Ok stored,
        bump (set_stopEnds (<[StopEnd_Key end_ := Stop_Key stored]> (stopEnds m))
          (set_stops (<[Stop_Key stored := stored]> (stops m)) m)))
    end
  end.

Definition current_stop agent m : result Stop * mem :=
  (match current_stop_locked agent m with Some s => Ok s | None => Err ErrNotFound end, m).

(** ** Operators *)

(** [operatorLocked]: the operator as stored, or a new one, held by [orgGRN]. *)
Definition operator_locked orgGRN operator m : storedOperator :=
  mkStoredOperator orgGRN
  match operators m !! operator with
  | Some stored => stored_operator stored
  | None => mkOperator operator [] None None
  end.

Definition record_operator_contact orgGRN operator (at_ : Time) m : result () * mem :=
  let stored := operator_locked orgGRN operator m in
  let o := stored_operator stored in
  let contacted := match Operator_LastContactAt o with
  | None => true
  | Some last => bool_decide (last < at_)
  end in
  let o := if contacted
  then mkOperator (Operator_GRN o) (Operator_Images o) (Operator_ReportedAt o) (Some at_)
  else o in
  (Ok tt, set_operators (<[operator := mkStoredOperator (stored_orgGRN stored) o]> (operators m)) m).

Definition report_operator_images orgGRN operator images (at_ : Time) m : result () * mem :=
  let stored := operator_locked orgGRN operator m in
  let o := stored_operator stored in
  let newer := match Operator_ReportedAt o with
  | None => true
  | Some last => negb (bool_decide (last > at_))
  end in
  let o := if newer
  then mkOperator (Operator_GRN o) images (Some at_) (Operator_LastContactAt o)
  else o in
  (Ok tt, set_operators (<[operator := mkStoredOperator (stored_orgGRN stored) o]> (operators m)) m).

Definition operator_le (a b : Operator) : Prop := String.le (Operator_GRN a) (Operator_GRN b).
#[global] Instance operator_le_dec : RelDecision operator_le.
Proof. intros a b. unfold operator_le. apply _. Defined.

Definition list_operators orgGRN m : result (list Operator) * mem :=
  (Ok (merge_sort operator_le
    (omap (λ stored, if bool_decide (stored_orgGRN stored = orgGRN)
      then Some (stored_operator stored) else None)
      (map_to_list (operators m)).*2)), m).

(** ** The store as a handler of the interface's calls. The lock is the caller's: [Lock] and
[Unlock] change nothing of the store (file Concurrent interleaves them). *)
Definition handle : handler repoE mem := λ X e,
  match e in repoE X return mem → X * mem with
  | PublishProfile org name settings => publish_profile org name settings
  | PublishProfileVersion org p => publish_profile_version org p
  | GetProfile org ref => get_profile org ref
  | PublishTemplate org t => publish_template org t
  | GetTemplate org ref => get_template org ref
  | ListTemplates org => list_templates org
  | ListProfiles org => list_profiles org
  | PublishOnce p t => publish_once p t
  | Configure r d => configure r d
  | GetDefinition agent => get_definition agent
  | GetPosition => get_position
  | Desired operator limit => desired operator limit
  | GetStatus agent => get_status agent
  | RecordStatus agent s => record_status agent s
  | BeginCreation c => begin_creation c
  | RegisterCreation key d => register_creation key d
  | FailCreation key reason conflict => fail_creation key reason conflict
  | CreationOf agent => creation_of agent
  | RegisterPlacement input => register_placement input
  | CurrentPlacement agent => current_placement agent
  | Lock _ => λ m, (Ok tt, m)
  | Unlock _ => λ m, (tt, m)
  | InsertActivation a => insert_activation a
  | GetActivation agent requestID => get_activation agent requestID
  | RecordActivation agent requestID activationID => record_activation agent requestID activationID
  | LatestActivation agent => latest_activation agent
  | ActivationOfGeneration agent generation => activation_of_generation agent generation
  | ConfigureReference agent revision => configure_reference agent revision
  | RecordRuntimeApplied agent a => record_runtime_applied agent a
  | GetRuntimeApplied agent => get_runtime_applied agent
  | OpenRecovery_ r => open_recovery r
  | LatestRecovery agent => latest_recovery agent
  | PrepareRecovery agent requestID epoch body => prepare_recovery agent requestID epoch body
  | FinalizeRecovery agent requestID c => finalize_recovery agent requestID c
  | RecordStop s => record_stop s
  | RecordDeactivation key => record_deactivation key
  | RecordStart agent end_ => record_start agent end_
  | CurrentStop agent => current_stop agent
  | RecordOperatorContact orgGRN operator at_ => record_operator_contact orgGRN operator at_
  | ReportOperatorImages orgGRN operator images at_ =>
    report_operator_images orgGRN operator images at_
  | ListOperators orgGRN => list_operators orgGRN
  end.
End memory.
End Memory.
