(* ===== verification/MemoryInvariant.v ===== *)
(** The well-formedness of the in-process store, part by part, and that every call of the interface
    keeps it: revisions numbered from 1 without a gap and of one organization, positions distinct
    and growing, one current stop, placement and open recovery per agent, one creation and one
    configure request per revision. *)
From S2P Require Import Prelude GoStd Errors Types Validation Repository Memory.
Import Validation Memory.

Module MemoryInvariant.

(** ** Slices of a map *)
Section slice.
Context `{Countable K} {A : Type}.
Implicit Types (m : gmap K (list A)).

Lemma slice_insert m k v k' : slice (<[k:=v]> m) k' = if decide (k = k') then v else slice m k'.
Proof. unfold slice. rewrite lookup_insert. by case_decide. Qed.
Lemma slice_insert_eq m k v : slice (<[k:=v]> m) k = v.
Proof. rewrite slice_insert. by case_decide. Qed.
Lemma slice_insert_ne m k v k' : k ≠ k' → slice (<[k:=v]> m) k' = slice m k'.
Proof. intros. rewrite slice_insert. by case_decide. Qed.
Lemma slice_Some m k v : m !! k = Some v → slice m k = v.
Proof. unfold slice. by intros ->. Qed.
Lemma slice_lookup m k i a : slice m k !! i = Some a → ∃ v, m !! k = Some v ∧ v !! i = Some a.
Proof. unfold slice. destruct (m !! k) as [v|]; [|done]. cbn. eauto. Qed.

(** A grown slice: an old entry at its old index, or the new one at the end. *)
Lemma slice_push_lookup m k a k' i b :
  slice (<[k:=slice m k ++ [a]]> m) k' !! i = Some b →
  slice m k' !! i = Some b ∨ (k' = k ∧ i = length (slice m k) ∧ b = a).
Proof.
  rewrite slice_insert. case_decide as Hk; [subst k'|by left].
  intros [?|[-> ->]]%lookup_snoc_Some; [by left|by right].
Qed.
Lemma slice_push_mono m k a k' i b :
  slice m k' !! i = Some b → slice (<[k:=slice m k ++ [a]]> m) k' !! i = Some b.
Proof.
  intros Hi. rewrite slice_insert. case_decide as Hk; [subst k'|done]. by apply lookup_app_l_Some.
Qed.
End slice.

Lemma index_Some {A} (l : list A) i a :
  index l i = Some a ↔ 0 ≤ i ∧ l !! Z.to_nat i = Some a.
Proof. unfold index. case_bool_decide; naive_solver. Qed.

Lemma index_of_nat {A} (l : list A) (n : nat) : index l (Z.of_nat n) = l !! n.
Proof. unfold index. rewrite bool_decide_true by lia. by rewrite Nat2Z.id. Qed.

Lemma last_lookup_Some {A} (l : list A) x : last l = Some x → l !! (length l - 1)%nat = Some x.
Proof. rewrite last_lookup. by replace (Nat.pred (length l)) with (length l - 1)%nat by lia. Qed.

Section invariant.
Context `{K8s : Kubernetes, SE : !SemanticEquality}.

(** ** The parts *)

(** Version [i+1] of a profile is at index [i], under its own name. *)
Definition profiles_ok (ps : gmap (string * string) (list Profile)) : Prop :=
  ∀ org name i p, slice ps (org, name) !! i = Some p →
  Profile_Name p = name ∧ Profile_Version p = Z.of_nat i + 1.

Definition templates_ok (ts : gmap (string * string) (list Template)) : Prop :=
  ∀ org name i t, slice ts (org, name) !! i = Some t →
  Template_Name t = name ∧ Template_Version t = Z.of_nat i + 1.

(** [org] published the profile version [ref] names. *)
Definition published (ps : gmap (string * string) (list Profile)) org (ref : ProfileRef) : Prop :=
  is_Some (index (slice ps (org, ProfileRef_Name ref)) (ProfileRef_Version ref - 1)).

(** An agent's revisions are numbered from 1, of its first one's organization, and each names a
profile version that organization published. *)
Definition definitions_ok (ds : gmap GRN (list Definition_)) ps : Prop :=
  (∀ agent, ds !! agent ≠ Some []) ∧
  ∀ agent i d, slice ds agent !! i = Some d →
  Definition_Agent d = agent ∧ Definition_Revision d = Z.of_nat i + 1 ∧
  published ps (Definition_Organization d) (Definition_Profile d) ∧
  ∀ d0, slice ds agent !! 0%nat = Some d0 →
  Definition_Organization d = Definition_Organization d0.

(** Every revision has a position of its own, later ones greater, none past the store's. *)
Definition positions_ok (ds : gmap GRN (list Definition_)) (pos : gmap GRN (list Position)) n : Prop :=
  0 ≤ n ∧
  (∀ agent, length (slice pos agent) = length (slice ds agent)) ∧
  (∀ agent i p, slice pos agent !! i = Some p → 1 ≤ p ≤ n) ∧
  (∀ a i b j p, slice pos a !! i = Some p → slice pos b !! j = Some p → a = b ∧ i = j) ∧
  (∀ a i j p q, slice pos a !! i = Some p → slice pos a !! j = Some q → (i < j)%nat → p < q).

(** At most one configure request applied each revision, and only a revision after the first. *)
Definition requests_ok (rs : gmap RequestKey Request) (ds : gmap GRN (list Definition_)) : Prop :=
  (∀ k r, rs !! k = Some r → Request_Key r = k) ∧
  (∀ k r v, rs !! k = Some r → Request_Outcome r = Applied v →
    2 ≤ v ≤ Z.of_nat (length (slice ds (Request_Agent r)))) ∧
  (∀ k r k' r' v, rs !! k = Some r → rs !! k' = Some r' → Request_Agent r = Request_Agent r' →
    Request_Outcome r = Applied v → Request_Outcome r' = Applied v → k = k').

(** A registered creation has its agent's first revision, under the epoch it was registered at and
in its own organization; at most one creation registered each agent. *)
Definition creations_ok (cs : gmap RequestKey Creation) (ds : gmap GRN (list Definition_)) : Prop :=
  (∀ k c, cs !! k = Some c → Creation_Key c = k) ∧
  (∀ k c r, cs !! k = Some c → Creation_Outcome c = RegisteredAs r →
    ∃ d a, slice ds (Registered_Agent r) !! 0%nat = Some d ∧
    Definition_Organization d = Key_Organization k ∧
    Definition_Assignment d = Some a ∧ Assignment_Epoch a = Registered_Epoch r) ∧
  (∀ k c r k' c' r', cs !! k = Some c → cs !! k' = Some c' →
    Creation_Outcome c = RegisteredAs r → Creation_Outcome c' = RegisteredAs r' →
    Registered_Agent r = Registered_Agent r' → k = k').

(** At most one stop holds an agent, and a start's key names the stop it ended. *)
Definition stops_ok (ss : gmap RequestKey Types.Stop) (es : gmap RequestKey RequestKey) : Prop :=
  (∀ k s, ss !! k = Some s → Stop_Key s = k) ∧
  (∀ k s k' s', ss !! k = Some s → ss !! k' = Some s' → Stop_Start s = None → Stop_Start s' = None →
    Stop_Agent s = Stop_Agent s' → k = k') ∧
  (∀ ek sk, es !! ek = Some sk →
    ∃ s e, ss !! sk = Some s ∧ Stop_Start s = Some e ∧ StopEnd_Key e = ek).

(** At most one placement of an agent is not superseded. *)
Definition placements_ok (ps : gmap GRN (gmap string Placement)) : Prop :=
  ∀ agent pl, ps !! agent = Some pl →
  (∀ uid p, pl !! uid = Some p →
    PlacementRequest_PodUID (Placement_Request p) = uid ∧ Placement_Agent p = agent) ∧
  (∀ uid p uid' p', pl !! uid = Some p → pl !! uid' = Some p' →
    Placement_Superseded p = false → Placement_Superseded p' = false → uid = uid').

(** What a recovery records at each stage. *)
Definition recovery_staged (r : Recovery) : Prop :=
  match Recovery_Stage r with
  | RecoveryRequested => Recovery_Body r = "" ∧ Recovery_Recovered r = None
  | RecoveryPrepared => Recovery_Recovered r = None
  | RecoveryFinalized => is_Some (Recovery_Recovered r)
  end.

(** A recovery of an agent that is not its last is finalized, so at most one is open; an agent's
request identifiers are distinct, and so are all the console's keys. *)
Definition recoveries_ok (rs : gmap GRN (list Recovery)) : Prop :=
  (∀ agent i r, slice rs agent !! i = Some r →
    Recovery_Agent r = agent ∧ recovery_staged r ∧
    (Recovery_Stage r ≠ RecoveryFinalized → S i = length (slice rs agent))) ∧
  (∀ agent i j r r', slice rs agent !! i = Some r → slice rs agent !! j = Some r' →
    Recovery_RequestID r = Recovery_RequestID r' → i = j) ∧
  (∀ a i b j r r', slice rs a !! i = Some r → slice rs b !! j = Some r' →
    Recovery_Key r = Recovery_Key r' → a = b ∧ i = j).

Definition activations_ok (acts : gmap GRN (gmap string Activation)) : Prop :=
  ∀ agent m id a, acts !! agent = Some m → m !! id = Some a →
  ActivationRequest_RequestID (Activation_Request a) = id ∧ Activation_Agent a = agent.

Definition operators_ok (os : gmap string storedOperator) : Prop :=
  ∀ grn o, os !! grn = Some o → Operator_GRN (stored_operator o) = grn.

Record wf (m : mem) : Prop := {
  wf_profiles : profiles_ok (profiles m);
  wf_templates : templates_ok (templates m);
  wf_definitions : definitions_ok (definitions m) (profiles m);
  wf_positions : positions_ok (definitions m) (positions m) (position m);
  wf_requests : requests_ok (requests m) (definitions m);
  wf_creations : creations_ok (creations m) (definitions m);
  wf_stops : stops_ok (stops m) (stopEnds m);
  wf_placements : placements_ok (placements m);
  wf_recoveries : recoveries_ok (recoveries m);
  wf_activations : activations_ok (activations m);
  wf_operators : operators_ok (operators m);
}.

(** What the interface asks of a caller: a stored revision names a published profile, a
creation's is the first one, of the request's organization and with its assignment, and a
recovery is opened as requested. *)
Definition legal (m : mem) {X} (e : repoE X) : Prop :=
  match e with
  | Configure r d =>
    published (profiles m) (Definition_Organization d) (Definition_Profile d) ∧
    Request_Agent r = Definition_Agent d
  | RegisterCreation key d =>
    published (profiles m) (Definition_Organization d) (Definition_Profile d) ∧
    Definition_Revision d = 1 ∧ is_Some (Definition_Assignment d) ∧
    Definition_Organization d = Key_Organization key
  | OpenRecovery_ r =>
    Recovery_Stage r = RecoveryRequested ∧ Recovery_Body r = "" ∧ Recovery_Recovered r = None
  | _ => True
  end.

(** ** How the parts survive growth *)

Lemma published_push ps key p org ref :
  published ps org ref → published (<[key := slice ps key ++ [p]]> ps) org ref.
Proof.
  intros [q [? Hq]%index_Some]. exists q. apply index_Some. split; [done|].
  by apply slice_push_mono.
Qed.

Lemma definitions_ok_profiles ds ps ps' :
  (∀ org ref, published ps org ref → published ps' org ref) →
  definitions_ok ds ps → definitions_ok ds ps'.
Proof.
  intros Hp [Hne Hds]. split; [done|]. intros agent i d Hi.
  destruct (Hds _ _ _ Hi) as (? & ? & ? & ?). naive_solver.
Qed.

(** One agent's revisions grown by one. *)
Definition pushed ds (d : Definition_) : gmap GRN (list Definition_) :=
  <[Definition_Agent d := slice ds (Definition_Agent d) ++ [d]]> ds.

Lemma pushed_mono ds d agent i d' :
  slice ds agent !! i = Some d' → slice (pushed ds d) agent !! i = Some d'.
Proof. apply slice_push_mono. Qed.

Lemma pushed_length ds d agent :
  length (slice (pushed ds d) agent) =
  (length (slice ds agent) + if decide (Definition_Agent d = agent) then 1 else 0)%nat.
Proof.
  unfold pushed. rewrite slice_insert. case_decide as Ha; [subst agent|lia].
  rewrite length_app. cbn. lia.
Qed.

Lemma definitions_ok_push ds ps d :
  definitions_ok ds ps →
  Definition_Revision d = Z.of_nat (length (slice ds (Definition_Agent d))) + 1 →
  published ps (Definition_Organization d) (Definition_Profile d) →
  (∀ d0, slice ds (Definition_Agent d) !! 0%nat = Some d0 →
    Definition_Organization d = Definition_Organization d0) →
  definitions_ok (pushed ds d) ps.
Proof.
  intros [Hne Hds] Hrev Hpub Horg. split.
  - intros agent. unfold pushed. rewrite lookup_insert. case_decide; [|done].
    intros [= Hnil]. by destruct (slice ds (Definition_Agent d)).
  - intros agent i d' [Hi|(-> & -> & ->)]%slice_push_lookup.
    + destruct (Hds _ _ _ Hi) as (? & ? & ? & Ho). split_and!; [done..|].
      intros d0 [Hz|(-> & Hz & ->)]%slice_push_lookup; [by apply Ho|].
      destruct (slice ds (Definition_Agent d)); [by rewrite lookup_nil in Hi|done].
    + split_and!; [done..|].
      intros d0 [Hz|(_ & Hz & ->)]%slice_push_lookup; [by apply Horg|done].
Qed.

Lemma positions_ok_bump ds pos n : positions_ok ds pos n → positions_ok ds pos (n + 1).
Proof.
  intros (? & ? & Hr & ? & ?). split_and!; [lia|done| |done..].
  intros agent i p Hi. specialize (Hr _ _ _ Hi). lia.
Qed.

Lemma positions_ok_push ds pos n d :
  positions_ok ds pos n →
  positions_ok (pushed ds d)
  (<[Definition_Agent d := slice pos (Definition_Agent d) ++ [n + 1]]> pos) (n + 1).
Proof.
  intros (Hn & Hlen & Hr & Huniq & Hmono). split_and!.
  - lia.
  - intros agent. rewrite pushed_length, slice_insert. case_decide as Ha; [subst agent|by rewrite Hlen, Nat.add_0_r].
    rewrite length_app, Hlen. cbn. lia.
  - intros agent i p [Hi|(-> & -> & ->)]%slice_push_lookup; [|lia].
    specialize (Hr _ _ _ Hi). lia.
  - intros a i b j p [Ha|(-> & -> & ->)]%slice_push_lookup [Hb|(-> & -> & Hp)]%slice_push_lookup.
    + eauto.
    + specialize (Hr _ _ _ Ha). lia.
    + specialize (Hr _ _ _ Hb). lia.
    + done.
  - intros a i j p q [Ha|(-> & -> & ->)]%slice_push_lookup [Hb|(Ea & -> & Hp)]%slice_push_lookup Hlt.
    + eauto.
    + specialize (Hr _ _ _ Ha). lia.
    + apply lookup_lt_Some in Hb. lia.
    + lia.
Qed.

Lemma requests_ok_push rs ds d : requests_ok rs ds → requests_ok rs (pushed ds d).
Proof.
  intros (Hk & Hr & Hu). split_and!; [done| |done].
  intros k r v Hrk Hv. specialize (Hr _ _ _ Hrk Hv). rewrite pushed_length. lia.
Qed.

Lemma creations_ok_push cs ds d : creations_ok cs ds → creations_ok cs (pushed ds d).
Proof.
  intros (Hk & Hr & Hu). split_and!; [done| |done].
  intros k c r Hc Ho. destruct (Hr _ _ _ Hc Ho) as (d0 & a & Hz & ?).
  exists d0, a. split; [by apply pushed_mono|done].
Qed.

(** The two ways [appendLocked] ends. *)
Lemma append_spec d m :
  append d m = (Err ErrStaleRevision, m) ∧
  Definition_Revision d ≠ Z.of_nat (length (slice (definitions m) (Definition_Agent d))) + 1 ∨
  append d m = (Ok tt,
    set_positions (<[Definition_Agent d :=
      slice (positions m) (Definition_Agent d) ++ [position m + 1]]> (positions m))
    (set_definitions (pushed (definitions m) d) (bump m))) ∧
  Definition_Revision d = Z.of_nat (length (slice (definitions m) (Definition_Agent d))) + 1.
Proof. unfold append. case_bool_decide; [right|left]; done. Qed.

Lemma append_wf d m :
  wf m →
  published (profiles m) (Definition_Organization d) (Definition_Profile d) →
  (∀ d0, slice (definitions m) (Definition_Agent d) !! 0%nat = Some d0 →
    Definition_Organization d = Definition_Organization d0) →
  wf (append d m).2.
Proof.
  intros [] Hpub Horg. destruct (append_spec d m) as [[-> _]|[-> Hrev]]; [by split|].
  split; cbn; [done|done| | | | |done..].
  - by apply definitions_ok_push.
  - by apply positions_ok_push.
  - by apply requests_ok_push.
  - by apply creations_ok_push.
Qed.

(** ** Each operation *)
Lemma publish_profile_wf org name settings m : wf m → wf (publish_profile org name settings m).2.
Proof.
  intros []. split; cbn; [| done| |done..].
  - intros o n i p [Hi|([= -> ->] & -> & ->)]%slice_push_lookup; [by eapply wf_profiles0|done].
  - eapply definitions_ok_profiles; [|done]. intros. by apply published_push.
Qed.

Lemma publish_profile_version_wf org p m : wf m → wf (publish_profile_version org p m).2.
Proof.
  intros Hwf. unfold publish_profile_version.
  case_bool_decide; [destruct (index _ _) as [stored|]; [by case_match|done]|].
  case_bool_decide as Hv; cbn; [|done]. destruct Hwf. split; cbn; [| done| |done..].
  - intros o n i q [Hi|([= -> ->] & -> & ->)]%slice_push_lookup; [by eapply wf_profiles0|done].
  - eapply definitions_ok_profiles; [|done]. intros. by apply published_push.
Qed.

Lemma templates_ok_push ts org t :
  templates_ok ts →
  templates_ok (<[(org, Template_Name t) := slice ts (org, Template_Name t) ++
    [with_version t (Z.of_nat (length (slice ts (org, Template_Name t))) + 1)]]> ts).
Proof.
  intros Hts o n i u [Hi|([= -> ->] & -> & ->)]%slice_push_lookup; [by eapply Hts|done].
Qed.

Lemma publish_template_wf org t m : wf m → wf (publish_template org t m).2.
Proof. intros []. split; cbn; [done| |done..]. by apply templates_ok_push. Qed.

Lemma publish_once_wf p t m : wf m → wf (publish_once p t m).2.
Proof.
  intros Hwf. unfold publish_once. case_match; [done|]. destruct Hwf.
  split; cbn; [done| |done..]. by apply templates_ok_push.
Qed.

Lemma configure_wf r d m :
  wf m → published (profiles m) (Definition_Organization d) (Definition_Profile d) →
  Request_Agent r = Definition_Agent d →
  wf (configure r d m).2.
Proof.
  intros Hwf Hpub Hagent. unfold configure. destruct (requests m !! Request_Key r) eqn:Hk; [done|].
  destruct (slice (definitions m) (Definition_Agent d)) as [|first rest] eqn:Hrevs; [done|].
  case_bool_decide as Horg; cbn; [|done].
  pose proof (append_wf d m Hwf Hpub) as Happ. rewrite Hrevs in Happ.
  specialize (Happ ltac:(by intros ? [= <-])).
  pose proof (append_spec d m) as Hspec.
  assert (requests (append d m).2 = requests m) as Hsame.
  { by destruct Hspec as [[-> _]|[-> _]]. }
  destruct (append d m) as [appended m'] eqn:Hm'. cbn in *. destruct Happ.
  split; cbn; [done..| |done|done|done|done|done|done].
  rewrite Hsame in *. destruct wf_requests0 as (Hkeys & Hrange & Huniq).
  assert (∀ v, match appended with Ok _ => Applied (Definition_Revision d) | Err _ => Stale end = Applied v →
    v = Definition_Revision d ∧ v = Z.of_nat (length (slice (definitions m) (Definition_Agent d))) + 1 ∧
    length (slice (definitions m') (Definition_Agent d)) =
    S (length (slice (definitions m) (Definition_Agent d)))) as Hnew.
  { intros v. destruct Hspec as [[[= -> ->] _]|[[= -> ->] Hrev]]; [done|]. intros [= <-].
    split_and!; [done|done|]. cbn. rewrite pushed_length. case_decide; [lia|done]. }
  assert (∀ k' r' v, requests m !! k' = Some r' → Request_Outcome r' = Applied v →
    v ≤ Z.of_nat (length (slice (definitions m) (Request_Agent r')))) as Hold.
  { intros k' r' v Hr' Hv. destruct Hwf as [_ _ _ _ (_ & Hrange' & _) _ _ _ _ _ _].
    by apply (Hrange' k' r' v). }
  split_and!.
  - intros k r' [[<- <-]|[_ Hr']]%lookup_insert_cases; [done|by apply Hkeys].
  - intros k r' v [[<- <-]|[_ Hr']]%lookup_insert_cases Hv; [|by eapply Hrange].
    cbn in *. apply Hnew in Hv as (_ & -> & Hl). rewrite Hagent, Hl, Hrevs. cbn. lia.
  - intros k r' k' r'' v [[<- <-]|[_ Hr']]%lookup_insert_cases
      [[<- <-]|[_ Hr'']]%lookup_insert_cases Hag Hv Hv'; cbn in *; [done| | |by eapply Huniq].
    + apply Hnew in Hv as (_ & -> & _). specialize (Hold _ _ _ Hr'' Hv').
      rewrite <- Hag, Hagent in Hold. lia.
    + apply Hnew in Hv' as (_ & -> & _). specialize (Hold _ _ _ Hr' Hv).
      rewrite Hag, Hagent in Hold. lia.
Qed.

(** Storing a creation whose outcome registers nothing keeps the creations. *)
Lemma creations_ok_insert cs ds c :
  creations_ok cs ds → (∀ r, Creation_Outcome c ≠ RegisteredAs r) →
  creations_ok (<[Creation_Key c := c]> cs) ds.
Proof.
  intros (Hk & Hr & Hu) Hc. split_and!.
  - intros k c' [[<- <-]|[_ ?]]%lookup_insert_cases; [done|by apply Hk].
  - intros k c' r [[<- <-]|[_ ?]]%lookup_insert_cases Ho; [by destruct (Hc r)|eauto].
  - intros k c1 r1 k' c2 r2 [[<- <-]|[_ ?]]%lookup_insert_cases
      [[<- <-]|[_ ?]]%lookup_insert_cases Ho1 Ho2 Hag; [done| | |by eapply Hu].
    + by destruct (Hc r1).
    + by destruct (Hc r2).
Qed.

Lemma begin_creation_wf c m : wf m → wf (begin_creation c m).2.
Proof.
  intros Hwf. unfold begin_creation. case_match; [done|]. destruct Hwf.
  split; cbn; try done.
  by apply (creations_ok_insert _ _ (creation_outcome c Pending)).
Qed.

Lemma fail_creation_wf key reason conflict m : wf m → wf (fail_creation key reason conflict m).2.
Proof.
  intros Hwf. unfold fail_creation. destruct (creations m !! key) as [c|] eqn:Hc; [|done].
  case_bool_decide; cbn; [|done]. destruct Hwf. split; cbn; try done.
  destruct wf_creations0 as [Hk Hrest]. rewrite <- (Hk _ _ Hc).
  by apply (creations_ok_insert _ _ (creation_outcome c (Failed reason conflict))).
Qed.

Lemma register_creation_wf key d m :
  wf m → published (profiles m) (Definition_Organization d) (Definition_Profile d) →
  Definition_Revision d = 1 → is_Some (Definition_Assignment d) →
  Definition_Organization d = Key_Organization key →
  wf (register_creation key d m).2.
Proof.
  intros Hwf Hpub Hrev [a Ha] Horg. unfold register_creation.
  destruct (creations m !! key) as [c|] eqn:Hc; [|done].
  case_bool_decide as Hpend; cbn; [|done].
  destruct (append_spec d m) as [[-> _]|[Happ Hlen]]; [done|].
  assert (slice (definitions m) (Definition_Agent d) = []) as Hnil.
  { apply nil_length_inv. lia. }
  pose proof (append_wf d m Hwf Hpub) as Hwf'. rewrite Hnil in Hwf'.
  specialize (Hwf' ltac:(done)). rewrite Happ, Ha in *. cbn in *.
  pose proof (wf_creations _ Hwf) as (Hk & Hr & Hu).
  assert (∀ k' c' r', creations m !! k' = Some c' → Creation_Outcome c' = RegisteredAs r' →
    Registered_Agent r' ≠ Definition_Agent d) as Hfresh.
  { intros k' c' r' Hc' Ho' Hag. destruct (Hr _ _ _ Hc' Ho') as (d0 & _ & Hd0 & _).
    by rewrite Hag, Hnil in Hd0. }
  destruct Hwf'. cbn in *. split; cbn; try done. destruct wf_creations0 as (_ & Hr' & _).
  split_and!.
  - intros k c' [[<- <-]|[_ ?]]%lookup_insert_cases; [exact (Hk _ _ Hc)|by apply Hk].
  - intros k c' r [[<- <-]|[_ ?]]%lookup_insert_cases Ho; [|by eapply Hr'].
    cbn in Ho. injection Ho as <-. exists d, a. cbn. split_and!; [|done..].
    unfold pushed. by rewrite slice_insert_eq, Hnil.
  - intros k c1 r1 k' c2 r2 [[<- <-]|[_ Hc1]]%lookup_insert_cases
      [[<- <-]|[_ Hc2]]%lookup_insert_cases Ho1 Ho2 Hag; [done| | |by eapply Hu]; cbn in *.
    + injection Ho1 as <-. by destruct (Hfresh _ _ _ Hc2 Ho2).
    + injection Ho2 as <-. by destruct (Hfresh _ _ _ Hc1 Ho1).
Qed.

(** The placements of one agent: keyed by Pod, and at most one not superseded. *)
Lemma agent_placements_ok m agent :
  placements_ok (placements m) →
  (∀ uid p, agent_placements agent m !! uid = Some p →
    PlacementRequest_PodUID (Placement_Request p) = uid ∧ Placement_Agent p = agent) ∧
  (∀ uid p uid' p', agent_placements agent m !! uid = Some p →
    agent_placements agent m !! uid' = Some p' →
    Placement_Superseded p = false → Placement_Superseded p' = false → uid = uid').
Proof.
  intros Hok. unfold agent_placements. destruct (placements m !! agent) as [pl|] eqn:Hpl.
  - exact (Hok _ _ Hpl).
  - cbn. split; [intros uid p|intros uid p uid' p']; by rewrite lookup_empty.
Qed.

(** The placement of the agent not superseded, if any. *)
Definition current_of agent m : option Placement :=
  find_value (λ p, negb (Placement_Superseded p)) (agent_placements agent m).

Lemma current_of_Some agent m p :
  placements_ok (placements m) →
  current_of agent m = Some p ↔
  ∃ uid, agent_placements agent m !! uid = Some p ∧ Placement_Superseded p = false.
Proof.
  intros Hok. destruct (agent_placements_ok m agent Hok) as [Hk Hu]. split.
  - intros [Hs [uid Hp]]%find_value_Some. exists uid. by destruct (Placement_Superseded p).
  - intros (uid & Hp & Hs). apply (find_value_unique _ _ uid); [done|by rewrite Hs|].
    intros uid' p' Hp' Hs'. assert (uid = uid') as <-.
    { eapply Hu; [done..|]. by destruct (Placement_Superseded p'). }
    congruence.
Qed.

Lemma current_of_None agent m uid p :
  current_of agent m = None → agent_placements agent m !! uid = Some p →
  Placement_Superseded p = true.
Proof.
  intros Hn Hp. pose proof (find_value_None _ _ _ _ Hn Hp) as Hs. cbn in Hs.
  by destruct (Placement_Superseded p).
Qed.

(** What registering stores: the replaced placement superseded, and the new one current. *)
Definition registered_map agent (input : PlacementInput) m : gmap string Placement :=
  <[PlacementRequest_PodUID (PlacementInput_Request input) :=
    mkPlacement agent (PlacementInput_Controller input) (PlacementInput_Request input) false]>
  match current_of agent m with
  | Some current =>
    <[PlacementRequest_PodUID (Placement_Request current) := superseded current]>
    (agent_placements agent m)
  | None => agent_placements agent m
  end.

(** Every entry but the new one was stored before, with its own request, or is superseded. *)
Lemma registered_map_lookup agent input m uid p :
  placements_ok (placements m) →
  registered_map agent input m !! uid = Some p →
  (uid = PlacementRequest_PodUID (PlacementInput_Request input) ∧
    p = mkPlacement agent (PlacementInput_Controller input) (PlacementInput_Request input) false) ∨
  (Placement_Superseded p = true ∧
    ∃ p0, agent_placements agent m !! uid = Some p0 ∧ p = superseded p0).
Proof.
  intros Hok. unfold registered_map.
  intros [[<- <-]|[_ Hp]]%lookup_insert_cases; [by left|right].
  destruct (current_of agent m) as [c|] eqn:Hc.
  - apply current_of_Some in Hc as (cuid & Hcp & Hcs); [|done].
    destruct (agent_placements_ok m agent Hok) as [Hk Hu].
    apply lookup_insert_cases in Hp as [[<- <-]|[Hne Hp]].
    + split; [done|]. exists c. split; [|done]. by rewrite (proj1 (Hk _ _ Hcp)).
    + assert (Placement_Superseded p = true) as Hs.
      { destruct (Placement_Superseded p) eqn:Hs; [done|]. destruct Hne.
    rewrite (proj1 (Hk _ _ Hcp)). by eapply Hu. }
      split; [done|]. exists p. split; [done|]. destruct p. cbn in *. by rewrite Hs.
  - assert (Placement_Superseded p = true) as Hs by (by eapply current_of_None).
    split; [done|]. exists p. split; [done|]. destruct p. cbn in *. by rewrite Hs.
Qed.

Lemma registered_wf (input : PlacementInput) m : wf m →
  wf (set_placements (<[PlacementInput_Agent input := registered_map (PlacementInput_Agent input) input m]> (placements m)) m).
Proof.
  intros []. split; cbn; try done.
  intros agent pl [[<- <-]|[_ Hpl]]%lookup_insert_cases; [|by apply wf_placements0].
  destruct (agent_placements_ok m (PlacementInput_Agent input) wf_placements0) as [Hk Hu].
  pose proof (λ uid p, registered_map_lookup (PlacementInput_Agent input) input m uid p wf_placements0) as Hreg.
  split.
  - intros uid p [[-> ->]|(_ & p0 & Hp0 & ->)]%Hreg; [done|]. exact (Hk _ _ Hp0).
  - intros uid p uid' p' [[-> ->]|(Hs & _)]%Hreg [[-> ->]|(Hs' & _)]%Hreg ??; [done|congruence..].
Qed.
Lemma register_placement_wf input m : wf m → wf (register_placement input m).2.
Proof.
  intros Hwf. unfold register_placement.
  destruct (DecidePlacement _ _ input) as [[]|]; [by case_match| |done]. by apply registered_wf.
Qed.

Lemma agent_activations_ok m agent id a :
  activations_ok (activations m) → agent_activations agent m !! id = Some a →
  ActivationRequest_RequestID (Activation_Request a) = id ∧ Activation_Agent a = agent.
Proof.
  intros Hok. unfold agent_activations. destruct (activations m !! agent) eqn:Ha; cbn.
  - by apply Hok.
  - by rewrite lookup_empty.
Qed.

(** One agent's activations replaced by ones as well keyed. *)
Lemma activations_ok_insert acts agent stored :
  activations_ok acts →
  (∀ id a, stored !! id = Some a →
    ActivationRequest_RequestID (Activation_Request a) = id ∧ Activation_Agent a = agent) →
  activations_ok (<[agent := stored]> acts).
Proof.
  intros Hok Hs agent' m' id a [[<- <-]|[_ Hm]]%lookup_insert_cases; [apply Hs|by apply Hok].
Qed.

Lemma insert_activation_wf a m : wf m → wf (insert_activation a m).2.
Proof.
  intros []. unfold insert_activation.
  pose proof (λ id a', agent_activations_ok m (Activation_Agent a) id a' wf_activations0) as Hag.
  destruct (agent_activations (Activation_Agent a) m !! _) eqn:He; split; cbn; try done;
    repeat (apply activations_ok_insert; [|]); try done.
  by intros id a' [[<- <-]|[_ ?]]%lookup_insert_cases; [|apply Hag].
Qed.

Lemma record_activation_wf agent requestID activationID m :
  wf m → wf (record_activation agent requestID activationID m).2.
Proof.
  intros []. unfold record_activation.
  pose proof (λ id a', agent_activations_ok m agent id a' wf_activations0) as Hag.
  destruct (agent_activations agent m !! requestID) as [a|] eqn:He; [|by split].
  case_match; [by split|]. split; cbn; try done. apply activations_ok_insert; [done|].
  by intros id a' [[<- <-]|[_ ?]]%lookup_insert_cases; [exact (Hag _ _ He)|apply Hag].
Qed.

(** ** Recoveries *)
Lemma recovery_locked_Some agent requestID m i :
  recovery_locked agent requestID m = Some i →
  ∃ r, slice (recoveries m) agent !! i = Some r ∧ Recovery_RequestID r = requestID.
Proof.
  unfold recovery_locked. destruct (list_find _ _) as [[j r]|] eqn:Hf; [|done].
  cbn. intros [= <-]. apply list_find_Some in Hf as (? & ? & _). by exists r.
Qed.

Lemma recovery_locked_None agent requestID m i r :
  recovery_locked agent requestID m = None → slice (recoveries m) agent !! i = Some r →
  Recovery_RequestID r ≠ requestID.
Proof.
  unfold recovery_locked. intros Hn Hi. destruct (list_find _ _) eqn:Hf; [done|].
  apply list_find_None in Hf. rewrite Forall_lookup in Hf. by eapply Hf.
Qed.

Lemma open_recovery_locked_None agent m i r :
  open_recovery_locked agent m = None → slice (recoveries m) agent !! i = Some r →
  Recovery_Stage r = RecoveryFinalized.
Proof.
  unfold open_recovery_locked. intros Hn Hi. destruct (List.find _ _) eqn:Hf; [done|].
  apply (find_none _ _) with (x := r) in Hf; [by case_bool_decide|].
  by apply list_elem_of_In, list_elem_of_lookup; exists i.
Qed.

(** The recovery stored under a console key, in whatever order the agents are read. *)
Definition keyed_recovery key m : option Recovery :=
  List.find (λ stored, bool_decide (Recovery_Key stored = key))
  (concat (map_to_list (recoveries m)).*2).

Lemma keyed_recovery_Some key m r :
  keyed_recovery key m = Some r →
  Recovery_Key r = key ∧ ∃ agent i, slice (recoveries m) agent !! i = Some r.
Proof.
  intros [Hin Hk]%find_some. apply bool_decide_eq_true in Hk. split; [done|].
  apply in_concat in Hin as (l & Hl & Hr). apply list_elem_of_In, list_elem_of_fmap in Hl
    as [[agent l'] [-> Hl]]. apply elem_of_map_to_list in Hl.
  apply list_elem_of_In, list_elem_of_lookup in Hr as [i Hi].
  exists agent, i. by rewrite (slice_Some _ _ _ Hl).
Qed.

Lemma keyed_recovery_None key m agent i r :
  keyed_recovery key m = None → slice (recoveries m) agent !! i = Some r → Recovery_Key r ≠ key.
Proof.
  intros Hn (l & Hl & Hi)%slice_lookup Hk.
  apply (find_none _ _) with (x := r) in Hn; [by rewrite bool_decide_true in Hn|].
  apply in_concat. exists l. split.
  - apply list_elem_of_In, list_elem_of_fmap. exists (agent, l). split; [done|].
    by apply elem_of_map_to_list.
  - apply list_elem_of_In, list_elem_of_lookup. by exists i.
Qed.

Lemma open_recovery_wf r m :
  wf m → Recovery_Stage r = RecoveryRequested → Recovery_Body r = "" → Recovery_Recovered r = None →
  wf (open_recovery r m).2.
Proof.
  intros Hwf Hstage Hbody Hrec. unfold open_recovery.
  fold (keyed_recovery (Recovery_Key r) m).
  destruct (keyed_recovery (Recovery_Key r) m) eqn:Hkey; [done|].
  destruct (recovery_locked _ _ m) eqn:Hid; [done|].
  destruct (open_recovery_locked _ m) eqn:Hopen; [done|].
  destruct Hwf. split; cbn; try done; [by apply positions_ok_bump|].
  destruct wf_recoveries0 as (Hr & Hids & Hkeys). split_and!.
  - intros agent i r' [Hi|(-> & -> & ->)]%slice_push_lookup.
    + destruct (Hr _ _ _ Hi) as (? & ? & Hlast). split_and!; [done..|]. intros Hst.
      rewrite slice_insert. case_decide as Hag; [|by apply Hlast]. rewrite <- Hag in Hi.
      by rewrite (open_recovery_locked_None _ _ _ _ Hopen Hi) in Hst.
    + split_and!; [done| |].
      * unfold recovery_staged. by rewrite Hstage.
      * intros _. rewrite slice_insert_eq, length_app. cbn. lia.
  - intros agent i j r1 r2 [Hi|(-> & -> & ->)]%slice_push_lookup
      [Hj|(Ej & -> & ->)]%slice_push_lookup Heq; [by eapply Hids| | |done].
    + subst agent. exfalso. eapply recovery_locked_None; [exact Hid|exact Hi|congruence].
    + exfalso. eapply recovery_locked_None; [exact Hid|exact Hj|congruence].
  - intros a i b j r1 r2 [Hi|(-> & -> & ->)]%slice_push_lookup
      [Hj|(-> & -> & ->)]%slice_push_lookup Heq; [by eapply Hkeys| | |done].
    + exfalso. eapply keyed_recovery_None; [exact Hkey|exact Hi|congruence].
    + exfalso. eapply keyed_recovery_None; [exact Hkey|exact Hj|congruence].
Qed.

Lemma slice_write_lookup (rs : gmap GRN (list Recovery)) agent i (r : Recovery) agent' j r' :
  slice (<[agent := <[i := r]> (slice rs agent)]> rs) agent' !! j = Some r' →
  (agent' = agent ∧ j = i ∧ r' = r) ∨ slice rs agent' !! j = Some r'.
Proof.
  rewrite slice_insert. case_decide as Ha; [subst agent'|by right].
  intros [(-> & -> & _)|[_ ?]]%list_lookup_insert_Some; [by left|by right].
Qed.

(** A recovery rewritten in place keeps the recoveries, where it keeps its own names and is at a
later stage. *)
Lemma recoveries_ok_write rs agent i r r' :
  recoveries_ok rs → slice rs agent !! i = Some r →
  Recovery_Agent r' = Recovery_Agent r → Recovery_RequestID r' = Recovery_RequestID r →
  Recovery_Key r' = Recovery_Key r → recovery_staged r' → Recovery_Stage r ≠ RecoveryFinalized →
  recoveries_ok (<[agent := <[i := r']> (slice rs agent)]> rs).
Proof.
  intros (Hr & Hids & Hkeys) Hi Hag Hid Hkey Hst Hopen.
  assert (∀ a j r0, slice (<[agent := <[i := r']> (slice rs agent)]> rs) a !! j = Some r0 →
    ∃ r1, slice rs a !! j = Some r1 ∧ Recovery_RequestID r0 = Recovery_RequestID r1 ∧
    Recovery_Key r0 = Recovery_Key r1) as Hold.
  { intros a j r0 [(-> & -> & ->)|?]%slice_write_lookup; [by exists r|by exists r0]. }
  assert (∀ a, length (slice (<[agent := <[i := r']> (slice rs agent)]> rs) a) = length (slice rs a))
    as Hlen.
  { intros a. rewrite slice_insert. case_decide as Ha; [subst a|done]. apply length_insert. }
  split_and!.
  - intros a j r0 Hj. rewrite Hlen. apply slice_write_lookup in Hj as [(-> & -> & ->)|Hj];
      [|by apply Hr]. destruct (Hr _ _ _ Hi) as (? & ? & Hl). split_and!; [congruence|done|auto].
  - intros a j k r1 r2 (r1' & H1 & E1 & _)%Hold (r2' & H2 & E2 & _)%Hold Heq.
    eapply Hids; [done..|congruence].
  - intros a j b k r1 r2 (r1' & H1 & _ & E1)%Hold (r2' & H2 & _ & E2)%Hold Heq.
    eapply Hkeys; [done..|congruence].
Qed.

Lemma prepare_recovery_wf agent requestID epoch body m :
  wf m → wf (prepare_recovery agent requestID epoch body m).2.
Proof.
  intros Hwf. unfold prepare_recovery. destruct (recovery_locked _ _ m) as [i|]; [|done].
  destruct (slice (recoveries m) agent !! i) as [r|] eqn:Hi; [|done].
  case_bool_decide; cbn; [|done]. case_bool_decide as Hst; [|by repeat case_match].
  destruct Hwf. split; cbn; try done.
  destruct (proj1 wf_recoveries0 _ _ _ Hi) as (_ & Hs & _). unfold recovery_staged in Hs.
  rewrite Hst in Hs. apply (recoveries_ok_write _ _ _ r); cbn; try done; [|congruence].
  apply Hs.
Qed.

Lemma finalize_recovery_wf agent requestID c m : wf m → wf (finalize_recovery agent requestID c m).2.
Proof.
  intros Hwf. unfold finalize_recovery. destruct (recovery_locked _ _ m) as [i|]; [|done].
  destruct (slice (recoveries m) agent !! i) as [r|] eqn:Hi; [|done].
  destruct (Recovery_Stage r) eqn:Hst; [done| |done].
  destruct Hwf. split; cbn; try done; [by apply positions_ok_bump|].
  apply (recoveries_ok_write _ _ _ r); cbn; try done; congruence.
Qed.

(** ** Stops *)
Lemma current_stop_locked_Some m agent s :
  stops_ok (stops m) (stopEnds m) →
  current_stop_locked agent m = Some s ↔
  stops m !! Stop_Key s = Some s ∧ Stop_Agent s = agent ∧ Stop_Start s = None.
Proof.
  intros (Hk & Hu & _). unfold current_stop_locked. split.
  - intros [Hs [k Hsk]]%find_value_Some. rewrite (Hk _ _ Hsk).
    apply andb_true_iff in Hs as [?%bool_decide_eq_true ?%bool_decide_eq_true]. done.
  - intros (Hs & Ha & He). apply (find_value_unique _ _ (Stop_Key s)); [done| |].
    { by rewrite !bool_decide_true. }
    intros k s' Hs' [Ha'%bool_decide_eq_true He'%bool_decide_eq_true]%andb_true_iff.
    assert (k = Stop_Key s) as -> by (eapply Hu; [done..|congruence]). congruence.
Qed.

Lemma current_stop_locked_None m agent k s :
  current_stop_locked agent m = None → stops m !! k = Some s → Stop_Agent s = agent →
  Stop_Start s ≠ None.
Proof.
  intros Hn Hs Ha He. apply (find_value_None _ _ _ _ Hn) in Hs. cbn in Hs.
  by rewrite !bool_decide_true in Hs.
Qed.

Lemma record_stop_wf s m : wf m → wf (record_stop s m).2.
Proof.
  intros Hwf. unfold record_stop. destruct (stops m !! Stop_Key s) eqn:Hkey; [done|].
  destruct (current_stop_locked _ m) eqn:Hcur; [done|].
  destruct Hwf. split; cbn; try done; [by apply positions_ok_bump|].
  destruct wf_stops0 as (Hk & Hu & He). split_and!.
  - intros k s' [[<- <-]|[_ ?]]%lookup_insert_cases; [done|by apply Hk].
  - intros k s1 k' s2 [[<- <-]|[_ H1]]%lookup_insert_cases
      [[<- <-]|[_ H2]]%lookup_insert_cases E1 E2 Hag; cbn in *; [done| | |by eapply Hu].
    + by destruct (current_stop_locked_None _ _ _ _ Hcur H2 (eq_sym Hag)).
    + by destruct (current_stop_locked_None _ _ _ _ Hcur H1 Hag).
  - intros ek sk Hek. destruct (He _ _ Hek) as (s' & e & Hs' & ?). exists s', e.
    split; [|done]. rewrite lookup_insert_ne; [done|]. congruence.
Qed.

(** A stop rewritten under its own key, current only where it was. *)
Lemma stops_ok_rewrite ss es k s s' :
  stops_ok ss es → ss !! k = Some s → Stop_Key s' = k → Stop_Agent s' = Stop_Agent s →
  Stop_Start s' = Stop_Start s → stops_ok (<[k := s']> ss) es.
Proof.
  intros (Hk & Hu & He) Hs Hk' Hag Hst. split_and!.
  - intros k1 s1 [[<- <-]|[_ ?]]%lookup_insert_cases; [done|by apply Hk].
  - intros k1 s1 k2 s2 [[<- <-]|[_ H1]]%lookup_insert_cases
      [[<- <-]|[_ H2]]%lookup_insert_cases E1 E2 Heq; [done| | |by eapply Hu].
    + eapply Hu; [exact Hs|done|congruence..].
    + eapply Hu; [done|exact Hs|congruence..].
  - intros ek sk Hek. destruct (He _ _ Hek) as (s0 & e & Hs0 & Hst0 & Hek0).
    rewrite lookup_insert. case_decide as Hsk; [subst sk|by exists s0, e].
    exists s', e. split_and!; [done|congruence|done].
Qed.

Lemma record_deactivation_wf key m : wf m → wf (record_deactivation key m).2.
Proof.
  intros Hwf. unfold record_deactivation. destruct (stops m !! key) as [s|] eqn:Hs; [|done].
  destruct Hwf. split; cbn; try done. apply (stops_ok_rewrite _ _ _ s); try done.
  exact (proj1 wf_stops0 _ _ Hs).
Qed.

Lemma record_start_wf agent end_ m : wf m → wf (record_start agent end_ m).2.
Proof.
  intros Hwf. unfold record_start. destruct (stopEnds m !! _) eqn:Hend; [done|].
  destruct (current_stop_locked agent m) as [s|] eqn:Hcur; [|done].
  apply current_stop_locked_Some in Hcur as (Hs & <- & Hst); [|apply Hwf].
  destruct Hwf. split; cbn; try done; [by apply positions_ok_bump|].
  destruct wf_stops0 as (Hk & Hu & He). split_and!.
  - intros k s' [[<- <-]|[_ ?]]%lookup_insert_cases; [done|by apply Hk].
  - intros k s1 k' s2 [[<- <-]|[_ ?]]%lookup_insert_cases
      [[<- <-]|[_ ?]]%lookup_insert_cases E1 E2 Hag; cbn in *; try done. by eapply Hu.
  - intros ek sk [[<- <-]|[_ Hek]]%lookup_insert_cases.
    + eexists _, end_. by rewrite lookup_insert_eq.
    + destruct (He _ _ Hek) as (s' & e & Hs' & Hst' & ?). exists s', e. split; [|done].
      rewrite lookup_insert_ne; [done|]. congruence.
Qed.

(** ** Operators *)
Lemma operators_ok_insert os operator o :
  operators_ok os → Operator_GRN (stored_operator o) = operator →
  operators_ok (<[operator := o]> os).
Proof. intros Hok Ho grn o' [[<- <-]|[_ ?]]%lookup_insert_cases; [done|by apply Hok]. Qed.

Lemma operator_locked_GRN orgGRN operator m :
  operators_ok (operators m) →
  Operator_GRN (stored_operator (operator_locked orgGRN operator m)) = operator.
Proof.
  intros Hok. unfold operator_locked. cbn.
  destruct (operators m !! operator) eqn:Ho; [by apply Hok|done].
Qed.

Lemma record_operator_contact_wf orgGRN operator at_ m :
  wf m → wf (record_operator_contact orgGRN operator at_ m).2.
Proof.
  intros []. split; cbn; try done. apply operators_ok_insert; [done|]. cbn.
  case_match; cbn; by apply (operator_locked_GRN orgGRN).
Qed.

Lemma report_operator_images_wf orgGRN operator images at_ m :
  wf m → wf (report_operator_images orgGRN operator images at_ m).2.
Proof.
  intros []. split; cbn; try done. apply operators_ok_insert; [done|]. cbn.
  case_match; cbn; by apply (operator_locked_GRN orgGRN).
Qed.

Lemma NewMemory_wf : wf NewMemory.
Proof.
  split; unfold profiles_ok, templates_ok, definitions_ok, positions_ok, requests_ok, creations_ok,
    stops_ok, placements_ok, recoveries_ok, activations_ok, operators_ok, slice; cbn;
    setoid_rewrite lookup_empty; cbn; try setoid_rewrite lookup_nil; naive_solver.
Qed.
End invariant.

#[export] Hint Resolve publish_profile_wf publish_profile_version_wf publish_template_wf
  publish_once_wf begin_creation_wf fail_creation_wf register_placement_wf insert_activation_wf
  record_activation_wf prepare_recovery_wf finalize_recovery_wf record_stop_wf
  record_deactivation_wf record_start_wf record_operator_contact_wf report_operator_images_wf
  NewMemory_wf : garam.

(** Every call of the interface, made as the interface asks, keeps the store well formed. *)
Lemma handle_keeps `{K8s : Kubernetes, SE : !SemanticEquality} m X (e : repoE X) :
  wf m → legal m e → wf (handle X e m).2.
Proof.
  intros Hwf. destruct e; cbn [legal handle]; intros Hlegal; auto with garam; try exact Hwf.
  - destruct Hlegal. by apply configure_wf.
  - destruct Hwf. by split.
  - destruct Hlegal as (? & ? & ? & ?). by apply register_creation_wf.
  - destruct Hwf. by split.
  - destruct Hlegal as (? & ? & ?). by apply open_recovery_wf.
Qed.
End MemoryInvariant.
