(* ===== verification/Samples.v ===== *)
(** Concrete instances and data the examples evaluate on: whole numbers as resource quantities, two
    simple validators with the documented properties, and a small store. *)
From S2P Require Import Prelude GoStd Errors Types Validation Repository Memory MemoryInvariant.
From Stdlib Require Import Ascii.
Import GoStd Validation Memory MemoryInvariant.

Module Samples.

(** Quantities as whole numbers; a validator that reports the empty string or a "/". *)
Definition refuse_slash (s : string) : list string :=
  if bool_decide (s = "") then ["must not be empty"]
  else if string_contains "/"%char s then ["must not hold a slash"] else [].

#[export] Instance K8s : Kubernetes := {|
    Quantity := Z;
    Quantity_Sign := Z.sgn;
    Quantity_Cmp a b := Z.sgn (a - b);
    Quantity_String := FormatInt;
    Quantity_zero := 0;
    IsDNS1123Subdomain := refuse_slash;
    IsConfigMapKey := refuse_slash;
  |}.

#[export] Instance SE : SemanticEquality := λ a b, bool_decide (a = b).

#[export] Instance SE_laws : SemanticEqualityLaws SE.
Proof. intros s. by apply bool_decide_eq_true. Qed.

#[export] Instance validator_laws : ValidatorLaws.
Proof.
  assert (∀ s, refuse_slash s = [] → string_contains "/"%char s = false) as Hno.
  { intros s. unfold refuse_slash. case_bool_decide; [done|]. by destruct (string_contains "/"%char s). }
  split; [done|exact Hno..].
Defined.

Definition settings : ExecutionSettings :=
  mkExecutionSettings (mkResourceRequirements ∅ ∅ []) 10 None None.

Definition model (embedding : option Embedding) : Model :=
  mkModel "openai" "https://models" "large" "keys/model" embedding.
Definition endpoint : Embedding := mkEmbedding "https://embed" "small" "".
Definition config : Configuration := mkConfiguration (model (Some endpoint)) "ego" ∅.
Definition other_config : Configuration := mkConfiguration (model (Some endpoint)) "other ego" ∅.

Definition agent : GRN := "grn:agent:a".
Definition controller : string := "grn:operator:o".
Definition profile : ProfileRef := mkProfileRef "small" 1.
Definition template : TemplateRef := mkTemplateRef "base" 1.
Definition assignment : Assignment := mkAssignment controller "epoch-1".
Definition binding (ref : string) : Binding := mkBinding "actor" "operation" "target" "sha" ref assignment.
Definition key (id : string) : RequestKey := mkRequestKey "org" id.

Definition revision (n : Revision) (c : Configuration) : Definition_ :=
  mkDefinition agent "org" n profile c (Some assignment).

(** A store one agent is registered in: its profile, its template, its creation and revision 1. *)
Definition store_script : list {X & repoE X} :=
  [existT _ (PublishProfile "org" "small" settings);
   existT _ (PublishTemplate "org" (mkTemplate "base" 1 profile config));
   existT _ (BeginCreation (mkCreation (key "create") (binding "ref-1") controller template profile Pending));
   existT _ (RegisterCreation (key "create") (revision 1 config))].

(** Its first two calls: the profile and the template, no agent yet. *)
Definition base_script : list {X & repoE X} := take 2 store_script.

Fixpoint run_calls (cs : list {X & repoE X}) (m : mem) : mem :=
  match cs with [] => m | existT _ e :: cs => run_calls cs (handle _ e m).2 end.

Definition store : mem := run_calls store_script NewMemory.

Definition base : mem := run_calls base_script NewMemory.

Lemma store_wf : wf store.
Proof.
  unfold store, store_script, run_calls.
  repeat (apply handle_keeps; [|cbn; try done]); [by apply NewMemory_wf|].
  split_and!; try done; by eexists.
Qed.

(** A console's request to configure the agent on its revision [n]. *)
Definition configure_input (id : string) (n : Revision) (c : Configuration) : ConfigureInput :=
  mkConfigureInput (key id) (binding ("ref-" +:+ id)) agent n profile c.

Definition create_input : CreateInput :=
  mkCreateInput (key "create") (binding "ref-1") controller template profile.

(** Its agent's placement on one Pod. *)
Definition placement_input (pod : string) (previous : PreviousPlacement) : PlacementInput :=
  mkPlacementInput agent controller (mkPlacementRequest pod "pvc" "epoch-1" "token-sha" previous).
Definition placed : mem := (handle _ (RegisterPlacement (placement_input "pod-1" zeroPrevious)) store).2.

Lemma placed_wf : wf placed.
Proof. apply handle_keeps; [apply store_wf|done]. Qed.

(** The reference to the sample's model key, and its two parts. *)
Lemma secretref_Parse_iff_witness :
  secretref_Parse "keys/model" = Ok ("keys", "model") ↔
  "keys/model" = "keys" +:+ String "/" "model" ∧ IsDNS1123Subdomain "keys" = [] ∧ IsConfigMapKey "model" = [].
Proof. apply (secretref_Parse_iff "keys/model" "keys" "model"). Defined.
End Samples.
