(* ===== verification/StoreHistory.v ===== *)
(** What the in-process store never takes back: every call of the interface extends the history it
    holds. Published versions, revisions, recorded requests and ended stops stay as they are, a
    superseded placement stays superseded, a recovery goes only forward, and every revision keeps
    the request that authorized it. *)
From S2P Require Import Prelude GoStd Errors Types Validation Repository Memory MemoryInvariant.
Import Validation Memory MemoryInvariant.

Module StoreHistory.

Section history.
Context `{K8s : Kubernetes, SE : !SemanticEquality}.

(** ** The order of histories *)

(** Lists only appended to. *)
Definition grows `{Countable K} {A} (m m' : gmap K (list A)) : Prop :=
  ∀ k i a, slice m k !! i = Some a → slice m' k !! i = Some a.

Definition stage_rank (s : RecoveryStage) : Z :=
  match s with RecoveryRequested => 0 | RecoveryPrepared => 1 | RecoveryFinalized => 2 end.

(** A creation keeps what it was asked under; once it has an outcome, that too. *)
Definition creation_later (c c' : Creation) : Prop :=
  c' = creation_outcome c (Creation_Outcome c') ∧ (Creation_Outcome c ≠ Pending → c' = c).

(** A placement keeps how it was registered; once superseded, it stays so. *)
Definition placement_later (p p' : Placement) : Prop :=
  p' = p ∨ p' = superseded p.

(** An activation keeps the request sent for it; once garam answered it, the answer too. *)
Definition activation_later (a a' : Activation) : Prop :=
  a' = with_activation a (Activation_ActivationID a') ∧ (Activation_ActivationID a ≠ "" → a' = a).

(** A stop keeps what it recorded; once ended, its end too. *)
Definition stop_later (s s' : Types.Stop) : Prop :=
  Stop_Agent s' = Stop_Agent s ∧ Stop_Key s' = Stop_Key s ∧ Stop_Binding s' = Stop_Binding s ∧
  Stop_ActivationID s' = Stop_ActivationID s ∧
  (Stop_Deactivated s = true → Stop_Deactivated s' = true) ∧
  (∀ e, Stop_Start s = Some e → Stop_Start s' = Some e).

(** A recovery keeps its names and its epoch, goes only forward, and keeps the bytes of its request
once prepared and garam's answer once finalized. *)
Definition recovery_later (r r' : Recovery) : Prop :=
  Recovery_Agent r' = Recovery_Agent r ∧ Recovery_RequestID r' = Recovery_RequestID r ∧
  Recovery_Key r' = Recovery_Key r ∧ Recovery_Binding r' = Recovery_Binding r ∧
  Recovery_Epoch r' = Recovery_Epoch r ∧
  stage_rank (Recovery_Stage r) ≤ stage_rank (Recovery_Stage r') ∧
  (Recovery_Stage r ≠ RecoveryRequested → Recovery_Body r' = Recovery_Body r) ∧
  (Recovery_Stage r = RecoveryFinalized → r' = r).

(** Every value of a map is kept under its key, later or as it was. *)
Definition kept `{Countable K} {A} (later : A → A → Prop) (m m' : gmap K A) : Prop :=
  ∀ k a, m !! k = Some a → ∃ a', m' !! k = Some a' ∧ later a a'.

(** The same for maps of maps and for maps of lists. *)
Definition kept2 {A} (later : A → A → Prop) (m m' : gmap GRN (gmap string A)) : Prop :=
  ∀ g, kept later (default ∅ (m !! g)) (default ∅ (m' !! g)).
Definition kept_list {A} (later : A → A → Prop) (m m' : gmap GRN (list A)) : Prop :=
  ∀ g i a, slice m g !! i = Some a → ∃ a', slice m' g !! i = Some a' ∧ later a a'.

Definition status_later (s s' : Status) : Prop :=
  Status_Observed s ≤ Status_Observed s' ∧ Status_Rendered s ≤ Status_Rendered s'.

Record extends (m m' : mem) : Prop := {
  ext_profiles : grows (profiles m) (profiles m');
  ext_templates : grows (templates m) (templates m');
  ext_definitions : grows (definitions m) (definitions m');
  ext_positions : grows (positions m) (positions m');
  ext_position : position m ≤ position m';
  ext_requests : requests m ⊆ requests m';
  ext_publications : publications m ⊆ publications m';
  ext_stopEnds : stopEnds m ⊆ stopEnds m';
  ext_statuses : kept status_later (statuses m) (statuses m');
  ext_creations : kept creation_later (creations m) (creations m');
  ext_placements : kept2 placement_later (placements m) (placements m');
  ext_activations : kept2 activation_later (activations m) (activations m');
  ext_stops : kept stop_later (stops m) (stops m');
  ext_recoveries : kept_list recovery_later (recoveries m) (recoveries m');
}.

(** ** It is a preorder *)
#[export] Instance creation_later_pre : PreOrder creation_later.
Proof.
  split.
  - intros c. split; [by destruct c|done].
  - intros c1 c2 c3 [E1 F1] [E2 F2]. split.
    + rewrite E2 at 1. rewrite E1 at 1. done.
    + intros Hp. specialize (F1 Hp) as ->. by apply F2.
Qed.
#[export] Instance placement_later_pre : PreOrder placement_later.
Proof.
  split; [by left|]. intros p1 p2 p3 [-> | ->] [-> | ->]; [by left|by right..].
Qed.
#[export] Instance activation_later_pre : PreOrder activation_later.
Proof.
  split.
  - intros a. split; [by destruct a|done].
  - intros a1 a2 a3 [E1 F1] [E2 F2]. split.
    + rewrite E2 at 1. rewrite E1 at 1. done.
    + intros Ha. specialize (F1 Ha) as ->. by apply F2.
Qed.
#[export] Instance stop_later_pre : PreOrder stop_later.
Proof. split; [done|]. unfold stop_later. intros [] [] []. naive_solver. Qed.
#[export] Instance recovery_later_pre : PreOrder recovery_later.
Proof.
  split; [done|]. unfold recovery_later.
  intros r1 r2 r3 (?&?&?&?&?&R1&B1&F1) (?&?&?&?&?&R2&B2&F2). split_and!; [congruence..|lia| |].
  - intros Hs. rewrite B2; [by apply B1|]. intros Hs2. rewrite Hs2 in R1.
    destruct (Recovery_Stage r1); cbn in R1; [done|lia..].
  - intros Hs. specialize (F1 Hs) as ->. by apply F2.
Qed.
#[export] Instance status_later_pre : PreOrder status_later.
Proof. split; [done|]. intros s1 s2 s3 [] []. split; lia. Qed.

#[export] Instance kept_pre `{Countable K} {A} (later : A → A → Prop) :
  PreOrder later → PreOrder (kept (K:=K) later).
Proof.
  intros Hpre. split; [intros m k a; by exists a|].
  intros m1 m2 m3 H12 H23 k a (a' & Ha' & ?)%H12. destruct (H23 _ _ Ha') as (a'' & ? & ?).
  exists a''. split; [done|by etrans].
Qed.
#[export] Instance kept2_pre {A} (later : A → A → Prop) : PreOrder later → PreOrder (kept2 later).
Proof.
  intros Hpre. split; [intros m g; reflexivity|]. intros m1 m2 m3 H12 H23 g.
  etrans; [apply H12|apply H23].
Qed.
#[export] Instance kept_list_pre {A} (later : A → A → Prop) :
  PreOrder later → PreOrder (kept_list later).
Proof.
  intros Hpre. split; [intros m g i a; by exists a|].
  intros m1 m2 m3 H12 H23 g i a (a' & Ha' & ?)%H12. destruct (H23 _ _ _ Ha') as (a'' & ? & ?).
  exists a''. split; [done|by etrans].
Qed.
#[export] Instance grows_pre `{Countable K} {A} : PreOrder (grows (K:=K) (A:=A)).
Proof. split; [by intros m k i a|]. intros m1 m2 m3 H12 H23 k i a Hi. by apply H23, H12. Qed.

#[export] Instance extends_pre : PreOrder extends.
Proof.
  split; [intros m; split; reflexivity|]. intros m1 m2 m3 [] []. split; (etrans; eassumption).
Qed.

(** ** One entry written *)
Lemma grows_push `{Countable K} {A} (m : gmap K (list A)) k a :
  grows m (<[k := slice m k ++ [a]]> m).
Proof. intros k' i b Hi. by apply slice_push_mono. Qed.

Lemma kept_insert `{Countable K} {A} (later : A → A → Prop) `{!PreOrder later} (m : gmap K A) k a :
  (∀ a0, m !! k = Some a0 → later a0 a) → kept later m (<[k := a]> m).
Proof.
  intros Hl k' a' Ha'. rewrite lookup_insert. case_decide as Hk; [subst k'|by exists a'].
  exists a. split; [done|by apply Hl].
Qed.

Lemma kept2_insert {A} (later : A → A → Prop) `{!PreOrder later} (m : gmap GRN (gmap string A)) g v :
  kept later (default ∅ (m !! g)) v → kept2 later m (<[g := v]> m).
Proof.
  intros Hk g'. rewrite lookup_insert. case_decide as Hg; [by subst g'|done].
Qed.

Lemma kept_list_push {A} (later : A → A → Prop) `{!PreOrder later} (m : gmap GRN (list A)) g a :
  kept_list later m (<[g := slice m g ++ [a]]> m).
Proof. intros g' i b Hi. exists b. split; [by apply slice_push_mono|done]. Qed.

Lemma kept_list_write (later : Recovery → Recovery → Prop) `{!PreOrder later} rs g i r r' :
  slice rs g !! i = Some r → later r r' → kept_list later rs (<[g := <[i := r']> (slice rs g)]> rs).
Proof.
  intros Hi Hl g' j r0 Hj. rewrite slice_insert. case_decide as Hg; [subst g'|by exists r0].
  destruct (decide (i = j)) as [<-|Hne].
  - exists r'. rewrite list_lookup_insert_eq by (by eapply lookup_lt_Some). split; [done|congruence].
  - exists r0. by rewrite list_lookup_insert_ne.
Qed.

Lemma DecidePlacement_register current same input :
  DecidePlacement current same input = Ok PlacementRegister → same = None.
Proof. unfold DecidePlacement. destruct same; [|done]. by repeat case_match. Qed.

(** ** Each operation extends the history *)
Ltac extends_rest := split; cbn; try reflexivity; try lia.

Lemma append_extends d m : extends m (append d m).2.
Proof.
  destruct (append_spec d m) as [[-> _]|[-> _]]; [done|]. extends_rest; apply grows_push.
Qed.

Lemma configure_extends r d m : extends m (configure r d m).2.
Proof.
  unfold configure. destruct (requests m !! Request_Key r) eqn:Hk; [done|].
  destruct (slice (definitions m) _); [done|]. case_match; [done|].
  pose proof (append_extends d m) as Happ. pose proof (append_spec d m) as Hspec.
  destruct (append d m) as [o m']. cbn in *. etrans; [exact Happ|]. extends_rest.
  apply insert_subseteq. destruct Hspec as [[[= -> ->] _]|[[= -> ->] _]]; done.
Qed.

Lemma register_creation_extends key d m : extends m (register_creation key d m).2.
Proof.
  unfold register_creation. destruct (creations m !! key) as [c|] eqn:Hc; [|done].
  case_bool_decide as Hp; cbn; [|done].
  pose proof (append_extends d m) as Happ. pose proof (append_spec d m) as Hspec.
  destruct (append d m) as [[[]|] m']; [|done]. cbn in *.
  case_match; [|done]. etrans; [exact Happ|]. extends_rest.
  apply kept_insert; [apply _|]. intros c0 Hc0.
  assert (c0 = c) as ->.
  { destruct Hspec as [[[= ] _]|[[= ->] _]]. cbn in Hc0. congruence. }
  by split; [|done].
Qed.

Lemma creation_write_extends key c o m :
  creations m !! key = Some c → Creation_Outcome c = Pending →
  extends m (set_creations (<[key := creation_outcome c o]> (creations m)) m).
Proof.
  intros Hc Hp. extends_rest. apply kept_insert; [apply _|]. intros c0 Hc0.
  assert (c0 = c) as -> by congruence. by split; [|done].
Qed.

Lemma register_placement_extends input m :
  wf m → extends m (register_placement input m).2.
Proof.
  intros Hwf. unfold register_placement.
  destruct (DecidePlacement _ _ input) as [[]|] eqn:Hd; [by case_match| |done]. cbn.
  apply DecidePlacement_register in Hd. fold (current_of (PlacementInput_Agent input) m).
  extends_rest. apply kept2_insert; [apply _|].
  fold (agent_placements (PlacementInput_Agent input) m).
  pose proof (agent_placements_ok m (PlacementInput_Agent input) (wf_placements _ Hwf)) as [Hk _].
  etrans; [|apply kept_insert; [apply _|]].
  - destruct (current_of (PlacementInput_Agent input) m) as [c|] eqn:Hc; [|done].
    apply current_of_Some in Hc as (uid & Hu & Hs); [|apply Hwf].
    rewrite (proj1 (Hk _ _ Hu)). apply kept_insert; [apply _|]. intros p Hp.
    assert (p = c) as -> by congruence. by right.
  - intros p. destruct (current_of (PlacementInput_Agent input) m) as [c|] eqn:Hc; [|congruence].
    apply current_of_Some in Hc as (uid & Hu & Hs); [|apply Hwf].
    rewrite (proj1 (Hk _ _ Hu)). intros [[-> _]|[_ Hp]]%lookup_insert_cases; congruence.
Qed.

Lemma insert_activation_extends a m : extends m (insert_activation a m).2.
Proof.
  unfold insert_activation. fold (agent_activations (Activation_Agent a) m).
  destruct (agent_activations (Activation_Agent a) m !! _) eqn:He; extends_rest.
  - by apply kept2_insert; [apply _|].
  - etrans; [by apply kept2_insert, reflexivity; apply _|].
    apply kept2_insert; [apply _|]. rewrite lookup_insert_eq. cbn.
    apply kept_insert; [apply _|]. congruence.
Qed.

Lemma record_activation_extends agent requestID activationID m :
  extends m (record_activation agent requestID activationID m).2.
Proof.
  unfold record_activation.
  destruct (agent_activations agent m !! requestID) as [a|] eqn:He; [|done].
  destruct (_ && _) eqn:Hg; [done|]. extends_rest. apply kept2_insert; [apply _|].
  fold (agent_activations agent m). apply kept_insert; [apply _|]. intros a0 Ha0.
  assert (a0 = a) as -> by congruence. split; [done|]. intros Hne.
  rewrite (bool_decide_false (_ = "")) in Hg by done. cbn in Hg.
  case_bool_decide as Heq; [|done]. rewrite <- Heq. by destruct a.
Qed.

Lemma open_recovery_extends r m : extends m (open_recovery r m).2.
Proof.
  unfold open_recovery. repeat (case_match; [done|]). extends_rest.
  by apply kept_list_push, _.
Qed.

Lemma prepare_recovery_extends agent requestID epoch body m :
  extends m (prepare_recovery agent requestID epoch body m).2.
Proof.
  unfold prepare_recovery. destruct (recovery_locked _ _ m) as [i|]; [|done].
  destruct (slice (recoveries m) agent !! i) as [r|] eqn:Hi; [|done].
  case_bool_decide; cbn; [|done]. case_bool_decide as Hst; [|by repeat case_match].
  extends_rest. apply (kept_list_write _ _ _ _ r); [done|].
  split_and!; cbn; rewrite ?Hst; cbn; try done; lia.
Qed.

Lemma finalize_recovery_extends agent requestID c m :
  extends m (finalize_recovery agent requestID c m).2.
Proof.
  unfold finalize_recovery. destruct (recovery_locked _ _ m) as [i|]; [|done].
  destruct (slice (recoveries m) agent !! i) as [r|] eqn:Hi; [|done].
  destruct (Recovery_Stage r) eqn:Hst; [done| |done].
  extends_rest. apply (kept_list_write _ _ _ _ r); [done|].
  split_and!; cbn; rewrite ?Hst; cbn; try done; lia.
Qed.

Lemma record_stop_extends s m : extends m (record_stop s m).2.
Proof.
  unfold record_stop. destruct (stops m !! Stop_Key s) eqn:Hk; [done|]. case_match; [done|].
  extends_rest. apply kept_insert; [apply _|]. congruence.
Qed.

Lemma record_deactivation_extends key m : extends m (record_deactivation key m).2.
Proof.
  unfold record_deactivation. destruct (stops m !! key) as [s|] eqn:Hk; [|done].
  extends_rest. apply kept_insert; [apply _|]. intros s0 Hs0.
  assert (s0 = s) as -> by congruence. by repeat split.
Qed.

Lemma record_start_extends agent end_ m : wf m → extends m (record_start agent end_ m).2.
Proof.
  intros Hwf. unfold record_start. destruct (stopEnds m !! _) eqn:He; [done|].
  destruct (current_stop_locked agent m) as [s|] eqn:Hcur; [|done].
  apply current_stop_locked_Some in Hcur as (Hs & _ & Hst); [|apply Hwf].
  extends_rest; [by apply insert_subseteq|]. apply kept_insert; [apply _|]. intros s0 Hs0.
  assert (s0 = s) as -> by (cbn in Hs0; congruence).
  repeat split; cbn; try done. congruence.
Qed.

Lemma record_status_extends agent s m : extends m (record_status agent s m).2.
Proof.
  extends_rest. apply kept_insert; [apply _|]. intros s0 Hs0. unfold status_of. rewrite Hs0.
  split; cbn; lia.
Qed.

Lemma record_runtime_applied_extends agent a m : extends m (record_runtime_applied agent a m).2.
Proof.
  extends_rest. apply kept_insert; [apply _|]. intros s0 Hs0. unfold status_of. cbn. rewrite Hs0.
  split; cbn; lia.
Qed.

(** Every call extends the history, whether or not it is refused. *)
Lemma handle_extends m X (e : repoE X) : wf m → extends m (handle X e m).2.
Proof.
  intros Hwf. destruct e; cbn [handle]; try done.
  - extends_rest. apply grows_push.
  - unfold publish_profile_version. repeat case_match; try done. extends_rest. apply grows_push.
  - extends_rest. apply grows_push.
  - unfold publish_once. destruct (publications m !! _) eqn:Hp; [done|].
    extends_rest; [apply grows_push|by apply insert_subseteq].
  - apply configure_extends.
  - apply record_status_extends.
  - unfold begin_creation. destruct (creations m !! Creation_Key c) eqn:Hc; [done|].
    extends_rest. apply kept_insert; [apply _|]. cbn. congruence.
  - apply register_creation_extends.
  - unfold fail_creation. destruct (creations m !! key) eqn:Hc; [|done].
    case_bool_decide; cbn; [|done]. by apply creation_write_extends.
  - by apply register_placement_extends.
  - apply insert_activation_extends.
  - apply record_activation_extends.
  - apply record_runtime_applied_extends.
  - apply open_recovery_extends.
  - apply prepare_recovery_extends.
  - apply finalize_recovery_extends.
  - apply record_stop_extends.
  - apply record_deactivation_extends.
  - by apply record_start_extends.
Qed.
End history.
End StoreHistory.
