(* ===== verification/Feed.v ===== *)
(** The controllers' feed, as the in-process store serves it ([Memory.Desired], [Memory.Position]):
    what a page holds, in what order, and that a controller waiting on the position misses nothing. *)
From S2P Require Import Prelude GoStd Errors Types Validation Repository Memory MemoryInvariant Samples.
Import Validation Memory MemoryInvariant.

Module Feed.

Section feed.
Context `{K8s : Kubernetes, SE : !SemanticEquality}.

(** [agent] is owed to [operator] as [o]: its latest revision is recorded for that controller, and
[o] is that revision with its profile's settings, its stop, its open recovery and the position
the revision was stored at. *)
Definition owed_by m operator (agent : GRN) (o : owed) : Prop :=
  ∃ revisions d a profile pos,
  definitions m !! agent = Some revisions ∧ last revisions = Some d ∧
  Definition_Assignment d = Some a ∧ Assignment_Operator a = operator ∧
  index (slice (profiles m) (Definition_Organization d, ProfileRef_Name (Definition_Profile d)))
  (ProfileRef_Version (Definition_Profile d) - 1) = Some profile ∧
  slice (positions m) agent !! (length revisions - 1)%nat = Some pos ∧
  o = mkOwed (mkDesiredRevision d (Profile_Settings profile)
    (bool_decide (current_stop_locked agent m ≠ None))
    (open_recovery_locked agent m)) pos.

#[local] Arguments owed_of : simpl never.

(** The loop never indexes out of range in a well-formed store. *)
Lemma owed_of_spec operator m agent revisions :
  wf m → definitions m !! agent = Some revisions →
  ∃ o, owed_of operator m (agent, revisions) = Ok o ∧
  ∀ x, o = Some x ↔ owed_by m operator agent x.
Proof.
  intros Hwf Hrevs. unfold owed_of.
  pose proof (wf_definitions _ Hwf) as [Hne Hds].
  destruct (last revisions) as [d|] eqn:Hlast; last first.
  { apply last_None in Hlast as ->. by destruct (Hne agent). }
  pose proof (last_lookup_Some _ _ Hlast) as Hd. rewrite <- (slice_Some _ _ _ Hrevs) in Hd.
  destruct (Hds _ _ _ Hd) as (_ & _ & [profile Hprofile] & _).
  destruct (Definition_Assignment d) as [a|] eqn:Ha; last first.
  { exists None. split; [done|]. intros x. split; [done|].
    intros (? & ? & ? & ? & ? & ? & ? & ? & _). congruence. }
  case_bool_decide as Hop; cbn; last first.
  { exists None. split; [done|]. intros x. split; [done|].
    intros (? & ? & ? & ? & ? & ? & ? & ? & ? & _). congruence. }
  rewrite Hprofile. destruct (wf_positions _ Hwf) as (_ & Hlen & _).
  specialize (Hlen agent). rewrite (slice_Some _ _ _ Hrevs) in Hlen.
  assert (length revisions ≠ 0%nat) as Hlen0 by (by destruct revisions).
  destruct (lookup_lt_is_Some_2 (slice (positions m) agent) (length revisions - 1)) as [pos Hpos];
    [lia|].
  replace (Z.of_nat (length revisions) - 1) with (Z.of_nat (length revisions - 1)) by lia.
  rewrite index_of_nat, Hpos. eexists. split; [done|]. intros x. split.
  - intros [= <-]. by exists revisions, d, a, profile, pos.
  - intros (revs' & d' & a' & profile' & pos' & ? & ? & ? & ? & ? & ? & ->). congruence.
Qed.

Lemma collect_owed_spec operator m entries :
  wf m → (∀ agent revisions, (agent, revisions) ∈ entries → definitions m !! agent = Some revisions) →
  NoDup entries.*1 →
  ∃ found, collect_owed operator m entries = Ok found ∧
  (∀ o, o ∈ found ↔ ∃ agent, agent ∈ entries.*1 ∧ owed_by m operator agent o) ∧
  NoDup (owed_position <$> found).
Proof.
  intros Hwf. induction entries as [|[agent revisions] entries IH]; intros Hin Hnd; cbn.
  { exists []. split_and!; [done| |constructor]. intros o. rewrite elem_of_nil. set_solver. }
  apply NoDup_cons in Hnd as [Hfresh Hnd].
  destruct (owed_of_spec operator m agent revisions Hwf) as (o & -> & Ho); [apply Hin; by left|].
  destruct IH as (found & -> & Hfound & Hnodup); [intros; apply Hin; by right|done|]. cbn.
  destruct o as [x|].
  - exists (x :: found). split_and!; [done| |].
    + intros o. rewrite elem_of_cons, Hfound. setoid_rewrite elem_of_cons. split.
      * intros [->|(a & ? & ?)]; [exists agent; split; [by left|by apply Ho]|].
        exists a. split; [by right|done].
      * intros (a & [->|?] & Hby); [left; by apply Ho in Hby as [= ->]|right; by exists a].
    + cbn. constructor; [|done]. intros (y & Hy & (b & Hb & Hby)%Hfound)%list_elem_of_fmap.
      assert (owed_by m operator agent x) as Hx by (by apply Ho).
      destruct Hx as (? & ? & ? & ? & px & ? & _ & _ & _ & _ & Hpx & ->).
      destruct Hby as (? & ? & ? & ? & py & ? & _ & _ & _ & _ & Hpy & ->). cbn in Hy. subst py.
      destruct (wf_positions _ Hwf) as (_ & _ & _ & Huniq & _).
      destruct (Huniq _ _ _ _ _ Hpx Hpy) as [-> _]. done.
  - exists found. split_and!; [done| |done]. intros o. rewrite Hfound.
    setoid_rewrite elem_of_cons. split; [naive_solver|].
    intros (a & [->|?] & Hby); [by apply Ho in Hby|by exists a].
Qed.

(** A list sorted by distinct positions is sorted strictly. *)
Lemma sorted_strict (l : list owed) :
  Sorted owed_le l → NoDup (owed_position <$> l) →
  StronglySorted (λ a b, owed_position a < owed_position b) l.
Proof.
  intros Hs Hnd. apply Sorted_StronglySorted in Hs; [|intros ???; unfold owed_le; lia].
  induction Hs as [|o l Hs IH Hall]; [constructor|]. cbn in Hnd.
  apply NoDup_cons in Hnd as [Hfresh Hnd]. constructor; [by apply IH|].
  rewrite Forall_forall in Hall |- *. intros o' Ho'. specialize (Hall _ Ho'). unfold owed_le in Hall.
  assert (owed_position o ≠ owed_position o'); [|lia].
  intros Heq. apply Hfresh, list_elem_of_fmap. by exists o'.
Qed.

#[local] Instance owed_le_total : Total owed_le.
Proof. intros a b. unfold owed_le. lia. Qed.

(** What is owed to an operator, in the order of the store's agents, and the page made of it. *)
Lemma desired_found operator limit m :
  wf m → 0 ≤ limit →
  ∃ found,
  desired operator limit m =
  (Ok (mkDesiredPage (position m) (owed_revision <$> take (Z.to_nat limit) (merge_sort owed_le found))), m) ∧
  (∀ o, o ∈ found ↔ ∃ agent, owed_by m operator agent o) ∧ NoDup (owed_position <$> found).
Proof.
  intros Hwf Hlimit. unfold desired.
  destruct (collect_owed_spec operator m (map_to_list (definitions m)) Hwf)
    as (found & -> & Hfound & Hnd).
  { intros agent revisions. by rewrite elem_of_map_to_list. }
  { apply NoDup_fst_map_to_list. }
  cbn. rewrite bool_decide_false by lia. exists found.
  assert (take (Z.to_nat (limit `min` Z.of_nat (length (merge_sort owed_le found))))
    (merge_sort owed_le found) = take (Z.to_nat limit) (merge_sort owed_le found)) as ->.
  { destruct (decide (limit ≤ Z.of_nat (length (merge_sort owed_le found)))).
    - by rewrite Z.min_l.
    - rewrite !take_ge; [done|lia..]. }
  split_and!; [done| |done].
  intros o. rewrite Hfound. split; [naive_solver|].
  intros (agent & Hby). exists agent. split; [|done].
  destruct Hby as (revisions & ? & ? & ? & ? & Hrevs & _).
  apply list_elem_of_fmap. exists (agent, revisions). split; [done|]. by apply elem_of_map_to_list.
Qed.

(** The feed of an operator's desired state, given the store is well formed and the limit not
negative, never panics and changes nothing: it answers the store's position and the first [limit],
in the order of their positions, of the agents whose latest revision is assigned to the operator,
each with that revision, its profile's settings, whether it is stopped, and its open recovery. *)
Theorem desired_spec operator limit m :
  wf m → 0 ≤ limit →
  ∃ found,
  desired operator limit m =
  (Ok (mkDesiredPage (position m) (owed_revision <$> take (Z.to_nat limit) found)), m) ∧
  (∀ o, o ∈ found ↔ ∃ agent, owed_by m operator agent o) ∧
  StronglySorted (λ a b, owed_position a < owed_position b) found.
Proof.
  intros Hwf Hlimit. destruct (desired_found operator limit m Hwf Hlimit) as (found & -> & Hfound & Hnd).
  exists (merge_sort owed_le found). pose proof (merge_sort_Permutation owed_le found) as Hperm. split_and!; [done| |].
  - intros o. by rewrite Hperm.
  - apply sorted_strict; [apply Sorted_merge_sort, _|]. by rewrite Hperm.
Qed.

(** ** Waiting on the position *)

(** Two stores that answer every controller alike: the same revisions and positions, a stop where
there was one and the same open recovery, and every profile version once published. *)
Record same_feed (m m' : mem) : Prop := {
  feed_definitions : definitions m' = definitions m;
  feed_positions : positions m' = positions m;
  feed_position : position m' = position m;
  feed_stops : ∀ agent, bool_decide (current_stop_locked agent m' ≠ None) =
  bool_decide (current_stop_locked agent m ≠ None);
  feed_recoveries : ∀ agent, open_recovery_locked agent m' = open_recovery_locked agent m;
  feed_profiles : ∀ key i p, slice (profiles m) key !! i = Some p → slice (profiles m') key !! i = Some p;
}.

Lemma same_feed_refl m : same_feed m m.
Proof. by split. Qed.

Lemma same_feed_owed operator m m' agent revisions :
  wf m → same_feed m m' → definitions m !! agent = Some revisions →
  owed_of operator m' (agent, revisions) = owed_of operator m (agent, revisions).
Proof.
  intros Hwf [Hds Hpos Hp Hst Hrec Hprof] Hrevs. unfold owed_of.
  destruct (last revisions) as [d|] eqn:Hlast; [|done].
  destruct (Definition_Assignment d); [|done]. case_match; [done|].
  apply last_lookup_Some in Hlast. rewrite <- (slice_Some _ _ _ Hrevs) in Hlast.
  destruct (proj2 (wf_definitions _ Hwf) _ _ _ Hlast) as (_ & _ & [profile Hprofile] & _).
  rewrite Hprofile. apply index_Some in Hprofile as [Hge Hprofile].
  rewrite (proj2 (index_Some _ _ profile)) by (split; [done|by apply Hprof]).
  by rewrite Hpos, Hst, Hrec.
Qed.

Lemma same_feed_desired operator limit m m' :
  wf m → same_feed m m' → (desired operator limit m').1 = (desired operator limit m).1.
Proof.
  intros Hwf Hsame. pose proof Hsame as [Hds Hpos Hp Hst Hrec Hprof]. unfold desired. cbn.
  rewrite Hds, Hp.
  assert (∀ entries, (∀ agent revisions, (agent, revisions) ∈ entries →
    definitions m !! agent = Some revisions) →
    collect_owed operator m' entries = collect_owed operator m entries) as ->; [|done|].
  - induction entries as [|[agent revisions] entries IH]; intros Hin; [done|]. cbn.
    rewrite (same_feed_owed operator m m'), IH; [done|..]; try done.
    + intros. apply Hin. by right.
    + apply Hin. by left.
  - intros agent revisions. by rewrite elem_of_map_to_list.
Qed.

(** A stop rewritten under its own key stays current exactly where it was. *)
Lemma current_stop_rewrite m k s s' agent :
  wf m → stops m !! k = Some s → Stop_Key s' = k → Stop_Agent s' = Stop_Agent s →
  Stop_Start s' = Stop_Start s →
  bool_decide (current_stop_locked agent (set_stops (<[k := s']> (stops m)) m) ≠ None) =
  bool_decide (current_stop_locked agent m ≠ None).
Proof.
  intros Hwf Hs Hk Ha Hst. apply bool_decide_ext.
  pose proof (stops_ok_rewrite _ _ _ _ _ (wf_stops _ Hwf) Hs Hk Ha Hst) as Hok.
  split; intros Hne Hn; apply Hne.
  - apply eq_None_not_Some. intros [c [Hc [Hca Hcs]]%current_stop_locked_Some]; [|done].
    cbn in Hc. apply lookup_insert_cases in Hc as [[Hkc <-]|[_ Hc]].
    + exfalso. eapply current_stop_locked_None; [exact Hn|exact Hs|congruence|congruence].
    + exfalso. eapply current_stop_locked_None; [exact Hn|exact Hc|done|done].
  - apply eq_None_not_Some. intros [c [Hc [Hca Hcs]]%current_stop_locked_Some]; [|apply Hwf].
    destruct (decide (k = Stop_Key c)) as [->|Hne'].
    + assert (c = s) as -> by congruence.
      apply (current_stop_locked_None _ _ (Stop_Key s) s' Hn); cbn; [by rewrite lookup_insert_eq|congruence..].
    + apply (current_stop_locked_None _ _ (Stop_Key c) c Hn); cbn; [by rewrite lookup_insert_ne|congruence..].
Qed.

(** A recovery prepared in place is as open as it was, under the same names. *)
Lemma open_recovery_prepare (l : list Recovery) i r body :
  l !! i = Some r → Recovery_Stage r = RecoveryRequested →
  (r0 ← List.find (λ r, negb (bool_decide (Recovery_Stage r = RecoveryFinalized))) (<[i := prepared r body]> l);
    Some (mkOpenRecovery (Recovery_RequestID r0) (Recovery_Epoch r0))) =
  (r0 ← List.find (λ r, negb (bool_decide (Recovery_Stage r = RecoveryFinalized))) l;
    Some (mkOpenRecovery (Recovery_RequestID r0) (Recovery_Epoch r0))).
Proof.
  revert i. induction l as [|x l IH]; intros [|i]; cbn; [done..| |].
  - intros [= ->] ->. cbn. done.
  - intros Hi Hst. case_bool_decide; cbn; [by apply IH|done].
Qed.

Ltac unmoved := left; split; cbn; try done.

Lemma append_feed d m : same_feed m (append d m).2 ∨ position (append d m).2 = position m + 1.
Proof. destruct (append_spec d m) as [[-> _]|[-> _]]; [by left|by right]. Qed.

(** Every call moves the position, or leaves every controller's page as it was. *)
Lemma handle_feed m X (e : repoE X) :
  wf m → same_feed m (handle X e m).2 ∨ position (handle X e m).2 = position m + 1.
Proof.
  intros Hwf. destruct e; cbn [handle]; try (left; apply same_feed_refl); try by unmoved.
  - unmoved. intros. by apply slice_push_mono.
  - unfold publish_profile_version. repeat case_match; try (left; apply same_feed_refl).
    unmoved. intros. by apply slice_push_mono.
  - unfold publish_once. case_match; [left; apply same_feed_refl|by unmoved].
  - unfold configure. destruct (requests m !! _); [left; apply same_feed_refl|].
    case_match; [left; apply same_feed_refl|]. case_match; [left; apply same_feed_refl|].
    destruct (append_spec d m) as [[-> _]|[-> _]]; [by unmoved|by right].
  - unfold begin_creation. case_match; [left; apply same_feed_refl|by unmoved].
  - unfold register_creation. case_match; [|left; apply same_feed_refl].
    case_match; [left; apply same_feed_refl|].
    destruct (append_spec d m) as [[-> _]|[-> _]]; [left; apply same_feed_refl|].
    case_match; by right.
  - unfold fail_creation. case_match; [|left; apply same_feed_refl].
    case_match; [left; apply same_feed_refl|by unmoved].
  - unfold register_placement. repeat case_match; try (left; apply same_feed_refl); by unmoved.
  - unfold insert_activation. case_match; by unmoved.
  - unfold record_activation. repeat case_match; try (left; apply same_feed_refl). by unmoved.
  - unfold open_recovery. repeat case_match; try (left; apply same_feed_refl). by right.
  - unfold prepare_recovery. destruct (recovery_locked _ _ m) as [i|]; [|left; apply same_feed_refl].
    destruct (slice (recoveries m) agent !! i) as [r|] eqn:Hi; [|left; apply same_feed_refl].
    case_bool_decide; cbn; [|left; apply same_feed_refl].
    case_bool_decide as Hst; [|repeat case_match; left; apply same_feed_refl].
    unmoved. intros agent'. unfold open_recovery_locked. cbn. rewrite slice_insert.
    case_decide as Ha; [subst agent'|done]. by apply open_recovery_prepare.
  - unfold finalize_recovery. destruct (recovery_locked _ _ m) as [i|]; [|left; apply same_feed_refl].
    destruct (slice (recoveries m) agent !! i) as [r|]; [|left; apply same_feed_refl].
    case_match; try (left; apply same_feed_refl). by right.
  - unfold record_stop. repeat case_match; try (left; apply same_feed_refl). by right.
  - unfold record_deactivation. destruct (stops m !! key) as [s|] eqn:Hs; [|left; apply same_feed_refl].
    unmoved. intros agent. apply (current_stop_rewrite _ _ s); try done.
    exact (proj1 (wf_stops _ Hwf) _ _ Hs).
  - unfold record_start. repeat case_match; try (left; apply same_feed_refl). by right.
Qed.
End feed.

(** The sample's operator, owed its one agent. *)
#[local] Existing Instances Samples.K8s Samples.SE Samples.SE_laws.
Lemma desired_spec_witness :
  ∃ found,
    desired Samples.controller 10 Samples.store =
      (Ok (mkDesiredPage (position Samples.store) (owed_revision <$> take (Z.to_nat 10) found)), Samples.store) ∧
    (∀ o, o ∈ found ↔ ∃ agent, owed_by Samples.store Samples.controller agent o) ∧
    StronglySorted (λ a b, owed_position a < owed_position b) found.
Proof. apply (desired_spec Samples.controller 10 Samples.store); [apply Samples.store_wf|lia]. Defined.
End Feed.
