(* ===== verification/StoreSpec.v ===== *)
(** What the in-process store promises, over every sequence of calls made as the interface asks:
    it stays well formed, takes nothing back, answers a controller's wait, replaces a placement only
    on evidence, and knows the request that authorized each revision. *)
From S2P Require Import Prelude GoStd Errors Types Validation Repository Memory MemoryInvariant Samples StoreHistory Feed.
Import Validation Memory MemoryInvariant StoreHistory Feed.

Module StoreSpec.

Section spec.
Context `{K8s : Kubernetes, SE : !SemanticEquality}.

(** [m'] is what legal calls, in whatever order, make of [m]. *)
Inductive calls : mem → mem → Prop :=
| calls_refl m : calls m m
| calls_step m m' X (e : repoE X) : calls m m' → legal m' e → calls m (handle X e m').2.

Lemma calls_trans m1 m2 m3 : calls m1 m2 → calls m2 m3 → calls m1 m3.
Proof. induction 2; [done|]. apply calls_step; auto. Qed.

Lemma calls_wf m m' : calls m m' → wf m → wf m'.
Proof. induction 1; [done|]. intros. by apply handle_keeps; auto. Qed.

Lemma calls_extends m m' : calls m m' → wf m → extends m m'.
Proof.
  induction 1 as [|m m' X e Hc IH Hl]; [done|]. intros Hwf.
  etrans; [by apply IH|]. apply handle_extends. by eapply calls_wf.
Qed.

(** ** Authorized revisions *)

(** The revision at index [i] of an agent's is its registered creation's, or a configure
request's that was applied as it. *)
Definition authorized m agent (i : nat) : Prop :=
  match i with
  | O => ∃ k c r, creations m !! k = Some c ∧ Creation_Outcome c = RegisteredAs r ∧
    Registered_Agent r = agent
  | S _ => ∃ k r, requests m !! k = Some r ∧ Request_Agent r = agent ∧
    Request_Outcome r = Applied (Z.of_nat i + 1)
  end.

Definition traced m : Prop :=
  ∀ agent i d, slice (definitions m) agent !! i = Some d → authorized m agent i.

Lemma authorized_mono m m' agent i : extends m m' → authorized m agent i → authorized m' agent i.
Proof.
  intros Hext. destruct i; cbn.
  - intros (k & c & r & Hc & Ho & Hr). destruct (ext_creations _ _ Hext _ _ Hc) as (c' & Hc' & _ & Hl).
    exists k, c', r. by rewrite Hl in * by congruence.
  - intros (k & r & Hr & ? & ?). exists k, r. split; [|done].
    by eapply lookup_weaken, ext_requests.
Qed.

(** Every revision stored by a call is authorized by that very call. *)
Lemma handle_new_revision m X (e : repoE X) agent i d :
  wf m → legal m e → slice (definitions (handle X e m).2) agent !! i = Some d →
  slice (definitions m) agent !! i = Some d ∨ authorized (handle X e m).2 agent i.
Proof.
  intros Hwf Hlegal. destruct e; cbn [handle]; try (by left);
    try (unfold publish_profile_version, publish_once, begin_creation, fail_creation,
    register_placement, insert_activation, record_activation, open_recovery,
    prepare_recovery, finalize_recovery, record_stop, record_deactivation, record_start,
    write_recovery; repeat case_match; by left).
  - unfold configure. destruct (requests m !! _); [by left|].
    case_match eqn:Hs; [by left|]. case_bool_decide; cbn; [|by left].
    destruct Hlegal as [_ Hag].
    destruct (append_spec d0 m) as [[-> _]|[-> Hrev]]; cbn; [by left|].
    intros [?|(-> & -> & ->)]%slice_push_lookup; [by left|right].
    rewrite Hs. cbn. exists (Request_Key r), (with_outcome r (Applied (Definition_Revision d0))).
    rewrite lookup_insert_eq. split_and!; [done..|]. cbn. rewrite Hrev, Hs. cbn. f_equal; lia.
  - unfold register_creation. destruct (creations m !! key) as [c|]; [|by left].
    case_bool_decide; cbn; [|by left]. destruct Hlegal as (_ & Hone & Hass & _).
    destruct (append_spec d0 m) as [[-> _]|[-> Hrev]]; cbn; [by left|].
    destruct (Definition_Assignment d0) as [a|]; [|by destruct Hass]. cbn.
    intros [?|(-> & -> & ->)]%slice_push_lookup; [by left|right].
    assert (length (slice (definitions m) (Definition_Agent d0)) = 0%nat) as -> by lia.
    do 3 eexists. cbn. by rewrite lookup_insert_eq.
Qed.

Lemma traced_keeps m X (e : repoE X) : wf m → legal m e → traced m → traced (handle X e m).2.
Proof.
  intros Hwf Hl Ht agent i d [Hi|?]%handle_new_revision; [|done..].
  eapply authorized_mono; [by apply handle_extends|by eapply Ht].
Qed.

Lemma calls_traced m m' : calls m m' → wf m → traced m → traced m'.
Proof.
  induction 1; [done|]. intros. apply traced_keeps; [by eapply calls_wf|done|auto].
Qed.

Lemma NewMemory_traced : traced NewMemory.
Proof. intros agent i d. unfold slice. cbn. by rewrite lookup_empty. Qed.

(** ** Reading a published profile *)
Lemma published_get_profile m org ref :
  published (profiles m) org ref → ∃ p, get_profile org ref m = (Ok p, m).
Proof.
  intros [p Hp]. pose proof Hp as [Hge Hl]%index_Some. exists p. unfold get_profile, get_version.
  pose proof (lookup_lt_Some _ _ _ Hl).
  rewrite !bool_decide_false by lia. cbn. by rewrite Hp.
Qed.

Lemma get_profile_published m org ref p m' :
  get_profile org ref m = (Ok p, m') → published (profiles m) org ref ∧ m' = m.
Proof.
  unfold get_profile, get_version, published. intros [= Hp <-]. split; [|done].
  case_match; [done|]. by case_match.
Qed.

(** ** Placements *)
(** A Pod once registered is answered alike in every later store: it is the placement first
stored for it, or it is refused as superseded. *)
Lemma placement_later_answer m m' agent uid p :
  wf m → calls m m' → agent_placements agent m !! uid = Some p →
  agent_placements agent m' !! uid = Some p ∨ agent_placements agent m' !! uid = Some (superseded p).
Proof.
  intros Hwf Hc Hp. destruct (ext_placements _ _ (calls_extends _ _ Hc Hwf) agent uid p Hp)
    as (p' & Hp' & [-> | ->]); auto.
Qed.

Definition registered_as (input : PlacementInput) : Placement :=
  mkPlacement (PlacementInput_Agent input) (PlacementInput_Controller input)
  (PlacementInput_Request input) false.

Lemma register_placement_same input m p :
  agent_placements (PlacementInput_Agent input) m !!
  PlacementRequest_PodUID (PlacementInput_Request input) = Some p →
  p = registered_as input → register_placement input m = (Ok (p, false), m).
Proof.
  intros Hp ->. unfold register_placement. rewrite Hp. unfold DecidePlacement. cbn.
  by rewrite !bool_decide_true.
Qed.

Lemma register_placement_superseded input m p :
  agent_placements (PlacementInput_Agent input) m !!
  PlacementRequest_PodUID (PlacementInput_Request input) = Some p →
  Placement_Superseded p = true → register_placement input m = (Err ErrPlacementSuperseded, m).
Proof. intros Hp Hs. unfold register_placement. rewrite Hp. unfold DecidePlacement. by rewrite Hs. Qed.

(** What a first registration stores, and what it took. *)
Lemma register_placement_first input m p m' :
  register_placement input m = (Ok (p, true), m') →
  p = registered_as input ∧
  agent_placements (PlacementInput_Agent input) m !!
  PlacementRequest_PodUID (PlacementInput_Request input) = None ∧
  agent_placements (PlacementInput_Agent input) m' =
  registered_map (PlacementInput_Agent input) input m ∧
  match current_of (PlacementInput_Agent input) m with
  | None => PlacementRequest_Previous (PlacementInput_Request input) = zeroPrevious
  | Some c =>
    let previous := PlacementRequest_Previous (PlacementInput_Request input) in
    Previous_PodUID previous = PlacementRequest_PodUID (Placement_Request c) ∧
    Previous_WriterStoppedSHA256 previous ≠ ""
  end.
Proof.
  unfold register_placement. fold (current_of (PlacementInput_Agent input) m).
  destruct (DecidePlacement _ _ input) as [[]|] eqn:Hd; [by case_match| |done].
  intros [= <- <-]. unfold agent_placements at 2. cbn. rewrite lookup_insert_eq. cbn.
  unfold DecidePlacement in Hd. destruct (agent_placements _ m !! _) eqn:Hsame.
  { by repeat case_match. }
  split_and!; [done..|]. case_bool_decide as Hz; destruct (current_of _ m) as [c|]; try done.
  case_bool_decide; cbn in Hd; [|done]. by case_bool_decide.
Qed.
End spec.

(** ** The theorems *)
Section theorems.
Context `{K8s : Kubernetes, SE : !SemanticEquality}.

(** C1: from the empty store, every sequence of legal calls leaves a well-formed store: revisions
numbered from 1 without a gap and of one organization, positions distinct and growing, one
current stop and placement and one open recovery per agent. *)
Theorem store_well_formed m : calls NewMemory m → wf m.
Proof. intros Hc. by eapply calls_wf, NewMemory_wf. Qed.

(** The store takes nothing back: whatever calls are made, every version, revision, recorded
request and ended stop stays as it was, a superseded placement stays superseded, an answered
activation keeps its answer, and a recovery goes only forward. *)
Theorem history_append_only m m' : wf m → calls m m' → extends m m'.
Proof. intros. by apply calls_extends. Qed.

(** Every revision the store holds was authorized by a request recorded there: the first by
its agent's registered creation, each later one by a configure request applied as it. *)
Theorem revisions_authorized m : calls NewMemory m → traced m.
Proof. intros Hc. eapply calls_traced; [done|apply NewMemory_wf|apply NewMemory_traced]. Qed.

(** A controller that waits for the position to move misses nothing: while calls leave the
position where it was, the page every controller is served stays the same. *)
Theorem waiting_misses_nothing m m' operator limit :
  wf m → calls m m' → position m' = position m →
  (desired operator limit m').1 = (desired operator limit m).1.
Proof.
  intros Hwf Hc. induction Hc as [|m m' X e Hc IH Hl]; [done|]. intros Hpos.
  assert (wf m') as Hwf' by (by eapply calls_wf).
  pose proof (ext_position _ _ (calls_extends _ _ Hc Hwf)).
  destruct (handle_feed m' X e Hwf') as [Hsame|Hmoved]; [|lia].
  rewrite <- IH; [by apply same_feed_desired|done|].
  by rewrite <- (feed_position _ _ Hsame).
Qed.

(** C14: a Pod first becomes an agent's placement only where no Pod was held and it names none
before it, or where it names the Pod held and carries evidence that Pod's writer stopped. It is
then the placement held, a repeat of its registration is answered alike until it is itself
superseded, and the Pod it replaced is refused for good. *)
Theorem placement_replaced_on_evidence m input p m' :
  wf m → register_placement input m = (Ok (p, true), m') →
  current_of (PlacementInput_Agent input) m' = Some p ∧ p = registered_as input ∧
  (∀ m'', calls m' m'' → register_placement input m'' = (Ok (p, false), m'') ∨
    register_placement input m'' = (Err ErrPlacementSuperseded, m'')) ∧
  match current_of (PlacementInput_Agent input) m with
  | None => PlacementRequest_Previous (PlacementInput_Request input) = zeroPrevious
  | Some c =>
    Previous_PodUID (PlacementRequest_Previous (PlacementInput_Request input)) =
    PlacementRequest_PodUID (Placement_Request c) ∧
    Previous_WriterStoppedSHA256 (PlacementRequest_Previous (PlacementInput_Request input)) ≠ "" ∧
    ∀ m'' again, calls m' m'' → PlacementInput_Agent again = PlacementInput_Agent input →
    PlacementRequest_PodUID (PlacementInput_Request again) =
    PlacementRequest_PodUID (Placement_Request c) →
    register_placement again m'' = (Err ErrPlacementSuperseded, m'')
  end.
Proof.
  intros Hwf Hreg. assert (wf m') as Hwf'.
  { pose proof (register_placement_wf input m Hwf) as Hwf'. by rewrite Hreg in Hwf'. }
  destruct (register_placement_first _ _ _ _ Hreg) as (-> & Hnone & Hmap & Hprev).
  assert (agent_placements (PlacementInput_Agent input) m' !!
    PlacementRequest_PodUID (PlacementInput_Request input) = Some (registered_as input)) as Hp.
  { rewrite Hmap. unfold registered_map. by rewrite lookup_insert_eq. }
  split_and!.
  - apply current_of_Some; [apply Hwf'|]. by eexists.
  - done.
  - intros m'' Hc. destruct (placement_later_answer _ _ _ _ _ Hwf' Hc Hp) as [Hl|Hl].
    + left. by apply register_placement_same.
    + right. by eapply register_placement_superseded.
  - destruct (current_of _ m) as [c|] eqn:Hc; [|done]. destruct Hprev as [Huid Hsha].
    split_and!; [done..|]. intros m'' again Hcalls Hag Hpod.
    pose proof Hc as (cuid & Hcp & _)%current_of_Some; [|apply Hwf].
    destruct (agent_placements_ok m (PlacementInput_Agent input) (wf_placements _ Hwf)) as [Hk _].
    pose proof (proj1 (Hk _ _ Hcp)) as Hcuid. rewrite Hcuid in Hpod.
    assert (agent_placements (PlacementInput_Agent input) m' !! cuid = Some (superseded c)) as Hsup.
    { rewrite Hmap. unfold registered_map. rewrite Hc, lookup_insert_ne, Hcuid by congruence.
    by rewrite lookup_insert_eq. }
    rewrite <- Hag in Hsup. rewrite <- Hpod in Hsup.
    destruct (placement_later_answer _ _ _ _ _ Hwf' Hcalls Hsup) as [Hl|Hl];
      by eapply register_placement_superseded.
Qed.
End theorems.

(** ** Witnesses *)
Section witnesses.
#[local] Existing Instances Samples.K8s Samples.SE.

Lemma store_calls : calls NewMemory Samples.store.
Proof.
  unfold Samples.store, Samples.store_script, Samples.run_calls.
  repeat (apply calls_step; [|cbn; try done]); [apply calls_refl|].
  split_and!; try done; by eexists.
Qed.

Lemma base_calls : calls NewMemory Samples.base.
Proof.
  unfold Samples.base, Samples.base_script, Samples.run_calls. cbn [take Samples.store_script].
  repeat (apply calls_step; [|done]). apply calls_refl.
Qed.

Lemma store_well_formed_witness : wf Samples.store.
Proof. exact (store_well_formed Samples.store store_calls). Defined.

(** Configuring a second revision keeps the first. *)
Definition configured : mem :=
  (handle _ (Configure (mkRequest (Samples.key "configure") (Samples.binding "ref-2") Samples.agent Stale)
    (Samples.revision 2 Samples.other_config)) Samples.store).2.

Lemma configured_calls : calls Samples.store configured.
Proof.
  apply calls_step; [apply calls_refl|]. split; [|done]. by eexists.
Qed.

Lemma history_append_only_witness :
  extends Samples.store configured ∧ length (slice (definitions configured) Samples.agent) = 2%nat.
Proof.
  split; [exact (history_append_only _ _ Samples.store_wf configured_calls)|by vm_compute].
Defined.

Lemma revisions_authorized_witness : traced Samples.store.
Proof. exact (revisions_authorized Samples.store store_calls). Defined.

(** Registering the placement moves no position, and the controller's page stays. *)
Lemma waiting_misses_nothing_witness :
  (desired Samples.controller 10 Samples.placed).1 = (desired Samples.controller 10 Samples.store).1 ∧
  (desired Samples.controller 10 configured).1 ≠ (desired Samples.controller 10 Samples.store).1.
Proof.
  split; [|by vm_compute].
  apply (waiting_misses_nothing _ _ Samples.controller 10 Samples.store_wf); [|done].
  apply calls_step; [apply calls_refl|done].
Defined.

(** A second Pod replaces the first, with evidence. *)
Definition replacing : PlacementInput :=
  Samples.placement_input "pod-2" (mkPrevious "pod-1" "evidence-sha").

Lemma placement_replaced_on_evidence_witness :
  current_of Samples.agent (register_placement replacing Samples.placed).2 =
  Some (registered_as replacing) ∧
  register_placement (Samples.placement_input "pod-1" zeroPrevious)
  (register_placement replacing Samples.placed).2 =
  (Err ErrPlacementSuperseded, (register_placement replacing Samples.placed).2).
Proof.
  destruct (placement_replaced_on_evidence Samples.placed replacing (registered_as replacing)
    (register_placement replacing Samples.placed).2 Samples.placed_wf)
    as (Hcur & _ & _ & Hprev); [by vm_compute|].
  split; [exact Hcur|].
  replace (current_of (PlacementInput_Agent replacing) Samples.placed) with
    (Some (registered_as (Samples.placement_input "pod-1" zeroPrevious))) in Hprev by by vm_compute.
  destruct Hprev as (_ & _ & Hagain). apply Hagain; [apply calls_refl|done..].
Defined.
End witnesses.
End StoreSpec.
