(* ===== verification/Service.v ===== *)
(** The control service over its desired state ([src/internal/definition/*.go]): each method of
    [definition.Service] as a program over the calls it makes to the store and the registrar. *)
From S2P Require Import Prelude GoStd Errors Types Validation Repository.
Import GoStd Validation.

Module Service.

Section service.
Context `{K8s : Kubernetes, SE : !SemanticEquality}.
Context {E : Type → Type} `{!SubEvent repoE E}.

(** [fmt.Errorf("profile %s version %d: %w", ...)] and the template's. *)
Definition profile_error (ref : ProfileRef) (e : error) : error :=
  Wrapf ("profile " +:+ ProfileRef_Name ref +:+ " version " +:+
    FormatInt (ProfileRef_Version ref) +:+ ": ") e "".
Definition template_error (ref : TemplateRef) (e : error) : error :=
  Wrapf ("template " +:+ TemplateRef_Name ref +:+ " version " +:+
    FormatInt (TemplateRef_Version ref) +:+ ": ") e "".

(** ** publish.go *)
Definition PublishProfile org name (settings : ExecutionSettings) : prog E (result Profile) :=
  _ ←? lift (Settings_check settings);
  call (PublishProfile org name settings).

Definition PublishProfileVersion org (p : Profile) : prog E (result (Profile * bool)) :=
  if bool_decide (org = "") || bool_decide (Profile_Name p = "")
  then mret (Err (Wrapf "" ErrInvalidProfile ": a profile needs an organization and a name"))
  else if bool_decide (Profile_Version p < 1)
  then mret (Err (Wrapf "" ErrInvalidProfile
    (": version " +:+ FormatInt (Profile_Version p) +:+ " is below 1")))
  else
  _ ←? lift (Settings_check (Profile_Settings p));
  call (PublishProfileVersion org p).

Definition Publish (input : PublishInput) : prog E (result (Publication * bool)) :=
  let org := Key_Organization (Publish_Request input) in
  let t := Publish_Template input in
  _ ←? lift (Configuration_check (Template_Config t));
  _ ←? call (GetProfile org (Template_Profile t)) wrap (profile_error (Template_Profile t));
  let p := mkPublication (Publish_Request input) (Publish_Binding input)
  (mkTemplateRef (Template_Name t) 0) in
  '(stored, created) ←? call (PublishOnce p t);
  if negb (bool_decide (Publication_Binding stored = Publish_Binding input)) ||
  negb (bool_decide (TemplateRef_Name (Publication_Template stored) = Template_Name t))
  then mret (Err ErrRequestReused)
  else mret (Ok (stored, created)).

Definition PublishTemplate org (t : Template) : prog E (result Template) :=
  _ ←? lift (Configuration_check (Template_Config t));
  _ ←? call (GetProfile org (Template_Profile t)) wrap (profile_error (Template_Profile t));
  call (PublishTemplate org t).

(** ** read.go, query.go, desired.go *)
Definition ListTemplates org : prog E (result (list Template)) := call (ListTemplates org).
Definition GetTemplate org ref : prog E (result Template) := call (GetTemplate org ref).
Definition ListProfiles org : prog E (result (list ProfileRef)) := call (ListProfiles org).
Definition GetProfile org ref : prog E (result Profile) := call (GetProfile org ref).
Definition GetDefinition agent : prog E (result Definition_) := call (GetDefinition agent).
Definition Position : prog E (result Z) := call GetPosition.
Definition Desired operator limit : prog E (result DesiredPage) := call (Desired operator limit).

Definition Execution org agent : prog E (result Execution_) :=
  d ←? call (Repository.GetDefinition agent);
  if negb (bool_decide (Definition_Organization d = org))
  then mret (Err (Wrapf ("agent " +:+ agent +:+ ": ") ErrNotFound ""))
  else
  status ←? call (GetStatus agent);
  let e := mkExecution (Definition_Revision d) (Status_Rendered status) None in
  applied ← call (GetRuntimeApplied agent);
  match applied with
  | Err err => if errors_is err ErrNotFound then mret (Ok e) else mret (Err err)
  | Ok applied =>
    latest ← call (LatestActivation agent);
    match latest with
    | Err err =>
      if errors_is err ErrNotFound then mret (Ok e) else mret (Err err)
    | Ok latest =>
      if negb (bool_decide (latest = "")) &&
      bool_decide (RuntimeApplied_ActivationID applied = latest)
      then mret (Ok (mkExecution (Definition_Revision d) (Status_Rendered status)
        (Some (mkEffective (RuntimeApplied_Revision applied)
          (RuntimeApplied_Generation applied) (RuntimeApplied_ObservedAt applied)))))
      else mret (Ok e)
    end
  end.

(** ** status.go *)
Definition RecordStatus agent observed rendered : prog E (result Status) :=
  latest ←? call (Repository.GetDefinition agent);
  if existsb (λ r, bool_decide (r < 1) || bool_decide (r > Definition_Revision latest))
  [observed; rendered]
  then mret (Err ErrInvalidStatus)
  else call (RecordStatus agent (mkStatus observed rendered None)).

(** ** create.go *)
Definition CreateAgent `{!SubEvent registrarE E} (input : CreateInput) :
  prog E (result (Creation * bool)) :=
  let org := Key_Organization (Create_Request input) in
  t ←? call (Repository.GetTemplate org (Create_Template input))
  wrap (template_error (Create_Template input));
  _ ←? lift (Configuration_check (Template_Config t)) wrap (template_error (Create_Template input));
  _ ←? call (Repository.GetProfile org (Create_Profile input))
  wrap (profile_error (Create_Profile input));
  c ←? call (BeginCreation (mkCreation (Create_Request input) (Create_Binding input)
    (Create_Controller input) (Create_Template input) (Create_Profile input) Pending));
  if negb (bool_decide (Creation_Binding c = Create_Binding input)) ||
  negb (bool_decide (Creation_Controller c = Create_Controller input)) ||
  negb (bool_decide (Creation_Template c = Create_Template input)) ||
  negb (bool_decide (Creation_Profile c = Create_Profile input))
  then mret (Err ErrRequestReused)
  else
  match Creation_Outcome c with
  | Failed _ _ => mret (Ok (c, false))
  | outcome =>
    answer ← call (Register (mkRegistration (Create_Request input) (Create_Controller input)
      (Binding_OperationRef (Create_Binding input))));
    match outcome, answer with
    | RegisteredAs stored, Ok answer =>
      if negb (bool_decide (answer = stored)) then mret (Err ErrAssignmentMoved)
      else mret (Ok (c, false))
    | RegisteredAs _, Err err =>
      if errors_is err ErrRegistrationConflict then mret (Err ErrAssignmentMoved)
      else mret (Err err)
    | _, Err err =>
      if errors_is err ErrRegistrationRefused || errors_is err ErrRegistrationConflict
      then
      failed ←? call (FailCreation (Create_Request input) (error_text err)
        (errors_is err ErrRegistrationConflict));
      mret (Ok (failed, false))
      else mret (Err (Wrapf "register agent: " err ""))
    | _, Ok answer =>
      call (RegisterCreation (Create_Request input)
        (mkDefinition (Registered_Agent answer) org 1 (Create_Profile input) (Template_Config t)
          (Some (mkAssignment (Create_Controller input) (Registered_Epoch answer)))))
    end
  end.

(** ** configure.go *)
Definition embeddingKept (input : ConfigureInput) : prog E (result ()) :=
  latest ← call (Repository.GetDefinition (Configure_Agent input));
  match latest with
  | Err err => if errors_is err ErrNotFound then mret (Ok tt) else mret (Err err)
  | Ok latest =>
    match Model_Embedding (Configuration_Model (Definition_Config latest)) with
    | None => mret (Ok tt)
    | Some was =>
      if negb (bool_decide (Definition_Organization latest
        = Key_Organization (Configure_Request input))) ||
      negb (bool_decide (Definition_Revision latest = Configure_ExpectedRevision input))
      then mret (Ok tt)
      else if negb (sameEndpoint
        (Model_Embedding (Configuration_Model (Configure_Config input))) was)
      then mret (Err ErrEmbeddingImmutable)
      else mret (Ok tt)
    end
  end.

Definition Configure (input : ConfigureInput) : prog E (result Revision) :=
  let org := Key_Organization (Configure_Request input) in
  _ ←? lift (Configuration_check (Configure_Config input));
  _ ←? call (Repository.GetProfile org (Configure_Profile input))
  wrap (profile_error (Configure_Profile input));
  _ ←? embeddingKept input;
  let request := mkRequest (Configure_Request input) (Configure_Binding input)
  (Configure_Agent input) Stale in
  let d := mkDefinition (Configure_Agent input) org (int64 (Configure_ExpectedRevision input + 1))
  (Configure_Profile input) (Configure_Config input)
  (Some (Binding_Assignment (Configure_Binding input))) in
  stored ←? call (Repository.Configure request d);
  if negb (bool_decide (Request_Binding stored = Configure_Binding input)) ||
  negb (bool_decide (Request_Agent stored = Configure_Agent input))
  then mret (Err ErrRequestReused)
  else match Request_Outcome stored with
  | Applied r => mret (Ok r)
  | Stale => mret (Err ErrStaleRevision)
  end.

(** ** placement.go *)
Definition RegisterPlacement input : prog E (result (Placement * bool)) :=
  call (RegisterPlacement input).
Definition CurrentPlacement agent : prog E (result Placement) := call (CurrentPlacement agent).

(** ** stop.go *)

(** [WithAgentLock]: the program run under the agent's activation lock. *)
Definition WithAgentLock {A} agent (fn : prog E (result A)) : prog E (result A) :=
  _ ←? call (Lock agent);
  r ← fn;
  _ ← call (Unlock agent);
  mret r.

Definition inOrganization agent org : prog E (result ()) :=
  d ←? call (Repository.GetDefinition agent);
  if negb (bool_decide (Definition_Organization d = org)) then mret (Err ErrNotFound)
  else mret (Ok tt).

Definition stopped agent : prog E (result ()) :=
  current ← call (CurrentStop agent);
  match current with
  | Ok _ => mret (Err ErrAgentStopped)
  | Err err => if errors_is err ErrNotFound then mret (Ok tt) else mret (Err err)
  end.

(** [LatestActivation] where none is not an error: the empty string. *)
Definition latest_or_none agent : prog E (result string) :=
  latest ← call (LatestActivation agent);
  match latest with
  | Err err => if errors_is err ErrNotFound then mret (Ok "") else mret (Err err)
  | Ok id => mret (Ok id)
  end.

Definition Stop (input : StopInput) : prog E (result (Stop * bool)) :=
  _ ←? inOrganization (StopInput_Agent input) (Key_Organization (StopInput_Key input));
  '(stored, first) ←? WithAgentLock (StopInput_Agent input) (
    latest ←? latest_or_none (StopInput_Agent input);
    call (RecordStop (mkStop (StopInput_Agent input) (StopInput_Key input)
      (StopInput_Binding input) latest false None)));
  if negb (bool_decide (Stop_Agent stored = StopInput_Agent input)) ||
  negb (bool_decide (Stop_Binding stored = StopInput_Binding input))
  then mret (Err ErrRequestReused)
  else mret (Ok (stored, first)).

Definition RecordDeactivation key : prog E (result ()) := call (RecordDeactivation key).

Definition Start (input : StopInput) : prog E (result Types.Stop) :=
  _ ←? inOrganization (StopInput_Agent input) (Key_Organization (StopInput_Key input));
  stored ←? call (RecordStart (StopInput_Agent input)
    (mkStopEnd (StopInput_Key input) (StopInput_Binding input)));
  if negb (bool_decide (Stop_Agent stored = StopInput_Agent input)) ||
  negb (bool_decide (StopEnd_Binding <$> Stop_Start stored = Some (StopInput_Binding input)))
  then mret (Err ErrRequestReused)
  else mret (Ok stored).

(** ** activation.go *)
Definition WithActivationLock {A} agent (fn : prog E (result A)) : prog E (result A) := WithAgentLock agent fn.

Definition operationReference agent revision anchor : prog E (result string) :=
  applied ← call (GetRuntimeApplied agent);
  let otherwise :=
  if bool_decide (revision = 1) then
  creation ←? call (CreationOf agent);
  mret (Ok (Binding_OperationRef (Creation_Binding creation)))
  else call (ConfigureReference agent revision) in
  match applied with
  | Ok applied =>
    if negb (bool_decide (anchor = "")) &&
    bool_decide (RuntimeApplied_ActivationID applied = anchor) &&
    bool_decide (RuntimeApplied_Revision applied = revision)
    then mret (Ok "")
    else otherwise
  | Err err => if errors_is err ErrNotFound then otherwise else mret (Err err)
  end.

Definition PrepareActivation agent (req : ActivationRequest) : prog E (result Activation) :=
  _ ←? stopped agent;
  stored ← call (GetActivation agent (ActivationRequest_RequestID req));
  match stored with
  | Ok stored =>
    if negb (bool_decide (Activation_Request stored = req)) then mret (Err ErrRequestReused)
    else mret (Ok stored)
  | Err err =>
    if negb (errors_is err ErrNotFound) then mret (Err err)
    else
    latest ←? call (Repository.GetDefinition agent);
    if bool_decide (ActivationRequest_ConfigRevision req < 1) ||
    bool_decide (ActivationRequest_ConfigRevision req > Definition_Revision latest)
    then mret (Err ErrInvalidStatus)
    else
    anchor ←? latest_or_none agent;
    ref ←? operationReference agent (ActivationRequest_ConfigRevision req) anchor;
    call (InsertActivation (mkActivation agent req anchor ref ""))
  end.

Definition RecordActivation agent requestID activationID : prog E (result ()) :=
  call (RecordActivation agent requestID activationID).
Definition ActivationOfGeneration agent generation : prog E (result string) :=
  call (ActivationOfGeneration agent generation).

Definition RecordRuntimeStatus agent (report : RuntimeReport) : prog E (result ()) :=
  match ParseRevision (RuntimeReport_ConfigRevision report) with
  | Err _ => mret (Ok tt)
  | Ok revision =>
    if negb (RuntimeReport_Serving report) then mret (Ok tt)
    else
    latest ←? call (Repository.GetDefinition agent);
    if bool_decide (revision > Definition_Revision latest) then mret (Ok tt)
    else call (RecordRuntimeApplied agent
      (mkRuntimeApplied revision (RuntimeReport_ActivationID report)
        (RuntimeReport_Generation report) (RuntimeReport_ObservedAt report)))
  end.

(** ** recovery.go *)
Definition RecoveryBody (r : RecoveryRequest) : string :=
  "{" +:+ json_string "requestId" +:+ ":" +:+ json_string (RecoveryRequest_RequestID r) +:+ "," +:+
  json_string "epoch" +:+ ":" +:+ json_string (RecoveryRequest_Epoch r) +:+ "}".

Definition OpenRecovery (input : OpenRecoveryInput) : prog E (result (Recovery * bool)) :=
  let agent := OpenRecoveryInput_Agent input in
  d ←? call (Repository.GetDefinition agent);
  if negb (bool_decide (Definition_Organization d = Key_Organization (OpenRecoveryInput_Key input)))
  then mret (Err ErrNotFound)
  else match Definition_Assignment d with
  | None => mret (Err (Errorf ("agent " +:+ agent +:+ ": its latest revision records no assignment")))
  | Some assignment =>
    '(stored, first) ←? call (OpenRecovery_ (mkRecovery agent (OpenRecoveryInput_RequestID input)
      (OpenRecoveryInput_Key input) (OpenRecoveryInput_Binding input)
      (Assignment_Epoch assignment) RecoveryRequested "" None));
    if negb (bool_decide (Recovery_Agent stored = agent)) ||
    negb (bool_decide (Recovery_RequestID stored = OpenRecoveryInput_RequestID input)) ||
    negb (bool_decide (Recovery_Binding stored = OpenRecoveryInput_Binding input))
    then mret (Err ErrRequestReused)
    else mret (Ok (stored, first))
  end.

Definition RecoveryOf org agent : prog E (result Recovery) :=
  r ←? call (LatestRecovery agent);
  if negb (bool_decide (Key_Organization (Recovery_Key r) = org)) then mret (Err ErrNotFound)
  else mret (Ok r).

Definition PrepareRecovery agent (r : RecoveryRequest) : prog E (result Recovery) :=
  call (PrepareRecovery agent (RecoveryRequest_RequestID r) (RecoveryRequest_Epoch r) (RecoveryBody r)).

Definition FinalizeRecovery agent requestID c : prog E (result Recovery) :=
  call (FinalizeRecovery agent requestID c).

(** ** operator.go *)
Definition RecordOperatorContact orgGRN operator at_ : prog E (result ()) :=
  call (RecordOperatorContact orgGRN operator at_).

Definition ReportOperatorImages orgGRN operator images at_ : prog E (result ()) :=
  _ ←? lift (OperatorImages_check images);
  call (ReportOperatorImages orgGRN operator images at_).

Definition ListOperators orgGRN : prog E (result (list Operator)) := call (ListOperators orgGRN).
End service.
End Service.
