(* ===== verification/Migration.v ===== *)
(** The store's schema brought to the one the binary knows ([src/internal/definition/repository/migrate.go]), and asked
    for by a command that writes without migrating ([schema_version.go]); what a start leads to, whatever the database and
    golang-migrate answer. *)
From S2P Require Import Prelude GoStd Errors.
From Stdlib Require Import Ascii.
Import GoStd.

Module Migration.

(** ** The migrations embedded *)
Definition migrations : list string :=
  ["000001_schema.up.sql"; "000002_operators.up.sql"; "000003_drop_cutover_imports.up.sql"].
Definition migrationsTable := "schema_migrations".
Definition migrateLock := "SELECT pg_advisory_lock(hashtext('garam-agent-operator control migrate'))".

Definition maxUint64 : Z := 2 ^ 64 - 1.
(** [strconv.ParseUint(s, 10, 64)]: [None] is its error. *)
Definition ParseUint (s : string) : option Z :=
  match s with
  | EmptyString => None
  | _ => z ← digits_value s 0; if bool_decide (z ≤ maxUint64) then Some z else None
  end.

Record migrationFile := mkMigrationFile { file_version : Z; file_name : string }.
#[global] Instance migrationFile_eq_dec : EqDecision migrationFile.
Proof. solve_decision. Defined.
(** [slices.SortFunc]'s comparison: the versions as ints, and their difference as one. *)
Definition compare_files (a b : migrationFile) : Z := int64 (int64 (file_version a) - int64 (file_version b)).
Definition file_of (name : string) : result migrationFile :=
  let '(number, _, ok) := Cut name "_"%char in
  match ok, ParseUint number with
  | true, Some version => Ok (mkMigrationFile version name)
  | _, _ => Err (Errorf ("migration " +:+ name +:+ " is not named NNNNNN_<name>.up.sql"))
  end.
Fixpoint files_of (entries : list string) : result (list migrationFile) :=
  match entries with
  | [] => Ok []
  | name :: entries => file ← file_of name; files ← files_of entries; Ok (file :: files)
  end.
(** The files of the directory embedded, [entries] its names. *)
Definition migrationFiles (entries : list string) : result (list migrationFile) :=
  files ← files_of entries;
  Ok (merge_sort (λ a b, Is_true (bool_decide (compare_files a b ≤ 0))) files).
Definition latestMigration (entries : list string) : result Z :=
  match migrationFiles entries with
  | Err err => Err (Errorf ("no migration embedded: " +:+ error_text err))
  | Ok files =>
      match last files with
      | None => Err (Errorf "no migration embedded: <nil>")
      | Some file => Ok (file_version file)
      end
  end.

(** ** What it calls

    A connection of the pool and its session, the catalog, and golang-migrate over the database: the version it records
    and whether a migration to it failed, and its run of every migration past it. *)
Inductive migrateE : Type → Type :=
| AcquireConnection : migrateE (result ())
| CloseConnection : migrateE ()
| Lock_ (statement : string) : migrateE (result ())
| ReadRecorded (table : string) : migrateE (result bool)
| CountTables (table : string) : migrateE (result Z)
| OpenDriver (table : string) : migrateE (result ())
| CloseDriver : migrateE ()
| OpenSource : migrateE (result ())
| NewMigrate : migrateE (result ())
| Version_ : migrateE (result (Z * bool))
| Up : migrateE (result ())
| CloseMigrate : migrateE ()
| CloseDatabase : migrateE ()
| LogMigrated (from to : Z) : migrateE ()
| ReadSchemaVersion : migrateE (result (Z * bool)).

(** The statement an operator records a database left dirty as the one before it with. *)
Definition clearDirty (version : Z) : string :=
  if bool_decide (version ≤ 1) then "DELETE FROM " +:+ migrationsTable
  else "UPDATE " +:+ migrationsTable +:+ " SET version = " +:+ FormatInt (version - 1) +:+ ", dirty = false".
Definition dirtyRefusal (version : Z) (cause : string) : error :=
  Wrapf "" errSchemaRefused
    (": schema migration " +:+ FormatInt version +:+ " failed " +:+ cause +:+ ", and its transaction kept nothing, so the schema is " +:+
     "still the one before it; the database is recorded dirty at version " +:+ FormatInt version +:+ ". Correct or remove by hand the " +:+
     "rows the cause names, then clear the flag with psql " +:+ dquote +:+ "$CONTROL_DATABASE_URL" +:+ dquote +:+ " -c '" +:+
     clearDirty version +:+ "' and start again").
(** The database's own error, where golang-migrate's carries one. *)
Definition cause_of (err : error) : error :=
  default err (errors_as (λ e, match e with MigrateError _ cause => Some cause | _ => None end) err).

Section migrate.
Context {E : Type → Type} `{!SubEvent migrateE E}.

Definition schema_read (err : error) : error := Errorf ("read the database's schema: " +:+ error_text err).
Definition migrations_error (err : error) : error := Errorf ("migrations: " +:+ error_text err).

Definition requireRecordedOrEmpty : prog E (result ()) :=
  recorded ←? call (ReadRecorded migrationsTable) wrap schema_read;
  if recorded : bool then mret (Ok tt)
  else
  tables ←? call (CountTables migrationsTable) wrap schema_read;
  if bool_decide (0 < tables)
  then mret (Err (Wrapf "" errSchemaRefused
    (": the database has no " +:+ migrationsTable +:+ " table and holds " +:+ FormatInt tables +:+ " other tables, so a build before " +:+
      "migrations or something else made it, and this binary migrates only an empty database. Nothing " +:+
      "was changed. Recreate it empty")))
  else mret (Ok tt).

(** Every migration past [from], the version the database is at. *)
Definition migrate_up (latest from : Z) : prog E (result ()) :=
  up ← call Up;
  match up with
  | Err err =>
    if errors_is err ErrNoChange then _ ← call (LogMigrated from latest); mret (Ok tt)
    else
    let cause := cause_of err in
    read ← call Version_;
    mret match read with
    | Ok (version, true) => Err (dirtyRefusal version ("with " +:+ error_text cause))
    | _ => Err (Errorf ("migrate the schema from version " +:+ FormatInt from +:+ ": " +:+ error_text cause))
    end
  | Ok _ => _ ← call (LogMigrated from latest); mret (Ok tt)
  end.
(** The version read, under the lock, with golang-migrate over the database. *)
Definition migrate_from (latest : Z) : prog E (result ()) :=
  read ← call Version_;
  '(from, dirty) ←? lift match read with
  | Ok at_ => Ok at_
  | Err err => if errors_is err ErrNilVersion then Ok (0, false)
    else Err (Errorf ("read the database's schema version: " +:+ error_text err))
  end;
  if dirty : bool then mret (Err (dirtyRefusal from "on an earlier start, whose log names the cause"))
  else if bool_decide (latest < from) then mret (Err (Wrapf "" errSchemaRefused
    (": the database is at schema version " +:+ FormatInt from +:+ " and this binary knows up to " +:+ FormatInt latest +:+ ": a newer " +:+
      "control service migrated it. Run that version or a later one; this one changes nothing")))
  else migrate_up latest from.

(** golang-migrate opened over the database and closed on every way out. *)
Definition migrate_opened (latest : Z) : prog E (result ()) :=
  _ ←? call (OpenDriver migrationsTable) wrap migrations_error;
  opened ← call OpenSource;
  match opened with
  | Err err => _ ← call CloseDriver; mret (Err (migrations_error err))
  | Ok _ =>
    made ← call NewMigrate;
    match made with
    | Err err => _ ← call CloseDriver; mret (Err (migrations_error err))
    | Ok _ => ended ← migrate_from latest; _ ← call CloseMigrate; mret ended
    end
  end.
(** In the session whose lock holds other binaries off. *)
Definition migrate_locked (latest : Z) : prog E (result ()) :=
  _ ←? call (Lock_ migrateLock) wrap (λ err, Errorf ("take the migration lock: " +:+ error_text err));
  _ ←? requireRecordedOrEmpty;
  ended ← migrate_opened latest;
  _ ← call CloseDatabase;
  mret ended.
Definition Migrate : prog E (result ()) :=
  latest ←? lift (latestMigration migrations);
  _ ←? call AcquireConnection wrap migrations_error;
  ended ← migrate_locked latest;
  _ ← call CloseConnection;
  mret ended.

(** ** The schema a command asks for *)
Record schemaRecord := mkSchemaRecord { recorded : bool; record_version : Z; record_dirty : bool }.
Definition undefinedTable := "42P01".
Definition uint (z : Z) : Z := z mod 2 ^ 64.

Definition schemaVerdict (record : schemaRecord) (known : Z) : result () :=
  let needs := " and this binary needs " +:+ FormatInt known +:+ ": the control service has not migrated it yet; retry after its rollout" in
  let at_ := ": the database is at schema version " +:+ FormatInt (record_version record) in
  if negb (recorded record)
  then Err (Wrapf "" ErrSchemaNotCurrent (": the database records no schema version" +:+ needs))
  else if record_dirty record
  then Err (Wrapf "" ErrSchemaNotCurrent
    (": the database is dirty at schema version " +:+ FormatInt (record_version record) +:+ ": a migration failed there; the " +:+
      "control service's log says what to do"))
  else if bool_decide (record_version record < known) then Err (Wrapf "" ErrSchemaNotCurrent (at_ +:+ needs))
  else if bool_decide (known < record_version record)
  then Err (Wrapf "" ErrSchemaNotCurrent
    (at_ +:+ " and this binary knows up to " +:+ FormatInt known +:+ ": a newer control service migrated it; run the " +:+
      "publish-profile of that version's image"))
  else Ok tt.
Definition is_undefined_table (err : error) : bool :=
  bool_decide (errors_as (λ e, match e with PgError code _ => Some code | _ => None end) err = Some undefinedTable).
Definition requireSchema (known : Z) : prog E (result ()) :=
  read ← call ReadSchemaVersion;
  match read with
  | Err err =>
    if errors_is err ErrNoRows || is_undefined_table err then mret (schemaVerdict (mkSchemaRecord false 0 false) known)
    else mret (Err (Errorf ("read the database's schema version: " +:+ error_text err)))
  | Ok (version, dirty) => mret (schemaVerdict (mkSchemaRecord true (uint version) dirty) known)
  end.
Definition RequireCurrentSchema : prog E (result ()) :=
  known ←? lift (latestMigration migrations);
  requireSchema known.
End migrate.

(** ** The files' versions *)
Lemma latest_embedded : latestMigration migrations = Ok 3.
Proof. vm_compute. reflexivity. Qed.

Lemma file_version_pos name f : file_of name = Ok f → 0 ≤ file_version f.
Proof.
  unfold file_of. destruct (Cut name "_") as [[number rest] ok]. destruct ok, (ParseUint number) as [v|] eqn:Hv; try done. intros [= <-].
  destruct number; [done|]. cbn [ParseUint] in Hv. apply bind_Some in Hv as (z & Hz & Hv). case_bool_decide; [|done]. injection Hv as <-.
  by eapply digits_value_mono in Hz.
Qed.
Lemma files_of_spec entries files : files_of entries = Ok files →
  (∀ name f, name ∈ entries → file_of name = Ok f → f ∈ files) ∧ (∀ f, f ∈ files → ∃ name, name ∈ entries ∧ file_of name = Ok f).
Proof.
  revert files. induction entries as [|name entries IH]; intros files; cbn.
  - intros [= <-]. split; [by intros ? ? ?%not_elem_of_nil|by intros ? ?%not_elem_of_nil].
  - destruct (file_of name) as [file|] eqn:Hname; [|done]. cbn. destruct (files_of entries) as [fs|]; [|done]. cbn. intros [= <-].
    destruct (IH fs eq_refl) as [H1 H2]. split.
    + intros n f [->|Hn]%elem_of_cons Hf; [|right; by eapply H1]. rewrite Hname in Hf. injection Hf as ->. by left.
    + intros f [->|Hf]%elem_of_cons; [exists name; split; [by left|done]|]. destruct (H2 f Hf) as (n & Hn & ?). exists n. split; [by right|done].
Qed.
(** Whatever ints the versions are read as, two files compare one way or the other. *)
Lemma compare_total : Total (λ a b, Is_true (bool_decide (compare_files a b ≤ 0))).
Proof.
  intros a b. destruct (decide (compare_files a b ≤ 0)) as [|Hab]; [left; by apply bool_decide_spec|right].
  apply bool_decide_spec. unfold compare_files in *. set (x := int64 (file_version a)) in *. set (y := int64 (file_version b)) in *.
  clearbody x y. unfold int64 in *. change (2 ^ 64) with 18446744073709551616 in *. change (2 ^ 63) with 9223372036854775808 in *.
  pose proof (Z.div_mod (x - y + 9223372036854775808) 18446744073709551616 ltac:(lia)).
  pose proof (Z.div_mod (y - x + 9223372036854775808) 18446744073709551616 ltac:(lia)).
  pose proof (Z.mod_pos_bound (x - y + 9223372036854775808) 18446744073709551616 ltac:(lia)).
  pose proof (Z.mod_pos_bound (y - x + 9223372036854775808) 18446744073709551616 ltac:(lia)).
  lia.
Qed.
Lemma sorted_versions files : Sorted (λ a b, Is_true (bool_decide (compare_files a b ≤ 0))) files →
  Forall (λ f, 0 ≤ file_version f ≤ maxInt64) files → StronglySorted (λ a b, file_version a ≤ file_version b) files.
Proof.
  intros Hs Hf. apply Sorted_StronglySorted; [intros a b c; lia|].
  induction Hs as [|f files Hs IH Hr]; [constructor|]. apply Forall_cons in Hf as [Hf Hfs]. constructor; [by apply IH|].
  destruct Hr as [|g files Hr]; constructor. apply Forall_cons in Hfs as [Hg _]. apply bool_decide_unpack in Hr. unfold compare_files in Hr.
  assert (∀ v, 0 ≤ v ≤ maxInt64 → int64 v = v) as Hint by (intros v Hv; apply int64_small; unfold minInt64, maxInt64 in *; lia).
  rewrite (Hint (file_version f)), (Hint (file_version g)) in Hr by done.
  rewrite int64_small in Hr by (unfold minInt64, maxInt64 in *; lia). lia.
Qed.
Lemma sorted_last files f : StronglySorted (λ a b, file_version a ≤ file_version b) files → last files = Some f →
  Forall (λ g, file_version g ≤ file_version f) files.
Proof.
  induction 1 as [|g files Hs IH Hr]; [done|]. destruct files as [|g' files]; [intros [= <-]; by constructor|].
  intros Hl. change (last (g' :: files) = Some f) in Hl. specialize (IH Hl). constructor; [|done].
  apply last_Some_elem_of in Hl. rewrite Forall_forall in Hr. by apply Hr.
Qed.

(** The latest migration is the greatest version among the files embedded, of any names whose versions an int holds, and is
one of theirs. *)
Theorem latestMigration_greatest entries latest :
  latestMigration entries = Ok latest → (∀ name f, name ∈ entries → file_of name = Ok f → file_version f ≤ maxInt64) →
  (∃ name f, name ∈ entries ∧ file_of name = Ok f ∧ file_version f = latest) ∧
  ∀ name f, name ∈ entries → file_of name = Ok f → file_version f ≤ latest.
Proof.
  unfold latestMigration, migrationFiles. destruct (files_of entries) as [files|] eqn:Hf; [|done]. cbn [mbind result_bind].
  set (sorted := merge_sort _ files). assert (sorted ≡ₚ files) as Hp by apply merge_sort_Permutation.
  assert (Sorted (λ a b, Is_true (bool_decide (compare_files a b ≤ 0))) sorted) as Hs by (apply Sorted_merge_sort, compare_total).
  clearbody sorted. destruct (last sorted) as [f|] eqn:Hl; [|done]. intros [= <-] Hint.
  apply files_of_spec in Hf as [Hof Hev]. assert (Forall (λ f, 0 ≤ file_version f ≤ maxInt64) sorted) as Hr.
  { rewrite Hp. apply Forall_forall. intros g Hg. destruct (Hev g Hg) as (name & Hn & Hname). split; [by eapply file_version_pos|by eapply Hint]. }
  pose proof (sorted_last _ _ (sorted_versions _ Hs Hr) Hl) as Hmax. split.
  - destruct (Hev f) as (name & Hn & Hname); [rewrite <- Hp; by apply last_Some_elem_of|]. by exists name, f.
  - intros name g Hn Hg. rewrite Forall_forall in Hmax. apply Hmax. rewrite Hp. by apply (Hof name).
Qed.

(** ** What a start does to the database *)
Section guard.
Abbreviation history := (list (event migrateE)).
Implicit Types (h : history).

(** How often golang-migrate was run, and the session given up. *)
Definition runs_up (ev : event migrateE) : bool := match ev with Ev e _ => match e with Up => true | _ => false end end.
Definition gives_up_session (ev : event migrateE) : bool := match ev with Ev e _ => match e with CloseConnection => true | _ => false end end.
Definition count (f : event migrateE → bool) (h : history) : nat := length (filter (λ ev, Is_true (f ev)) h).

(** The version the database was read to be at, clean. *)
Definition at_version h from : Prop :=
  Ev Version_ (Ok (from, false)) ∈ h ∨ from = 0 ∧ ∃ err, errors_is err ErrNilVersion = true ∧ Ev Version_ (Err err) ∈ h.
(** When it is run. *)
Definition migrate_call latest h X (e : migrateE X) : Prop :=
  match e with
  | Up =>
    Ev (Lock_ migrateLock) (Ok tt) ∈ h ∧ count gives_up_session h = 0%nat ∧
    (Ev (ReadRecorded migrationsTable) (Ok true) ∈ h ∨ ∃ n, n ≤ 0 ∧ Ev (CountTables migrationsTable) (Ok n) ∈ h) ∧
    (∃ from, from ≤ latest ∧ at_version h from) ∧ count runs_up h = 0%nat
  | _ => True
  end.
(** What a start ends with. *)
Definition migrated h (r : result ()) : Prop :=
  match r with
  | Ok _ => ∃ up, Ev Up up ∈ h ∧ (up = Ok tt ∨ err_is up ErrNoChange = true)
  | Err err => count runs_up h = 0%nat ∨
    ∃ up, Ev Up (Err up) ∈ h ∧ errors_is up ErrNoChange = false ∧
    ((∃ version, Ev Version_ (Ok (version, true)) ∈ h ∧ err = dirtyRefusal version ("with " +:+ error_text (cause_of up))) ∨
      ∃ from, err = Errorf ("migrate the schema from version " +:+ FormatInt from +:+ ": " +:+ error_text (cause_of up)))
  end.
Definition ended h (r : result ()) : Prop :=
  migrated h r ∧ (Ev AcquireConnection (Ok tt) ∈ h → ∃ h', h = Ev CloseConnection tt :: h' ∧ count gives_up_session h' = 0%nat).

Definition done_so_far h (r : result ()) : Prop := migrated h r ∧ count gives_up_session h = 0%nat.

Lemma count_other f ev h : f ev = false → count f (ev :: h) = count f h.
Proof. intros Hf. unfold count. rewrite filter_cons_False; [done|]. rewrite Hf. by intros []. Qed.
Lemma migrated_later h r X (e : migrateE X) x : runs_up (Ev e x) = false → migrated h r → migrated (Ev e x :: h) r.
Proof.
  intros He. destruct r as [[]|err]; cbn.
  - intros (up & Hup & ?). exists up. split; [by right|done].
  - intros [Hc|(up & Hup & Hn & Hor)]; [left|right].
    + unfold count in *. cbn in *. by rewrite He.
    + exists up. split; [by right|]. split; [done|]. destruct Hor as [(v & Hv & ->)|?]; [left; exists v; split; [by right|done]|by right].
Qed.

Lemma migrate_up_safe latest from h : migrate_call latest h _ Up → 
  safe (migrate_call latest) done_so_far h (migrate_up latest from).
Proof.
  intros Hup. split; [done|]. destruct Hup as (_ & Hc & _ & _ & Hu). intros [[]|err]; cbn.
  - split; [done|]. intros []. split; [|done]. exists (Ok tt). split; [right; by left|by left].
  - destruct (errors_is err ErrNoChange) eqn:Hno; cbn.
    + split; [done|]. intros []. split; [|done]. exists (Err err). split; [right; by left|by right].
    + split; [done|]. intros read. split; [|done]. assert (Ev Up (Err err) ∈ [Ev Version_ read; Ev Up (Err err)] ++ h) as Hin by (right; by left).
      destruct read as [[version []]|]; right; exists err; (split; [exact Hin|split; [done|]]).
      * left. exists version. split; [by left|done].
      * right. by exists from.
      * right. by exists from.
Qed.
Lemma migrate_from_safe latest h :
  Ev (Lock_ migrateLock) (Ok tt) ∈ h → count gives_up_session h = 0%nat → count runs_up h = 0%nat →
  (Ev (ReadRecorded migrationsTable) (Ok true) ∈ h ∨ ∃ n, n ≤ 0 ∧ Ev (CountTables migrationsTable) (Ok n) ∈ h) →
  safe (migrate_call latest) done_so_far h (migrate_from latest).
Proof.
  intros Hl Hc Hu Hr.
  assert (∀ read from, from ≤ latest → at_version (Ev Version_ read :: h) from → migrate_call latest (Ev Version_ read :: h) _ Up) as Hup.
  { intros read from Hle Hat. split; [by right|]. split; [done|]. split; [|split; [by exists from|done]].
    destruct Hr as [Hr|(n & Hn & Hr)]; [left; by right|right; exists n; split; [done|by right]]. }
  split; [done|]. intros [[from []]|err]; cbn; [by split; [left|]| |].
  - case_bool_decide as Hlt; [by split; [left|]|]. apply migrate_up_safe, (Hup _ from); [lia|]. left. by left.
  - destruct (errors_is err ErrNilVersion) eqn:Hnil; cbn; [|by split; [left|]].
    case_bool_decide as Hlt; [by split; [left|]|]. apply migrate_up_safe, (Hup _ 0); [lia|]. right. split; [done|]. exists err. split; [done|by left].
Qed.

(** What is closed after leaves what was done. *)
Lemma closed_after latest (e : migrateE ()) (p : prog migrateE (result ())) h :
  (∀ x, runs_up (Ev e x) = false) → (∀ x, gives_up_session (Ev e x) = false) → (∀ h', migrate_call latest h' _ e) →
  safe (migrate_call latest) done_so_far h p → safe (migrate_call latest) done_so_far h (ended ← p; _ ← call e; mret ended).
Proof.
  intros Hu Hg He Hp. rewrite safe_bind. eapply safe_mono; [|exact Hp]. intros h' r [Hm Hc]. split; [apply He|].
  intros x. split; [by apply migrated_later|]. by rewrite count_other.
Qed.
Lemma migrate_opened_safe latest h :
  Ev (Lock_ migrateLock) (Ok tt) ∈ h → count gives_up_session h = 0%nat → count runs_up h = 0%nat →
  (Ev (ReadRecorded migrationsTable) (Ok true) ∈ h ∨ ∃ n, n ≤ 0 ∧ Ev (CountTables migrationsTable) (Ok n) ∈ h) →
  safe (migrate_call latest) done_so_far h (migrate_opened latest).
Proof.
  intros Hl Hc Hu Hr. split; [done|]. intros [[]|err]; [|by split; [left|]]. cbn. split; [done|]. intros [[]|err]; cbn.
  2: { split; [done|]. intros []. by split; [left|]. }
  split; [done|]. intros [[]|err].
  2: { split; [done|]. intros []. by split; [left|]. }
  apply (closed_after latest CloseMigrate (migrate_from latest)); [done..|]. apply migrate_from_safe; [by do 3 right|done|done|].
  destruct Hr as [Hr|(n & Hn & Hr)]; [left; by do 3 right|right; exists n; split; [done|by do 3 right]].
Qed.
Lemma migrate_locked_safe latest h : count gives_up_session h = 0%nat → count runs_up h = 0%nat →
  safe (migrate_call latest) done_so_far h (migrate_locked latest).
Proof.
  intros Hc Hu. split; [done|]. intros [[]|err]; [|by split; [left|]]. cbn. split; [done|]. intros [[]|err]; cbn.
  - change (safe (migrate_call latest) done_so_far (Ev (ReadRecorded migrationsTable) (Ok true) :: Ev (Lock_ migrateLock) (Ok ()) :: h)
      (ended ← migrate_opened latest; _ ← call CloseDatabase; mret ended)).
    apply closed_after; [done..|]. apply migrate_opened_safe; [right; by left|done|done|left; by left].
  - split; [done|]. intros [n|err]; cbn; [|by split; [left|]]. case_bool_decide as Hn; cbn; [by split; [left|]|].
    change (safe (migrate_call latest) done_so_far
      (Ev (CountTables migrationsTable) (Ok n) :: Ev (ReadRecorded migrationsTable) (Ok false) :: Ev (Lock_ migrateLock) (Ok ()) :: h)
      (ended ← migrate_opened latest; _ ← call CloseDatabase; mret ended)).
    apply closed_after; [done..|]. apply migrate_opened_safe; [right; right; by left|done|done|]. right. exists n. split; [lia|by left].
  - by split; [left|].
Qed.

(** C33: Whatever the database answers, a start runs the migrations at most once, in the session that took the lock and still
holds it, over a database read to record its migrations or to hold no table, at a version read clean and no greater than the
binary knows; it ends well only where they ran or there was none to run, ends otherwise without running them or with their
failure, as the operator's step where they left the database dirty; and the session is given up last. *)
Theorem Migrate_guarded : safe (migrate_call 3) ended [] Migrate.
Proof.
  unfold Migrate. rewrite latest_embedded. cbn. split; [done|]. intros [[]|err]; cbn.
  - change (safe (migrate_call 3) ended [Ev AcquireConnection (Ok ())] (r ← migrate_locked 3; _ ← call CloseConnection; mret r)).
    rewrite safe_bind. eapply safe_mono; [|by apply migrate_locked_safe]. intros h r [Hm Hc]. split; [done|]. intros [].
    split; [by apply migrated_later|]. intros _. by exists h.
  - split; [by left|]. intros Hin. apply list_elem_of_singleton in Hin. apply (f_equal (λ ev, match ev with @Ev _ X e x =>
      match e in migrateE X return X → bool with AcquireConnection => λ x, match x with Ok _ => true | Err _ => false end | _ => λ _, false end x end)) in Hin. done.
Qed.
End guard.

(** ** The schema asked for *)

(** A command that writes without migrating goes on exactly over a database that records the version the binary knows, clean;
every other is refused as one whose schema is not current. *)
Theorem schemaVerdict_current record known :
  (schemaVerdict record known = Ok tt ↔ recorded record = true ∧ record_dirty record = false ∧ record_version record = known) ∧
  ∀ err, schemaVerdict record known = Err err → errors_is err ErrSchemaNotCurrent = true.
Proof.
  destruct record as [r v d]. unfold schemaVerdict. cbn. destruct r, d; cbn; try (split; [naive_solver|by intros ? [= <-]]).
  repeat case_bool_decide; (split; [split; [try done; intros _; split_and!; (done || lia)|try done; intros (_ & _ & ?); lia]|]); by intros ? [= <-].
Qed.
(** ** A start among other calls *)

(** Takes a program apart, call by call, whatever each is answered. *)
Ltac explore HP :=
  cbn [mbind prog_mbind prog_bind mret prog_mret call safe];
  repeat match goal with
  | |- safe _ _ _ (Vis _ _) => split; [apply HP; by repeat apply suffix_cons_r|intros ?]
  | |- safe _ _ _ (Ret _) => cbn
  | |- _ ∧ (∀ _, _) => split; [apply HP; by repeat apply suffix_cons_r|intros ?]
  | |- context [match ?x with _ => _ end] => destruct x eqn:?
  | |- _ => progress cbn [mbind prog_mbind prog_bind mret prog_mret call safe]
  end.
Section among.
Context {E : Type → Type} `{!SubEvent migrateE E}.
(** It ends well only where every migration had run. *)
Definition migrations_ran (h : list (event E)) : Prop :=
  ∃ up, Ev (inject Up) up ∈ h ∧ (up = Ok tt ∨ err_is up ErrNoChange = true).
Lemma Migrate_ends (P : list (event E) → ∀ X, E X → Prop) h : (∀ h' X (e : migrateE X), h `suffix_of` h' → P h' X (inject e)) →
  safe P (λ h' r, h `suffix_of` h' ∧ (r = Ok tt → migrations_ran h')) h Migrate.
Proof.
  intros HP. apply safe_suffix. unfold Migrate. rewrite latest_embedded.
  unfold migrate_locked, migrate_opened, migrate_from, migrate_up, requireRecordedOrEmpty, try_wrap, try_bind, lift.
  explore HP; try done; intros _; eexists; (split; [do 4 right; left; reflexivity|]);
    first [by left; match goal with |- Ok ?u = _ => destruct u end|by right].
Qed.
End among.
End Migration.
