(* ===== verification/Execution.v ===== *)
(** The agent routes ([src/internal/execution/*.go]): the activation of a runtime generation and the
    report of its status, with the checks each makes of the store and of garam, and the one place an
    error becomes an answer. *)
From S2P Require Import Prelude GoStd Json JsonText Errors Types Validation Repository Service.
From Stdlib Require Import Ascii.
Import GoStd Json JsonText Validation.

Module Execution.

(** ** execution.go, garam.go *)
Definition Contract : string := "agent-execution.v2".
Definition AgentToken := string.
#[global] Typeclasses Transparent AgentToken.

Record Introspection := mkIntrospection {
  Introspection_GRN : string;
  Introspection_Org : string;
  Introspection_Assignee : string;
  Introspection_Epoch : string;
  Introspection_Mode : string;
  Introspection_Credential : string;
  Introspection_Generation : string;
  Introspection_ActivationID : string;
}.

Record ActivationCall := mkActivationCall {
  Call_RequestID : string;
  Call_Epoch : string;
  Call_Generation : string;
  Call_ReplacesActivationID : string;
  Call_OperationRef : string;
  Call_Token : AgentToken;
}.

(** garam's answer to activateAgent. *)
Record GaramActivation := mkGaramActivation {
  Garam_ActivationID : string;
  Garam_Token : string;
  Garam_TokenVersion : Z;
  Garam_GRN : string;
  Garam_Epoch : string;
  Garam_Generation : string;
}.

(** The interface [Garam]: each call asked of garam's machine listener. *)
Inductive garamE : Type → Type :=
| Introspect (agent : string) (token : AgentToken) (generation : string) :
  garamE (result Introspection)
| Activate (agent : string) (c : ActivationCall) : garamE (result (GaramActivation * bool)).

(** What the server keeps and writes of its own: the set [foreignContracts], and its log. *)
Inductive serverE : Type → Type :=
| LoadOrStore (contract : string) : serverE bool
| LogError (message : string) (attributes : list (string * string)) : serverE ().

(** ** respond.go *)
Definition kindInvalidRequest := "invalid_request".
Definition kindUnauthenticated := "unauthenticated".
Definition kindPlacementNotCurrent := "placement_not_current".
Definition kindCredentialFenced := "credential_fenced".
Definition kindNotAuthorized := "not_authorized".
Definition kindRequestReused := "request_reused".
Definition kindEpochSuperseded := "epoch_superseded".
Definition kindActivationSuperseded := "activation_superseded".
Definition kindGenerationNotCurrent := "generation_not_current".
Definition kindUndecided := "undecided".

Definition errInvalidRequest := Refusal 400 kindInvalidRequest "request is not one this route takes".
Definition errUnauthenticated :=
  Refusal 401 kindUnauthenticated "no agent token in Authorization, or no placement token".
Definition errNotAuthorized :=
  Refusal 403 kindNotAuthorized "garam refused the authority this activation needs".
Definition errPlacementNotCurrent :=
  Refusal 403 kindPlacementNotCurrent "the placement is not the agent's current one".
Definition errCredentialFenced := Refusal 403 kindCredentialFenced "the agent's token is not current".
Definition errTokenRefused :=
  Refusal 403 kindCredentialFenced "garam refused the token as not this agent's for control".
Definition errRequestReused := Refusal 409 kindRequestReused "request id reused for another activation".
Definition errEpochSuperseded :=
  Refusal 409 kindEpochSuperseded "the epoch is not the agent's current assignment".
Definition errActivationSuperseded :=
  Refusal 409 kindActivationSuperseded "garam refused the activation as superseded".
Definition errGenerationNotCurrent :=
  Refusal 409 kindGenerationNotCurrent "the report is not of the agent's active generation".
Definition errUndecided := Refusal 503 kindUndecided "garam or the store could not decide".

(** [activationResponse]. *)
Record activationResponse := mkActivationResponse {
  response_ActivationID : string;
  response_TokenVersion : Z;
  response_Token : string;
  response_GRN : string;
  response_Epoch : string;
  response_Generation : string;
  response_ConfigRevision : string;
}.
#[global] Instance activationResponse_eq_dec : EqDecision activationResponse.
Proof. solve_decision. Defined.

(** What a route answers, always under the contract's header. *)
Inductive response :=
| Refused (status : Z) (kind message : string)
| Activated (status : Z) (body : activationResponse)
| NoContent.
#[global] Instance response_eq_dec : EqDecision response.
Proof. solve_decision. Defined.

(** [writeRefusal] and [writeJSON]: the status and the body of an answer. *)
Definition activationResponse_json (b : activationResponse) : json :=
  JObject [("activationId", JString (response_ActivationID b)); ("tokenVersion", JNumber (FormatInt (response_TokenVersion b)));
           ("token", JString (response_Token b)); ("grn", JString (response_GRN b)); ("epoch", JString (response_Epoch b));
           ("generation", JString (response_Generation b)); ("configRevision", JString (response_ConfigRevision b))].
Definition write (answer : response) : Z * string :=
  match answer with
  | Refused status kind message =>
      (status, Encoded (JObject [("kind", JString kind); ("message", JString message)]))
  | Activated status b => (status, Encoded (activationResponse_json b))
  | NoContent => (204, "")
  end.

(** [errors.As] for the two error types of the package. *)
Definition as_refusal : error → option (Z * string * string) :=
  errors_as (λ e, match e with Refusal status kind message => Some (status, kind, message) | _ => None end).
Definition as_foreign : error → option (string * string) :=
  errors_as (λ e, match e with GaramContractError call contract => Some (call, contract) | _ => None end).
Definition is_panic (e : error) : bool :=
  bool_decide (is_Some (errors_as (λ e, match e with Panic _ => Some () | _ => None end) e)).

(** [writeRefusal] of a named refusal. *)
Definition refuse (e : error) : response :=
  match as_refusal e with
  | Some (status, kind, message) => Refused status kind message
  | None => Refused 500 "internal" "internal error"
  end.

(** ** Bodies and headers *)

(** [activationRequest]. *)
Record activationRequest := mkActivationBody {
  body_RequestID : string;
  body_Epoch : string;
  body_Generation : string;
  body_ConfigRevision : string;
}.
Definition activationRequest_fields : list (field activationRequest) :=
  [at_field "requestId" into_string body_RequestID (λ b s,
     mkActivationBody s (body_Epoch b) (body_Generation b) (body_ConfigRevision b));
   at_field "epoch" into_string body_Epoch (λ b s,
     mkActivationBody (body_RequestID b) s (body_Generation b) (body_ConfigRevision b));
   at_field "generation" into_string body_Generation (λ b s,
     mkActivationBody (body_RequestID b) (body_Epoch b) s (body_ConfigRevision b));
   at_field "configRevision" into_string body_ConfigRevision (λ b s,
     mkActivationBody (body_RequestID b) (body_Epoch b) (body_Generation b) s)].
Definition zeroActivationBody : activationRequest := mkActivationBody "" "" "" "".

(** [statusReport]; a zero [time.Time] is [None]. *)
Record statusReport := mkStatusReport {
  report_ActivationID : string;
  report_GRN : string;
  report_Epoch : string;
  report_Generation : string;
  report_ConfigRevision : string;
  report_State : string;
  report_StartedAt : option Time;
  report_ObservedAt : option Time;
}.

(** [UnmarshalJSON] of a [time.Time], on a value other than null, which leaves the time as it was: [None] where it
    is not an instant of RFC 3339, a zero time [Some None]. (Go reads the text between the quotes as it is written,
    so that no escape in it is one; the value holds it read.) *)
Class TimeJSON := UnmarshalTime : json → option (option Time).
Definition into_time `{TJ : TimeJSON} : into (option Time) := λ j t,
  match j with JNull => Some t | _ => UnmarshalTime j end.
Definition statusReport_fields `{TJ : TimeJSON} : list (field statusReport) :=
  let at_string name get set := at_field name into_string get set in
  [at_string "activationId" report_ActivationID (λ i s,
     mkStatusReport s (report_GRN i) (report_Epoch i) (report_Generation i) (report_ConfigRevision i)
       (report_State i) (report_StartedAt i) (report_ObservedAt i));
   at_string "grn" report_GRN (λ i s,
     mkStatusReport (report_ActivationID i) s (report_Epoch i) (report_Generation i) (report_ConfigRevision i)
       (report_State i) (report_StartedAt i) (report_ObservedAt i));
   at_string "epoch" report_Epoch (λ i s,
     mkStatusReport (report_ActivationID i) (report_GRN i) s (report_Generation i) (report_ConfigRevision i)
       (report_State i) (report_StartedAt i) (report_ObservedAt i));
   at_string "generation" report_Generation (λ i s,
     mkStatusReport (report_ActivationID i) (report_GRN i) (report_Epoch i) s (report_ConfigRevision i)
       (report_State i) (report_StartedAt i) (report_ObservedAt i));
   at_string "configRevision" report_ConfigRevision (λ i s,
     mkStatusReport (report_ActivationID i) (report_GRN i) (report_Epoch i) (report_Generation i) s
       (report_State i) (report_StartedAt i) (report_ObservedAt i));
   at_string "state" report_State (λ i s,
     mkStatusReport (report_ActivationID i) (report_GRN i) (report_Epoch i) (report_Generation i)
       (report_ConfigRevision i) s (report_StartedAt i) (report_ObservedAt i));
   at_field "startedAt" into_time report_StartedAt (λ i t,
     mkStatusReport (report_ActivationID i) (report_GRN i) (report_Epoch i) (report_Generation i)
       (report_ConfigRevision i) (report_State i) t (report_ObservedAt i));
   at_field "observedAt" into_time report_ObservedAt (λ i t,
     mkStatusReport (report_ActivationID i) (report_GRN i) (report_Epoch i) (report_Generation i)
       (report_ConfigRevision i) (report_State i) (report_StartedAt i) t)].
Definition zeroStatusReport : statusReport := mkStatusReport "" "" "" "" "" "" None None.

(** A request: the agent of its path, the headers the routes read, and its body, [None] where it cannot be read. *)
Record httpRequest := mkRequest {
  http_agent : string;
  http_contract : string;
  http_authorization : string;
  http_placement : string;
  http_body : option string;
}.
Definition maxRequestBytes : nat := 4096.
(** [io.ReadAll(http.MaxBytesReader(w, r.Body, maxRequestBytes))]. *)
Definition read_body (r : httpRequest) : option string :=
  body ← http_body r; if bool_decide (String.length body ≤ maxRequestBytes)%nat then Some body else None.

Definition tokenScheme : string := "Garam-Token ".

(** [^garam_at_[0-9a-f]{64}$]. *)
Definition agentTokenPattern (s : string) : bool :=
  match CutPrefix s "garam_at_" with
  | Some hex => bool_decide (String.length hex = 64%nat) && string_forall is_lower_hex hex
  | None => false
  end.

(** [^[A-Za-z0-9._~-]{1,128}$]. *)
Definition is_request_char (c : ascii) : bool :=
  is_digit c || bool_decide (65 ≤ byte_of c ≤ 90) || bool_decide (97 ≤ byte_of c ≤ 122) ||
  bool_decide (byte_of c ∈ [46; 95; 126; 45]).
Definition requestIDPattern (s : string) : bool :=
  bool_decide (1 ≤ String.length s ≤ 128)%nat && string_forall is_request_char s.

(** [^[0-9a-f]{32}$]. *)
Definition generationPattern (s : string) : bool :=
  bool_decide (String.length s = 32%nat) && string_forall is_lower_hex s.

Definition agentToken (r : httpRequest) : result AgentToken :=
  match CutPrefix (http_authorization r) tokenScheme with
  | Some token => if agentTokenPattern token then Ok token else Err errUnauthenticated
  | None => Err errUnauthenticated
  end.

(** [parseActivation]: exactly one object of the type's fields; the Pod is filled in by the route. *)
Definition parseActivation (body : string) : result ActivationRequest :=
  match decode_one (into_struct true activationRequest_fields) zeroActivationBody body with
  | None => Err errInvalidRequest
  | Some i =>
      if negb (requestIDPattern (body_RequestID i)) || bool_decide (body_Epoch i = "") ||
         negb (generationPattern (body_Generation i))
      then Err errInvalidRequest
      else match ParseRevision (body_ConfigRevision i) with
      | Err _ => Err errInvalidRequest
      | Ok revision =>
          Ok (mkActivationRequest (body_RequestID i) (body_Epoch i) (body_Generation i) revision "")
      end
  end.

Definition stateServing : string := "serving".

(** [parseStatus]; also the instant observed at, which is not zero. *)
Definition parseStatus `{TJ : TimeJSON} (body : string) (agent : string) : result (statusReport * Time) :=
  match decode_one (into_struct true statusReport_fields) zeroStatusReport body with
  | None => Err errInvalidRequest
  | Some i =>
      if bool_decide (report_ActivationID i = "") || negb (bool_decide (report_GRN i = agent)) ||
         bool_decide (report_Epoch i = "") || negb (generationPattern (report_Generation i)) ||
         (negb (bool_decide (report_State i = stateServing)) &&
          negb (bool_decide (report_State i = "draining"))) ||
         bool_decide (report_StartedAt i = None)
      then Err errInvalidRequest
      else match report_ObservedAt i with
      | None => Err errInvalidRequest
      | Some observed => Ok (i, observed)
      end
  end.

Definition credentialCurrent : string := "current".
Definition generationCurrent : string := "current".

Definition refusalOf (err forbidden : error) : error :=
  if errors_is err ErrUndecided then errUndecided
  else if errors_is err ErrNotAuthorized then forbidden
  else if errors_is err ErrCredentialRefused then errTokenRefused
  else if errors_is err ErrActivationSuperseded then errActivationSuperseded
  else err.

(** [req] with the Pod of the placement it is made on. *)
Definition on_pod (req : ActivationRequest) pod : ActivationRequest :=
  mkActivationRequest (ActivationRequest_RequestID req) (ActivationRequest_Epoch req)
    (ActivationRequest_Generation req) (ActivationRequest_ConfigRevision req) pod.

Section server.
Context `{K8s : Kubernetes, SE : !SemanticEquality}.
Context {E : Type → Type} `{!SubEvent repoE E, !SubEvent garamE E, !SubEvent serverE E}.

Definition respondError (err : error) : prog E response :=
  match as_foreign err with
  | Some (call_, contract) =>
    seen ← call (LoadOrStore contract);
    _ ← (if (seen : bool) then mret tt
      else call (LogError "garam answered under a contract the agent routes do not take"
        [("port", "execution"); ("call", call_); ("contract", contract)]));
    mret (Refused 503 kindUndecided (error_text (GaramContractError call_ contract)))
  | None =>
    match as_refusal err with
    | Some (status, kind, message) => mret (Refused status kind message)
    | None =>
      if errors_is err ErrAgentStopped then
      mret (Refused 403 kindPlacementNotCurrent
        ("the agent is stopped: " +:+ "no placement of it is activated until its stop ends"))
      else if errors_is err ErrRequestReused then mret (refuse errRequestReused)
      else if errors_is err ErrInvalidStatus then
      mret (Refused 400 kindInvalidRequest "configRevision is not a revision the agent has")
      else if errors_is err ErrNotFound then
      mret (Refused 403 kindNotAuthorized "control holds no authority to activate this revision")
      else if errors_is err ErrUndecided then
      mret (Refused 503 kindUndecided (error_text err))
      else
      _ ← call (LogError (if is_panic err then "agent handler panicked" else "agent request failed")
        [("error", error_text err)]);
      mret (Refused 500 "internal" "internal error")
    end
  end.

Definition respond (p : prog E (result response)) : prog E response :=
  r ← p;
  match r with
  | Ok answer => mret answer
  | Err err => respondError err
  end.

(** ** activation.go *)
Definition currentPlacement agent token epoch : prog E (result Placement) :=
  placement ← Service.CurrentPlacement agent;
  match placement with
  | Err err =>
    if errors_is err ErrNotFound then mret (Err errPlacementNotCurrent) else mret (Err err)
  | Ok placement =>
    if negb (bool_decide (EncodeToString (Sum256 (bytes_of token)) =
      PlacementRequest_TokenSHA256 (Placement_Request placement)))
    then mret (Err errPlacementNotCurrent)
    else if negb (bool_decide (epoch = PlacementRequest_Epoch (Placement_Request placement)))
    then mret (Err errEpochSuperseded)
    else mret (Ok placement)
  end.

Definition server_admit agent token epoch (placement : Placement) : prog E (result ()) :=
  execution ← call (Introspect agent token "");
  match execution with
  | Err err => mret (Err (refusalOf err errNotAuthorized))
  | Ok execution =>
    if negb (bool_decide (Introspection_Credential execution = credentialCurrent))
    then mret (Err errCredentialFenced)
    else if negb (bool_decide (Introspection_GRN execution = agent)) ||
    negb (bool_decide (Introspection_Assignee execution = Placement_Controller placement))
    then mret (Err errPlacementNotCurrent)
    else if negb (bool_decide (Introspection_Epoch execution = epoch))
    then mret (Err errEpochSuperseded)
    else mret (Ok tt)
  end.

Definition callActivate agent (stored : Activation) token : prog E (result (GaramActivation * bool)) :=
  let req := Activation_Request stored in
  answered ← call (Activate agent (mkActivationCall (ActivationRequest_RequestID req)
    (ActivationRequest_Epoch req) (ActivationRequest_Generation req)
    (Activation_ReplacesActivationID stored) (Activation_OperationRef stored) token));
  match answered with
  | Err err => mret (Err (refusalOf err errNotAuthorized))
  | Ok (answer, created) =>
    if negb (bool_decide (Garam_GRN answer = agent)) ||
    negb (bool_decide (Garam_Epoch answer = ActivationRequest_Epoch req)) ||
    negb (bool_decide (Garam_Generation answer = ActivationRequest_Generation req)) ||
    bool_decide (Garam_ActivationID answer = "") || bool_decide (Garam_Token answer = "") ||
    bool_decide (Garam_TokenVersion answer < 1)
    then mret (Err (Errorf "garam answered an activation of another binding"))
    else mret (Ok (answer, created))
  end.

(** What [activate] runs under the agent's lock. *)
Definition activation_attempt agent token (req : ActivationRequest) (placement : Placement) :
  prog E (result (GaramActivation * bool)) :=
  stored ←? Service.PrepareActivation agent req;
  _ ←? server_admit agent token (ActivationRequest_Epoch req) placement;
  '(answer, created) ←? callActivate agent stored token;
  _ ←? Service.RecordActivation agent (ActivationRequest_RequestID req) (Garam_ActivationID answer);
  mret (Ok (answer, created)).

Definition activate (r : httpRequest) : prog E response :=
  respond (
    let agent := http_agent r in
    match read_body r with
    | None => mret (Err errInvalidRequest)
    | Some body =>
      token ←? lift (agentToken r);
      if bool_decide (http_placement r = "") then mret (Err errUnauthenticated)
      else
      req ←? lift (parseActivation body);
      placement ←? currentPlacement agent (http_placement r) (ActivationRequest_Epoch req);
      let req := on_pod req (PlacementRequest_PodUID (Placement_Request placement)) in
      '(answer, created) ←? Service.WithActivationLock agent (
        activation_attempt agent token req placement);
      mret (Ok (Activated (if (created : bool) then 201 else 200)
        (mkActivationResponse (Garam_ActivationID answer) (Garam_TokenVersion answer)
          (Garam_Token answer) (Garam_GRN answer) (Garam_Epoch answer) (Garam_Generation answer)
          (Revision_String (ActivationRequest_ConfigRevision req)))))
    end).

(** ** status.go *)
Definition admitReport agent token (i : statusReport) : prog E (result ()) :=
  execution ← call (Introspect agent token (report_Generation i));
  match execution with
  | Err err => mret (Err (refusalOf err errCredentialFenced))
  | Ok execution =>
    if negb (bool_decide (Introspection_Credential execution = credentialCurrent))
    then mret (Err errCredentialFenced)
    else if negb (bool_decide (Introspection_Generation execution = generationCurrent)) ||
    negb (bool_decide (Introspection_GRN execution = agent)) ||
    negb (bool_decide (Introspection_Epoch execution = report_Epoch i)) ||
    negb (bool_decide (Introspection_ActivationID execution = report_ActivationID i))
    then mret (Err errGenerationNotCurrent)
    else
    placement ← Service.CurrentPlacement agent;
    match placement with
    | Err err =>
      if errors_is err ErrNotFound then mret (Err errGenerationNotCurrent) else mret (Err err)
    | Ok placement =>
      if negb (bool_decide (Introspection_Assignee execution = Placement_Controller placement))
      then mret (Err errGenerationNotCurrent)
      else
      activated ← Service.ActivationOfGeneration agent (report_Generation i);
      match activated with
      | Err err =>
        if errors_is err ErrNotFound then mret (Err errGenerationNotCurrent) else mret (Err err)
      | Ok activated =>
        if negb (bool_decide (activated = report_ActivationID i))
        then mret (Err errGenerationNotCurrent)
        else mret (Ok tt)
      end
    end
  end.

Definition reportStatus `{TJ : TimeJSON} (r : httpRequest) : prog E response :=
  respond (
    let agent := http_agent r in
    match read_body r with
    | None => mret (Err errInvalidRequest)
    | Some body =>
      token ←? lift (agentToken r);
      '(i, observed) ←? lift (parseStatus body agent);
      _ ←? admitReport agent token i;
      _ ←? Service.RecordRuntimeStatus agent
      (mkRuntimeReport (report_ActivationID i) (report_Generation i) (report_ConfigRevision i)
        (bool_decide (report_State i = stateServing)) observed);
      mret (Ok NoContent)
    end).

(** ** server.go *)
Definition underContract (next : httpRequest → prog E response) (r : httpRequest) :
  prog E response :=
  if negb (bool_decide (http_contract r = Contract))
  then mret (Refused 400 kindInvalidRequest ("Garam-Contract-Version must be " +:+ Contract))
  else next r.
End server.
End Execution.
