(* ===== verification/Distribution.v ===== *)
(** The routes a controller reads its desired state from and reports to ([src/internal/distribution/*.go]):
    each proves the controller with garam, and the agent it is about, before it reads or writes the store;
    and the one place an error becomes an answer. *)
From S2P Require Import Prelude GoStd Json JsonText Errors Types Validation Repository Service.
From Stdlib Require Import Ascii.
Import GoStd Json JsonText Validation.

Module Distribution.

(** ** distribution.go, prover.go *)
Record ProvenAgent := mkProvenAgent { ProvenAgent_GRN : string; ProvenAgent_Epoch : string }.
Record Proof := mkProof { Proof_Operator : string; Proof_Org : string; Proof_Agent : option ProvenAgent }.

(** The interface [Prover], asked of garam for one decision. *)
Inductive proverE : Type → Type :=
| Prove (controller token agent : string) : proverE (result Proof).

(** What the server reads and keeps of its own: its clock, the clock a wait runs on, the wait itself (whether
    the request was cancelled in it), the contacts written, and its log. *)
Inductive distE : Type → Type :=
| Now : distE Time
| WallClock : distE Time
| WaitFor (d : Z) : distE bool
| ContactDue (grn : string) (at_ : Time) : distE bool
| ForgetContact (grn : string) (at_ : Time) : distE ()
| LogFailure (message : string) (attributes : list (string * string)) : distE ().

(** ** contact.go *)
Definition contactInterval : Z := 60 * Second.

(** [contacts.record]'s two locked sections, on the contacts written: whether a contact is to be written, noted
    as written; and a failed one forgotten, unless another was noted since. *)
Definition contact_due (grn : string) (at_ : Time) (written : gmap string Time) : bool * gmap string Time :=
  match written !! grn with
  | Some last => if bool_decide (at_ - last < contactInterval) then (false, written) else (true, <[grn := at_]> written)
  | None => (true, <[grn := at_]> written)
  end.
Definition forget_contact (grn : string) (at_ : Time) (written : gmap string Time) : gmap string Time :=
  if bool_decide (written !! grn = Some at_) then delete grn written else written.

(** [controller]. *)
Record controller := mkController { controller_grn : string; controller_token : string; controller_orgGRN : string }.

(** ** Requests *)

(** A request: its headers, its query's two values, the agent its path names, and its body, [None] where it
    cannot be read. *)
Record httpRequest := mkHttp {
  http_authorization : string;
  http_controller : string;
  http_after : string;
  http_waitSeconds : string;
  http_agent : string;
  http_body : option string;
}.

(** [io.ReadAll(http.MaxBytesReader(w, r.Body, limit))]. *)
Definition read_body (limit : nat) (r : httpRequest) : option string :=
  body ← http_body r; if bool_decide (String.length body ≤ limit)%nat then Some body else None.

(** [^garam_ot_[0-9a-f]{64}$]. *)
Definition operatorToken (s : string) : bool :=
  match CutPrefix s "garam_ot_" with
  | Some hex => bool_decide (String.length hex = 64%nat) && string_forall is_lower_hex hex
  | None => false
  end.

(** [strings.EqualFold] of an ASCII word: letters whatever their case, and the runes that fold to them. *)
Definition is_bearer (scheme : string) : bool := same_name scheme "Bearer".

(** [^[0-9a-f]{64}$]. *)
Definition sha256Pattern (s : string) : bool :=
  bool_decide (String.length s = 64%nat) && string_forall is_lower_hex s.

(** [^[A-Za-z0-9._~-]{1,128}$]. *)
Definition is_request_char (c : ascii) : bool :=
  is_digit c || bool_decide (65 ≤ byte_of c ≤ 90) || bool_decide (97 ≤ byte_of c ≤ 122) ||
  bool_decide (byte_of c ∈ [46; 95; 126; 45]).
Definition requestIDPattern (s : string) : bool :=
  bool_decide (1 ≤ String.length s ≤ 128)%nat && string_forall is_request_char s.

(** *** The feed's query *)
Definition maxWait : Z := 30 * Second.

(** [time.Duration(seconds)*time.Second] is an int64. *)
Definition parseFeedQuery (r : httpRequest) : result (option Position * Z) :=
  after ← (if bool_decide (http_after r = "") then Ok None
           else match ParseInt (http_after r) with
           | Some parsed =>
               if bool_decide (parsed < 0) || negb (bool_decide (FormatInt parsed = http_after r))
               then Err errInvalidQuery else Ok (Some parsed)
           | None => Err errInvalidQuery
           end);
  wait ← (if bool_decide (http_waitSeconds r = "") then Ok 0
          else match ParseInt (http_waitSeconds r) with
          | Some seconds =>
              if bool_decide (seconds < 0) || bool_decide (int64 (seconds * Second) > maxWait)
              then Err errInvalidQuery else Ok (int64 (seconds * Second))
          | None => Err errInvalidQuery
          end);
  Ok (after, wait).

(** *** Bodies *)
Record statusRequest := mkStatusRequest { status_Observed : string; status_Rendered : string }.
Definition statusRequest_fields : list (field statusRequest) :=
  [at_field "observedRevision" into_string status_Observed (λ r s, mkStatusRequest s (status_Rendered r));
   at_field "renderedRevision" into_string status_Rendered (λ r s, mkStatusRequest (status_Observed r) s)].

Definition parseStatus (body : string) : result (Revision * Revision) :=
  match decode_one (into_struct true statusRequest_fields) (mkStatusRequest "" "") body with
  | None => Err errInvalidStatusBody
  | Some i =>
      match ParseRevision (status_Observed i), ParseRevision (status_Rendered i) with
      | Ok observed, Ok rendered => Ok (observed, rendered)
      | _, _ => Err errInvalidStatusBody
      end
  end.

Record placementRequest := mkPlacementBody {
  placement_Epoch : string;
  placement_PodUID : string;
  placement_PVCUID : string;
  placement_TokenSHA256 : string;
  placement_Previous : option PreviousPlacement;
}.
Definition previousRequest_fields : list (field PreviousPlacement) :=
  [at_field "podUid" into_string Previous_PodUID (λ p s, mkPrevious s (Previous_WriterStoppedSHA256 p));
   at_field "writerStoppedSha256" into_string Previous_WriterStoppedSHA256 (λ p s, mkPrevious (Previous_PodUID p) s)].
Definition placementRequest_fields : list (field placementRequest) :=
  [at_field "epoch" into_string placement_Epoch (λ p s,
     mkPlacementBody s (placement_PodUID p) (placement_PVCUID p) (placement_TokenSHA256 p) (placement_Previous p));
   at_field "podUid" into_string placement_PodUID (λ p s,
     mkPlacementBody (placement_Epoch p) s (placement_PVCUID p) (placement_TokenSHA256 p) (placement_Previous p));
   at_field "pvcUid" into_string placement_PVCUID (λ p s,
     mkPlacementBody (placement_Epoch p) (placement_PodUID p) s (placement_TokenSHA256 p) (placement_Previous p));
   at_field "tokenSha256" into_string placement_TokenSHA256 (λ p s,
     mkPlacementBody (placement_Epoch p) (placement_PodUID p) (placement_PVCUID p) s (placement_Previous p));
   at_field "previous" (into_pointer zeroPrevious (into_struct true previousRequest_fields)) placement_Previous (λ p q,
     mkPlacementBody (placement_Epoch p) (placement_PodUID p) (placement_PVCUID p) (placement_TokenSHA256 p) q)].

Definition parsePlacement (body : string) : result PlacementRequest :=
  match decode_one (into_struct true placementRequest_fields) (mkPlacementBody "" "" "" "" None) body with
  | None => Err errInvalidPlacementBody
  | Some i =>
      if bool_decide (placement_Epoch i = "") || bool_decide (placement_PodUID i = "") ||
         bool_decide (placement_PVCUID i = "") || negb (sha256Pattern (placement_TokenSHA256 i))
      then Err errInvalidPlacementBody
      else
      let out previous := mkPlacementRequest (placement_PodUID i) (placement_PVCUID i) (placement_Epoch i)
                            (placement_TokenSHA256 i) previous in
      match placement_Previous i with
      | None => Ok (out zeroPrevious)
      | Some p =>
          if bool_decide (Previous_PodUID p = "") || bool_decide (Previous_PodUID p = placement_PodUID i) ||
             (negb (bool_decide (Previous_WriterStoppedSHA256 p = "")) &&
              negb (sha256Pattern (Previous_WriterStoppedSHA256 p)))
          then Err errInvalidPlacementBody
          else Ok (out p)
      end
  end.

Definition recoveryRequest_fields : list (field RecoveryRequest) :=
  [at_field "requestId" into_string RecoveryRequest_RequestID (λ r s, mkRecoveryRequest s (RecoveryRequest_Epoch r));
   at_field "epoch" into_string RecoveryRequest_Epoch (λ r s, mkRecoveryRequest (RecoveryRequest_RequestID r) s)].

Definition parseRecoveryRequest (body : string) : result RecoveryRequest :=
  match decode_one (into_struct true recoveryRequest_fields) (mkRecoveryRequest "" "") body with
  | None => Err errInvalidRecoveryBody
  | Some i =>
      if negb (requestIDPattern (RecoveryRequest_RequestID i)) || bool_decide (RecoveryRequest_Epoch i = "")
      then Err errInvalidRecoveryBody else Ok i
  end.

Definition wireImage_fields : list (field OperatorImage) :=
  [at_field "name" into_string OperatorImage_Name (λ i s, mkOperatorImage s (OperatorImage_Ref i) (OperatorImage_Digest i));
   at_field "ref" into_string OperatorImage_Ref (λ i s, mkOperatorImage (OperatorImage_Name i) s (OperatorImage_Digest i));
   at_field "digest" (into_pointer "" into_string) OperatorImage_Digest (λ i d,
     mkOperatorImage (OperatorImage_Name i) (OperatorImage_Ref i) d)].
Definition imagesRequest_fields : list (field (list OperatorImage)) :=
  [at_field "images" (into_slice (mkOperatorImage "" "" None) (into_struct true wireImage_fields)) id (λ _ l, l)].

(** ** Answers *)

(** A status, and the text written after it. *)
Record response := mkResponse { response_status : Z; response_body : string }.
Definition writeJSON (status : Z) (j : json) : response := mkResponse status (Encoded j).

(** [errorBody]; a kind that is empty is left out. *)
Definition errorBody (kind message : string) : json :=
  JObject ((if bool_decide (kind = "") then [] else [("kind", JString kind)]) ++ [("message", JString message)]).
Definition writeMessage (status : Z) (message : string) : response := writeJSON status (errorBody "" message).

Definition kindTooManyAgents := "too_many_agents".
Definition kindEpochSuperseded := "epoch_superseded".
Definition kindRequestReused := "request_reused".
Definition kindInvalidRequest := "invalid_request".
Definition kindGaramContractUnsupported := "garam_contract_unsupported".
Definition kindRecoveryStage := "recovery_stage".

Definition placementRefusals : list (sentinel * string) :=
  [(ErrPlacementSuperseded, "placement_superseded"); (ErrPreviousMismatch, "previous_mismatch");
   (ErrEvidenceMissing, "evidence_missing"); (ErrPlacementConflict, "placement_conflict")].

(** The answer an error has of its own; any other is logged and answered 500. *)
Definition refusal (err : error) : option response :=
  let has s := errors_is err s in
  let answer status kind := Some (writeJSON status (errorBody kind (error_text err))) in
  match List.find (λ r, has r.1) placementRefusals with
  | Some (_, kind) => answer 409 kind
  | None =>
      if has errInvalidPlacementBody then answer 400 kindInvalidRequest
      else if has errProvedEpochSuperseded || has ErrRecoveryEpoch then answer 409 kindEpochSuperseded
      else if has ErrRequestReused then answer 409 kindRequestReused
      else if has ErrRecoveryStage then answer 409 kindRecoveryStage
      else if has ErrNoToken || has ErrTokenRefused then answer 401 ""
      else if has ErrNotProved || has ErrAnotherOperator || has errNotPlaced then answer 403 ""
      else if has ErrProofUndecided then answer 503 ""
      else if has ErrProofContractUnsupported || has ErrGaramContractUnsupported
      then answer 503 kindGaramContractUnsupported
      else if has errInvalidQuery || has errInvalidStatusBody || has ErrInvalidStatus || has errInvalidRecoveryBody ||
              has errInvalidImagesBody || has ErrInvalidImages
      then answer 400 ""
      else if has ErrNotFound then answer 404 ""
      else if has errTooManyAgents then answer 422 kindTooManyAgents
      else None
  end.

Definition is_panic (e : error) : bool :=
  bool_decide (is_Some (errors_as (λ e, match e with Panic _ => Some () | _ => None end) e)).

(** *** The feed's answer *)
Definition string_map_json (m : gmap string string) : json :=
  JObject ((λ kv, (kv.1, JString kv.2)) <$> merge_sort (λ a b, Is_true (String.leb a.1 b.1)) (map_to_list m)).
Definition optional (name : string) (j : option json) : list (string * json) :=
  match j with Some j => [(name, j)] | None => [] end.

(** The JSON of [corev1.ResourceRequirements], Kubernetes' own: printed, and read back. *)
Class ResourcesJSON `{K8s : Kubernetes} := {
  resources_json : ResourceRequirements → json;
  into_resources : into ResourceRequirements;
}.

Definition embedding_json (e : Embedding) : json :=
  JObject [("baseUrl", JString (Embedding_BaseURL e)); ("name", JString (Embedding_Name e));
           ("apiKeyRef", JString (Embedding_APIKey e))].
Definition model_json (m : Model) : json :=
  JObject ([("provider", JString (Model_Provider m)); ("baseUrl", JString (Model_BaseURL m));
            ("name", JString (Model_Name m)); ("apiKeyRef", JString (Model_APIKey m))] ++
           optional "embedding" (embedding_json <$> Model_Embedding m)).
Definition configuration_json (c : Configuration) : json :=
  JObject [("model", model_json (Configuration_Model c)); ("ego", JString (Configuration_Ego c));
           ("tools", string_map_json (Configuration_Tools c))].
Definition recovery_json (r : OpenRecovery) : json :=
  JObject [("requestId", JString (OpenRecovery_RequestID r)); ("epoch", JString (OpenRecovery_Epoch r))].

Section feed.
Context `{K8s : Kubernetes, RJ : !ResourcesJSON}.

Definition profile_json (ref : ProfileRef) (settings : ExecutionSettings) : json :=
  JObject ([("name", JString (ProfileRef_Name ref)); ("version", JNumber (FormatInt (ProfileRef_Version ref)));
    ("resources", resources_json (Settings_Resources settings));
    ("storageSize", JString (Quantity_String (Settings_StorageSize settings)));
    ("storageClassName", from_option JString JNull (Settings_StorageClassName settings))] ++
    optional "workspaceStorageSize"
    ((λ q, JString (Quantity_String q)) <$> Settings_WorkspaceStorageSize settings)).

(** [desiredAgentOf], as it prints. A nil assignment has no epoch to read. *)
Definition desiredAgentOf (d : DesiredRevision) : result json :=
  let def := Desired_Definition d in
  match Definition_Assignment def with
  | None => Err (Panic "invalid memory address or nil pointer dereference")
  | Some assignment =>
    Ok (JObject ([("agent", JString (Definition_Agent def));
      ("revision", JString (Revision_String (Definition_Revision def)));
      ("epoch", JString (Assignment_Epoch assignment));
      ("profile", profile_json (Definition_Profile def) (Desired_Settings d));
      ("configuration", configuration_json (Definition_Config def))] ++
      (if Desired_Stopped d then [("stopped", JBool true)] else []) ++
      optional "recovery" (recovery_json <$> Desired_Recovery d)))
  end.
Definition desiredResponse (position : Position) (agents : list json) : json :=
  JObject [("cursor", JString (FormatInt position)); ("agents", JArray agents)].
End feed.

Section server.
Context `{K8s : Kubernetes, RJ : !ResourcesJSON}.
Context {E : Type → Type} `{!SubEvent repoE E, !SubEvent proverE E, !SubEvent distE E}.
(** [pollInterval] and [maxAgents] of the server's configuration. *)
Context (pollInterval : Z) (maxAgents : Z).

Definition respondError (err : error) : prog E response :=
  match refusal err with
  | Some answer => mret answer
  | None =>
    _ ← call (LogFailure (if is_panic err then "controller handler panicked" else "controller request failed")
      [("error", error_text err)]);
    mret (writeMessage 500 "internal error")
  end.

Definition respond (p : prog E (result response)) : prog E response :=
  r ← p;
  match r with
  | Ok answer => mret answer
  | Err err => respondError err
  end.

(** ** contact.go, session.go *)
Definition contacts_record (c : controller) : prog E (result ()) :=
  at_ ← call Now;
  due ← call (ContactDue (controller_grn c) at_);
  if negb due then mret (Ok tt)
  else
  recorded ← Service.RecordOperatorContact (controller_orgGRN c) (controller_grn c) at_;
  match recorded with
  | Ok _ => mret (Ok tt)
  | Err err => _ ← call (ForgetContact (controller_grn c) at_); mret (Err err)
  end.

Definition authenticate (r : httpRequest) : prog E (result controller) :=
  let '(scheme, token, found) := Cut (http_authorization r) " "%char in
  let grn := http_controller r in
  if negb found || negb (is_bearer scheme) || negb (operatorToken token) || bool_decide (grn = "")
  then mret (Err ErrNoToken)
  else
  proof ←? call (Prove grn token "");
  if negb (bool_decide (Proof_Operator proof = grn)) then mret (Err ErrAnotherOperator)
  else
  let c := mkController grn token (Proof_Org proof) in
  recorded ← contacts_record c;
  _ ← match recorded with
  | Err err => call (LogFailure "record controller contact failed" [("operator", grn); ("error", error_text err)])
  | Ok _ => mret tt
  end;
  mret (Ok c).

Definition provedEpoch (c : controller) (agent : string) : prog E (result string) :=
  proof ←? call (Prove (controller_grn c) (controller_token c) agent);
  match Proof_Agent proof with
  | Some proven =>
    if negb (bool_decide (Proof_Operator proof = controller_grn c)) || negb (bool_decide (ProvenAgent_GRN proven = agent))
    then mret (Err ErrNotProved)
    else mret (Ok (ProvenAgent_Epoch proven))
  | None => mret (Err ErrNotProved)
  end.

Definition placed (c : controller) (agent epoch : string) : prog E (result bool) :=
  proved ← provedEpoch c agent;
  match proved with
  | Err err => if errors_is err ErrNotProved then mret (Ok false) else mret (Err err)
  | Ok proved => mret (Ok (bool_decide (proved = epoch)))
  end.

(** ** desired.go *)

(** The loop of [waitPast], [n] the polls it may make: [None] where it would make more. *)
Fixpoint poll (n : nat) (after : Position) (deadline : Time) : prog E (option (result ())) :=
  match n with
  | O => mret None
  | S n =>
    position ← Service.Position;
    match position with
    | Err err => mret (Some (Err err))
    | Ok position =>
      if bool_decide (position < after) then mret (Some (Err errInvalidQuery))
      else if bool_decide (position > after) then mret (Some (Ok tt))
      else
      now ← call WallClock;
      if negb (bool_decide (now < deadline)) then mret (Some (Ok tt))
      else
      now ← call WallClock;
      cancelled ← call (WaitFor (pollInterval `min` (deadline - now)));
      if (cancelled : bool) then mret (Some (Ok tt)) else poll n after deadline
    end
  end.
Definition waitPast (n : nat) (after : option Position) (wait : Z) : prog E (option (result ())) :=
  match after with
  | None => mret (Some (Ok tt))
  | Some after => now ← call WallClock; poll n after (now + wait)
  end.

(** The loop over the page's revisions. *)
Fixpoint released (c : controller) (revisions : list DesiredRevision) : prog E (result (list json)) :=
  match revisions with
  | [] => mret (Ok [])
  | d :: revisions =>
    match Definition_Assignment (Desired_Definition d) with
    | None => mret (Err (Panic "invalid memory address or nil pointer dereference"))
    | Some assignment =>
      placed_ ←? placed c (Definition_Agent (Desired_Definition d)) (Assignment_Epoch assignment);
      this ←? (if (placed_ : bool) then agent ←? lift (desiredAgentOf d); mret (Ok [agent]) else mret (Ok []));
      rest ←? released c revisions;
      mret (Ok (this ++ rest))
    end
  end.

(** After the wait. *)
Definition answer_feed (c : controller) : prog E (result response) :=
  page ←? Service.Desired (controller_grn c) (maxAgents + 1);
  if bool_decide (Z.of_nat (length (Page_Revisions page)) > maxAgents) then mret (Err errTooManyAgents)
  else
  agents ←? released c (Page_Revisions page);
  mret (Ok (writeJSON 200 (desiredResponse (Page_Position page) agents))).

(** [None] where the wait would poll the position more than [n] times. *)
Definition desired (n : nat) (r : httpRequest) : prog E (option response) :=
  match parseFeedQuery r with
  | Err err => answer ← respondError err; mret (Some answer)
  | Ok (after, wait) =>
    c ← authenticate r;
    match c with
    | Err err => answer ← respondError err; mret (Some answer)
    | Ok c =>
      waited ← waitPast n after wait;
      match waited with
      | None => mret None
      | Some (Err err) => answer ← respondError err; mret (Some answer)
      | Some (Ok _) => answer ← respond (answer_feed c); mret (Some answer)
      end
    end
  end.

(** ** status.go *)
Definition maxStatusBytes : nat := 4096.

Definition status (r : httpRequest) : prog E response :=
  respond (
    let agent := http_agent r in
    match read_body maxStatusBytes r with
    | None => mret (Err errInvalidStatusBody)
    | Some body =>
      c ←? authenticate r;
      '(observed, rendered) ←? lift (parseStatus body);
      latest ←? Service.GetDefinition agent;
      match Definition_Assignment latest with
      | Some assignment =>
        if negb (bool_decide (Assignment_Operator assignment = controller_grn c)) then mret (Err errNotPlaced)
        else
        placed_ ←? placed c agent (Assignment_Epoch assignment);
        if negb placed_ then mret (Err errNotPlaced)
        else
        stored ←? Service.RecordStatus agent observed rendered;
        mret (Ok (writeJSON 200 (JObject
          [("agent", JString agent);
            ("observedRevision", JString (Revision_String (Status_Observed stored)));
            ("renderedRevision", JString (Revision_String (Status_Rendered stored)));
            ("appliedRevision",
              from_option (λ applied, JString (Revision_String applied)) JNull (Status_Applied stored))])))
      | None => mret (Err errNotPlaced)
      end
    end).

(** ** placement.go *)
Definition maxPlacementBytes : nat := 4096.

Definition provePlacedAt (c : controller) (agent epoch : string) : prog E (result ()) :=
  latest ←? Service.GetDefinition agent;
  match Definition_Assignment latest with
  | Some assignment =>
    if negb (bool_decide (Assignment_Operator assignment = controller_grn c)) then mret (Err errNotPlaced)
    else
    proved ← provedEpoch c agent;
    match proved with
    | Err err => if errors_is err ErrNotProved then mret (Err errNotPlaced) else mret (Err err)
    | Ok proved =>
      if negb (bool_decide (proved = epoch)) || negb (bool_decide (proved = Assignment_Epoch assignment))
      then mret (Err errProvedEpochSuperseded)
      else mret (Ok tt)
    end
  | None => mret (Err errNotPlaced)
  end.

Definition placementResponse (agent : string) (p : PlacementRequest) : json :=
  JObject [("agent", JString agent); ("epoch", JString (PlacementRequest_Epoch p));
    ("podUid", JString (PlacementRequest_PodUID p)); ("pvcUid", JString (PlacementRequest_PVCUID p));
    ("tokenSha256", JString (PlacementRequest_TokenSHA256 p))].

Definition registerPlacement (r : httpRequest) : prog E response :=
  respond (
    let agent := http_agent r in
    match read_body maxPlacementBytes r with
    | None => mret (Err errInvalidPlacementBody)
    | Some body =>
      c ←? authenticate r;
      i ←? lift (parsePlacement body);
      _ ←? provePlacedAt c agent (PlacementRequest_Epoch i);
      '(stored, first) ←? Service.RegisterPlacement (mkPlacementInput agent (controller_grn c) i);
      mret (Ok (writeJSON (if (first : bool) then 201 else 200)
        (placementResponse agent (Placement_Request stored))))
    end).

(** ** recovery.go *)
Definition maxRecoveryRequestBytes : nat := 4096.

Definition stage_text (s : RecoveryStage) : string :=
  match s with
  | RecoveryRequested => "requested" | RecoveryPrepared => "prepared" | RecoveryFinalized => "finalized"
  end.

Definition recoveryResponse (agent : string) (stored : Recovery) (lineage : string) : json :=
  JObject ([("agent", JString agent); ("recoveryRequestId", JString (Recovery_RequestID stored));
    ("epoch", JString (Recovery_Epoch stored)); ("stage", JString (stage_text (Recovery_Stage stored)))] ++
    (if bool_decide (lineage = "") then [] else [("lineage", JString lineage)])).

Definition prepareRecovery (r : httpRequest) : prog E response :=
  respond (
    let agent := http_agent r in
    match read_body maxRecoveryRequestBytes r with
    | None => mret (Err errInvalidRecoveryBody)
    | Some body =>
      c ←? authenticate r;
      i ←? lift (parseRecoveryRequest body);
      _ ←? provePlacedAt c agent (RecoveryRequest_Epoch i);
      stored ←? Service.PrepareRecovery agent i;
      mret (Ok match Recovery_Recovered stored with
      | Some recovered => writeJSON 200 (recoveryResponse agent stored (Recovered_Lineage recovered))
      | None => writeJSON 202 (recoveryResponse agent stored "")
      end)
    end).

(** ** images.go *)
Definition maxImagesBytes : nat := 16384.

Definition reportImages (r : httpRequest) : prog E response :=
  respond (
    match read_body maxImagesBytes r with
    | None => mret (Err errInvalidImagesBody)
    | Some body =>
      c ←? authenticate r;
      match decode_one (into_struct true imagesRequest_fields) [] body with
      | None => mret (Err errInvalidImagesBody)
      | Some images =>
        now ← call Now;
        _ ←? Service.ReportOperatorImages (controller_orgGRN c) (controller_grn c) images now;
        mret (Ok (mkResponse 204 ""))
      end
    end).

(** ** server.go *)
Inductive route := FeedRoute | ImagesRoute | StatusRoute | PlacementsRoute | RecoveryRequestsRoute.

(** The handler of each route, [n] the polls the feed may make. *)
Definition serve (n : nat) (route : route) (r : httpRequest) : prog E (option response) :=
  match route with
  | FeedRoute => desired n r
  | ImagesRoute => answer ← reportImages r; mret (Some answer)
  | StatusRoute => answer ← status r; mret (Some answer)
  | PlacementsRoute => answer ← registerPlacement r; mret (Some answer)
  | RecoveryRequestsRoute => answer ← prepareRecovery r; mret (Some answer)
  end.
End server.
End Distribution.
