(* ===== verification/Sql.v ===== *)
(** The control service's PostgreSQL database: its tables as the migrations of
    [src/internal/definition/repository/migrations] leave them, with their keys, checks, unique indexes and foreign keys;
    the statements of [postgres_queries.go] as what each does to the tables; and the transactions and savepoints a
    statement runs in, with what a failure leaves of them; and the advisory locks the sessions of its server hold. *)
From S2P Require Import Prelude GoStd Errors Types.

Module Sql.

(** What the code leaves to PostgreSQL and its driver: how a JSON document is kept and given back, the clock ([now ()] of
    the n-th transaction), to what an instant is kept, how text is ordered, which row a query answers that asks for
    any one, and whether a call may fail for reasons of the driver's own. *)
Class Database := {
  jsonb : Type;
  jsonb_in : string → option jsonb;
  jsonb_out : jsonb → string;
  now_of : nat → Time;
  timestamptz : Time → Time;
  collate : string → string → bool;
  any_row : ∀ A, list A → option A;
  may_fail : Prop;
}.
Arguments any_row {_ A}.

(** SQLSTATEs. *)
Definition uniqueViolation : string := "23505".
(** The SQLSTATE of an error PostgreSQL answered, however wrapped. *)
Definition sqlstate : error → option string := errors_as (λ e, match e with PgError code _ => Some code | _ => None end).
Definition unique_violation : error := PgError uniqueViolation "duplicate key value violates unique constraint".
Definition check_violation : error := PgError "23514" "new row violates check constraint".
Definition foreign_key_violation : error := PgError "23503" "insert or update violates foreign key constraint".
Definition invalid_json : error := PgError "22P02" "invalid input syntax for type json".
Definition invalid_limit : error := PgError "2201W" "LIMIT must not be negative".
Definition transaction_aborted : error := PgError "25P02" "current transaction is aborted".

(** ** Rows, selected and counted *)
Section rows.
Context `{Countable K} {R : Type}.
Implicit Types (m : gmap K R).

Definition rows (p : K → R → bool) m : list (K * R) := filter (λ kr, Is_true (p kr.1 kr.2)) (map_to_list m).
(** [EXISTS (SELECT ...)]. *)
Definition exists_row (p : K → R → bool) m : bool := negb (bool_decide (rows p m = [])).
(** [MAX (...)], [NULL] over no row. *)
Definition max_of (f : K → R → option Z) m : option Z :=
  foldr (λ x acc, match acc with Some y => Some (x `max` y) | None => Some x end) None
  (omap (λ kr, f kr.1 kr.2) (map_to_list m)).
(** A query of a key or of a unique column answers the row there is. *)
Definition one_row (p : K → R → bool) m : option (K * R) := head (rows p m).

(** A row written under a key: the table's checks, its unique indexes, its foreign keys. *)
Definition written (check unique foreign : bool) (k : K) (r : R) m : result (gmap K R) :=
  if negb check then Err check_violation
  else if negb unique then Err unique_violation
  else if negb foreign then Err foreign_key_violation
  else Ok (<[k := r]> m).
End rows.

Definition order_by {A} (name : string → string → bool) (key : A → string) : list A → list A :=
  merge_sort (λ a b, Is_true (name (key a) (key b))).

(** ** The tables *)

(** The columns that bind a recorded console request, in the order of [definition.Binding]. *)
Record bound := mkBound {
  actor : string; operation : string; target : string; body_sha256 : string; operation_ref : string;
}.
Definition bound_of (b : Binding) : bound :=
  mkBound (Binding_Actor b) (Binding_Operation b) (Binding_Target b) (Binding_BodySHA256 b) (Binding_OperationRef b).
Record assigned := mkAssigned { assignment_operator : string; assignment_epoch : string }.
Definition assigned_of (b : Binding) : assigned :=
  mkAssigned (Assignment_Operator (Binding_Assignment b)) (Assignment_Epoch (Binding_Assignment b)).

Section tables.
Context `{DB : Database}.

Record profileRow := mkProfileRow { profile_settings : jsonb }.
Record templateRow := mkTemplateRow { template_profile_name : string; template_profile_version : Z; template_config : jsonb }.
Record publicationRow := mkPublicationRow {
  publication_bound : bound; publication_template_name : string; publication_template_version : Z;
}.
Record definitionRow := mkDefinitionRow {
  definition_organization : string; definition_profile_name : string; definition_profile_version : Z;
  definition_config : jsonb; definition_position : Z;
  definition_assignment_operator : option string; definition_assignment_epoch : option string;
}.
Record creationRow := mkCreationRow {
  creation_bound : bound; creation_controller : string; creation_template_name : string; creation_template_version : Z;
  creation_profile_name : string; creation_profile_version : Z; creation_state : string;
  creation_agent : option string; creation_epoch : option string; creation_reason : option string; creation_conflict : bool;
}.
Record requestRow := mkRequestRow {
  request_bound : bound; request_assigned : assigned; request_agent : string; request_outcome : string;
  request_revision : option Z;
}.
Record statusRow := mkStatusRow {
  observed_revision : Z; rendered_revision : Z; applied_revision : option Z; applied_activation_id : option string;
  applied_generation : option string; applied_observed_at : option Time;
}.
Record placementRow := mkPlacementRow {
  placement_controller : string; placement_epoch : string; placement_pvc_uid : string; placement_token_sha256 : string;
  placement_previous_pod_uid : string; placement_previous_writer_stopped_sha256 : string;
  placement_registered_at : Time; placement_revoked_at : option Time;
}.
Record activationRow := mkActivationRow {
  activation_epoch : string; activation_generation : string; activation_config_revision : Z;
  activation_placement_pod_uid : string; activation_replaces : string; activation_operation_ref : string;
  activation_id : option string;
}.
Record recoveryRow := mkRecoveryRow {
  recovery_key : RequestKey; recovery_bound : bound; recovery_assigned : assigned; recovery_epoch : string;
  recovery_stage : string; recovery_garam_body : option string; recovery_garam_body_sha256 : option string;
  recovery_lineage : option string; recovery_opened_at : Time;
}.
(** What a start records of itself. *)
Record startColumns := mkStart { start_request_id : string; start_bound : bound; start_assigned : assigned }.
Record stopRow := mkStopRow {
  stop_agent : string; stop_bound : bound; stop_assigned : assigned; stop_activation_id : option string;
  stop_stopped_at : Time; stop_deactivated_at : option Time; stop_start : option startColumns; stop_started_at : option Time;
}.
Record operatorRow := mkOperatorRow {
  operator_org_grn : string; operator_images : option jsonb; operator_reported_at : option Time;
  operator_last_contact_at : option Time;
}.

(** Each table under its primary key; [positions] is its one row. *)
Record tables := mkTables {
  position : Z;
  profiles : gmap (string * string * Z) profileRow;
  templates : gmap (string * string * Z) templateRow;
  publications : gmap RequestKey publicationRow;
  definitions : gmap (string * Z) definitionRow;
  creations : gmap RequestKey creationRow;
  requests : gmap RequestKey requestRow;
  agent_status : gmap string statusRow;
  placements : gmap (string * string) placementRow;
  activation_requests : gmap (string * string) activationRow;
  agent_activations : gmap string string;
  recoveries : gmap (string * string) recoveryRow;
  stops : gmap RequestKey stopRow;
  operators : gmap string operatorRow;
}.
(** The schema as migrated. *)
Definition schema : tables := mkTables 0 ∅ ∅ ∅ ∅ ∅ ∅ ∅ ∅ ∅ ∅ ∅ ∅ ∅.

(** One table replaced. *)
Definition set_position v t := mkTables v (profiles t) (templates t) (publications t) (definitions t) (creations t)
  (requests t) (agent_status t) (placements t) (activation_requests t) (agent_activations t) (recoveries t) (stops t)
  (operators t).
Definition set_profiles v t := mkTables (position t) v (templates t) (publications t) (definitions t) (creations t)
  (requests t) (agent_status t) (placements t) (activation_requests t) (agent_activations t) (recoveries t) (stops t)
  (operators t).
Definition set_templates v t := mkTables (position t) (profiles t) v (publications t) (definitions t) (creations t)
  (requests t) (agent_status t) (placements t) (activation_requests t) (agent_activations t) (recoveries t) (stops t)
  (operators t).
Definition set_publications v t := mkTables (position t) (profiles t) (templates t) v (definitions t) (creations t)
  (requests t) (agent_status t) (placements t) (activation_requests t) (agent_activations t) (recoveries t) (stops t)
  (operators t).
Definition set_definitions v t := mkTables (position t) (profiles t) (templates t) (publications t) v (creations t)
  (requests t) (agent_status t) (placements t) (activation_requests t) (agent_activations t) (recoveries t) (stops t)
  (operators t).
Definition set_creations v t := mkTables (position t) (profiles t) (templates t) (publications t) (definitions t) v
  (requests t) (agent_status t) (placements t) (activation_requests t) (agent_activations t) (recoveries t) (stops t)
  (operators t).
Definition set_requests v t := mkTables (position t) (profiles t) (templates t) (publications t) (definitions t)
  (creations t) v (agent_status t) (placements t) (activation_requests t) (agent_activations t) (recoveries t) (stops
    t) (operators t).
Definition set_agent_status v t := mkTables (position t) (profiles t) (templates t) (publications t) (definitions t)
  (creations t) (requests t) v (placements t) (activation_requests t) (agent_activations t) (recoveries t) (stops t)
  (operators t).
Definition set_placements v t := mkTables (position t) (profiles t) (templates t) (publications t) (definitions t)
  (creations t) (requests t) (agent_status t) v (activation_requests t) (agent_activations t) (recoveries t) (stops t)
  (operators t).
Definition set_activation_requests v t := mkTables (position t) (profiles t) (templates t) (publications t)
  (definitions t) (creations t) (requests t) (agent_status t) (placements t) v (agent_activations t) (recoveries t)
  (stops t) (operators t).
Definition set_agent_activations v t := mkTables (position t) (profiles t) (templates t) (publications t) (definitions
    t) (creations t) (requests t) (agent_status t) (placements t) (activation_requests t) v (recoveries t) (stops t)
  (operators t).
Definition set_recoveries v t := mkTables (position t) (profiles t) (templates t) (publications t) (definitions t)
  (creations t) (requests t) (agent_status t) (placements t) (activation_requests t) (agent_activations t) v (stops t)
  (operators t).
Definition set_stops v t := mkTables (position t) (profiles t) (templates t) (publications t) (definitions t)
  (creations t) (requests t) (agent_status t) (placements t) (activation_requests t) (agent_activations t) (recoveries
    t) v (operators t).
Definition set_operators v t := mkTables (position t) (profiles t) (templates t) (publications t) (definitions t)
  (creations t) (requests t) (agent_status t) (placements t) (activation_requests t) (agent_activations t) (recoveries
    t) (stops t) v.

(** ** The schema's constraints *)
Definition profile_published t organization name version : bool := bool_decide (is_Some (profiles t !! (organization, name, version))).
Definition template_published t organization name version : bool := bool_decide (is_Some (templates t !! (organization, name, version))).
Definition null {A} (x : option A) : bool := match x with None => true | Some _ => false end.

Definition creation_check (r : creationRow) : bool :=
  bool_decide (creation_state r ∈ ["pending"; "registered"; "failed"]) &&
  eqb (bool_decide (creation_state r = "registered")) (negb (null (creation_agent r)) && negb (null (creation_epoch r))) &&
  eqb (bool_decide (creation_state r = "failed")) (negb (null (creation_reason r))).
(** [creations_agent]: no other row of the agent. *)
Definition creations_agent t key (agent : option string) : bool :=
  match agent with
  | None => true
  | Some a => negb (exists_row (λ k r, negb (bool_decide (k = key)) && bool_decide (creation_agent r = Some a)) (creations t))
  end.
Definition request_check (r : requestRow) : bool :=
  bool_decide (request_outcome r ∈ ["applied"; "stale"]) &&
  eqb (bool_decide (request_outcome r = "applied")) (negb (null (request_revision r))).
Definition request_foreign t (r : requestRow) : bool :=
  match request_revision r with
  | None => true
  | Some revision => bool_decide (is_Some (definitions t !! (request_agent r, revision)))
  end.
Definition status_check (r : statusRow) : bool :=
  bool_decide (1 ≤ observed_revision r) && bool_decide (1 ≤ rendered_revision r) &&
  eqb (null (applied_revision r)) (null (applied_activation_id r)) &&
  eqb (null (applied_revision r)) (null (applied_generation r)) &&
  eqb (null (applied_revision r)) (null (applied_observed_at r)).
(** [placements_current]: no other current placement of the agent. *)
Definition placements_current t agent pod_uid : bool :=
  negb (exists_row (λ k r, bool_decide (k.1 = agent) && negb (bool_decide (k.2 = pod_uid)) && null (placement_revoked_at r))
    (placements t)).
Definition recovery_check (r : recoveryRow) : bool :=
  bool_decide (recovery_stage r ∈ ["requested"; "prepared"; "finalized"]) &&
  eqb (bool_decide (recovery_stage r = "requested")) (null (recovery_garam_body r)) &&
  eqb (null (recovery_garam_body r)) (null (recovery_garam_body_sha256 r)) &&
  eqb (bool_decide (recovery_stage r = "finalized")) (negb (null (recovery_lineage r))).
(** The console's key and [recoveries_open], among the other recoveries. *)
Definition recoveries_unique t k (r : recoveryRow) : bool :=
  negb (exists_row (λ k' r', negb (bool_decide (k' = k)) &&
    (bool_decide (recovery_key r' = recovery_key r) ||
      bool_decide (k'.1 = k.1) && negb (bool_decide (recovery_stage r = "finalized")) &&
      negb (bool_decide (recovery_stage r' = "finalized")))) (recoveries t)).
Definition stop_check (r : stopRow) : bool := eqb (null (stop_started_at r)) (null (stop_start r)).
(** [UNIQUE (organization, start_request_id)] and [stops_current], among the other stops. *)
Definition stops_unique t key (r : stopRow) : bool :=
  negb (exists_row (λ k' r', negb (bool_decide (k' = key)) &&
    (match stop_start r, stop_start r' with
    | Some s, Some s' => bool_decide (Key_Organization k' = Key_Organization key) &&
      bool_decide (start_request_id s' = start_request_id s)
    | _, _ => false
    end ||
      bool_decide (stop_agent r' = stop_agent r) && null (stop_started_at r) && null (stop_started_at r'))) (stops t)).
Definition operator_check (r : operatorRow) : bool := eqb (null (operator_images r)) (null (operator_reported_at r)).

(** ** The statements

A statement answers its rows, or the number of rows it wrote, and leaves the tables; one that violates a constraint
fails and leaves them as they were. [now] is its transaction's. A query of one row answers none as [None]. *)
Definition query (A : Type) : Type := Time → tables → result (A * tables).
Definition select {A} (f : tables → A) : query A := λ _ t, Ok (f t, t).
Definition read_json (raw : string) : result jsonb := match jsonb_in raw with Some j => Ok j | None => Err invalid_json end.

(** A table lock: held to the transaction's end, it keeps others out and changes nothing. *)
Definition lockProfiles : query Z := select (λ _, 0).
Definition lockTemplates : query Z := select (λ _, 0).

Definition profile_version (organization name : string) (k : string * string * Z) (_ : profileRow) : option Z :=
  if bool_decide (k.1 = (organization, name)) then Some k.2 else None.
Definition template_version (organization name : string) (k : string * string * Z) (_ : templateRow) : option Z :=
  if bool_decide (k.1 = (organization, name)) then Some k.2 else None.

Definition insertProfileVersion organization name version raw : query Z := λ _ t,
  settings ← read_json raw;
  ps ← written (bool_decide (1 ≤ version)) (null (profiles t !! (organization, name, version))) true
  (organization, name, version) (mkProfileRow settings) (profiles t);
  Ok (1, set_profiles ps t).
Definition latestProfileVersion organization name : query (option Z) :=
  select (λ t, Some (default 0 (max_of (profile_version organization name) (profiles t)))).
Definition publishProfile organization name raw : query (option Z) := λ now t,
  let version := default 0 (max_of (profile_version organization name) (profiles t)) + 1 in
  '(_, t) ← insertProfileVersion organization name version raw now t;
  Ok (Some version, t).
Definition getProfile organization name version : query (option string) :=
  select (λ t, jsonb_out ∘ profile_settings <$> profiles t !! (organization, name, version)).

Definition publishTemplate organization name profile_name profile_version raw : query (option Z) := λ _ t,
  config ← read_json raw;
  let version := default 0 (max_of (template_version organization name) (templates t)) + 1 in
  ts ← written (bool_decide (1 ≤ version)) (null (templates t !! (organization, name, version)))
  (profile_published t organization profile_name profile_version)
  (organization, name, version) (mkTemplateRow profile_name profile_version config) (templates t);
  Ok (Some version, set_templates ts t).
Definition getTemplate organization name version : query (option (string * Z * string)) :=
  select (λ t, (λ r, (template_profile_name r, template_profile_version r, jsonb_out (template_config r))) <$>
    templates t !! (organization, name, version)).
(** [DISTINCT ON (name) ... ORDER BY name, version DESC]: of each name, its last version. *)
Definition listTemplates organization : query (list (string * Z * (string * Z * string))) :=
  select (λ t, order_by collate (λ r, r.1.1)
    ((λ kr, (kr.1.1.2, kr.1.2,
      (template_profile_name kr.2, template_profile_version kr.2, jsonb_out (template_config kr.2)))) <$>
      rows (λ k _, bool_decide (k.1.1 = organization) &&
        bool_decide (max_of (template_version organization k.1.2) (templates t) = Some k.2)) (templates t))).
(** [ORDER BY name, version]. *)
Definition listed_le (a b : string * Z) : bool :=
  if bool_decide (a.1 = b.1) then bool_decide (a.2 ≤ b.2) else collate a.1 b.1.
Definition listProfiles organization : query (list (string * Z)) :=
  select (λ t, merge_sort (λ a b, Is_true (listed_le a b))
    ((λ kr, (kr.1.1.2, kr.1.2)) <$> rows (λ k _, bool_decide (k.1.1 = organization)) (profiles t))).

Definition getPublication organization request_id : query (option publicationRow) :=
  select (λ t, publications t !! mkRequestKey organization request_id).
Definition insertPublication organization request_id (b : bound) template_name template_version : query Z := λ _ t,
  let key := mkRequestKey organization request_id in
  ps ← written true (null (publications t !! key)) (template_published t organization template_name template_version)
  key (mkPublicationRow b template_name template_version) (publications t);
  Ok (1, set_publications ps t).

Definition getStatus agent : query (option (Z * Z * option Z)) :=
  select (λ t, (λ r, (observed_revision r, rendered_revision r, applied_revision r)) <$> agent_status t !! agent).

Definition definition_revision (agent : string) (k : string * Z) (_ : definitionRow) : option Z :=
  if bool_decide (k.1 = agent) then Some k.2 else None.
Definition latest_revision t agent : option Z := max_of (definition_revision agent) (definitions t).
(** A row of definitions written at the position the statement moved to: positions are unique. *)
Definition insert_definition agent revision (r : definitionRow) t : result tables :=
  ds ← written (bool_decide (1 ≤ revision) && eqb (null (definition_assignment_operator r)) (null (definition_assignment_epoch r)))
  (null (definitions t !! (agent, revision)) &&
    negb (exists_row (λ _ r', bool_decide (definition_position r' = definition_position r)) (definitions t)))
  (profile_published t (definition_organization r) (definition_profile_name r) (definition_profile_version r))
  (agent, revision) r (definitions t);
  Ok (set_definitions ds t).
(** The statement that moves the position is in its [WITH], which runs whether or not the row is inserted. *)
Definition appendDefinition agent organization revision profile_name profile_version raw operator epoch : query Z := λ _ t,
  config ← read_json raw;
  let next := position t + 1 in
  let moved := set_position next t in
  if bool_decide (latest_revision t agent = Some (revision - 1))
  then
  t ← insert_definition agent revision
  (mkDefinitionRow organization profile_name profile_version config next operator epoch) moved;
  Ok (1, t)
  else Ok (0, moved).
Definition insertFirstDefinition agent organization profile_name profile_version raw operator epoch : query Z := λ _ t,
  config ← read_json raw;
  let next := position t + 1 in
  t ← insert_definition agent 1
  (mkDefinitionRow organization profile_name profile_version config next operator epoch) (set_position next t);
  Ok (1, t).

Definition getPosition : query (option Z) := select (λ t, Some (position t)).
Definition movePosition : query Z := λ _ t, Ok (1, set_position (position t + 1) t).

(** A row of the feed: an agent's latest revision, with its profile's settings, whether a stop holds it and its open
recovery. *)
Record desiredRow := mkDesiredRow {
  desired_agent : string; desired_revision : Z; desired_definition : definitionRow; desired_config : string;
  desired_epoch : option string; desired_settings : string; desired_stopped : bool;
  desired_recovery : option (string * string);
}.
Definition open_recoveries t agent : list ((string * string) * recoveryRow) :=
  rows (λ k r, bool_decide (k.1 = agent) && negb (bool_decide (recovery_stage r = "finalized"))) (recoveries t).
Definition agent_stopped t agent : bool :=
  exists_row (λ _ r, bool_decide (stop_agent r = agent) && null (stop_started_at r)) (stops t).
(** The joins of one definition: of each open recovery, or none, and of the profile. *)
Definition desired_joined t (kr : (string * Z) * definitionRow) : list desiredRow :=
  let '((agent, revision), d) := kr in
  match profiles t !! (definition_organization d, definition_profile_name d, definition_profile_version d) with
  | None => []
  | Some p =>
    (λ r, mkDesiredRow agent revision d (jsonb_out (definition_config d)) (definition_assignment_epoch d)
      (jsonb_out (profile_settings p)) (agent_stopped t agent) r) <$>
    match open_recoveries t agent with [] => [None] | rs => (λ kr, Some (kr.1.2, recovery_epoch kr.2)) <$> rs end
  end.
Definition desired_position (r : desiredRow) : Z := definition_position (desired_definition r).
Definition desired operator (limit : Z) : query (list desiredRow) := λ _ t,
  if bool_decide (limit < 0) then Err invalid_limit
  else
  Ok (take (Z.to_nat limit) (merge_sort (λ a b, Is_true (bool_decide (desired_position a ≤ desired_position b)))
    (rows (λ k d, bool_decide (definition_assignment_operator d = Some operator) &&
      bool_decide (latest_revision t k.1 = Some k.2)) (definitions t) ≫= desired_joined t)), t).

Definition recordStatus agent observed rendered : query (option (Z * Z * option Z)) := λ _ t,
  let fresh := mkStatusRow observed rendered None None None None in
  let stored := match agent_status t !! agent with
  | None => fresh
  | Some r => mkStatusRow (observed_revision r `max` observed) (rendered_revision r `max` rendered) (applied_revision r)
    (applied_activation_id r) (applied_generation r) (applied_observed_at r)
  end in
  ss ← written (status_check fresh && status_check stored) true true agent stored (agent_status t);
  Ok (Some (observed_revision stored, rendered_revision stored, applied_revision stored), set_agent_status ss t).

Definition definitionExists agent organization : query (option bool) :=
  select (λ t, Some (exists_row (λ k r, bool_decide (k.1 = agent) && bool_decide (definition_organization r = organization))
    (definitions t))).
(** [ORDER BY revision DESC LIMIT 1]. *)
Definition getDefinition agent : query (option (string * Z * string * Z * string * option string * option string)) :=
  select (λ t, kr ← one_row (λ k _, bool_decide (k.1 = agent) && bool_decide (latest_revision t agent = Some k.2)) (definitions t);
    Some (definition_organization kr.2, kr.1.2, definition_profile_name kr.2, definition_profile_version kr.2,
      jsonb_out (definition_config kr.2), definition_assignment_operator kr.2, definition_assignment_epoch kr.2)).

(** *** Creations and requests *)

(** [ON CONFLICT DO NOTHING]: a row in the way leaves the table as it is. *)
Definition beginCreation organization request_id (b : bound) controller template_name template_version profile_name
  profile_version : query Z := λ _ t,
  let key := mkRequestKey organization request_id in
  match creations t !! key with
  | Some _ => Ok (0, t)
  | None =>
    let r := mkCreationRow b controller template_name template_version profile_name profile_version "pending" None None None false in
    cs ← written (creation_check r) (creations_agent t key None)
    (template_published t organization template_name template_version &&
      profile_published t organization profile_name profile_version) key r (creations t);
    Ok (1, set_creations cs t)
  end.
Definition getCreation organization request_id : query (option creationRow) :=
  select (λ t, creations t !! mkRequestKey organization request_id).
Definition lockCreation := getCreation.
(** A creation settled: its state, and the columns the state gives. *)
Definition creation_settled (r : creationRow) state agent epoch reason conflict : creationRow :=
  mkCreationRow (creation_bound r) (creation_controller r) (creation_template_name r) (creation_template_version r)
  (creation_profile_name r) (creation_profile_version r) state agent epoch reason conflict.
Definition registerCreation organization request_id agent epoch : query Z := λ _ t,
  let key := mkRequestKey organization request_id in
  match creations t !! key with
  | None => Ok (0, t)
  | Some r =>
    let r := creation_settled r "registered" (Some agent) (Some epoch) (creation_reason r) (creation_conflict r) in
    cs ← written (creation_check r) (creations_agent t key (Some agent)) true key r (creations t);
    Ok (1, set_creations cs t)
  end.
Definition failCreation organization request_id reason conflict : query Z := λ _ t,
  let key := mkRequestKey organization request_id in
  match creations t !! key with
  | None => Ok (0, t)
  | Some r =>
    if negb (bool_decide (creation_state r = "pending")) then Ok (0, t)
    else
    let r := creation_settled r "failed" (creation_agent r) (creation_epoch r) (Some reason) conflict in
    cs ← written (creation_check r) true true key r (creations t);
    Ok (1, set_creations cs t)
  end.
Definition creationOfAgent agent : query (option (string * string)) :=
  select (λ t, (λ kr, (Key_Organization kr.1, Key_RequestID kr.1)) <$>
    one_row (λ _ r, bool_decide (creation_agent r = Some agent) && bool_decide (creation_state r = "registered")) (creations t)).

Definition beginRequest organization request_id (b : bound) (a : assigned) agent : query Z := λ _ t,
  let key := mkRequestKey organization request_id in
  match requests t !! key with
  | Some _ => Ok (0, t)
  | None =>
    let r := mkRequestRow b a agent "stale" None in
    rs ← written (request_check r) true (request_foreign t r) key r (requests t);
    Ok (1, set_requests rs t)
  end.
Definition applyRequest organization request_id revision : query Z := λ _ t,
  let key := mkRequestKey organization request_id in
  match requests t !! key with
  | None => Ok (0, t)
  | Some r =>
    let r := mkRequestRow (request_bound r) (request_assigned r) (request_agent r) "applied" (Some revision) in
    rs ← written (request_check r) true (request_foreign t r) key r (requests t);
    Ok (1, set_requests rs t)
  end.
Definition getRequest organization request_id : query (option requestRow) :=
  select (λ t, requests t !! mkRequestKey organization request_id).
Definition configureReference agent revision : query (option string) :=
  select (λ t, (λ kr, operation_ref (request_bound kr.2)) <$>
    any_row (rows (λ _ r, bool_decide (request_agent r = agent) && bool_decide (request_revision r = Some revision) &&
      bool_decide (request_outcome r = "applied")) (requests t))).

(** *** Placements and activations *)
Definition lockCurrentPlacement agent : query (option ((string * string) * placementRow)) :=
  select (λ t, one_row (λ k r, bool_decide (k.1 = agent) && null (placement_revoked_at r)) (placements t)).
Definition currentPlacement := lockCurrentPlacement.
Definition lockPodPlacement agent pod_uid : query (option ((string * string) * placementRow)) :=
  select (λ t, (λ r, ((agent, pod_uid), r)) <$> placements t !! (agent, pod_uid)).
Definition placement_revoked (now : Time) (r : placementRow) : placementRow :=
  mkPlacementRow (placement_controller r) (placement_epoch r) (placement_pvc_uid r) (placement_token_sha256 r)
  (placement_previous_pod_uid r) (placement_previous_writer_stopped_sha256 r) (placement_registered_at r) (Some now).
Definition revokePlacement agent : query Z := λ now t,
  let current k r := bool_decide (k.1 = agent) && null (placement_revoked_at r) in
  Ok (Z.of_nat (length (rows current (placements t))),
    set_placements (map_imap (λ k r, Some (if current k r then placement_revoked now r else r)) (placements t)) t).
Definition insertPlacement agent pod_uid controller epoch pvc_uid token_sha256 previous_pod_uid
  previous_writer_stopped_sha256 : query Z := λ now t,
  ps ← written true (null (placements t !! (agent, pod_uid)) && placements_current t agent pod_uid) true
  (agent, pod_uid) (mkPlacementRow controller epoch pvc_uid token_sha256 previous_pod_uid
    previous_writer_stopped_sha256 now None) (placements t);
  Ok (1, set_placements ps t).

(** A row in the way is updated to itself, so that it is the row returned. *)
Definition insertActivation agent request_id epoch generation config_revision placement_pod_uid replaces_activation_id
  operation_ref : query (option activationRow) := λ _ t,
  let fresh := mkActivationRow epoch generation config_revision placement_pod_uid replaces_activation_id operation_ref None in
  let stored := default fresh (activation_requests t !! (agent, request_id)) in
  ars ← written (bool_decide (1 ≤ config_revision)) true true (agent, request_id) stored (activation_requests t);
  Ok (Some stored, set_activation_requests ars t).
Definition getActivation agent request_id : query (option activationRow) :=
  select (λ t, activation_requests t !! (agent, request_id)).
Definition recordActivation agent request_id id : query Z := λ _ t,
  match activation_requests t !! (agent, request_id) with
  | None => Ok (0, t)
  | Some r =>
    if negb (null (activation_id r)) && negb (bool_decide (activation_id r = Some id)) then Ok (0, t)
    else
    let r := mkActivationRow (activation_epoch r) (activation_generation r) (activation_config_revision r)
    (activation_placement_pod_uid r) (activation_replaces r) (activation_operation_ref r) (Some id) in
    Ok (1, set_activation_requests (<[(agent, request_id) := r]> (activation_requests t)) t)
  end.
Definition recordLatestActivation agent id : query Z := λ _ t,
  Ok (1, set_agent_activations (<[agent := id]> (agent_activations t)) t).
Definition latestActivation agent : query (option string) := select (λ t, agent_activations t !! agent).
(** [LIMIT 1], in no order. *)
Definition activationOfGeneration agent generation : query (option string) :=
  select (λ t, kr ← any_row (rows (λ k r, bool_decide (k.1 = agent) && bool_decide (activation_generation r = generation) &&
    negb (null (activation_id r))) (activation_requests t));
    activation_id kr.2).

Definition recordRuntimeApplied agent revision id generation (observed_at : Time) : query Z := λ _ t,
  let at_ := timestamptz observed_at in
  let fresh := mkStatusRow revision revision (Some revision) (Some id) (Some generation) (Some at_) in
  let stored := match agent_status t !! agent with
  | None => fresh
  | Some r => mkStatusRow (observed_revision r) (rendered_revision r) (Some revision) (Some id) (Some generation) (Some at_)
  end in
  ss ← written (status_check fresh && status_check stored) true true agent stored (agent_status t);
  Ok (1, set_agent_status ss t).
Definition getRuntimeApplied agent : query (option (Z * string * string * Time)) :=
  select (λ t, r ← agent_status t !! agent;
    revision ← applied_revision r; id ← applied_activation_id r; generation ← applied_generation r;
    at_ ← applied_observed_at r; Some (revision, id, generation, at_)).

(** *** Recoveries, stops and operators *)

(** A recovery as its columns are read: its primary key, and the row. *)
Definition recoveryColumns : Type := (string * string) * recoveryRow.
Definition insertRecovery agent recovery_request_id key (b : bound) (a : assigned) epoch : query Z := λ now t,
  let k := (agent, recovery_request_id) in
  let r := mkRecoveryRow key b a epoch "requested" None None None now in
  if negb (null (recoveries t !! k) && recoveries_unique t k r) then Ok (0, t)
  else
  rs ← written (recovery_check r) true true k r (recoveries t);
  Ok (1, set_recoveries rs t).
Definition getRecoveryByKey key : query (option recoveryColumns) :=
  select (λ t, one_row (λ _ r, bool_decide (recovery_key r = key)) (recoveries t)).
(** [ORDER BY stage <> 'finalized' DESC, opened_at DESC LIMIT 1]: an open one, else one opened last. *)
Definition later_recovery (a b : recoveryColumns) : bool :=
  let finalized r := bool_decide (recovery_stage r.2 = "finalized") in
  if finalized a then finalized b && bool_decide (recovery_opened_at b.2 ≤ recovery_opened_at a.2)
  else finalized b || bool_decide (recovery_opened_at b.2 ≤ recovery_opened_at a.2).
Definition latestRecovery agent : query (option recoveryColumns) :=
  select (λ t, head (merge_sort (λ a b, Is_true (later_recovery a b)) (rows (λ k _, bool_decide (k.1 = agent)) (recoveries t)))).
Definition getRecovery agent recovery_request_id : query (option recoveryColumns) :=
  select (λ t, (λ r, ((agent, recovery_request_id), r)) <$> recoveries t !! (agent, recovery_request_id)).
Definition lockRecovery := getRecovery.
Definition update_recovery agent recovery_request_id stage (f : recoveryRow → recoveryRow) : query Z := λ _ t,
  let k := (agent, recovery_request_id) in
  match recoveries t !! k with
  | None => Ok (0, t)
  | Some r =>
    if negb (bool_decide (recovery_stage r = stage)) then Ok (0, t)
    else
    rs ← written (recovery_check (f r)) (recoveries_unique t k (f r)) true k (f r) (recoveries t);
    Ok (1, set_recoveries rs t)
  end.
Definition prepareRecovery agent recovery_request_id garam_body garam_body_sha256 : query Z :=
  update_recovery agent recovery_request_id "requested" (λ r,
    mkRecoveryRow (recovery_key r) (recovery_bound r) (recovery_assigned r) (recovery_epoch r) "prepared" (Some garam_body)
    (Some garam_body_sha256) (recovery_lineage r) (recovery_opened_at r)).
Definition finalizeRecovery agent recovery_request_id lineage : query Z :=
  update_recovery agent recovery_request_id "prepared" (λ r,
    mkRecoveryRow (recovery_key r) (recovery_bound r) (recovery_assigned r) (recovery_epoch r) "finalized"
    (recovery_garam_body r) (recovery_garam_body_sha256 r) (Some lineage) (recovery_opened_at r)).

Definition stopColumns : Type := RequestKey * stopRow.
Definition insertStop key agent (b : bound) (a : assigned) activation_id : query Z := λ now t,
  let r := mkStopRow agent b a (if bool_decide (activation_id = "") then None else Some activation_id) now None None None in
  if negb (null (stops t !! key) && stops_unique t key r) then Ok (0, t)
  else
  ss ← written (stop_check r) true true key r (stops t);
  Ok (1, set_stops ss t).
Definition getStopByKey key : query (option stopColumns) := select (λ t, (λ r, (key, r)) <$> stops t !! key).
Definition getStopByStartKey organization start_id : query (option stopColumns) :=
  select (λ t, one_row (λ k r, bool_decide (Key_Organization k = organization) &&
    match stop_start r with Some s => bool_decide (start_request_id s = start_id) | None => false end) (stops t)).
Definition currentStop agent : query (option stopColumns) :=
  select (λ t, one_row (λ _ r, bool_decide (stop_agent r = agent) && null (stop_started_at r)) (stops t)).
Definition lockCurrentStop := currentStop.
Definition recordDeactivation key : query Z := λ now t,
  match stops t !! key with
  | None => Ok (0, t)
  | Some r =>
    let r := mkStopRow (stop_agent r) (stop_bound r) (stop_assigned r) (stop_activation_id r) (stop_stopped_at r)
    (Some (default now (stop_deactivated_at r))) (stop_start r) (stop_started_at r) in
    Ok (1, set_stops (<[key := r]> (stops t)) t)
  end.
Definition recordStart key start_id (b : bound) (a : assigned) : query Z := λ now t,
  match stops t !! key with
  | None => Ok (0, t)
  | Some r =>
    if negb (null (stop_started_at r)) then Ok (0, t)
    else
    let r := mkStopRow (stop_agent r) (stop_bound r) (stop_assigned r) (stop_activation_id r) (stop_stopped_at r)
    (stop_deactivated_at r) (Some (mkStart start_id b a)) (Some now) in
    ss ← written (stop_check r) (stops_unique t key r) true key r (stops t);
    Ok (1, set_stops ss t)
  end.

(** [GREATEST], which passes over NULL. *)
Definition greatest (stored : option Time) (x : Time) : Time := match stored with Some y => y `max` x | None => x end.
Definition recordOperatorContact grn org_grn (at_ : Time) : query Z := λ _ t,
  let at_ := timestamptz at_ in
  let stored := match operators t !! grn with
  | None => mkOperatorRow org_grn None None (Some at_)
  | Some r => mkOperatorRow org_grn (operator_images r) (operator_reported_at r)
    (Some (greatest (operator_last_contact_at r) at_))
  end in
  os ← written (operator_check stored) true true grn stored (operators t);
  Ok (1, set_operators os t).
(** An older report changes nothing of the row it meets. *)
Definition reportOperatorImages grn org_grn raw (at_ : Time) : query Z := λ _ t,
  images ← read_json raw;
  let at_ := timestamptz at_ in
  match operators t !! grn with
  | None =>
    let r := mkOperatorRow org_grn (Some images) (Some at_) None in
    os ← written (operator_check r) true true grn r (operators t);
    Ok (1, set_operators os t)
  | Some r =>
    if match operator_reported_at r with None => true | Some last => bool_decide (last ≤ at_) end
    then
    let r := mkOperatorRow org_grn (Some images) (Some at_) (operator_last_contact_at r) in
    os ← written (operator_check r) true true grn r (operators t);
    Ok (1, set_operators os t)
    else Ok (0, t)
  end.
Definition listOperators org_grn : query (list (string * option string * option Time * option Time)) :=
  select (λ t, order_by collate (λ r, r.1.1.1)
    ((λ kr, (kr.1, jsonb_out <$> operator_images kr.2, operator_reported_at kr.2, operator_last_contact_at kr.2)) <$>
      rows (λ _ r, bool_decide (operator_org_grn r = org_grn)) (operators t))).

(** ** Transactions *)

(** What a session is asked: a statement, and the transaction's bounds. A [Begin] within a transaction is a savepoint. *)
Inductive sqlE : Type → Type :=
| Acquire : sqlE (result ())
| Release : sqlE ()
| Begin : sqlE (result ())
| Commit : sqlE (result ())
| Rollback : sqlE (result ())
| Statement {A} (q : query A) : sqlE (result A).

(** The statements that take a session's advisory lock, by its number, and give it back: they read and write no table. *)
Inductive advisoryE : Type → Type :=
| AdvisoryLock (key : Z) : advisoryE (result ())
| AdvisoryUnlock (key : Z) : advisoryE (result ()).

(** The database: the tables committed; the transaction's own and its savepoints', innermost first, [None] where a
statement failed since; and how many transactions there were. *)
Record database := mkDatabase { committed : tables; open_ : list (option tables); ticks : nat }.
Definition new_database : database := mkDatabase schema [] 0.

Definition visible (s : database) : option tables := match open_ s with [] => Some (committed s) | t :: _ => t end.
(** A statement outside a transaction is one of its own. *)
Definition execute {A} (q : query A) (s : database) : result A * database :=
  match open_ s with
  | [] =>
    let n := S (ticks s) in
    match q (now_of n) (committed s) with
    | Ok (a, t) => (Ok a, mkDatabase t [] n)
    | Err err => (Err err, mkDatabase (committed s) [] n)
    end
  | None :: _ => (Err transaction_aborted, s)
  | Some t :: outer =>
    match q (now_of (ticks s)) t with
    | Ok (a, t) => (Ok a, mkDatabase (committed s) (Some t :: outer) (ticks s))
    | Err err => (Err err, mkDatabase (committed s) (None :: outer) (ticks s))
    end
  end.
Definition begin_ (s : database) : result () * database :=
  match visible s with
  | None => (Err transaction_aborted, s)
  | Some t => (Ok tt, mkDatabase (committed s) (Some t :: open_ s) (match open_ s with [] => S (ticks s) | _ => ticks s end))
  end.
Definition rolled_back (s : database) : database := mkDatabase (committed s) (tail (open_ s)) (ticks s).
Definition commit (s : database) : result () * database :=
  match open_ s with
  | [] | None :: _ => (Err transaction_aborted, rolled_back s)
  | [Some t] => (Ok tt, mkDatabase t [] (ticks s))
  | Some t :: _ :: outer => (Ok tt, mkDatabase (committed s) (Some t :: outer) (ticks s))
  end.

(** The database answering, with nothing refused but what its constraints refuse. *)
Definition serve : handler sqlE database := λ X e,
  match e in sqlE X return database → X * database with
  | Acquire => λ s, (Ok tt, s)
  | Release => λ s, (tt, s)
  | Begin => begin_
  | Commit => commit
  | Rollback => λ s, (Ok tt, rolled_back s)
  | Statement q => execute q
  end.

(** An error of the driver's own: a connection lost, a time-out, a refused value. It is no domain error, no missing row
and no violation of a key. *)
Definition driver_error (err : error) : Prop :=
  (∀ s, errors_is err s = false) ∧ sqlstate err ≠ Some uniqueViolation ∧ may_fail.

(** The innermost transaction given up with its connection: the one around it cannot go on. *)
Definition fail_open (open : list (option tables)) : list (option tables) :=
  match open with [] => [] | _ :: outer => None :: outer end.
Definition broken_off (s : database) : database := mkDatabase (committed s) (fail_open (tail (open_ s))) (ticks s).

(** A call's end: as the database serves it, or failed by the driver. A statement or a commit that failed so may have
taken effect, unless its transaction goes on. *)
Definition refused {A} (left_ : database → Prop) (x : result A) (s : database) : Prop :=
  ∃ err, driver_error err ∧ x = Err err ∧ left_ s.
Definition answers (s : database) X (e : sqlE X) : X → database → Prop :=
  match e in sqlE X return X → database → Prop with
  | Acquire => λ x s', (x, s') = (Ok tt, s) ∨ refused (λ s', s' = s) x s'
  | Release => λ _ s', s' = s
  | Begin => λ x s', (x, s') = begin_ s ∨ refused (λ s', s' = s) x s'
  | Commit => λ x s', (x, s') = commit s ∨
    refused (λ s', s' = broken_off s ∨ ∃ t, open_ s = [Some t] ∧ s' = mkDatabase t [] (ticks s)) x s'
  | Rollback => λ x s', (x, s') = (Ok tt, rolled_back s) ∨ refused (λ s', s' = broken_off s) x s'
  | Statement q => λ x s', (x, s') = execute q s ∨
    refused (λ s', s' = mkDatabase (committed s) (fail_open (open_ s)) (ticks s) ∨
      open_ s = [] ∧ s' = (execute q s).2) x s'
  end.

(** The server the sessions are on: the database, and the advisory locks its sessions hold. A lock another session holds
is waited for: while it is held the statement has no answer, but for the one a driver gives up with. The session of
a statement the driver fails may be gone, and what it held with it. *)
Record server := mkServer { data : database; advisory : gset Z }.
Definition new_server : server := mkServer new_database ∅.
Definition server_answers (s : server) X (e : (sqlE +' advisoryE) X) : X → server → Prop :=
  match e in sumE _ _ _ return X → server → Prop with
  | InL e => λ x s', answers (data s) _ e x (data s') ∧ advisory s' = advisory s
  | InR e =>
    match e in advisoryE X return X → server → Prop with
    | AdvisoryLock key => λ x s',
      x = Ok tt ∧ key ∉ advisory s ∧ s' = mkServer (data s) ({[key]} ∪ advisory s) ∨
      ∃ err, driver_error err ∧ x = Err err ∧ s' = s
    | AdvisoryUnlock key => λ x s',
      x = Ok tt ∧ s' = mkServer (data s) (advisory s ∖ {[key]}) ∨
      ∃ err, driver_error err ∧ x = Err err ∧ (s' = s ∨ s' = mkServer (data s) (advisory s ∖ {[key]}))
    end
  end.
End tables.
End Sql.
