(* ===== verification/Postgres.v ===== *)
(** The repository in the control service's PostgreSQL database ([src/internal/definition/repository/postgres.go],
    [postgres_lifecycle.go], [postgres_operators.go]): the columns each value is stored in and read from, each method
    as a program of statements and transactions, and the agent's lock on a session of its own. *)
From S2P Require Import Prelude GoStd Json JsonText Errors Types Validation Repository Distribution Sql.
Import GoStd Json JsonText Distribution Validation Sql.

Module Postgres.

(** ** The JSON columns *)

(** How Kubernetes reads a quantity. *)
Class QuantityJSON `{K8s : Kubernetes} := into_quantity : into Quantity.

Record embeddingColumn := mkEmbeddingColumn {
  embeddingColumn_BaseURL : string; embeddingColumn_Name : string; embeddingColumn_APIKeyRef : string;
}.
Record configColumn := mkConfigColumn {
  configColumn_Provider : string; configColumn_BaseURL : string; configColumn_ModelName : string;
  configColumn_APIKeyRef : string; configColumn_Ego : string; configColumn_Tools : gmap string string;
  configColumn_Embedding : option embeddingColumn;
}.
Definition embeddingColumn_json (e : embeddingColumn) : json :=
  JObject [("baseURL", JString (embeddingColumn_BaseURL e)); ("name", JString (embeddingColumn_Name e));
           ("apiKeyRef", JString (embeddingColumn_APIKeyRef e))].
Definition configColumn_json (c : configColumn) : json :=
  JObject ([("provider", JString (configColumn_Provider c)); ("baseURL", JString (configColumn_BaseURL c));
            ("modelName", JString (configColumn_ModelName c)); ("apiKeyRef", JString (configColumn_APIKeyRef c));
            ("ego", JString (configColumn_Ego c)); ("tools", string_map_json (configColumn_Tools c))] ++
           optional "embedding" (embeddingColumn_json <$> configColumn_Embedding c)).
Definition embeddingColumn_fields : list (field embeddingColumn) := [
  at_field "baseURL" into_string embeddingColumn_BaseURL (λ c v, mkEmbeddingColumn v (embeddingColumn_Name c) (embeddingColumn_APIKeyRef c));
  at_field "name" into_string embeddingColumn_Name (λ c v, mkEmbeddingColumn (embeddingColumn_BaseURL c) v (embeddingColumn_APIKeyRef c));
  at_field "apiKeyRef" into_string embeddingColumn_APIKeyRef (λ c v, mkEmbeddingColumn (embeddingColumn_BaseURL c) (embeddingColumn_Name c) v)].
Definition configColumn_fields : list (field configColumn) := [
  at_field "provider" into_string configColumn_Provider (λ c v, mkConfigColumn v (configColumn_BaseURL c)
    (configColumn_ModelName c) (configColumn_APIKeyRef c) (configColumn_Ego c) (configColumn_Tools c) (configColumn_Embedding c));
  at_field "baseURL" into_string configColumn_BaseURL (λ c v, mkConfigColumn (configColumn_Provider c) v
    (configColumn_ModelName c) (configColumn_APIKeyRef c) (configColumn_Ego c) (configColumn_Tools c) (configColumn_Embedding c));
  at_field "modelName" into_string configColumn_ModelName (λ c v, mkConfigColumn (configColumn_Provider c)
    (configColumn_BaseURL c) v (configColumn_APIKeyRef c) (configColumn_Ego c) (configColumn_Tools c) (configColumn_Embedding c));
  at_field "apiKeyRef" into_string configColumn_APIKeyRef (λ c v, mkConfigColumn (configColumn_Provider c)
    (configColumn_BaseURL c) (configColumn_ModelName c) v (configColumn_Ego c) (configColumn_Tools c) (configColumn_Embedding c));
  at_field "ego" into_string configColumn_Ego (λ c v, mkConfigColumn (configColumn_Provider c) (configColumn_BaseURL c)
    (configColumn_ModelName c) (configColumn_APIKeyRef c) v (configColumn_Tools c) (configColumn_Embedding c));
  at_field "tools" into_map configColumn_Tools (λ c v, mkConfigColumn (configColumn_Provider c) (configColumn_BaseURL c)
    (configColumn_ModelName c) (configColumn_APIKeyRef c) (configColumn_Ego c) v (configColumn_Embedding c));
  at_field "embedding" (into_pointer (mkEmbeddingColumn "" "" "") (into_struct false embeddingColumn_fields))
    configColumn_Embedding (λ c v, mkConfigColumn (configColumn_Provider c) (configColumn_BaseURL c)
    (configColumn_ModelName c) (configColumn_APIKeyRef c) (configColumn_Ego c) (configColumn_Tools c) v)].

Definition column_of (c : Configuration) : configColumn :=
  let m := Configuration_Model c in
  mkConfigColumn (Model_Provider m) (Model_BaseURL m) (Model_Name m) (Model_APIKey m) (Configuration_Ego c)
    (Configuration_Tools c)
    ((λ e, mkEmbeddingColumn (Embedding_BaseURL e) (Embedding_Name e) (Embedding_APIKey e)) <$> Model_Embedding m).
Definition configuration_of (c : configColumn) : Configuration :=
  mkConfiguration (mkModel (configColumn_Provider c) (configColumn_BaseURL c) (configColumn_ModelName c)
    (configColumn_APIKeyRef c)
    ((λ e, mkEmbedding (embeddingColumn_BaseURL e) (embeddingColumn_Name e) (embeddingColumn_APIKeyRef e)) <$>
     configColumn_Embedding c)) (configColumn_Ego c) (configColumn_Tools c).
(** Printing a column never fails. *)
Definition encodeConfig (c : Configuration) : string := Marshal (configColumn_json (column_of c)).
Definition zeroConfigColumn : configColumn := mkConfigColumn "" "" "" "" "" ∅ None.

(** An image as stored, which is the image: its members and how each is read. *)
Definition imageColumn_json (i : OperatorImage) : json :=
  JObject ([("name", JString (OperatorImage_Name i)); ("ref", JString (OperatorImage_Ref i))] ++
           optional "digest" (JString <$> OperatorImage_Digest i)).
Definition imageColumn_fields : list (field OperatorImage) := [
  at_field "name" into_string OperatorImage_Name (λ i v, mkOperatorImage v (OperatorImage_Ref i) (OperatorImage_Digest i));
  at_field "ref" into_string OperatorImage_Ref (λ i v, mkOperatorImage (OperatorImage_Name i) v (OperatorImage_Digest i));
  at_field "digest" (into_pointer "" into_string) OperatorImage_Digest
    (λ i v, mkOperatorImage (OperatorImage_Name i) (OperatorImage_Ref i) v)].
Definition into_images : into (list OperatorImage) :=
  into_slice (mkOperatorImage "" "" None) (into_struct false imageColumn_fields).

Section settings.
Context `{K8s : Kubernetes, RJ : !ResourcesJSON, QJ : !QuantityJSON}.

(** [settingsColumn]: settings as stored, with the names of its members. *)
Definition settingsColumn_json (s : ExecutionSettings) : json :=
  JObject ([("resources", resources_json (Settings_Resources s));
    ("storageSize", JString (Quantity_String (Settings_StorageSize s)))] ++
    optional "storageClassName" (JString <$> Settings_StorageClassName s) ++
    optional "workspaceStorageSize" ((λ q, JString (Quantity_String q)) <$> Settings_WorkspaceStorageSize s)).
Definition settingsColumn_fields : list (field ExecutionSettings) := [
    at_field "resources" into_resources Settings_Resources (λ s v, mkExecutionSettings v (Settings_StorageSize s)
      (Settings_StorageClassName s) (Settings_WorkspaceStorageSize s));
    at_field "storageSize" into_quantity Settings_StorageSize (λ s v, mkExecutionSettings (Settings_Resources s) v
      (Settings_StorageClassName s) (Settings_WorkspaceStorageSize s));
    at_field "storageClassName" (into_pointer "" into_string) Settings_StorageClassName (λ s v,
      mkExecutionSettings (Settings_Resources s) (Settings_StorageSize s) v (Settings_WorkspaceStorageSize s));
    at_field "workspaceStorageSize" (into_pointer Quantity_zero into_quantity) Settings_WorkspaceStorageSize (λ s v,
      mkExecutionSettings (Settings_Resources s) (Settings_StorageSize s) (Settings_StorageClassName s) v)].
Definition zeroSettings : ExecutionSettings := mkExecutionSettings (mkResourceRequirements ∅ ∅ []) Quantity_zero None None.
Definition encodeSettings (s : ExecutionSettings) : string := Marshal (settingsColumn_json s).
Definition decodeSettings (raw : string) : option ExecutionSettings :=
  Unmarshal (into_struct false settingsColumn_fields) zeroSettings raw.
End settings.

(** ** Errors *)

(** A domain sentinel passes; any other error, the driver's included, is opaque to the caller. *)
Definition storeError (op : string) (err : error) : error :=
  if errors_is err ErrNotFound || errors_is err ErrStaleRevision || errors_is err ErrProfileVersionConflict ||
     errors_is err ErrProfileVersionGap then err
  else Errorf (op +:+ ": " +:+ error_text err).
Definition notFound (op : string) (err : error) : error :=
  if errors_is err ErrNoRows then ErrNotFound else storeError op err.
Definition lifecycleError (op : string) (err : error) : error :=
  if existsb (errors_is err) [ErrRecoveryOpen; ErrRecoveryStage; ErrRecoveryEpoch; ErrRequestReused; ErrAgentStopped;
                              ErrAgentNotStopped]
  then err else storeError op err.
Definition isUniqueViolation (err : error) : bool :=
  match sqlstate err with
  | Some code => bool_decide (code = uniqueViolation)
  | None => false
  end.
Definition isPlacementRefusal (err : error) : bool :=
  errors_is err ErrPlacementSuperseded || errors_is err ErrPreviousMismatch || errors_is err ErrEvidenceMissing ||
  errors_is err ErrPlacementConflict.

(** ** Reading a row *)
Definition assignmentColumns (a : option Assignment) : option string * option string :=
  match a with None => (None, None) | Some a => (Some (Assignment_Operator a), Some (Assignment_Epoch a)) end.
Definition assignmentOf (operator epoch : option string) : option Assignment :=
  match operator, epoch with Some operator, Some epoch => Some (mkAssignment operator epoch) | _, _ => None end.
Definition binding_of (b : bound) (a : assigned) : Binding :=
  mkBinding (actor b) (Sql.operation b) (target b) (body_sha256 b) (operation_ref b)
    (mkAssignment (assignment_operator a) (assignment_epoch a)).
(** Read without the assignment's columns. *)
Definition unassigned : assigned := mkAssigned "" "".

Definition scanRequest (row : result requestRow) (key : RequestKey) : result Request :=
  match row with
  | Err err => Err (notFound "get request" err)
  | Ok r =>
      let request := mkRequest key (binding_of (request_bound r) (request_assigned r)) (request_agent r) in
      match request_revision r with
      | Some revision => if bool_decide (request_outcome r = "applied") then Ok (request (Applied revision))
                         else if bool_decide (request_outcome r = "stale") then Ok (request Stale)
                         else Err (Errorf ("request in outcome " +:+ quote (request_outcome r) +:+ " violates the schema's checks"))
      | None => if bool_decide (request_outcome r = "stale") then Ok (request Stale)
                else Err (Errorf ("request in outcome " +:+ quote (request_outcome r) +:+ " violates the schema's checks"))
      end
  end.

Definition creation_outcome_of (r : creationRow) : option Outcome :=
  if bool_decide (creation_state r = "pending") then Some Pending
  else match bool_decide (creation_state r = "registered"), creation_agent r, creation_epoch r with
  | true, Some agent, Some epoch => Some (RegisteredAs (mkRegistered agent epoch))
  | _, _, _ =>
      match bool_decide (creation_state r = "failed"), creation_reason r with
      | true, Some reason => Some (Failed reason (creation_conflict r))
      | _, _ => None
      end
  end.
Definition scanCreation (row : result creationRow) (key : RequestKey) : result Creation :=
  match row with
  | Err err => Err (notFound "get creation" err)
  | Ok r =>
      match creation_outcome_of r with
      | Some outcome =>
          Ok (mkCreation key (binding_of (creation_bound r) unassigned) (creation_controller r)
            (mkTemplateRef (creation_template_name r) (creation_template_version r))
            (mkProfileRef (creation_profile_name r) (creation_profile_version r)) outcome)
      | None => Err (Errorf ("creation in state " +:+ quote (creation_state r) +:+ " violates the schema's checks"))
      end
  end.

(** No placement where there is no row. *)
Definition scanPlacement (row : result ((string * string) * placementRow)) (agent : GRN) : result (option Placement) :=
  match row with
  | Err err => if errors_is err ErrNoRows then Ok None else Err err
  | Ok ((_, pod_uid), r) =>
      Ok (Some (mkPlacement agent (placement_controller r)
        (mkPlacementRequest pod_uid (placement_pvc_uid r) (placement_epoch r) (placement_token_sha256 r)
          (mkPrevious (placement_previous_pod_uid r) (placement_previous_writer_stopped_sha256 r)))
        (negb (null (placement_revoked_at r)))))
  end.

Definition scanActivation (row : result (string * activationRow)) (agent : GRN) : result Activation :=
  match row with
  | Err err => Err err
  | Ok (request_id, r) =>
      Ok (mkActivation agent (mkActivationRequest request_id (activation_epoch r) (activation_generation r)
        (activation_config_revision r) (activation_placement_pod_uid r)) (activation_replaces r) (activation_operation_ref r)
        (default "" (activation_id r)))
  end.

(** A stage is its text. *)
Definition stage_of (text : string) : RecoveryStage :=
  if bool_decide (text = "finalized") then RecoveryFinalized
  else if bool_decide (text = "prepared") then RecoveryPrepared else RecoveryRequested.
Definition scanRecovery (row : result recoveryColumns) : result Recovery :=
  match row with
  | Err err => Err err
  | Ok ((agent, request_id), r) =>
      Ok (mkRecovery agent request_id (recovery_key r) (binding_of (recovery_bound r) (recovery_assigned r))
        (recovery_epoch r) (stage_of (recovery_stage r)) (default "" (recovery_garam_body r))
        (mkRecovered <$> recovery_lineage r))
  end.

Definition scanStop (row : result stopColumns) : result Stop :=
  match row with
  | Err err => Err err
  | Ok (key, r) =>
      Ok (mkStop (stop_agent r) key (binding_of (stop_bound r) (stop_assigned r)) (default "" (stop_activation_id r))
        (negb (null (stop_deactivated_at r)))
        ((λ s, mkStopEnd (mkRequestKey (Key_Organization key) (start_request_id s))
                 (binding_of (start_bound s) (start_assigned s))) <$> stop_start r))
  end.

(** ** The methods *)
Section postgres.
Context `{K8s : Kubernetes, RJ : !ResourcesJSON, QJ : !QuantityJSON, SE : !SemanticEquality, DB : Database}.
Context {E : Type → Type} `{!SubEvent sqlE E}.
(** What the JSON decoder says of a text it refuses. *)
Context (malformed : string → string).

(** A statement run for its effect, for its rows, and for its row. *)
Definition exec {A} (q : query A) : prog E (result A) := call (Statement q).
Definition query_row {A} (q : query (option A)) : prog E (result A) :=
  answered ← call (Statement q);
  mret match answered with Ok (Some row) => Ok row | Ok None => Err ErrNoRows | Err err => Err err end.

(** [pgx.BeginFunc]: [fn] in a transaction, or a savepoint of the one it is called in, committed where it ends well and
rolled back where it does not. *)
Definition BeginFunc {A} (fn : prog E (result A)) : prog E (result A) :=
  _ ←? call Begin;
  ended ← fn;
  match ended with
  | Err err => _ ← call Rollback; mret (Err err)
  | Ok a => _ ←? call Commit; mret (Ok a)
  end.
Definition inTx {A} (fn : prog E (result A)) : prog E (result A) := BeginFunc fn.

Definition decodeConfig (raw : string) : result Configuration :=
  match Unmarshal (into_struct false configColumn_fields) zeroConfigColumn raw with
  | Some c => Ok (configuration_of c)
  | None => Err (storeError "decode configuration" (Errorf (malformed raw)))
  end.
Definition settings_of (op raw : string) : result ExecutionSettings :=
  match decodeSettings raw with Some s => Ok s | None => Err (storeError op (Errorf (malformed raw))) end.

(** *** Profiles and templates *)
Definition GetProfile org (ref : ProfileRef) : prog E (result Profile) :=
  raw ←? query_row (getProfile org (ProfileRef_Name ref) (ProfileRef_Version ref)) wrap (notFound "get profile");
  settings ←? lift (settings_of "decode settings" raw);
  mret (Ok (mkProfile (ProfileRef_Name ref) (ProfileRef_Version ref) settings)).

Definition PublishProfile org name (settings : ExecutionSettings) : prog E (result Profile) :=
  version ←? inTx (_ ←? exec lockProfiles; query_row (publishProfile org name (encodeSettings settings)))
  wrap (storeError "publish profile");
  GetProfile org (mkProfileRef name version).

Definition PublishProfileVersion org (p : Profile) : prog E (result (Profile * bool)) :=
  created ←? inTx (
    _ ←? exec lockProfiles;
    stored ← query_row (getProfile org (Profile_Name p) (Profile_Version p));
    match stored with
    | Ok raw =>
      match decodeSettings raw with
      | None => mret (Err (Errorf ("decode settings: " +:+ malformed raw)))
      | Some s => if negb (Settings_Same s (Profile_Settings p)) then mret (Err ErrProfileVersionConflict) else mret (Ok false)
      end
    | Err err =>
      if negb (errors_is err ErrNoRows) then mret (Err err)
      else
      latest ←? query_row (latestProfileVersion org (Profile_Name p));
      if negb (bool_decide (Profile_Version p = latest + 1)) then mret (Err ErrProfileVersionGap)
      else
      _ ←? exec (insertProfileVersion org (Profile_Name p) (Profile_Version p) (encodeSettings (Profile_Settings p)));
      mret (Ok true)
    end) wrap (storeError "publish profile version");
  published ←? GetProfile org (mkProfileRef (Profile_Name p) (Profile_Version p));
  mret (Ok (published, created)).

Definition GetTemplate org (ref : TemplateRef) : prog E (result Template) :=
  '(profile_name, profile_version, raw) ←? query_row (getTemplate org (TemplateRef_Name ref) (TemplateRef_Version ref))
  wrap (notFound "get template");
  config ←? lift (decodeConfig raw);
  mret (Ok (mkTemplate (TemplateRef_Name ref) (TemplateRef_Version ref) (mkProfileRef profile_name profile_version) config)).

Definition PublishTemplate org (t : Template) : prog E (result Template) :=
  let profile := Template_Profile t in
  version ←? inTx (_ ←? exec lockTemplates;
    query_row (publishTemplate org (Template_Name t) (ProfileRef_Name profile) (ProfileRef_Version profile)
      (encodeConfig (Template_Config t)))) wrap (storeError "publish template");
  GetTemplate org (mkTemplateRef (Template_Name t) version).

Fixpoint scanTemplates (rows : list (string * Z * (string * Z * string))) : result (list Template) :=
  match rows with
  | [] => Ok []
  | (name, version, (profile_name, profile_version, raw)) :: rows =>
    config ← decodeConfig raw;
    templates ← scanTemplates rows;
    Ok (mkTemplate name version (mkProfileRef profile_name profile_version) config :: templates)
  end.
Definition ListTemplates org : prog E (result (list Template)) :=
  rows ←? exec (listTemplates org) wrap (storeError "list templates");
  lift (scanTemplates rows).
Definition ListProfiles org : prog E (result (list ProfileRef)) :=
  rows ←? exec (listProfiles org) wrap (storeError "list profiles");
  mret (Ok ((λ r, mkProfileRef r.1 r.2) <$> rows)).

Definition PublishOnce (p : Publication) (t : Template) : prog E (result (Publication * bool)) :=
  let key := Publication_Key p in
  let profile := Template_Profile t in
  stored ←? inTx (
    _ ←? exec lockTemplates;
    stored ← query_row (getPublication (Key_Organization key) (Key_RequestID key));
    match stored with
    | Ok r =>
      mret (Ok (mkPublication key (binding_of (publication_bound r) unassigned)
        (mkTemplateRef (publication_template_name r) (publication_template_version r)), false))
    | Err err =>
      if negb (errors_is err ErrNoRows) then mret (Err err)
      else
      version ←? query_row (publishTemplate (Key_Organization key) (Template_Name t) (ProfileRef_Name profile)
        (ProfileRef_Version profile) (encodeConfig (Template_Config t)));
      _ ←? exec (insertPublication (Key_Organization key) (Key_RequestID key) (bound_of (Publication_Binding p))
        (Template_Name t) version);
      mret (Ok (mkPublication key (Publication_Binding p) (mkTemplateRef (Template_Name t) version), true))
    end) wrap (storeError "publish");
  mret (Ok stored).

(** *** Statuses, requests and definitions *)
Definition GetStatus agent : prog E (result Status) :=
  row ← query_row (getStatus agent);
  mret match row with
  | Ok (observed, rendered, applied) => Ok (mkStatus observed rendered applied)
  | Err err => if errors_is err ErrNoRows then Ok zeroStatus else Err (storeError "get status" err)
  end.
Definition RecordStatus agent (s : Status) : prog E (result Status) :=
  '(observed, rendered, applied) ←? query_row (recordStatus agent (Status_Observed s) (Status_Rendered s))
  wrap (storeError "record status");
  mret (Ok (mkStatus observed rendered applied)).

(** [appendDefinitionIn]: whether the revision was the one past the agent's latest. The savepoint leaves the transaction
usable after a revision another transaction stored first. *)
Definition appendDefinitionIn (d : Definition_) (raw : string) : prog E (result bool) :=
  let '(operator, epoch) := assignmentColumns (Definition_Assignment d) in
  appended ← BeginFunc (exec (appendDefinition (Definition_Agent d) (Definition_Organization d) (Definition_Revision d)
    (ProfileRef_Name (Definition_Profile d)) (ProfileRef_Version (Definition_Profile d)) raw operator epoch));
  mret match appended with
  | Ok affected => Ok (bool_decide (affected = 1))
  | Err err => if isUniqueViolation err then Ok false else Err err
  end.

Definition with_outcome (r : Request) (o : RequestOutcome) : Request :=
  mkRequest (Request_Key r) (Request_Binding r) (Request_Agent r) o.
Definition Configure (r : Request) (d : Definition_) : prog E (result Request) :=
  let key := Request_Key r in
  let b := Request_Binding r in
  stored ←? inTx (
    affected ←? exec (beginRequest (Key_Organization key) (Key_RequestID key) (bound_of b) (assigned_of b) (Request_Agent r));
    if bool_decide (affected = 0)
    then row ← query_row (getRequest (Key_Organization key) (Key_RequestID key)); lift (scanRequest row key)
    else
    exists_ ←? query_row (definitionExists (Definition_Agent d) (Definition_Organization d));
    if negb exists_ then mret (Err ErrNotFound)
    else
    applied ←? appendDefinitionIn d (encodeConfig (Definition_Config d));
    if negb applied then mret (Ok (with_outcome r Stale))
    else
    _ ←? exec (applyRequest (Key_Organization key) (Key_RequestID key) (Definition_Revision d));
    mret (Ok (with_outcome r (Applied (Definition_Revision d))))) wrap (storeError "configure");
  mret (Ok stored).

Definition GetDefinition agent : prog E (result Definition_) :=
  '(organization, revision, profile_name, profile_version, raw, operator, epoch) ←? query_row (getDefinition agent)
  wrap (notFound "get definition");
  config ←? lift (decodeConfig raw);
  mret (Ok (mkDefinition agent organization revision (mkProfileRef profile_name profile_version) config
    (assignmentOf operator epoch))).

Definition Position_ : prog E (result Position) :=
  position ←? query_row getPosition wrap (storeError "position");
  mret (Ok position).

Definition scanDesired (operator : string) (r : desiredRow) : result DesiredRevision :=
  config ← decodeConfig (desired_config r);
  settings ← match decodeSettings (desired_settings r) with
  | Some s => Ok s
  | None => Err (Errorf ("decode settings: " +:+ malformed (desired_settings r)))
  end;
  let d := desired_definition r in
  Ok (mkDesiredRevision
    (mkDefinition (desired_agent r) (definition_organization d) (desired_revision r)
      (mkProfileRef (definition_profile_name d) (definition_profile_version d)) config
      (Some (mkAssignment operator (default "" (desired_epoch r)))))
    settings (desired_stopped r) ((λ r, mkOpenRecovery r.1 r.2) <$> desired_recovery r)).
Fixpoint scanRevisions (operator : string) (rows : list desiredRow) : result (list DesiredRevision) :=
  match rows with
  | [] => Ok []
  | r :: rows => d ← scanDesired operator r; ds ← scanRevisions operator rows; Ok (d :: ds)
  end.
(** Both reads are of one snapshot. *)
Definition Desired (operator : string) (limit : Z) : prog E (result DesiredPage) :=
  page ←? BeginFunc (
    position ←? query_row getPosition;
    rows ←? exec (desired operator limit);
    revisions ←? lift (scanRevisions operator rows);
    mret (Ok (mkDesiredPage position revisions))) wrap (storeError "desired");
  mret (Ok page).

(** *** Creations *)
Definition BeginCreation (c : Creation) : prog E (result Creation) :=
  let key := Creation_Key c in
  _ ←? exec (beginCreation (Key_Organization key) (Key_RequestID key) (bound_of (Creation_Binding c)) (Creation_Controller c)
    (TemplateRef_Name (Creation_Template c)) (TemplateRef_Version (Creation_Template c))
    (ProfileRef_Name (Creation_Profile c)) (ProfileRef_Version (Creation_Profile c))) wrap (storeError "begin creation");
  row ← query_row (getCreation (Key_Organization key) (Key_RequestID key));
  lift (scanCreation row key).

Definition is_pending (c : Creation) : bool := bool_decide (Creation_Outcome c = Pending).
Definition RegisterCreation (key : RequestKey) (d : Definition_) : prog E (result (Creation * bool)) :=
  match Definition_Assignment d with
  | None => mret (Err (Errorf "register creation: the first revision records no assignment"))
  | Some a =>
    registered ←? inTx (
      row ← query_row (lockCreation (Key_Organization key) (Key_RequestID key));
      c ←? lift (scanCreation row key);
      if negb (is_pending c) then mret (Ok (c, false))
      else
      inserted ← exec (insertFirstDefinition (Definition_Agent d) (Definition_Organization d)
        (ProfileRef_Name (Definition_Profile d)) (ProfileRef_Version (Definition_Profile d))
        (encodeConfig (Definition_Config d)) (Some (Assignment_Operator a)) (Some (Assignment_Epoch a)));
      match inserted with
      | Err err => if isUniqueViolation err then mret (Err ErrStaleRevision) else mret (Err err)
      | Ok _ =>
        _ ←? exec (registerCreation (Key_Organization key) (Key_RequestID key) (Definition_Agent d) (Assignment_Epoch a));
        mret (Ok (mkCreation (Creation_Key c) (Creation_Binding c) (Creation_Controller c) (Creation_Template c)
          (Creation_Profile c) (RegisteredAs (mkRegistered (Definition_Agent d) (Assignment_Epoch a))), true))
      end) wrap (storeError "register creation");
    mret (Ok registered)
  end.

Definition FailCreation (key : RequestKey) (reason : string) (conflict : bool) : prog E (result Creation) :=
  _ ←? exec (failCreation (Key_Organization key) (Key_RequestID key) reason conflict) wrap (storeError "fail creation");
  row ← query_row (getCreation (Key_Organization key) (Key_RequestID key));
  lift (scanCreation row key).

Definition CreationOf agent : prog E (result Creation) :=
  '(organization, request_id) ←? query_row (creationOfAgent agent)
  wrap (λ err, storeError "get creation of agent" (notFound "get creation of agent" err));
  let key := mkRequestKey organization request_id in
  row ← query_row (getCreation organization request_id);
  lift (scanCreation row key).

(** *** Placements and activations *)
Definition placementAttempts : nat := 3.

(** The decision taken against the placements read, and what it writes. *)
Definition register_decided (current same : option Placement) (input : PlacementInput) : prog E (result (Placement * bool)) :=
  let agent := PlacementInput_Agent input in
  let r := PlacementInput_Request input in
  action ←? lift (DecidePlacement current same input);
  match action with
  | PlacementRepeat =>
    mret match same with Some same => Ok (same, false) | None => Err (Panic "nil pointer dereference") end
  | PlacementRegister =>
    _ ←? exec (revokePlacement agent);
    _ ←? exec (insertPlacement agent (PlacementRequest_PodUID r) (PlacementInput_Controller input)
      (PlacementRequest_Epoch r) (PlacementRequest_PVCUID r) (PlacementRequest_TokenSHA256 r)
      (Previous_PodUID (PlacementRequest_Previous r)) (Previous_WriterStoppedSHA256 (PlacementRequest_Previous r)));
    mret (Ok (mkPlacement agent (PlacementInput_Controller input) r false, true))
  end.
(** One attempt, in a transaction of its own. *)
Definition registerPlacement (input : PlacementInput) : prog E (result (Placement * bool)) :=
  let agent := PlacementInput_Agent input in
  inTx (
    row ← query_row (lockCurrentPlacement agent);
    current ←? lift (scanPlacement row agent);
    row ← query_row (lockPodPlacement agent (PlacementRequest_PodUID (PlacementInput_Request input)));
    same ←? lift (scanPlacement row agent);
    register_decided current same input).
(** Decided again while another registration came between its reads and its write, [more] times at most. *)
Fixpoint register_again (input : PlacementInput) (more : nat) : prog E (result (Placement * bool)) :=
  ended ← registerPlacement input;
  match ended with
  | Ok placed => mret (Ok placed)
  | Err err =>
    match isUniqueViolation err, more with
    | true, S more => register_again input more
    | _, _ => mret (Err (if isPlacementRefusal err then err else storeError "register placement" err))
    end
  end.
Definition RegisterPlacement (input : PlacementInput) : prog E (result (Placement * bool)) :=
  register_again input (placementAttempts - 1).

Definition CurrentPlacement agent : prog E (result Placement) :=
  row ← query_row (currentPlacement agent);
  mret match scanPlacement row agent with
  | Err err => Err (storeError "get current placement" err)
  | Ok None => Err ErrNotFound
  | Ok (Some placement) => Ok placement
  end.

Definition keyed {A} (key : string) (row : result A) : result (string * A) := result_map (λ r, (key, r)) row.
Definition InsertActivation (a : Activation) : prog E (result Activation) :=
  let r := Activation_Request a in
  row ← query_row (insertActivation (Activation_Agent a) (ActivationRequest_RequestID r) (ActivationRequest_Epoch r)
    (ActivationRequest_Generation r) (ActivationRequest_ConfigRevision r) (ActivationRequest_PlacementPodUID r)
    (Activation_ReplacesActivationID a) (Activation_OperationRef a));
  mret match scanActivation (keyed (ActivationRequest_RequestID r) row) (Activation_Agent a) with
  | Err err => Err (storeError "insert activation request" err)
  | Ok stored => Ok stored
  end.
Definition GetActivation agent requestID : prog E (result Activation) :=
  row ← query_row (getActivation agent requestID);
  mret match scanActivation (keyed requestID row) agent with
  | Err err => Err (storeError "get activation request" (notFound "get activation request" err))
  | Ok stored => Ok stored
  end.
Definition RecordActivation agent requestID activationID : prog E (result ()) :=
  inTx (
    affected ←? exec (recordActivation agent requestID activationID);
    if bool_decide (affected = 0) then mret (Err ErrActivationMismatch)
    else _ ←? exec (recordLatestActivation agent activationID); mret (Ok tt))
  ≫= (λ ended, mret match ended with
  | Ok _ => Ok tt
  | Err err => if errors_is err ErrActivationMismatch then Err err else Err (storeError "record activation" err)
  end).
(** A row of one column, or none. *)
Definition read_one {A} (op : string) (q : query (option A)) : prog E (result A) :=
  value ←? query_row q wrap (λ err, storeError op (notFound op err));
  mret (Ok value).
Definition LatestActivation agent : prog E (result string) := read_one "get latest activation" (latestActivation agent).
Definition ActivationOfGeneration agent generation : prog E (result string) :=
  read_one "get activation of generation" (activationOfGeneration agent generation).
Definition ConfigureReference agent revision : prog E (result string) :=
  read_one "get configure reference" (configureReference agent revision).
Definition RecordRuntimeApplied agent (a : RuntimeApplied) : prog E (result ()) :=
  _ ←? exec (recordRuntimeApplied agent (RuntimeApplied_Revision a) (RuntimeApplied_ActivationID a)
    (RuntimeApplied_Generation a) (RuntimeApplied_ObservedAt a)) wrap (storeError "record runtime applied");
  mret (Ok tt).
Definition GetRuntimeApplied agent : prog E (result RuntimeApplied) :=
  '(revision, id, generation, at_) ←? read_one "get runtime applied" (getRuntimeApplied agent);
  mret (Ok (mkRuntimeApplied revision id generation at_)).

(** *** Recoveries and stops *)
Definition lifecycle {A} (op : string) (p : prog E (result A)) : prog E (result A) :=
  a ←? p wrap (lifecycleError op); mret (Ok a).

Definition OpenRecovery (r : Recovery) : prog E (result (Recovery * bool)) :=
  let b := Recovery_Binding r in
  lifecycle "open recovery" (inTx (
    affected ←? exec (insertRecovery (Recovery_Agent r) (Recovery_RequestID r) (Recovery_Key r) (bound_of b) (assigned_of b)
      (Recovery_Epoch r));
    row ← query_row (getRecoveryByKey (Recovery_Key r));
    match scanRecovery row with
    | Err err =>
      if negb (errors_is err ErrNoRows) then mret (Err err)
      else
      row ← query_row (getRecovery (Recovery_Agent r) (Recovery_RequestID r));
      mret match scanRecovery row with
      | Ok _ => Err ErrRequestReused
      | Err err => if errors_is err ErrNoRows then Err ErrRecoveryOpen else Err err
      end
    | Ok stored =>
      if bool_decide (affected = 1) then _ ←? exec movePosition; mret (Ok (stored, true))
      else mret (Ok (stored, false))
    end)).

Definition LatestRecovery agent : prog E (result Recovery) :=
  row ← query_row (latestRecovery agent);
  mret match scanRecovery row with Ok r => Ok r | Err err => Err (notFound "get latest recovery" err) end.

(** The recovery a step is taken on, held to the transaction's end. *)
Definition locked_recovery agent requestID : prog E (result Recovery) :=
  row ← query_row (lockRecovery agent requestID);
  mret match scanRecovery row with
  | Ok r => Ok r
  | Err err => if errors_is err ErrNoRows then Err ErrNotFound else Err err
  end.
Definition PrepareRecovery agent requestID epoch body : prog E (result Recovery) :=
  lifecycle "prepare recovery" (inTx (
    r ←? locked_recovery agent requestID;
    if negb (bool_decide (Recovery_Epoch r = epoch)) then mret (Err ErrRecoveryEpoch)
    else if bool_decide (Recovery_Stage r = RecoveryRequested) then
    _ ←? exec (prepareRecovery agent requestID body (EncodeToString (Sum256 (bytes_of body))));
    mret (Ok (mkRecovery (Recovery_Agent r) (Recovery_RequestID r) (Recovery_Key r) (Recovery_Binding r)
      (Recovery_Epoch r) RecoveryPrepared body (Recovery_Recovered r)))
    else if negb (bool_decide (Recovery_Body r = body)) && bool_decide (Recovery_Stage r = RecoveryFinalized)
    then mret (Err ErrRecoveryStage)
    else if negb (bool_decide (Recovery_Body r = body)) then mret (Err ErrRequestReused)
    else mret (Ok r))).
Definition FinalizeRecovery agent requestID (c : RecoveredCredential) : prog E (result Recovery) :=
  lifecycle "finalize recovery" (inTx (
    r ←? locked_recovery agent requestID;
    match Recovery_Stage r with
    | RecoveryFinalized => mret (Ok r)
    | RecoveryPrepared =>
      _ ←? exec (finalizeRecovery agent requestID (Recovered_Lineage c));
      _ ←? exec movePosition;
      mret (Ok (mkRecovery (Recovery_Agent r) (Recovery_RequestID r) (Recovery_Key r) (Recovery_Binding r)
        (Recovery_Epoch r) RecoveryFinalized (Recovery_Body r) (Some c)))
    | RecoveryRequested => mret (Err ErrRecoveryStage)
    end)).

Definition RecordStop (s : Stop) : prog E (result (Stop * bool)) :=
  let b := Stop_Binding s in
  lifecycle "record stop" (inTx (
    affected ←? exec (insertStop (Stop_Key s) (Stop_Agent s) (bound_of b) (assigned_of b) (Stop_ActivationID s));
    row ← query_row (getStopByKey (Stop_Key s));
    match scanStop row with
    | Err err => if errors_is err ErrNoRows then mret (Err ErrAgentStopped) else mret (Err err)
    | Ok stored =>
      if bool_decide (affected = 1) then _ ←? exec movePosition; mret (Ok (stored, true))
      else mret (Ok (stored, false))
    end)).
Definition RecordDeactivation (key : RequestKey) : prog E (result ()) :=
  affected ←? exec (recordDeactivation key) wrap (storeError "record deactivation");
  if bool_decide (affected = 0) then mret (Err ErrNotFound) else mret (Ok tt).
Definition RecordStart agent (end_ : StopEnd) : prog E (result Stop) :=
  let b := StopEnd_Binding end_ in
  lifecycle "record start" (inTx (
    row ← query_row (getStopByStartKey (Key_Organization (StopEnd_Key end_)) (Key_RequestID (StopEnd_Key end_)));
    match scanStop row with
    | Ok ended => mret (Ok ended)
    | Err err =>
      if negb (errors_is err ErrNoRows) then mret (Err err)
      else
      row ← query_row (lockCurrentStop agent);
      match scanStop row with
      | Err err => if errors_is err ErrNoRows then mret (Err ErrAgentNotStopped) else mret (Err err)
      | Ok current =>
        _ ←? exec (recordStart (Stop_Key current) (Key_RequestID (StopEnd_Key end_)) (bound_of b) (assigned_of b));
        _ ←? exec movePosition;
        mret (Ok (mkStop (Stop_Agent current) (Stop_Key current) (Stop_Binding current) (Stop_ActivationID current)
          (Stop_Deactivated current) (Some end_)))
      end
    end)).
Definition CurrentStop agent : prog E (result Stop) :=
  row ← query_row (currentStop agent);
  mret match scanStop row with Ok s => Ok s | Err err => Err (notFound "get current stop" err) end.

(** *** Operators *)
Definition RecordOperatorContact orgGRN operator (at_ : Time) : prog E (result ()) :=
  _ ←? exec (recordOperatorContact operator orgGRN at_) wrap (storeError "record operator contact");
  mret (Ok tt).
Definition ReportOperatorImages orgGRN operator (images : list OperatorImage) (at_ : Time) : prog E (result ()) :=
  _ ←? exec (reportOperatorImages operator orgGRN (Marshal (JArray (imageColumn_json <$> images))) at_)
  wrap (storeError "report operator images");
  mret (Ok tt).
Fixpoint scanOperators (rows : list (string * option string * option Time * option Time)) : result (list Operator) :=
  match rows with
  | [] => Ok []
  | (grn, encoded, reported_at, last_contact_at) :: rows =>
    images ← match encoded with
    | None => Ok []
    | Some raw => match Unmarshal into_images [] raw with
      | Some images => Ok images
      | None => Err (storeError "decode operator images" (Errorf (malformed raw)))
      end
    end;
    rest ← scanOperators rows;
    Ok (mkOperator grn images reported_at last_contact_at :: rest)
  end.
Definition ListOperators orgGRN : prog E (result (list Operator)) :=
  rows ←? exec (listOperators orgGRN) wrap (storeError "list operators");
  lift (scanOperators rows).

End postgres.

(** ** The agent's lock, and the repository *)
Section sessions.
Context `{K8s : Kubernetes, RJ : !ResourcesJSON, QJ : !QuantityJSON, SE : !SemanticEquality, DB : Database}.
(** What the JSON decoder says of a text it refuses, and PostgreSQL's [hashtextextended (_, 0)]. *)
Context (malformed : string → string) (hashtextextended : string → Z).
Definition sessionE : Type → Type := sqlE +' advisoryE.

Definition agentKey (agent : GRN) : Z := hashtextextended ("activation:" +:+ agent).
Definition lockAgent (agent : GRN) : advisoryE (result ()) := AdvisoryLock (agentKey agent).
Definition unlockAgent (agent : GRN) : advisoryE (result ()) := AdvisoryUnlock (agentKey agent).

(** What [WithAgentLock] does before it runs its function, and after: the lock is taken on a connection of its own, which
is held until it is given back. *)
Definition takeAgentLock (agent : GRN) : prog sessionE (result ()) :=
  _ ←? call Acquire wrap (storeError "acquire the activation lock's connection");
  locked ← call (lockAgent agent);
  match locked with
  | Err err => _ ← call Release; mret (Err (storeError "take the agent's activation lock" err))
  | Ok _ => mret (Ok tt)
  end.
Definition releaseAgentLock (agent : GRN) : prog sessionE () :=
  _ ← call (unlockAgent agent);
  call Release.
Definition WithAgentLock {A} (agent : GRN) (fn : prog sessionE (result A)) : prog sessionE (result A) :=
  _ ←? takeAgentLock agent;
  ended ← fn;
  _ ← releaseAgentLock agent;
  mret ended.

(** The repository: each method its statements, on sessions of the server. *)
Definition repository X (e : repoE X) : prog sessionE X :=
  match e in repoE X return prog sessionE X with
  | Repository.PublishProfile org name settings => embed (PublishProfile malformed org name settings)
  | Repository.PublishProfileVersion org p => embed (PublishProfileVersion malformed org p)
  | Repository.GetProfile org ref => embed (GetProfile malformed org ref)
  | Repository.PublishTemplate org t => embed (PublishTemplate malformed org t)
  | Repository.GetTemplate org ref => embed (GetTemplate malformed org ref)
  | Repository.ListTemplates org => embed (ListTemplates malformed org)
  | Repository.ListProfiles org => embed (ListProfiles org)
  | Repository.PublishOnce p t => embed (PublishOnce p t)
  | Repository.Configure r d => embed (Configure r d)
  | Repository.GetDefinition agent => embed (GetDefinition malformed agent)
  | Repository.GetPosition => embed Position_
  | Repository.Desired operator limit => embed (Desired malformed operator limit)
  | Repository.GetStatus agent => embed (GetStatus agent)
  | Repository.RecordStatus agent s => embed (RecordStatus agent s)
  | Repository.BeginCreation c => embed (BeginCreation c)
  | Repository.RegisterCreation key d => embed (RegisterCreation key d)
  | Repository.FailCreation key reason conflict => embed (FailCreation key reason conflict)
  | Repository.CreationOf agent => embed (CreationOf agent)
  | Repository.RegisterPlacement input => embed (RegisterPlacement input)
  | Repository.CurrentPlacement agent => embed (CurrentPlacement agent)
  | Repository.Lock agent => takeAgentLock agent
  | Repository.Unlock agent => releaseAgentLock agent
  | Repository.InsertActivation a => embed (InsertActivation a)
  | Repository.GetActivation agent requestID => embed (GetActivation agent requestID)
  | Repository.RecordActivation agent requestID activationID => embed (RecordActivation agent requestID activationID)
  | Repository.LatestActivation agent => embed (LatestActivation agent)
  | Repository.ActivationOfGeneration agent generation => embed (ActivationOfGeneration agent generation)
  | Repository.ConfigureReference agent revision => embed (ConfigureReference agent revision)
  | Repository.RecordRuntimeApplied agent a => embed (RecordRuntimeApplied agent a)
  | Repository.GetRuntimeApplied agent => embed (GetRuntimeApplied agent)
  | Repository.OpenRecovery_ r => embed (OpenRecovery r)
  | Repository.LatestRecovery agent => embed (LatestRecovery agent)
  | Repository.PrepareRecovery agent requestID epoch body => embed (PrepareRecovery agent requestID epoch body)
  | Repository.FinalizeRecovery agent requestID c => embed (FinalizeRecovery agent requestID c)
  | Repository.RecordStop s => embed (RecordStop s)
  | Repository.RecordDeactivation key => embed (RecordDeactivation key)
  | Repository.RecordStart agent end_ => embed (RecordStart agent end_)
  | Repository.CurrentStop agent => embed (CurrentStop agent)
  | Repository.RecordOperatorContact orgGRN operator at_ => embed (RecordOperatorContact orgGRN operator at_)
  | Repository.ReportOperatorImages orgGRN operator images at_ => embed (ReportOperatorImages orgGRN operator images at_)
  | Repository.ListOperators orgGRN => embed (ListOperators malformed orgGRN)
  end.
End sessions.
End Postgres.
