(* ===== verification/SqlSpec.v ===== *)
(** Reasoning about programs of statements: what every run of one over the database leads to, whatever the driver fails
    ([wp], and [wps] for a program that also takes and gives back the server's locks), with a rule for a statement, a transaction and a savepoint; and the lemmas on selected rows. *)
From S2P Require Import Prelude GoStd Errors Types Sql Postgres.
Import Sql Postgres.

Module SqlSpec.

(** ** Rows *)
Section rows.
Context `{Countable K} {R : Type}.
Implicit Types (m : gmap K R) (p : K → R → bool).

Lemma elem_of_rows p m k r : (k, r) ∈ rows p m ↔ p k r = true ∧ m !! k = Some r.
Proof. unfold rows. rewrite list_elem_of_filter, elem_of_map_to_list. cbn. by rewrite Is_true_true. Qed.
Lemma NoDup_rows p m : NoDup (rows p m).*1.
Proof.
  unfold rows. pose proof (NoDup_fst_map_to_list m) as Hn. induction (map_to_list m) as [|[k r] l IH]; [done|].
  rewrite filter_cons. apply NoDup_cons in Hn as [Hk Hl]. case_decide; [|by apply IH].
  cbn. constructor; [|by apply IH]. intros ([k' r'] & -> & Hin)%list_elem_of_fmap.
  apply list_elem_of_filter in Hin as [_ Hin]. apply Hk. by apply (list_elem_of_fmap_2 fst _ (k', r')).
Qed.

Lemma exists_row_true p m : exists_row p m = true ↔ ∃ k r, m !! k = Some r ∧ p k r = true.
Proof.
  unfold exists_row. rewrite negb_true_iff, bool_decide_eq_false. split.
  - intros Hne. destruct (rows p m) as [|[k r] l] eqn:Hr; [done|]. exists k, r.
    apply and_comm, elem_of_rows. rewrite Hr. by left.
  - intros (k & r & Hk & Hp) Hnil. assert ((k, r) ∈ rows p m) as Hin by by apply elem_of_rows.
    rewrite Hnil in Hin. by apply not_elem_of_nil in Hin.
Qed.
Lemma exists_row_false p m : exists_row p m = false ↔ ∀ k r, m !! k = Some r → p k r = false.
Proof.
  rewrite <- not_true_iff_false, exists_row_true. split.
  - intros Hn k r Hk. apply not_true_iff_false. intros ?. apply Hn. eauto.
  - intros Hf (k & r & Hk & Ht). by rewrite (Hf k r Hk) in Ht.
Qed.

Lemma one_row_Some p m k r : one_row p m = Some (k, r) → m !! k = Some r ∧ p k r = true.
Proof.
  unfold one_row. intros Hh. apply and_comm, elem_of_rows. destruct (rows p m) as [|kr l]; [done|].
  injection Hh as ->. by left.
Qed.
Lemma one_row_None p m : one_row p m = None → ∀ k r, m !! k = Some r → p k r = false.
Proof.
  intros Hh. apply exists_row_false. unfold exists_row. unfold one_row in Hh.
  by destruct (rows p m).
Qed.
Lemma one_row_is p m k r :
  m !! k = Some r → p k r = true → (∀ k' r', m !! k' = Some r' → p k' r' = true → k' = k) → one_row p m = Some (k, r).
Proof.
  intros Hk Hp Hu. destruct (one_row p m) as [[k' r']|] eqn:Ho.
  - apply one_row_Some in Ho as [Hk' Hp']. assert (k' = k) as -> by eauto. congruence.
  - by rewrite (one_row_None _ _ Ho k r Hk) in Hp.
Qed.

(** [MAX] over the rows is their greatest value. *)
Lemma max_of_list (f : K → R → option Z) (l : list (K * R)) :
  match foldr (λ x acc, match acc with Some y => Some (x `max` y) | None => Some x end) None (omap (λ kr, f kr.1 kr.2) l) with
  | Some n => (∃ kr, kr ∈ l ∧ f kr.1 kr.2 = Some n) ∧ ∀ kr x, kr ∈ l → f kr.1 kr.2 = Some x → x ≤ n
  | None => ∀ kr, kr ∈ l → f kr.1 kr.2 = None
  end.
Proof.
  induction l as [|kr l IH]; cbn.
  { intros kr Hkr. by apply not_elem_of_nil in Hkr. }
  destruct (f kr.1 kr.2) as [x|] eqn:Hf; cbn; destruct (foldr _ _ _) as [y|]; cbn.
  - destruct IH as [(kr' & Hin & Hy) Hle]. split.
    + destruct (Z.max_spec x y) as [[_ ->]|[_ ->]]; [exists kr'; split; [by right|done]|exists kr; split; [by left|done]].
    + intros kr'' z [->|Hin']%elem_of_cons Hz; [rewrite Hf in Hz; injection Hz as ->; lia|].
      specialize (Hle _ _ Hin' Hz). lia.
  - split; [exists kr; split; [by left|done]|].
    intros kr'' z [->|Hin']%elem_of_cons Hz; [rewrite Hf in Hz; injection Hz as ->; lia|]. by rewrite (IH _ Hin') in Hz.
  - destruct IH as [(kr' & Hin & Hy) Hle]. split; [exists kr'; split; [by right|done]|].
    intros kr'' z [->|Hin']%elem_of_cons Hz; [by rewrite Hf in Hz|eauto].
  - intros kr'' [->|Hin']%elem_of_cons; eauto.
Qed.
Lemma max_of_spec f m :
  match max_of f m with
  | Some n => (∃ k r, m !! k = Some r ∧ f k r = Some n) ∧ ∀ k r x, m !! k = Some r → f k r = Some x → x ≤ n
  | None => ∀ k r, m !! k = Some r → f k r = None
  end.
Proof.
  pose proof (max_of_list f (map_to_list m)) as Hl. unfold max_of. destruct (foldr _ _ _) as [n|].
  - destruct Hl as [([k r] & Hin & Hf) Hle]. split.
    + exists k, r. by apply elem_of_map_to_list in Hin.
    + intros k' r' x Hk Hx. eapply (Hle (k', r')); [by apply elem_of_map_to_list|done].
  - intros k r Hk. apply (Hl (k, r)). by apply elem_of_map_to_list.
Qed.
Lemma max_of_is f m n k r :
  m !! k = Some r → f k r = Some n → (∀ k' r' x, m !! k' = Some r' → f k' r' = Some x → x ≤ n) → max_of f m = Some n.
Proof.
  intros Hk Hf Hle. pose proof (max_of_spec f m) as Hs. destruct (max_of f m) as [n'|].
  - destruct Hs as [(k' & r' & Hk' & Hf') Hle']. specialize (Hle _ _ _ Hk' Hf'). specialize (Hle' _ _ _ Hk Hf). f_equal. lia.
  - by rewrite (Hs _ _ Hk) in Hf.
Qed.
Lemma max_of_none f m : (∀ k r, m !! k = Some r → f k r = None) → max_of f m = None.
Proof.
  intros Hn. pose proof (max_of_spec f m) as Hs. destruct (max_of f m) as [n|]; [|done].
  destruct Hs as [(k & r & Hk & Hf) _]. by rewrite (Hn _ _ Hk) in Hf.
Qed.
End rows.

Lemma written_ok `{Countable K} {R} (c u f : bool) k (r : R) (m : gmap K R) :
  c = true → u = true → f = true → written c u f k r m = Ok (<[k := r]> m).
Proof. by intros -> -> ->. Qed.

(** ** Runs *)
Section wp.
Context `{DB : Database}.
Implicit Types (s : database) (t : tables).

(** Every run of a program over the database ends in [Q]. *)
Fixpoint wp {A} (p : prog sqlE A) (Q : A → database → Prop) s : Prop :=
  match p with
  | Ret a => Q a s
  | Vis e k => ∀ x s', answers s _ e x s' → wp (k x) Q s'
  end.

(** One run: it ended with [a], and left the database so. *)
Fixpoint ran {A} (p : prog sqlE A) s (a : A) s' : Prop :=
  match p with
  | Ret b => a = b ∧ s' = s
  | Vis e k => ∃ x s1, answers s _ e x s1 ∧ ran (k x) s1 a s'
  end.
Lemma wp_ran {A} (p : prog sqlE A) (Q : A → database → Prop) s : wp p Q s ↔ ∀ a s', ran p s a s' → Q a s'.
Proof.
  revert s. induction p as [b|X e k IH]; intros s; cbn.
  - split; [by intros HQ a s' [-> ->]|auto].
  - split.
    + intros Hw a s' (x & s1 & Hx & Hr). by eapply IH; [apply Hw|].
    + intros HQ x s1 Hx. apply IH. intros a s' Hr. apply HQ. eauto.
Qed.

Lemma wp_bind {A B} (p : prog sqlE A) (k : A → prog sqlE B) Q s :
  wp (p ≫= k) Q s ↔ wp p (λ a s', wp (k a) Q s') s.
Proof.
  revert s. induction p as [a|X e k' IH]; intros s; [done|]. cbn.
  split; intros Hw x s' Hx; apply IH; by apply Hw.
Qed.
Lemma wp_mono {A} (p : prog sqlE A) (Q Q' : A → database → Prop) s :
  (∀ a s', Q a s' → Q' a s') → wp p Q s → wp p Q' s.
Proof.
  intros HQ. revert s. induction p as [a|X e k IH]; intros s; [apply HQ|]. cbn. intros Hw x s' Hx. by apply IH, Hw.
Qed.
Lemma wp_call {X} (e : sqlE X) (Q : X → database → Prop) s : wp (call e) Q s ↔ ∀ x s', answers s _ e x s' → Q x s'.
Proof. done. Qed.
Lemma serve_answers s X (e : sqlE X) : answers s X e (serve X e s).1 (serve X e s).2.
Proof. destruct e; cbn; try done; try (by left); left; by rewrite <- surjective_pairing. Qed.
(** The run in which nothing fails is one of them. *)
Lemma wp_serve {A} (p : prog sqlE A) (Q : A → database → Prop) s : wp p Q s → let '(a, s') := run serve p s in Q a s'.
Proof.
  revert s. induction p as [a|X e k IH]; intros s; [done|]. cbn. intros Hw.
  specialize (Hw _ _ (serve_answers s X e)). destruct (serve X e s) as [x s'] eqn:He. by apply IH.
Qed.

Lemma wp_try_wrap {A B} f (p : prog sqlE (result A)) (k : A → prog sqlE (result B)) Q s :
  wp p (λ r s', match r with Ok a => wp (k a) Q s' | Err err => Q (Err (f err)) s' end) s → wp (try_wrap f p k) Q s.
Proof. unfold try_wrap. rewrite wp_bind. apply wp_mono. by intros [a|err] s'. Qed.
Lemma wp_try_bind {A B} (p : prog sqlE (result A)) (k : A → prog sqlE (result B)) Q s :
  wp p (λ r s', match r with Ok a => wp (k a) Q s' | Err err => Q (Err err) s' end) s → wp (try_bind p k) Q s.
Proof. unfold try_bind. rewrite wp_bind. apply wp_mono. by intros [a|err] s'. Qed.

(** *** A statement, in a transaction and by itself *)
Lemma wp_exec_tx {A} (q : query A) (Q : result A → database → Prop) b t o n :
  (∀ err, driver_error err → Q (Err err) (mkDatabase b (None :: o) n)) →
  match q (now_of n) t with
  | Ok (a, t') => Q (Ok a) (mkDatabase b (Some t' :: o) n)
  | Err err => Q (Err err) (mkDatabase b (None :: o) n)
  end → wp (exec q) Q (mkDatabase b (Some t :: o) n).
Proof.
  intros Hf Hq x s' [Hx|(err & Herr & -> & [->|[? _]])]; cbn in *; [|by apply Hf|done].
  destruct (q (now_of n) t) as [[a t']|err]; injection Hx as -> ->; done.
Qed.
Lemma wp_exec {A} (q : query A) (Q : result A → database → Prop) b n :
  (∀ err n' t, driver_error err → (n ≤ n')%nat → t = b ∨ (∃ a, q (now_of (S n)) b = Ok (a, t)) ∧ n' = S n →
    Q (Err err) (mkDatabase t [] n')) →
  match q (now_of (S n)) b with
  | Ok (a, t') => Q (Ok a) (mkDatabase t' [] (S n))
  | Err err => Q (Err err) (mkDatabase b [] (S n))
  end → wp (exec q) Q (mkDatabase b [] n).
Proof.
  intros Hf Hq x s' [Hx|(err & Herr & -> & [->|[_ ->]])]; cbn in *.
  - destruct (q _ b) as [[a t']|err]; injection Hx as -> ->; done.
  - apply Hf; [done|lia|by left].
  - destruct (q _ b) as [[a t']|err'] eqn:Hqb; apply Hf; try done; [lia|right; by eauto|lia|by left].
Qed.
Lemma wp_query_row {A} (q : query (option A)) (Q : result A → database → Prop) s :
  wp (exec q) (λ r s', Q match r with Ok (Some row) => Ok row | Ok None => Err ErrNoRows | Err err => Err err end s') s →
  wp (query_row q) Q s.
Proof. unfold query_row. rewrite wp_bind. done. Qed.

(** *** A transaction *)

(** How a transaction's body ends: well, with the tables it leaves to be committed, or not, whatever it leaves. *)
Definition ends {A} b n (Ok_ : A → tables → Prop) (Err_ : error → Prop) (r : result A) s : Prop :=
  match r with
  | Ok a => ∃ t, s = mkDatabase b [Some t] n ∧ Ok_ a t
  | Err err => (∃ o, s = mkDatabase b [o] n) ∧ Err_ err
  end.

Lemma wp_transaction {A} (fn : prog sqlE (result A)) (Q : result A → database → Prop) (Ok_ : A → tables → Prop) Err_ b n :
  (∀ err, driver_error err → Err_ err) →
  (∀ err n', Err_ err → (n ≤ n')%nat → Q (Err err) (mkDatabase b [] n')) →
  (∀ a t, Ok_ a t → Q (Ok a) (mkDatabase t [] (S n)) ∧ ∀ err, driver_error err → Q (Err err) (mkDatabase t [] (S n))) →
  wp fn (ends b (S n) Ok_ Err_) (mkDatabase b [Some b] (S n)) →
  wp (BeginFunc fn) Q (mkDatabase b [] n).
Proof.
  intros Hd He Ho Hfn. unfold BeginFunc. apply wp_try_bind, wp_call. intros x s' [[= -> ->]|(err & Herr & -> & ->)]; [|by apply He; auto].
  cbn beta iota delta [open_ visible committed ticks]. rewrite wp_bind. eapply wp_mono; [|exact Hfn]. intros [a|err] s'.
  - intros (t & -> & Ha). destruct (Ho a t Ha) as [Hq Hl]. apply wp_try_bind, wp_call.
    intros x s' [[= -> ->]|(err & Herr & -> & [->|(t' & [= <-] & ->)])]; [done| |by apply Hl]. apply He; [by apply Hd|cbn; lia].
  - intros [[o ->] Hq]. rewrite wp_bind. apply wp_call.
    intros x s' [[= -> ->]|(err' & Herr & -> & ->)]; (apply He; [done|cbn; lia]).
Qed.

(** A savepoint within one. *)
Lemma wp_savepoint {A} (fn : prog sqlE (result A)) (Q : result A → database → Prop) b t o n :
  (∀ err x, driver_error err → Q (Err err) (mkDatabase b (x :: o) n)) →
  wp fn (λ r s', match r with
  | Ok a => ∃ t', s' = mkDatabase b (Some t' :: Some t :: o) n ∧ Q (Ok a) (mkDatabase b (Some t' :: o) n)
  | Err err => (∃ x, s' = mkDatabase b (x :: Some t :: o) n) ∧ ∀ x, x = Some t ∨ x = None → Q (Err err) (mkDatabase b (x :: o) n)
  end) (mkDatabase b (Some t :: Some t :: o) n) →
  wp (BeginFunc fn) Q (mkDatabase b (Some t :: o) n).
Proof.
  intros Hd Hfn. unfold BeginFunc. apply wp_try_bind, wp_call. intros x s' [[= -> ->]|(err & Herr & -> & ->)]; [|by apply Hd].
  cbn beta iota delta [open_ visible committed ticks]. rewrite wp_bind. eapply wp_mono; [|exact Hfn]. intros [a|err] s'.
  - intros (t' & -> & Hq). apply wp_try_bind, wp_call.
    intros x s' [[= -> ->]|(err & Herr & -> & [->|(? & [=] & ->)])]; [done|by apply Hd].
  - intros [[x ->] Hq]. rewrite wp_bind. apply wp_call.
    intros y s' [[= -> ->]|(err' & Herr & -> & ->)]; apply Hq; auto.
Qed.
End wp.

(** ** Runs on the server, its sessions' locks with it *)
Section sessions.
Context `{DB : Database}.
Implicit Types (s : server).

Fixpoint wps {A} (p : prog sessionE A) (Q : A → server → Prop) s : Prop :=
  match p with
  | Ret a => Q a s
  | Vis e k => ∀ x s', server_answers s _ e x s' → wps (k x) Q s'
  end.

Lemma wps_bind {A B} (p : prog sessionE A) (k : A → prog sessionE B) Q s :
  wps (p ≫= k) Q s ↔ wps p (λ a s', wps (k a) Q s') s.
Proof.
  revert s. induction p as [a|X e k' IH]; intros s; [done|]. cbn.
  split; intros Hw x s' Hx; apply IH; by apply Hw.
Qed.
Lemma wps_mono {A} (p : prog sessionE A) (Q Q' : A → server → Prop) s :
  (∀ a s', Q a s' → Q' a s') → wps p Q s → wps p Q' s.
Proof.
  intros HQ. revert s. induction p as [a|X e k IH]; intros s; [apply HQ|]. cbn. intros Hw x s' Hx. by apply IH, Hw.
Qed.
Lemma wps_try_bind {A B} (p : prog sessionE (result A)) (k : A → prog sessionE (result B)) Q s :
  wps p (λ r s', match r with Ok a => wps (k a) Q s' | Err err => Q (Err err) s' end) s → wps (try_bind p k) Q s.
Proof. unfold try_bind. rewrite wps_bind. apply wps_mono. by intros [a|err] s'. Qed.
Lemma wps_try_wrap {A B} f (p : prog sessionE (result A)) (k : A → prog sessionE (result B)) Q s :
  wps p (λ r s', match r with Ok a => wps (k a) Q s' | Err err => Q (Err (f err)) s' end) s → wps (try_wrap f p k) Q s.
Proof. unfold try_wrap. rewrite wps_bind. apply wps_mono. by intros [a|err] s'. Qed.

(** A statement takes no lock and gives none back; nor does a program of them. *)
Lemma sql_answers s X (e : sqlE X) x s' : server_answers s X (InL e) x s' →
  ∃ d, s' = mkServer d (advisory s) ∧ answers (data s) X e x d.
Proof. destruct s' as [d l]. intros [Hx Hl]. cbn in Hl. subst l. by exists d. Qed.
Lemma release_answers s x s' : server_answers s _ (InL Release) x s' → s' = s.
Proof. intros (d & -> & Hd)%sql_answers. cbn in Hd. subst d. by destruct s. Qed.
Lemma wps_embed {A} (p : prog sqlE A) (Q : A → server → Prop) s :
  wp p (λ a d, Q a (mkServer d (advisory s))) (data s) → wps (embed p) Q s.
Proof.
  revert s. induction p as [a|X e k IH]; intros s; [by destruct s|]. cbn [wp embed wps].
  intros Hw x s' (d & -> & Hx)%sql_answers. apply IH. by apply Hw.
Qed.
End sessions.

(** A program that has ended. *)
Ltac wp_end := cbn beta iota delta [wp mret prog_mret lift].
End SqlSpec.
