(* ===== verification/PostgresSpec.v ===== *)
(** The repository over PostgreSQL refines the one in memory: what its tables hold is what the store in memory holds, and
    every call answers as that one does and leaves the tables so, or fails opaquely with the call done whole or not at
    all. The relation of the tables to the store, what a call must be for the two to agree, and the tables read. *)
From S2P Require Import Prelude GoStd Json JsonText Errors Types Validation Repository Memory MemoryInvariant Distribution Sql Postgres SqlSpec.
Import Json JsonText MemoryInvariant Distribution Sql Postgres SqlSpec.

Module PostgresSpec.

(** What PostgreSQL documents and the deployment sets: the clock goes on, text is ordered by its bytes (the C collation),
    a query for any row answers one of them, and no document is refused where nothing fails. *)
Class DatabaseLaws `{DB : Database} : Prop := {
  clock_on i j : (i < j)%nat → now_of i < now_of j;
  ordered_by_bytes a b : collate a b = true ↔ String.le a b;
  json_refused raw : jsonb_in raw = None → may_fail;
  any_row_one {A} (l : list A) : match any_row l with Some x => x ∈ l | None => l = [] end;
}.

(** ** The rows of values *)
Definition unassigned_binding (b : Binding) : Prop := Binding_Assignment b = mkAssignment "" "".
Definition nullable (s : string) : option string := if bool_decide (s = "") then None else Some s.

Lemma binding_read b : binding_of (bound_of b) (assigned_of b) = b.
Proof. by destruct b as [? ? ? ? ? []]. Qed.
Lemma binding_read_unassigned b : unassigned_binding b → binding_of (bound_of b) unassigned = b.
Proof. destruct b as [? ? ? ? ? []]. by intros [= -> ->]. Qed.
Lemma nullable_read s : default "" (nullable s) = s.
Proof. unfold nullable. by case_bool_decide. Qed.
Lemma assignment_read a : assignmentOf (assignmentColumns a).1 (assignmentColumns a).2 = a.
Proof. by destruct a as [[]|]. Qed.

Section rows.
Context `{DB : Database}.

Definition publication_row (p : Publication) : publicationRow :=
  mkPublicationRow (bound_of (Publication_Binding p)) (TemplateRef_Name (Publication_Template p))
  (TemplateRef_Version (Publication_Template p)).
Definition creation_row (c : Creation) : creationRow :=
  let r := mkCreationRow (bound_of (Creation_Binding c)) (Creation_Controller c) (TemplateRef_Name (Creation_Template c))
  (TemplateRef_Version (Creation_Template c)) (ProfileRef_Name (Creation_Profile c))
  (ProfileRef_Version (Creation_Profile c)) in
  match Creation_Outcome c with
  | Pending => r "pending" None None None false
  | RegisteredAs a => r "registered" (Some (Registered_Agent a)) (Some (Registered_Epoch a)) None false
  | Failed reason conflict => r "failed" None None (Some reason) conflict
  end.
Definition request_row (r : Request) : requestRow :=
  let row := mkRequestRow (bound_of (Request_Binding r)) (assigned_of (Request_Binding r)) (Request_Agent r) in
  match Request_Outcome r with Applied v => row "applied" (Some v) | Stale => row "stale" None end.
Definition activation_row (a : Activation) : activationRow :=
  let r := Activation_Request a in
  mkActivationRow (ActivationRequest_Epoch r) (ActivationRequest_Generation r) (ActivationRequest_ConfigRevision r)
  (ActivationRequest_PlacementPodUID r) (Activation_ReplacesActivationID a) (Activation_OperationRef a)
  (nullable (Activation_ActivationID a)).
Definition status_row (s : Status) (a : option RuntimeApplied) : statusRow :=
  mkStatusRow (Status_Observed s) (Status_Rendered s) (RuntimeApplied_Revision <$> a) (RuntimeApplied_ActivationID <$> a)
  (RuntimeApplied_Generation <$> a) (RuntimeApplied_ObservedAt <$> a).

(** Rows that hold what the store does not: an instant of the database. *)
Definition placement_read (agent uid : string) (r : placementRow) (p : Placement) : Prop :=
  scanPlacement (Ok ((agent, uid), r)) agent = Ok (Some p).
Definition stage_text (s : RecoveryStage) : string :=
  match s with RecoveryRequested => "requested" | RecoveryPrepared => "prepared" | RecoveryFinalized => "finalized" end.
Definition recovery_row (r : Recovery) (opened_at : Time) (row : recoveryRow) : Prop :=
  row = mkRecoveryRow (Recovery_Key r) (bound_of (Recovery_Binding r)) (assigned_of (Recovery_Binding r)) (Recovery_Epoch r)
  (stage_text (Recovery_Stage r)) (recovery_garam_body row) (recovery_garam_body_sha256 row)
  (Recovered_Lineage <$> Recovery_Recovered r) opened_at ∧
  default "" (recovery_garam_body row) = Recovery_Body r ∧ recovery_check row = true.
Definition start_row (e : StopEnd) : startColumns :=
  mkStart (Key_RequestID (StopEnd_Key e)) (bound_of (StopEnd_Binding e)) (assigned_of (StopEnd_Binding e)).
Definition stop_row (s : Stop) (row : stopRow) : Prop :=
  stop_agent row = Stop_Agent s ∧ stop_bound row = bound_of (Stop_Binding s) ∧
  stop_assigned row = assigned_of (Stop_Binding s) ∧ stop_activation_id row = nullable (Stop_ActivationID s) ∧
  null (stop_deactivated_at row) = negb (Stop_Deactivated s) ∧ stop_start row = start_row <$> Stop_Start s ∧
  null (stop_started_at row) = null (Stop_Start s).

Lemma creation_scanned c : unassigned_binding (Creation_Binding c) → scanCreation (Ok (creation_row c)) (Creation_Key c) = Ok c.
Proof.
  intros Hb. destruct c as [key b ctl [tn tv] [pn pv] [|[]|]]; unfold scanCreation, creation_outcome_of, creation_row; cbn in *;
    by rewrite binding_read_unassigned.
Qed.
Lemma request_scanned r : scanRequest (Ok (request_row r)) (Request_Key r) = Ok r.
Proof. destruct r as [k b a []]; cbn; by rewrite binding_read. Qed.
Lemma activation_scanned a :
  scanActivation (Ok (ActivationRequest_RequestID (Activation_Request a), activation_row a)) (Activation_Agent a) = Ok a.
Proof. destruct a as [g [] ? ? ?]. cbn. by rewrite nullable_read. Qed.
Lemma recovery_scanned r at_ row : recovery_row r at_ row → scanRecovery (Ok ((Recovery_Agent r, Recovery_RequestID r), row)) = Ok r.
Proof.
  destruct r as [a i k b e st bd rc]. intros (-> & Hb & _). cbn in *. rewrite binding_read, Hb. by destruct st, rc as [[]|].
Qed.
Lemma stop_scanned s row : stop_row s row →
  (∀ e, Stop_Start s = Some e → Key_Organization (StopEnd_Key e) = Key_Organization (Stop_Key s)) →
  scanStop (Ok (Stop_Key s, row)) = Ok s.
Proof.
  destruct s as [a [o i] b id d st], row. intros (? & ? & ? & ? & Hd & ? & _) Ho. cbn in *. subst.
  rewrite binding_read, nullable_read, Hd, negb_involutive. destruct st as [[[eo ei] eb]|]; [|done]. cbn.
  rewrite binding_read. specialize (Ho _ eq_refl). cbn in Ho. by subst.
Qed.
End rows.

(** ** The tables and the store *)
Section relation.
Context `{K8s : Kubernetes, RJ : !ResourcesJSON, QJ : !QuantityJSON, SE : !SemanticEquality, DB : Database}.
Context (malformed : string → string).
Implicit Types (t : tables) (m : Memory.mem).

Definition config_is (j : jsonb) (c : Configuration) : Prop := decodeConfig malformed (jsonb_out j) = Ok c.
Definition settings_is (j : jsonb) (s : ExecutionSettings) : Prop := decodeSettings (jsonb_out j) = Some s.
Definition images_is (j : jsonb) (images : list OperatorImage) : Prop := Unmarshal into_images [] (jsonb_out j) = Some images.

Definition profile_row (r : profileRow) (p : Profile) : Prop := settings_is (profile_settings r) (Profile_Settings p).
Definition template_row (r : templateRow) (t : Template) : Prop :=
  template_profile_name r = ProfileRef_Name (Template_Profile t) ∧
  template_profile_version r = ProfileRef_Version (Template_Profile t) ∧ config_is (template_config r) (Template_Config t).
Definition definition_row (r : definitionRow) (d : Definition_) : Prop :=
  definition_organization r = Definition_Organization d ∧
  definition_profile_name r = ProfileRef_Name (Definition_Profile d) ∧
  definition_profile_version r = ProfileRef_Version (Definition_Profile d) ∧ config_is (definition_config r) (Definition_Config d) ∧
  (definition_assignment_operator r, definition_assignment_epoch r) = assignmentColumns (Definition_Assignment d).
Definition operator_row (r : operatorRow) (o : Memory.storedOperator) : Prop :=
  operator_org_grn r = Memory.stored_orgGRN o ∧
  operator_reported_at r = Operator_ReportedAt (Memory.stored_operator o) ∧
  operator_last_contact_at r = Operator_LastContactAt (Memory.stored_operator o) ∧
  match operator_images r with
  | Some j => images_is j (Operator_Images (Memory.stored_operator o)) ∧ operator_reported_at r ≠ None
  | None => Operator_Images (Memory.stored_operator o) = [] ∧ operator_reported_at r = None
  end.

Definition version_of {A} (l : list A) (v : Z) : option A := Memory.index l (v - 1).

(** The tables hold what the store holds, [n] transactions having begun. *)
Record holds t m (n : nat) : Prop := {
  h_profiles org name v : option_Forall2 profile_row (profiles t !! (org, name, v))
  (version_of (Memory.slice (Memory.profiles m) (org, name)) v);
  h_templates org name v : option_Forall2 template_row (templates t !! (org, name, v))
  (version_of (Memory.slice (Memory.templates m) (org, name)) v);
  h_publications : publications t = publication_row <$> Memory.publications m;
  h_publications_ok k p : Memory.publications m !! k = Some p → Publication_Key p = k ∧ unassigned_binding (Publication_Binding p);
  h_definitions (agent : string) v : option_Forall2 definition_row (definitions t !! (agent, v))
  (version_of (Memory.slice (Memory.definitions m) agent) v);
  h_position k r : definitions t !! k = Some r → definition_position r ≤ position t;
  h_order (a : string) i (b : string) j pa pb ra rb : version_of (Memory.slice (Memory.positions m) a) i = Some pa →
  version_of (Memory.slice (Memory.positions m) b) j = Some pb →
  definitions t !! (a, i) = Some ra → definitions t !! (b, j) = Some rb →
  pa < pb → definition_position ra < definition_position rb;
  h_creations : creations t = creation_row <$> Memory.creations m;
  h_creations_ok k c : Memory.creations m !! k = Some c → unassigned_binding (Creation_Binding c);
  h_requests : requests t = request_row <$> Memory.requests m;
  h_statuses (agent : string) : agent_status t !! agent =
  (λ s, status_row s (Memory.applied m !! agent)) <$> Memory.statuses m !! agent;
  h_statuses_ok (agent : string) s : Memory.statuses m !! agent = Some s →
  1 ≤ Status_Observed s ∧ 1 ≤ Status_Rendered s ∧ Status_Applied s = RuntimeApplied_Revision <$> Memory.applied m !! agent;
  h_applied (agent : string) : Memory.statuses m !! agent = None → Memory.applied m !! agent = None;
  h_placements (agent : string) uid : option_Forall2 (placement_read agent uid) (placements t !! (agent, uid))
  (Memory.agent_placements agent m !! uid);
  h_activations (agent : string) id : activation_requests t !! (agent, id) = activation_row <$> Memory.agent_activations agent m !! id;
  h_activations_ok (agent : string) id a : Memory.agent_activations agent m !! id = Some a →
  1 ≤ ActivationRequest_ConfigRevision (Activation_Request a);
  h_latest : agent_activations t = Memory.latest m;
  h_recoveries (agent : string) i r : Memory.slice (Memory.recoveries m) agent !! i = Some r →
  ∃ row, recoveries t !! (agent, Recovery_RequestID r) = Some row ∧ recovery_row r (recovery_opened_at row) row;
  h_recoveries_only (agent : string) id row : recoveries t !! (agent, id) = Some row →
  ∃ i r, Memory.slice (Memory.recoveries m) agent !! i = Some r ∧ Recovery_RequestID r = id;
  h_opened k row : recoveries t !! k = Some row → recovery_opened_at row ≤ now_of n;
  h_opened_order (agent : string) i j r r' row row' : Memory.slice (Memory.recoveries m) agent !! i = Some r →
  Memory.slice (Memory.recoveries m) agent !! j = Some r' → (i < j)%nat →
  recoveries t !! (agent, Recovery_RequestID r) = Some row → recoveries t !! (agent, Recovery_RequestID r') = Some row' →
  recovery_opened_at row < recovery_opened_at row';
  h_stops k : option_Forall2 stop_row (Memory.stops m !! k) (stops t !! k);
  h_ends k s e : Memory.stops m !! k = Some s → Stop_Start s = Some e →
  Key_Organization (StopEnd_Key e) = Key_Organization k ∧ Memory.stopEnds m !! StopEnd_Key e = Some k;
  h_operators g : option_Forall2 operator_row (operators t !! g) (Memory.operators m !! g);
}.

(** ** The calls on which the two agree

What a call may bring: values whose columns read back, instants of whole microseconds, versions and revisions from 1,
references to what is published, and what the service makes sure of before it calls. *)
Definition settings_kept (s : ExecutionSettings) : Prop := ∀ j, jsonb_in (encodeSettings s) = Some j → settings_is j s.
Definition config_kept (c : Configuration) : Prop := ∀ j, jsonb_in (encodeConfig c) = Some j → config_is j c.
Definition images_kept (images : list OperatorImage) : Prop :=
  ∀ j, jsonb_in (Marshal (JArray (imageColumn_json <$> images))) = Some j → images_is j images.
Definition time_kept (at_ : Time) : Prop := timestamptz at_ = at_.
Definition template_exists m org (ref : TemplateRef) : Prop :=
  is_Some (version_of (Memory.slice (Memory.templates m) (org, TemplateRef_Name ref)) (TemplateRef_Version ref)).

Definition storable m {X} (e : repoE X) : Prop :=
  match e with
  | Repository.PublishProfile _ _ s => settings_kept s
  | Repository.PublishProfileVersion _ p => settings_kept (Profile_Settings p) ∧ 1 ≤ Profile_Version p
  | Repository.PublishTemplate org t => published (Memory.profiles m) org (Template_Profile t) ∧ config_kept (Template_Config t)
  | Repository.PublishOnce p t =>
    published (Memory.profiles m) (Key_Organization (Publication_Key p)) (Template_Profile t) ∧
    config_kept (Template_Config t) ∧ unassigned_binding (Publication_Binding p)
  | Repository.Configure _ d => config_kept (Definition_Config d)
  | Repository.RecordStatus _ s => 1 ≤ Status_Observed s ∧ 1 ≤ Status_Rendered s
  | Repository.BeginCreation c =>
    template_exists m (Key_Organization (Creation_Key c)) (Creation_Template c) ∧
    published (Memory.profiles m) (Key_Organization (Creation_Key c)) (Creation_Profile c) ∧
    unassigned_binding (Creation_Binding c)
  | Repository.RegisterCreation _ d => config_kept (Definition_Config d)
  | Repository.Desired _ limit => 0 ≤ limit
  | Repository.InsertActivation a =>
    Activation_ActivationID a = "" ∧ 1 ≤ ActivationRequest_ConfigRevision (Activation_Request a)
  | Repository.RecordActivation agent requestID id =>
    id ≠ "" ∧ is_Some (Memory.agent_activations agent m !! requestID)
  | Repository.RecordRuntimeApplied agent a =>
    is_Some (Memory.statuses m !! agent) ∧ 1 ≤ RuntimeApplied_Revision a ∧ time_kept (RuntimeApplied_ObservedAt a)
  | Repository.RecordStart agent end_ => ∀ s, Memory.current_stop_locked agent m = Some s →
    Key_Organization (Stop_Key s) = Key_Organization (StopEnd_Key end_)
  | Repository.RecordOperatorContact _ _ at_ => time_kept at_
  | Repository.ReportOperatorImages org g images at_ => images_kept images ∧ time_kept at_ ∧
    ∀ o last, Memory.operators m !! g = Some o → Operator_ReportedAt (Memory.stored_operator o) = Some last → at_ < last →
    Memory.stored_orgGRN o = org
  | _ => True
  end.

(** ** What a call leads to *)

(** The two answers agree: they are one, but for the numbers of positions, which the database alone may move on, and for
which of a generation's activations is answered. *)
Definition agree m {X} (e : repoE X) : X → X → Prop :=
  match e in repoE X return X → X → Prop with
  | Repository.GetPosition => λ x y, match x, y with Ok _, Ok _ => True | _, _ => x = y end
  | Repository.Desired _ _ => λ x y,
    match x, y with Ok p, Ok p' => Page_Revisions p = Page_Revisions p' | _, _ => x = y end
  | Repository.ActivationOfGeneration agent generation => λ x y,
    x = y ∨ match x, y with
    | Ok id, Ok _ => ∃ r a, Memory.agent_activations agent m !! r = Some a ∧
      ActivationRequest_Generation (Activation_Request a) = generation ∧ Activation_ActivationID a = id
    | _, _ => False
    end
  | _ => λ x y, x = y
  end.

Lemma agree_same m X (e : repoE X) x : agree m e x x.
Proof. destruct e; cbn; try done; [by destruct x..|by left]. Qed.

(** What an error shows that shows nothing but its text: there is one only where a call may fail. *)
Record failed := mkFailed { text_of :> string; failed_may : may_fail }.
Definition failed_answer {X} (e : repoE X) (text : failed) : option X :=
  match e in repoE X return option X with
  | Repository.Unlock _ => None
  | Repository.PublishProfile _ _ _ | Repository.PublishProfileVersion _ _ | Repository.GetProfile _ _
  | Repository.PublishTemplate _ _ | Repository.GetTemplate _ _ | Repository.ListTemplates _ | Repository.ListProfiles _
  | Repository.PublishOnce _ _ | Repository.Configure _ _ | Repository.GetDefinition _ | Repository.GetPosition
  | Repository.Desired _ _ | Repository.GetStatus _ | Repository.RecordStatus _ _ | Repository.BeginCreation _
  | Repository.RegisterCreation _ _ | Repository.FailCreation _ _ _ | Repository.CreationOf _
  | Repository.Lock _ | Repository.RegisterPlacement _ | Repository.CurrentPlacement _ | Repository.InsertActivation _
  | Repository.GetActivation _ _ | Repository.RecordActivation _ _ _ | Repository.LatestActivation _
  | Repository.ActivationOfGeneration _ _ | Repository.ConfigureReference _ _ | Repository.RecordRuntimeApplied _ _
  | Repository.GetRuntimeApplied _ | Repository.OpenRecovery_ _ | Repository.LatestRecovery _
  | Repository.PrepareRecovery _ _ _ _ | Repository.FinalizeRecovery _ _ _ | Repository.RecordStop _
  | Repository.RecordDeactivation _ | Repository.RecordStart _ _ | Repository.CurrentStop _
  | Repository.RecordOperatorContact _ _ _ | Repository.ReportOperatorImages _ _ _ _ | Repository.ListOperators _ =>
    Some (Err (Errorf text))
  end.
Definition opaque {X} (e : repoE X) (x : X) : Prop := ∃ text, failed_answer e text = Some x.

(** No transaction is open, and the tables committed hold what the store holds. *)
Definition related (s : database) m : Prop := open_ s = [] ∧ holds (committed s) m (ticks s).
(** The call's end after [s]: answered as the store answers, the position moved at least when the store's is; or failed,
with the call done or not. *)
Definition called {X} (e : repoE X) s m (x : X) (s' : database) : Prop :=
  let '(y, m') := Memory.handle X e m in
  position (committed s) ≤ position (committed s') ∧
  (agree m e x y ∧ related s' m' ∧
    (Memory.position m' ≠ Memory.position m → position (committed s) < position (committed s')) ∨
    opaque e x ∧ (related s' m ∨ related s' m')).

(** A call whose answer may be an error. *)
Class Fallible {A} (e : repoE (result A)) : Prop := fails_with : ∀ text, failed_answer e text = Some (Err (Errorf text)).

(** ** Lists of versions and their rows *)
Lemma version_of_Some {A} (l : list A) v a : version_of l v = Some a ↔ 1 ≤ v ∧ l !! Z.to_nat (v - 1) = Some a.
Proof. unfold version_of. rewrite index_Some. split; intros [? ?]; (split; [lia|done]). Qed.
Lemma version_of_is_Some {A} (l : list A) v : is_Some (version_of l v) ↔ 1 ≤ v ≤ Z.of_nat (length l).
Proof.
  split.
  - intros [a [? Hl]%version_of_Some]. apply lookup_lt_Some in Hl. lia.
  - intros [? ?]. destruct (lookup_lt_is_Some_2 l (Z.to_nat (v - 1))) as [a Ha]; [lia|]. exists a. by apply version_of_Some.
Qed.
Lemma version_of_push {A} (l : list A) x v :
  version_of (l ++ [x]) v = if bool_decide (v = Z.of_nat (length l) + 1) then Some x else version_of l v.
Proof.
  unfold version_of, Memory.index. case_bool_decide as Hv; case_bool_decide; try lia; [| |done].
  - rewrite lookup_app_r by lia. by replace (Z.to_nat (v - 1) - length l)%nat with 0%nat by lia.
  - destruct (decide (v ≤ Z.of_nat (length l))); [by rewrite lookup_app_l by lia|].
    rewrite !lookup_ge_None_2; [done|lia|rewrite length_app; cbn; lia].
Qed.
Lemma Forall2_is_Some {A B} (P : A → B → Prop) x y : option_Forall2 P x y → is_Some x ↔ is_Some y.
Proof. intros []; split; intros [? ?]; by eauto. Qed.

(** The greatest version of rows that are a list's. *)
Lemma versions_max `{Countable K} {R A} (f : K → R → option Z) (rows : gmap K R) (key : Z → K) (l : list A) :
  (∀ k r x, f k r = Some x → k = key x) → (∀ v r, f (key v) r = Some v) →
  (∀ v, is_Some (rows !! key v) ↔ 1 ≤ v ≤ Z.of_nat (length l)) →
  max_of f rows = match l with [] => None | _ => Some (Z.of_nat (length l)) end.
Proof.
  intros Hf Hk Hl. destruct l as [|a l].
  - apply max_of_none. intros k r Hr. destruct (f k r) as [x|] eqn:Hx; [|done]. apply Hf in Hx as ->.
    assert (is_Some (rows !! key x)) as Hs by by rewrite Hr. apply Hl in Hs. cbn in Hs. lia.
  - destruct (Hl (Z.of_nat (length (a :: l)))) as [_ [r Hr]]; [cbn; lia|]. eapply max_of_is; [done|apply Hk|].
    intros k' r' x Hr' Hx. apply Hf in Hx as ->. apply Hl. by rewrite Hr'.
Qed.
End relation.
#[export] Hint Extern 0 (Fallible _) => (intros ?; reflexivity) : typeclass_instances.
End PostgresSpec.
