(* ===== verification/PostgresRefine.v ===== *)
(** Each method of the repository over PostgreSQL leads to what the store in memory does: the rules the proofs go by, and
    the methods that publish and read profiles and templates. *)
From S2P Require Import Prelude GoStd Json JsonText Errors Types Validation Repository Memory MemoryInvariant Distribution Sql Postgres SqlSpec PostgresSpec.
Import Json JsonText MemoryInvariant Distribution Sql Postgres SqlSpec PostgresSpec.

Module PostgresRefine.

Section opaque.
Context `{DB : Database}.

(** A failure of the driver's shows only its text. *)
Definition opaquely (f : error → error) : Prop := ∀ err, driver_error err → ∃ text : failed, f err = Errorf text.
Lemma storeError_opaque op : opaquely (storeError op).
Proof. intros err (He & _ & Hmay). unfold storeError. rewrite !He. by eexists (mkFailed _ Hmay). Qed.
Lemma notFound_opaque op : opaquely (notFound op).
Proof. intros err He. unfold notFound. rewrite (proj1 He). by apply storeError_opaque. Qed.
Lemma lifecycleError_opaque op : opaquely (lifecycleError op).
Proof. intros err He. unfold lifecycleError. cbn. rewrite !(proj1 He). by apply storeError_opaque. Qed.
Lemma storeError_twice_opaque op : opaquely (λ err, storeError op (notFound op err)).
Proof.
  intros err He. destruct (notFound_opaque op err He) as [text ->]. unfold storeError. cbn. by eexists (mkFailed _ (failed_may text)).
Qed.
Lemma opaque_answer {A} f err : opaquely f → driver_error err → ∃ text : failed, @Err A (f err) = Err (Errorf text).
Proof. intros Hf He. destruct (Hf err He) as [text ->]. by exists text. Qed.
(** An error of nothing but text is as one of the driver's. *)
Lemma Errorf_driver (text : failed) : driver_error (Errorf text).
Proof. split; [done|]. split; [done|]. apply (failed_may text). Qed.
Lemma opaquely_driver f err : opaquely f → driver_error err → driver_error (f err).
Proof. intros Hf He. destruct (Hf err He) as [text ->]. apply Errorf_driver. Qed.
Lemma invalid_json_driver `{!DatabaseLaws} raw : jsonb_in raw = None → driver_error invalid_json.
Proof. intros Hj. split; [by intros []|]. split; [done|]. by eapply json_refused. Qed.
End opaque.
#[export] Hint Resolve storeError_opaque notFound_opaque lifecycleError_opaque storeError_twice_opaque : opaque.

Section refine.
Context `{K8s : Kubernetes, RJ : !ResourcesJSON, QJ : !QuantityJSON, SE : !SemanticEquality, DB : Database, DL : !DatabaseLaws}.
Context (malformed : string → string).
Implicit Types (t b : tables) (m : Memory.mem).
Abbreviation holds := (holds malformed).
Abbreviation called := (called malformed).

Lemma holds_until t m n n' : holds t m n → (n ≤ n')%nat → holds t m n'.
Proof.
  intros [] Hn. split; try done. intros k row Hk. specialize (h_opened0 k row Hk).
  destruct (decide (n = n')) as [->|]; [done|]. assert (now_of n < now_of n') by (apply clock_on; lia). lia.
Qed.

Lemma holds_next t m n : holds t m n → holds t m (S n).
Proof. intros Ht. eapply holds_until; [exact Ht|lia]. Qed.

(** ** How a call ends *)
Section ends.
Context {A : Type} (e : repoE (result A)) `{!Fallible e} (b : tables) (m : Memory.mem) (n : nat).
Context (Hb : holds b m n).

Lemma ends_undone n' err (text : failed) : (n ≤ n')%nat → err = Errorf text → called e (mkDatabase b [] n) m (Err err) (mkDatabase b [] n').
Proof.
  intros Hn ->. unfold PostgresSpec.called. destruct (Memory.handle _ e m) as [y m']. split; [done|]. right. split; [exists text; apply fails_with|]. left.
  split; [done|]. by eapply holds_until.
Qed.
Lemma ends_done t n' err (text : failed) : position b ≤ position t → holds t (Memory.handle _ e m).2 n' → err = Errorf text →
  called e (mkDatabase b [] n) m (Err err) (mkDatabase t [] n').
Proof.
  intros Hp Ht ->. unfold PostgresSpec.called. destruct (Memory.handle _ e m) as [y m']. split; [done|]. right. split; [exists text; apply fails_with|]. by right.
Qed.

(** What a transaction commits where the call ends [x]. *)
Definition commits (n' : nat) (x : result A) t : Prop :=
  agree m e x (Memory.handle _ e m).1 ∧ holds t (Memory.handle _ e m).2 n' ∧ position b ≤ position t ∧
  (Memory.position (Memory.handle _ e m).2 ≠ Memory.position m → position b < position t).
Lemma ends_answered n' x t : commits n' x t → called e (mkDatabase b [] n) m x (mkDatabase t [] n').
Proof.
  intros (Hx & Ht & Hp & Hm). unfold PostgresSpec.called. destruct (Memory.handle _ e m) as [y m']. split; [done|]. left.
  split; [done|]. split; [by split|done].
Qed.
Lemma ends_read x n' : agree m e x (Memory.handle _ e m).1 → (Memory.handle _ e m).2 = m → (n ≤ n')%nat →
  called e (mkDatabase b [] n) m x (mkDatabase b [] n').
Proof.
  intros Hx Hm Hn. unfold PostgresSpec.called. destruct (Memory.handle _ e m) as [y m']. cbn in *. subst m'. split; [done|]. left.
  split; [done|]. split; [|done]. split; [done|]. by eapply holds_until.
Qed.

(** A transaction's body ends well with what is to be committed, or with the driver's error, or with the refusal the store
answers. *)
Definition body_error (f : error → error) (err : error) : Prop :=
  driver_error err ∨ ∃ y, Memory.handle _ e m = (Err y, m) ∧ f err = y.
Lemma call_transaction_then {B} (f : error → error) (g : B → A) (fn : prog sqlE (result B)) (k : result B → prog sqlE (result A)) :
  opaquely f → (∀ a, k (Ok a) = mret (Ok (g a))) → (∀ err, k (Err err) = mret (Err (f err))) →
  wp fn (ends b (S n) (λ a t, commits (S n) (Ok (g a)) t) (body_error f)) (mkDatabase b [Some b] (S n)) →
  wp (BeginFunc fn ≫= k) (called e (mkDatabase b [] n) m) (mkDatabase b [] n).
Proof.
  intros Hf Hk Hke Hfn. rewrite wp_bind. eapply wp_transaction; [| | |exact Hfn]; cbn beta iota.
  - intros err He. by left.
  - intros err n' Herr Hn. rewrite Hke. destruct Herr as [He|(y & Hy & <-)].
    + destruct (Hf err He) as [text ->]. by eapply ends_undone.
    + apply ends_read; rewrite ?Hy; [apply agree_same|done|lia].
  - intros a t Ha. split; [rewrite Hk; by apply ends_answered|]. intros err He. rewrite Hke. destruct (Hf err He) as [text ->].
    destruct Ha as (_ & Ht & Hp & _). by eapply ends_done.
Qed.
Lemma call_transaction {B} (f : error → error) (g : B → A) (fn : prog sqlE (result B)) :
  opaquely f →
  wp fn (ends b (S n) (λ a t, commits (S n) (Ok (g a)) t) (body_error f)) (mkDatabase b [Some b] (S n)) →
  wp (a ←? BeginFunc fn wrap f; mret (Ok (g a))) (called e (mkDatabase b [] n) m) (mkDatabase b [] n).
Proof. intros Hf. by apply call_transaction_then. Qed.
End ends.

(** ** The body of a transaction *)
Section body.
Context {A : Type} (b : tables) (n : nat) (Ok_ : A → tables → Prop) (Err_ : error → Prop).
Context (Hdriver : ∀ err, driver_error err → Err_ err).

Lemma body_error_at err o : Err_ err → wp (mret (Err err)) (ends b n Ok_ Err_) (mkDatabase b [o] n).
Proof. intros He. split; [by eexists|done]. Qed.
Lemma body_ok a t : Ok_ a t → wp (mret (Ok a)) (ends b n Ok_ Err_) (mkDatabase b [Some t] n).
Proof. intros Ha. by exists t. Qed.

(** A statement whose failure ends the body. *)
Lemma body_exec {B} (q : query B) (k : B → prog sqlE (result A)) t :
  match q (now_of n) t with
  | Ok (x, t') => wp (k x) (ends b n Ok_ Err_) (mkDatabase b [Some t'] n)
  | Err err => Err_ err
  end → wp (x ←? exec q; k x) (ends b n Ok_ Err_) (mkDatabase b [Some t] n).
Proof.
  intros Hq. apply wp_try_bind, wp_exec_tx.
  - intros err He. apply body_error_at. auto.
  - destruct (q (now_of n) t) as [[x t']|err]; [done|]. by apply body_error_at.
Qed.
(** A row looked at whether or not it is there. *)
Lemma body_row {B} (q : query (option B)) (k : result B → prog sqlE (result A)) t row t' :
  q (now_of n) t = Ok (row, t') →
  (∀ err, driver_error err → wp (k (Err err)) (ends b n Ok_ Err_) (mkDatabase b [None] n)) →
  wp (k match row with Some x => Ok x | None => Err ErrNoRows end) (ends b n Ok_ Err_) (mkDatabase b [Some t'] n) →
  wp (row ← query_row q; k row) (ends b n Ok_ Err_) (mkDatabase b [Some t] n).
Proof.
  intros Hq Hd Hk. rewrite wp_bind. apply wp_query_row, wp_exec_tx; [done|]. rewrite Hq. by destruct row.
Qed.
(** A statement's end looked at, whatever it is. *)
Lemma body_result {B} (q : query B) (k : result B → prog sqlE (result A)) t :
  (∀ err, driver_error err → wp (k (Err err)) (ends b n Ok_ Err_) (mkDatabase b [None] n)) →
  match q (now_of n) t with
  | Ok (x, t') => wp (k (Ok x)) (ends b n Ok_ Err_) (mkDatabase b [Some t'] n)
  | Err err => wp (k (Err err)) (ends b n Ok_ Err_) (mkDatabase b [None] n)
  end → wp (x ← exec q; k x) (ends b n Ok_ Err_) (mkDatabase b [Some t] n).
Proof.
  intros Hd Hk. rewrite wp_bind. apply wp_exec_tx; [done|]. by destruct (q (now_of n) t) as [[x t']|err].
Qed.
Lemma body_query_row {B} (q : query (option B)) (k : B → prog sqlE (result A)) t :
  match q (now_of n) t with
  | Ok (Some x, t') => wp (k x) (ends b n Ok_ Err_) (mkDatabase b [Some t'] n)
  | Ok (None, _) => Err_ ErrNoRows
  | Err err => Err_ err
  end → wp (x ←? query_row q; k x) (ends b n Ok_ Err_) (mkDatabase b [Some t] n).
Proof.
  intros Hq. apply wp_try_bind, wp_query_row, wp_exec_tx.
  - intros err He. apply body_error_at. auto.
  - destruct (q (now_of n) t) as [[[x|] t']|err]; [done|by apply body_error_at|by apply body_error_at].
Qed.
Lemma body_last_row (q : query (option A)) t :
  match q (now_of n) t with
  | Ok (Some x, t') => Ok_ x t'
  | Ok (None, _) => Err_ ErrNoRows
  | Err err => Err_ err
  end → wp (query_row q) (ends b n Ok_ Err_) (mkDatabase b [Some t] n).
Proof.
  intros Hq. apply wp_query_row, wp_exec_tx.
  - intros err He. split; [by eexists|auto].
  - destruct (q (now_of n) t) as [[[x|] t']|err]; [by exists t'|split; [by eexists|done]..].
Qed.
Lemma body_lift {B} (r : result B) (k : B → prog sqlE (result A)) t :
  match r with
  | Ok x => wp (k x) (ends b n Ok_ Err_) (mkDatabase b [Some t] n)
  | Err err => Err_ err
  end → wp (x ←? lift r; k x) (ends b n Ok_ Err_) (mkDatabase b [Some t] n).
Proof. intros Hr. destruct r as [x|err]; [done|]. by apply body_error_at. Qed.
End body.

(** What is committed where a call only reads. *)
Lemma commits_read {A} (e : repoE (result A)) b m n x :
  holds b m n → agree m e x (Memory.handle _ e m).1 → (Memory.handle _ e m).2 = m → commits e b m (S n) x b.
Proof. intros Hb Hx Hm. split; [done|]. rewrite Hm. by split; [apply holds_next|]. Qed.

(** No error of the driver's is a violation of a key. *)
Lemma driver_no_violation err : driver_error err → isUniqueViolation err = false.
Proof.
  intros He. unfold isUniqueViolation. destruct (sqlstate err) as [code|] eqn:Hs; [|done]. apply bool_decide_false. intros ->. by destruct He as (_ & Hne & _).
Qed.

(** ** Calls of one statement *)
Lemma wp_read {B X} (q : query (option B)) (f : tables → option B) (k : result B → prog sqlE X) Q b n :
  (∀ now t, q now t = Ok (f t, t)) →
  (∀ err n', driver_error err → (n ≤ n')%nat → wp (k (Err err)) Q (mkDatabase b [] n')) →
  wp (k match f b with Some x => Ok x | None => Err ErrNoRows end) Q (mkDatabase b [] (S n)) →
  wp (row ← query_row q; k row) Q (mkDatabase b [] n).
Proof.
  intros Hq Hd Hk. rewrite wp_bind. apply wp_query_row, wp_exec.
  - intros err n' t He Hn [->|[[a Ha] ->]]; [by apply Hd|]. rewrite Hq in Ha. injection Ha as _ ->. by apply Hd.
  - rewrite Hq. by destruct (f b).
Qed.

(** A call of one statement that writes. *)
Section writes.
Context {A : Type} (e : repoE (result A)) `{!Fallible e} (b : tables) (m : Memory.mem) (n : nat).
Context (Hb : holds b m n).
Lemma call_exec_then {B} (q : query B) (f : error → error) (K : B → prog sqlE (result A)) (g : B → result A) :
  opaquely f → (∀ x, K x = mret (g x)) →
  match q (now_of (S n)) b with
  | Ok (a, t) => commits e b m (S n) (g a) t
  | Err err => driver_error err
  end → wp (x ←? exec q wrap f; K x) (called e (mkDatabase b [] n) m) (mkDatabase b [] n).
Proof.
  intros Hf HK Hq. apply wp_try_wrap, wp_exec.
  - intros err n' t He Hn Ht. destruct (Hf err He) as [text ->]. destruct Ht as [->|[[a Ha] ->]]; [by eapply ends_undone|].
    rewrite Ha in Hq. destruct Hq as (_ & Ht & Hp & _). by eapply ends_done.
  - destruct (q _ b) as [[a t]|err]; [rewrite HK; by apply ends_answered|]. destruct (Hf err Hq) as [text ->]. eapply ends_undone; [apply _|done|lia|done].
Qed.
Lemma call_exec {B} (q : query B) (f : error → error) (g : B → result A) :
  opaquely f →
  match q (now_of (S n)) b with
  | Ok (a, t) => commits e b m (S n) (g a) t
  | Err err => driver_error err
  end → wp (x ←? exec q wrap f; mret (g x)) (called e (mkDatabase b [] n) m) (mkDatabase b [] n).
Proof. intros Hf. by apply call_exec_then. Qed.
Lemma call_query_row {B} (q : query (option B)) (k : result B → result A) :
  (∀ err, driver_error err → ∃ text : failed, k (Err err) = Err (Errorf text)) →
  match q (now_of (S n)) b with
  | Ok (a, t) => commits e b m (S n) (k match a with Some x => Ok x | None => Err ErrNoRows end) t
  | Err err => driver_error err
  end → wp (row ← query_row q; mret (k row)) (called e (mkDatabase b [] n) m) (mkDatabase b [] n).
Proof.
  intros Hf Hq. rewrite wp_bind. apply wp_query_row, wp_exec.
  - intros err n' t He Hn Ht. wp_end. destruct (Hf err He) as [text ->]. destruct Ht as [->|[[a Ha] ->]]; [by eapply ends_undone|].
    rewrite Ha in Hq. destruct Hq as (_ & Ht & Hp & _). by eapply ends_done.
  - destruct (q _ b) as [[a t]|err]; wp_end; [by destruct a; apply ends_answered|].
    destruct (Hf err Hq) as [text ->]. eapply ends_undone; [apply _|done|lia|done].
Qed.
(** The same, a failure wrapped. *)
Lemma call_query_try {B} (q : query (option B)) (f : error → error) (K : B → prog sqlE (result A)) (g : B → result A) :
  opaquely f → (∀ x, K x = mret (g x)) →
  match q (now_of (S n)) b with
  | Ok (Some x, t) => commits e b m (S n) (g x) t
  | Ok (None, t) => commits e b m (S n) (Err (f ErrNoRows)) t
  | Err err => driver_error err
  end → wp (try_wrap f (query_row q) K) (called e (mkDatabase b [] n) m) (mkDatabase b [] n).
Proof.
  intros Hf HK Hq. apply wp_try_wrap, wp_query_row, wp_exec.
  - intros err n' t He Hn Ht. destruct (Hf err He) as [text ->]. destruct Ht as [->|[[a Ha] ->]]; [by eapply ends_undone|].
    rewrite Ha in Hq. destruct a as [x|]; destruct Hq as (_ & Ht & Hp & _); by eapply ends_done.
  - destruct (q _ b) as [[[x|] t]|err]; [rewrite HK; by apply ends_answered|by apply ends_answered|].
    destruct (Hf err Hq) as [text ->]. eapply ends_undone; [apply _|done|lia|done].
Qed.
(** A statement that writes, and the row it left read. *)
Lemma call_write_read {B C} (q : query B) (r : query (option C)) (g : tables → option C) (f : error → error) (k : result C → result A) :
  opaquely f → (∀ err, driver_error err → ∃ text : failed, k (Err err) = Err (Errorf text)) → (∀ now t, r now t = Ok (g t, t)) →
  match q (now_of (S n)) b with
  | Ok (_, t) => commits e b m (S n) (k match g t with Some x => Ok x | None => Err ErrNoRows end) t
  | Err err => driver_error err
  end → wp (_ ←? exec q wrap f; row ← query_row r; lift (k row)) (called e (mkDatabase b [] n) m) (mkDatabase b [] n).
Proof.
  intros Hf Hk Hr Hq. apply wp_try_wrap, wp_exec.
  - intros err n' t He Hn Ht. destruct (Hf err He) as [text ->]. destruct Ht as [->|[[a Ha] ->]]; [by eapply ends_undone|].
    rewrite Ha in Hq. destruct Hq as (_ & Ht & Hp & _). by eapply ends_done.
  - destruct (q _ b) as [[a t]|err].
    + destruct Hq as (Hx & Ht & Hp & Hm). eapply wp_read; [done| |].
      * intros err n' He Hn. wp_end. destruct (Hk err He) as [text ->]. eapply ends_done; [apply _|done|by eapply holds_until|done].
      * wp_end. apply ends_answered. split; [done|]. split; [by apply holds_next|done].
    + destruct (Hf err Hq) as [text ->]. eapply ends_undone; [apply _|done|lia|done].
Qed.
End writes.

(** ** Profiles *)
Lemma get_version_of {A} (l : list A) v :
  Memory.get_version l v = match version_of l v with Some x => Ok x | None => Err ErrNotFound end.
Proof.
  unfold Memory.get_version. destruct (version_of l v) as [x|] eqn:Hv.
  - assert (is_Some (version_of l v)) as Hs by by rewrite Hv. apply version_of_is_Some in Hs.
    rewrite !bool_decide_false by lia. cbn. unfold version_of in Hv. by rewrite Hv.
  - assert (¬ is_Some (version_of l v)) as Hs by (rewrite Hv; apply is_Some_None). rewrite version_of_is_Some in Hs.
    destruct (decide (v < 1)); [by rewrite bool_decide_true|]. rewrite (bool_decide_true (v > _)) by lia. by rewrite orb_true_r.
Qed.

Lemma profile_found t m n org name (v : Z) :
  wf m → holds t m n →
  match profiles t !! (org, name, v) with
  | Some row => match decodeSettings (jsonb_out (profile_settings row)) with
    | Some s => Memory.get_profile org (mkProfileRef name v) m = (Ok (mkProfile name v s), m)
    | None => False
    end
  | None => Memory.get_profile org (mkProfileRef name v) m = (Err ErrNotFound, m)
  end.
Proof.
  intros Hwf Ht. pose proof (h_profiles _ _ _ _ Ht org name v) as Hp. unfold Memory.get_profile. rewrite get_version_of. cbn [ProfileRef_Name ProfileRef_Version].
  destruct (profiles t !! _) as [row|]; inversion Hp as [? p Hset Hx Hv|Hx Hv]; clear Hp; [|done].
  rewrite Hset. symmetry in Hv. apply version_of_Some in Hv as [? Hv].
  destruct (wf_profiles _ Hwf _ _ _ _ Hv) as [Hname Hver]. destruct p as [pn pv ps]. cbn in *.
  replace v with pv by lia. by subst.
Qed.
(** What is read of a profile is what the store answers of it. *)
Lemma wp_GetProfile org ref Q t m n :
  wf m → holds t m n →
  (∀ (text : failed) n', (n ≤ n')%nat → Q (Err (Errorf text)) (mkDatabase t [] n')) →
  Q (Memory.get_profile org ref m).1 (mkDatabase t [] (S n)) →
  wp (GetProfile malformed org ref) Q (mkDatabase t [] n).
Proof.
  intros Hwf Ht He Hq. unfold GetProfile, try_wrap. eapply wp_read; [done| |].
  - intros err n' Herr Hn. wp_end. destruct (notFound_opaque "get profile" err Herr) as [text ->]. by apply He.
  - destruct ref as [name v]. pose proof (profile_found t m n org name v Hwf Ht) as Hf. cbn [ProfileRef_Name ProfileRef_Version] in *.
    destruct (profiles t !! _) as [row|]; [|by rewrite Hf in Hq]. cbn [fmap option_fmap option_map compose].
    unfold settings_of. destruct (decodeSettings _) as [s|]; [|done]. by rewrite Hf in Hq.
Qed.
Lemma call_GetProfile org ref b m n : wf m → holds b m n →
  wp (GetProfile malformed org ref) (called (Repository.GetProfile org ref) (mkDatabase b [] n) m) (mkDatabase b [] n).
Proof.
  intros Hwf Hb. eapply wp_GetProfile; [done..| |].
  - intros text n' Hn. by eapply ends_undone.
  - apply ends_read; [done|constructor|done|lia].
Qed.

Lemma published_versions t m n org name :
  holds t m n → default 0 (max_of (profile_version org name) (profiles t)) = Z.of_nat (length (Memory.slice (Memory.profiles m) (org, name))).
Proof.
  intros Ht. rewrite (versions_max _ _ (λ v, (org, name, v)) (Memory.slice (Memory.profiles m) (org, name))); [by case_match| | |].
  - intros [[o na] v] r x. unfold profile_version. cbn. case_bool_decide as Hk; [|done]. by injection Hk as -> ->; intros [= ->].
  - intros v r. unfold profile_version. cbn. by rewrite bool_decide_true.
  - intros v. rewrite <- version_of_is_Some. eapply Forall2_is_Some, (h_profiles _ _ _ _ Ht).
Qed.
Definition profile_pushed org name v (s : ExecutionSettings) m : Memory.mem :=
  Memory.set_profiles (<[(org, name) := Memory.slice (Memory.profiles m) (org, name) ++ [mkProfile name v s]]> (Memory.profiles m)) m.
(** A version stored past the last. *)
Lemma holds_profile t m n org name v j s :
  holds t m n → v = Z.of_nat (length (Memory.slice (Memory.profiles m) (org, name))) + 1 → settings_is j s →
  holds (set_profiles (<[(org, name, v) := mkProfileRow j]> (profiles t)) t) (profile_pushed org name v s m) n.
Proof.
  intros [] -> Hj. split; try done. cbn. intros o na v. rewrite slice_insert. case_decide as Hk.
  - injection Hk as <- <-. rewrite version_of_push. case_bool_decide as Hv.
    + subst v. rewrite lookup_insert_eq. by constructor.
    + rewrite lookup_insert_ne by congruence. apply h_profiles0.
  - rewrite lookup_insert_ne by congruence. apply h_profiles0.
Qed.
Lemma insert_profile_version t m n org name v s now :
  holds t m n → settings_kept s → v = Z.of_nat (length (Memory.slice (Memory.profiles m) (org, name))) + 1 →
  match insertProfileVersion org name v (encodeSettings s) now t with
  | Ok (_, t') => holds t' (profile_pushed org name v s m) n ∧ position t' = position t
  | Err err => driver_error err
  end.
Proof.
  intros Ht Hs Hv. unfold insertProfileVersion, read_json. destruct (jsonb_in _) as [j|] eqn:Hj; [|by eapply invalid_json_driver]. cbn.
  destruct (profiles t !! (org, name, v)) as [row|] eqn:Hrow.
  { assert (is_Some (profiles t !! (org, name, v))) as Hx by by rewrite Hrow.
    apply (Forall2_is_Some _ _ _ (h_profiles _ _ _ _ Ht _ _ _)), version_of_is_Some in Hx. lia. }
  cbn. rewrite written_ok; [|by apply bool_decide_true; lia|done..]. cbn. split; [|done]. apply holds_profile; [done..|by apply Hs].
Qed.

Lemma call_PublishProfile org name s b m n : wf m → holds b m n → settings_kept s →
  wp (PublishProfile malformed org name s) (called (Repository.PublishProfile org name s) (mkDatabase b [] n) m) (mkDatabase b [] n).
Proof.
  intros Hwf Hb Hs. unfold PublishProfile. apply wp_try_wrap.
  set (v := Z.of_nat (length (Memory.slice (Memory.profiles m) (org, name))) + 1).
  eapply (wp_transaction _ _ (λ v' t, v' = v ∧ holds t (profile_pushed org name v s m) (S n) ∧ position t = position b) driver_error); [done| | |].
  - intros err n' He Hn. destruct (storeError_opaque "publish profile" err He) as [text ->]. by eapply ends_undone.
  - intros v' t (-> & Ht & Hp). split.
    + assert (wf (profile_pushed org name v s m)) as Hwf' by apply (publish_profile_wf org name s m Hwf).
      eapply wp_GetProfile; [done|exact Ht| |].
      * intros text n' Hn. eapply ends_done; [apply _|lia|eapply holds_until; [exact Ht|done]|done].
      * apply ends_answered. split; [|split; [eapply holds_until; [exact Ht|lia]|by split; [lia|]]].
        unfold Memory.get_profile. rewrite get_version_of. cbn. rewrite slice_insert_eq, version_of_push, bool_decide_true by done.
        constructor.
    + intros err He. destruct (storeError_opaque "publish profile" err He) as [text ->]. eapply ends_done; [apply _|lia|exact Ht|done].
  - apply body_exec; [done|]. cbn beta iota delta [lockProfiles select]. apply body_last_row; [done|].
    unfold publishProfile. rewrite (published_versions _ _ _ _ _ Hb). fold v.
    pose proof (insert_profile_version b m (S n) org name v s (now_of (S n)) (holds_next _ _ _ Hb) Hs eq_refl) as Hi.
    destruct (insertProfileVersion _ _ _ _ _ b) as [[a t]|err]; cbn; [done|]. exact Hi.
Qed.

Lemma call_PublishProfileVersion org p b m n :
  wf m → holds b m n → settings_kept (Profile_Settings p) → 1 ≤ Profile_Version p →
  wp (PublishProfileVersion malformed org p) (called (Repository.PublishProfileVersion org p) (mkDatabase b [] n) m)
  (mkDatabase b [] n).
Proof.
  intros Hwf Hb Hs Hv. set (e := Repository.PublishProfileVersion org p). unfold PublishProfileVersion. apply wp_try_wrap.
  set (m' := (Memory.handle _ e m).2).
  assert (wf m') as Hwf' by by apply (publish_profile_version_wf org p m).
  eapply (wp_transaction _ _ (λ created t, holds t m' (S n) ∧ position t = position b ∧ ∃ stored,
    (Memory.handle _ e m).1 = Ok (stored, created) ∧
    Memory.get_profile org (mkProfileRef (Profile_Name p) (Profile_Version p)) m' = (Ok stored, m') ∧
    Memory.position m' = Memory.position m) (body_error e m (storeError "publish profile version"))).
  - intros err He. by left.
  - intros err n' [He|(y & Hy & <-)] Hn.
    + destruct (storeError_opaque "publish profile version" err He) as [text ->]. by eapply ends_undone.
    + apply ends_read; [done|rewrite Hy; constructor|by rewrite Hy|lia].
  - intros created t (Ht & Hp & stored & He & Hg & Hm). split.
    + unfold try_bind. rewrite wp_bind. eapply wp_GetProfile; [exact Hwf'|exact Ht| |].
      * intros text n' Hn. eapply ends_done; [apply _|lia|eapply holds_until; [exact Ht|done]|done].
      * rewrite Hg. apply ends_answered. split; [rewrite He; constructor|].
        split; [by apply holds_next|]. split; [lia|]. by rewrite <- Hm.
    + intros err He'. destruct (storeError_opaque "publish profile version" err He') as [text ->].
      eapply ends_done; [apply _|lia|exact Ht|done].
  - assert (∀ err, driver_error err → body_error e m (storeError "publish profile version") err) as Hd by by left.
    apply body_exec; [done|]. cbn beta iota delta [lockProfiles select].
    eapply body_row; [done| |].
    { intros err He. cbn beta iota. rewrite (proj1 He). apply body_error_at. auto. }
    pose proof (profile_found b m n org (Profile_Name p) (Profile_Version p) Hwf Hb) as Hf.
    pose proof (h_profiles _ _ _ _ Hb org (Profile_Name p) (Profile_Version p)) as Hrow. apply Forall2_is_Some in Hrow.
    rewrite version_of_is_Some in Hrow. subst m'. unfold body_error. cbn [Memory.handle e] in *. unfold Memory.publish_profile_version in *.
    destruct (profiles b !! _) as [row|] eqn:Hr; cbn [fmap option_fmap option_map compose].
    + destruct (decodeSettings _) as [s|] eqn:Hds; [|done]. rewrite bool_decide_true in * by (apply Hrow; eauto).
      unfold Memory.get_profile in Hf. rewrite get_version_of in Hf. cbn [ProfileRef_Name ProfileRef_Version] in Hf.
      unfold version_of in Hf. destruct (Memory.index _ _) as [q|] eqn:Hq; [|done]. injection Hf as ->. cbn [Profile_Settings] in *.
      destruct (negb (Validation.Settings_Same s (Profile_Settings p))) eqn:Hsame.
      * apply body_error_at. right. by eexists.
      * apply body_ok. split; [by apply holds_next|]. split; [done|]. eexists. split; [done|]. split; [|done]. cbn [snd].
        unfold Memory.get_profile. rewrite get_version_of. unfold version_of. cbn [ProfileRef_Name ProfileRef_Version]. by rewrite Hq.
    + assert (¬ Profile_Version p ≤ Z.of_nat (length (Memory.slice (Memory.profiles m) (org, Profile_Name p)))) as Hgt.
      { intros Hle. destruct (proj2 Hrow) as [? [=]]. lia. }
      rewrite bool_decide_false in * by done. cbn [errors_is bool_decide].
      apply body_query_row; [by left|]. cbn beta iota delta [latestProfileVersion select].
      rewrite (published_versions _ _ _ _ _ Hb). case_bool_decide as Hnext; cbn [negb] in *.
      * apply body_exec; [by left|].
        pose proof (insert_profile_version b m (S n) org (Profile_Name p) (Profile_Version p) (Profile_Settings p) (now_of (S n))
          (holds_next _ _ _ Hb) Hs Hnext) as Hi.
        destruct (insertProfileVersion _ _ _ _ _ b) as [[a t]|err]; [|left; exact Hi].
        destruct Hi as [Ht Hp]. apply body_ok. split; [exact Ht|]. split; [done|]. eexists. split; [done|]. split; [|done].
        unfold Memory.get_profile. rewrite get_version_of. cbn. rewrite slice_insert_eq, version_of_push, bool_decide_true by done. done.
      * apply body_error_at. right. by eexists.
Qed.

(** ** Templates *)
Lemma template_found t m n org name (v : Z) :
  wf m → holds t m n →
  match templates t !! (org, name, v) with
  | Some row => ∃ config, decodeConfig malformed (jsonb_out (template_config row)) = Ok config ∧
    Memory.get_template org (mkTemplateRef name v) m =
    (Ok (mkTemplate name v (mkProfileRef (template_profile_name row) (template_profile_version row)) config), m)
  | None => Memory.get_template org (mkTemplateRef name v) m = (Err ErrNotFound, m)
  end.
Proof.
  intros Hwf Ht. pose proof (h_templates _ _ _ _ Ht org name v) as Hp. unfold Memory.get_template. rewrite get_version_of.
  cbn [TemplateRef_Name TemplateRef_Version].
  destruct (templates t !! _) as [row|]; inversion Hp as [? p (Hn & Hv' & Hc) Hx Hv|Hx Hv]; clear Hp; [|done].
  exists (Template_Config p). split; [done|]. symmetry in Hv. apply version_of_Some in Hv as [? Hv].
  destruct (wf_templates _ Hwf _ _ _ _ Hv) as [Hname Hver]. destruct p as [pn pv [rn rv] pc]. cbn in *.
  replace v with pv by lia. by subst.
Qed.
Lemma wp_GetTemplate org ref Q t m n :
  wf m → holds t m n →
  (∀ (text : failed) n', (n ≤ n')%nat → Q (Err (Errorf text)) (mkDatabase t [] n')) →
  Q (Memory.get_template org ref m).1 (mkDatabase t [] (S n)) →
  wp (GetTemplate malformed org ref) Q (mkDatabase t [] n).
Proof.
  intros Hwf Ht He Hq. unfold GetTemplate, try_wrap. eapply wp_read; [done| |].
  - intros err n' Herr Hn. wp_end. destruct (notFound_opaque "get template" err Herr) as [text ->]. by apply He.
  - destruct ref as [name v]. pose proof (template_found t m n org name v Hwf Ht) as Hf. cbn [TemplateRef_Name TemplateRef_Version] in *.
    destruct (templates t !! _) as [row|]; [|by rewrite Hf in Hq]. cbn [fmap option_fmap option_map compose].
    destruct Hf as (config & Hc & Hf). rewrite Hc. by rewrite Hf in Hq.
Qed.
Lemma call_GetTemplate org ref b m n : wf m → holds b m n →
  wp (GetTemplate malformed org ref) (called (Repository.GetTemplate org ref) (mkDatabase b [] n) m) (mkDatabase b [] n).
Proof.
  intros Hwf Hb. eapply wp_GetTemplate; [done..| |].
  - intros text n' Hn. by eapply ends_undone.
  - apply ends_read; [done|constructor|done|lia].
Qed.

Lemma template_versions t m n org name :
  holds t m n →
  max_of (template_version org name) (templates t) =
  match Memory.slice (Memory.templates m) (org, name) with [] => None | l => Some (Z.of_nat (length l)) end.
Proof.
  intros Ht. rewrite (versions_max _ _ (λ v, (org, name, v)) (Memory.slice (Memory.templates m) (org, name))); [by case_match| | |].
  - intros [[o na] v] r x. unfold template_version. cbn. case_bool_decide as Hk; [|done]. by injection Hk as -> ->; intros [= ->].
  - intros v r. unfold template_version. cbn. by rewrite bool_decide_true.
  - intros v. rewrite <- version_of_is_Some. eapply Forall2_is_Some, (h_templates _ _ _ _ Ht).
Qed.
Lemma profile_is_published t m n org ref :
  holds t m n → published (Memory.profiles m) org ref → profile_published t org (ProfileRef_Name ref) (ProfileRef_Version ref) = true.
Proof.
  intros Ht Hp. unfold profile_published. apply bool_decide_true.
  by apply (Forall2_is_Some _ _ _ (h_profiles _ _ _ _ Ht _ _ _)).
Qed.

Definition template_pushed org (tm : Template) m : Memory.mem :=
  let l := Memory.slice (Memory.templates m) (org, Template_Name tm) in
  Memory.set_templates (<[(org, Template_Name tm) := l ++ [Memory.with_version tm (Z.of_nat (length l) + 1)]]> (Memory.templates m)) m.
Lemma holds_template t m n org tm j :
  let v := Z.of_nat (length (Memory.slice (Memory.templates m) (org, Template_Name tm))) + 1 in
  holds t m n → config_is malformed j (Template_Config tm) →
  holds (set_templates (<[(org, Template_Name tm, v) :=
    mkTemplateRow (ProfileRef_Name (Template_Profile tm)) (ProfileRef_Version (Template_Profile tm)) j]> (templates t)) t)
  (template_pushed org tm m) n.
Proof.
  intros v [] Hj. split; try done. cbn. intros o na v'. rewrite slice_insert. case_decide as Hk.
  - injection Hk as <- <-. rewrite version_of_push. case_bool_decide as Hv.
    + subst v'. fold v. rewrite lookup_insert_eq. by constructor.
    + rewrite lookup_insert_ne by (unfold v; congruence). apply h_templates0.
  - rewrite lookup_insert_ne by congruence. apply h_templates0.
Qed.
Lemma publish_template_version t m n org tm now :
  let v := Z.of_nat (length (Memory.slice (Memory.templates m) (org, Template_Name tm))) + 1 in
  holds t m n → published (Memory.profiles m) org (Template_Profile tm) → config_kept malformed (Template_Config tm) →
  match publishTemplate org (Template_Name tm) (ProfileRef_Name (Template_Profile tm)) (ProfileRef_Version (Template_Profile tm))
    (encodeConfig (Template_Config tm)) now t with
  | Ok (v', t') => v' = Some v ∧ holds t' (template_pushed org tm m) n ∧ position t' = position t ∧
    is_Some (templates t' !! (org, Template_Name tm, v)) ∧ publications t' = publications t
  | Err err => driver_error err
  end.
Proof.
  intros v Ht Hp Hc. unfold publishTemplate, read_json. destruct (jsonb_in _) as [j|] eqn:Hj; [|by eapply invalid_json_driver]. cbn.
  rewrite (template_versions _ _ _ _ _ Ht).
  assert (default 0 match Memory.slice (Memory.templates m) (org, Template_Name tm) with
    [] => None | l => Some (Z.of_nat (length l)) end + 1 = v) as -> by (unfold v; by case_match).
  destruct (templates t !! (org, Template_Name tm, v)) as [row|] eqn:Hrow.
  { assert (is_Some (templates t !! (org, Template_Name tm, v))) as Hx by by rewrite Hrow.
    apply (Forall2_is_Some _ _ _ (h_templates _ _ _ _ Ht _ _ _)), version_of_is_Some in Hx. unfold v in Hx. lia. }
  rewrite written_ok; [|by apply bool_decide_true; lia|done|by eapply profile_is_published].
  split; [done|]. split; [by apply holds_template; [|apply Hc]|]. split; [done|]. split; [|done].
  cbn. rewrite lookup_insert_eq. by eexists.
Qed.

Lemma call_PublishTemplate org tm b m n :
  wf m → holds b m n → published (Memory.profiles m) org (Template_Profile tm) → config_kept malformed (Template_Config tm) →
  wp (PublishTemplate malformed org tm) (called (Repository.PublishTemplate org tm) (mkDatabase b [] n) m) (mkDatabase b [] n).
Proof.
  intros Hwf Hb Hp Hc. unfold PublishTemplate. apply wp_try_wrap.
  set (v := Z.of_nat (length (Memory.slice (Memory.templates m) (org, Template_Name tm))) + 1).
  eapply (wp_transaction _ _ (λ v' t, v' = v ∧ holds t (template_pushed org tm m) (S n) ∧ position t = position b) driver_error);
    [done| | |].
  - intros err n' He Hn. destruct (storeError_opaque "publish template" err He) as [text ->]. by eapply ends_undone.
  - intros v' t (-> & Ht & Hpos). split.
    + assert (wf (template_pushed org tm m)) as Hwf' by apply (publish_template_wf org tm m Hwf).
      eapply wp_GetTemplate; [done|exact Ht| |].
      * intros text n' Hn. eapply ends_done; [apply _|lia|eapply holds_until; [exact Ht|done]|done].
      * apply ends_answered. split; [|split; [eapply holds_until; [exact Ht|lia]|by split; [lia|]]].
        unfold Memory.get_template. rewrite get_version_of. cbn. rewrite slice_insert_eq, version_of_push, bool_decide_true by done.
        constructor.
    + intros err He. destruct (storeError_opaque "publish template" err He) as [text ->]. eapply ends_done; [apply _|lia|exact Ht|done].
  - apply body_exec; [done|]. cbn beta iota delta [lockTemplates select]. apply body_last_row; [done|].
    pose proof (publish_template_version b m (S n) org tm (now_of (S n)) (holds_next _ _ _ Hb) Hp Hc) as Hi.
    destruct (publishTemplate _ _ _ _ _ _ b) as [[a t]|err]; cbn; [|exact Hi].
    by destruct Hi as (-> & Ht & Hpos & _).
Qed.

Lemma call_PublishOnce p tm b m n :
  wf m → holds b m n → published (Memory.profiles m) (Key_Organization (Publication_Key p)) (Template_Profile tm) →
  config_kept malformed (Template_Config tm) → unassigned_binding (Publication_Binding p) →
  wp (PublishOnce p tm) (called (Repository.PublishOnce p tm) (mkDatabase b [] n) m) (mkDatabase b [] n).
Proof.
  intros Hwf Hb Hp Hc Hun. set (e := Repository.PublishOnce p tm). unfold PublishOnce.
  apply (call_transaction e b m n Hb (storeError "publish") id); [auto with opaque|].
  apply body_exec; [by left|]. cbn beta iota delta [lockTemplates select].
  eapply body_row; [done| |].
  { intros err He. cbn beta iota. rewrite (proj1 He). apply body_error_at. by left. }
  unfold commits. cbn [Memory.handle e]. unfold Memory.publish_once. rewrite (h_publications _ _ _ _ Hb), lookup_fmap.
  destruct (Publication_Key p) as [org rid] eqn:Hkey. cbn [Key_Organization Key_RequestID] in *.
  destruct (Memory.publications m !! mkRequestKey org rid) as [stored|] eqn:Hstored; cbn [fmap option_fmap option_map].
  - apply body_ok. destruct (h_publications_ok _ _ _ _ Hb _ _ Hstored) as [Hk Hu]. cbn [publication_row].
    split; [|by split; [apply holds_next|]]. destruct stored as [k' bd [tn tv]]. cbn in *. subst k'.
    rewrite binding_read_unassigned by done. constructor.
  - cbn [errors_is bool_decide negb]. apply body_query_row; [by left|].
    pose proof (publish_template_version b m (S n) org tm (now_of (S n)) (holds_next _ _ _ Hb) Hp Hc) as Hi.
    destruct (publishTemplate _ _ _ _ _ _ b) as [[a t]|err]; [|left; exact Hi].
    destruct Hi as (-> & Ht & Hpos & Htm & Hpubs). apply body_exec; [by left|]. unfold insertPublication.
    rewrite Hpubs, (h_publications _ _ _ _ Hb), lookup_fmap, Hstored. unfold template_published.
    rewrite written_ok; [|done|done|by apply bool_decide_true]. cbn [mbind result_bind]. apply body_ok.
    split; [constructor|]. split; [|split; [cbn; lia|done]].
    destruct Ht. split; try done; cbn.
    + rewrite fmap_insert. by f_equal.
    + intros k q [[<- <-]|[? Hq]]%lookup_insert_cases; [done|]. by apply (h_publications_ok _ _ _ _ Hb).
Qed.
End refine.
End PostgresRefine.
