(* ===== verification/PostgresRecords.v ===== *)
(** The lists the repository over PostgreSQL answers, in the order of the store in memory, and its methods that record
    operators, statuses and activations lead to what the store in memory does. *)
From S2P Require Import Prelude GoStd Json JsonText Errors Types Validation Repository Memory MemoryInvariant Feed Distribution Sql Postgres SqlSpec PostgresSpec PostgresRefine.

Import Json JsonText MemoryInvariant Distribution Sql Postgres SqlSpec PostgresSpec PostgresRefine.

Module PostgresLists.

(** ** Two lists of one content, ordered *)

(** Lists matched one to one by a relation are so up to their order. *)
Lemma matched {A B} (R : A → B → Prop) (l : list A) (l' : list B) :
  NoDup l → NoDup l' →
  (∀ a, a ∈ l → ∃ b, b ∈ l' ∧ R a b) → (∀ b, b ∈ l' → ∃ a, a ∈ l ∧ R a b) →
  (∀ a b b', R a b → R a b' → b = b') → (∀ a a' b, R a b → R a' b → a = a') →
  ∃ ts, Forall2 R l ts ∧ ts ≡ₚ l'.
Proof.
  intros Hl Hl' Hto Hof Hf Hi.
  assert (∃ ts, Forall2 R l ts ∧ NoDup ts ∧ ∀ b, b ∈ ts → b ∈ l') as (ts & Hts & Hn & Hin).
  { clear Hof. induction l as [|a l IH].
    { exists []. split; [constructor|]. split; [constructor|]. intros b Hb. by apply not_elem_of_nil in Hb. }
    apply NoDup_cons in Hl as [Ha Hl]. destruct (Hto a) as (b & Hb & Hr); [by left|].
    destruct IH as (ts & Hts & Hn & Hin); [done|intros; apply Hto; by right|].
    exists (b :: ts). split; [by constructor|]. split.
    - constructor; [|done]. intros [i Hbi]%list_elem_of_lookup.
      destruct (Forall2_lookup_r _ _ _ _ _ Hts Hbi) as (a' & Ha' & Hr').
      apply Ha. rewrite (Hi _ _ _ Hr Hr'). by eapply list_elem_of_lookup_2.
    - intros b' [->|?]%elem_of_cons; auto. }
  exists ts. split; [done|]. apply NoDup_Permutation; [done..|]. intros b. split; [apply Hin|].
  intros Hb. destruct (Hof b Hb) as (a & [i Ha]%list_elem_of_lookup & Hr).
  destruct (Forall2_lookup_l _ _ _ _ _ Hts Ha) as (b' & Hb' & Hr').
  rewrite (Hf _ _ _ Hr Hr'). by eapply list_elem_of_lookup_2.
Qed.

Lemma StronglySorted_matched {A B} (R : A → B → Prop) (leA : relation A) (leB : relation B) l ts :
  (∀ a b a' b', R a b → R a' b' → leA a a' → leB b b') → Forall2 R l ts → StronglySorted leA l → StronglySorted leB ts.
Proof.
  intros Hle Hts. induction Hts as [|a b l ts Hr Hts IH]; intros Hs; [constructor|].
  apply StronglySorted_inv in Hs as [Hs Ha]. constructor; [auto|]. apply Forall_lookup. intros i b' Hb'.
  destruct (Forall2_lookup_r _ _ _ _ _ Hts Hb') as (a' & Ha' & Hr'). eapply Hle; [done..|]. by eapply Forall_lookup_1 in Ha.
Qed.

(** Matched lists, each ordered by its own order, are matched one by one. *)
Lemma sorted_matched {A B} (R : A → B → Prop) (leA : relation A) (leB : relation B)
    `{!RelDecision leA, !RelDecision leB, !Transitive leA, !Total leA, !Transitive leB, !Total leB} l l' ts :
  (∀ a b a' b', R a b → R a' b' → leA a a' → leB b b') →
  (∀ b b', b ∈ l' → b' ∈ l' → leB b b' → leB b' b → b = b') →
  Forall2 R l ts → ts ≡ₚ l' → Forall2 R (merge_sort leA l) (merge_sort leB l').
Proof.
  intros Hle Hanti Hts Hp.
  destruct (Permutation_Forall2 (symmetry (merge_sort_Permutation leA l)) Hts) as (ts' & Hp' & Hts').
  assert (ts' = merge_sort leB l') as <-; [|done].
  apply (StronglySorted_unique_strong leB).
  - intros b b' Hb Hb'. apply Hanti; [by rewrite <- Hp, Hp'|by rewrite <- (merge_sort_Permutation leB l')].
  - eapply StronglySorted_matched; [exact Hle|exact Hts'|]. apply StronglySorted_merge_sort; apply _.
  - apply StronglySorted_merge_sort; apply _.
  - by rewrite <- Hp', Hp, (merge_sort_Permutation leB l').
Qed.

(** Lists whose elements have each a key of their own, ordered by their keys. *)
Lemma NoDup_key {A K} (key : A → K) l x y : NoDup (key <$> l) → x ∈ l → y ∈ l → key x = key y → x = y.
Proof.
  induction l as [|z l IH]; [intros _ Hx; by apply not_elem_of_nil in Hx|]. cbn. intros [Hz Hl]%NoDup_cons.
  intros [->|Hx]%elem_of_cons [->|Hy]%elem_of_cons Heq; [done| | |by apply IH].
  - destruct Hz. rewrite Heq. by apply list_elem_of_fmap_2.
  - destruct Hz. rewrite <- Heq. by apply list_elem_of_fmap_2.
Qed.
Lemma keyed_matched {A B K} (R : A → B → Prop) (leA : relation A) (leB : relation B) (kA : A → K) (kB : B → K)
    `{!RelDecision leA, !RelDecision leB, !Transitive leA, !Total leA, !Transitive leB, !Total leB} l l' :
  (∀ a b, R a b → kA a = kB b) →
  (∀ a b a' b', R a b → R a' b' → leA a a' → leB b b') → (∀ b b', b ∈ l' → b' ∈ l' → leB b b' → leB b' b → kB b = kB b') →
  NoDup (kA <$> l) → NoDup (kB <$> l') →
  (∀ a, a ∈ l → ∃ b, b ∈ l' ∧ R a b) → (∀ b, b ∈ l' → ∃ a, a ∈ l ∧ kA a = kB b) →
  Forall2 R (merge_sort leA l) (merge_sort leB l').
Proof.
  intros Hk Hle Hanti Hl Hl' Hto Hof.
  destruct (matched (λ a b, R a b ∧ a ∈ l ∧ b ∈ l') l l') as (ts & Hts & Hp).
  - by eapply NoDup_fmap_1.
  - by eapply NoDup_fmap_1.
  - intros a Ha. destruct (Hto a Ha) as (b & Hb & Hr). eauto 6.
  - intros b Hb. destruct (Hof b Hb) as (a & Ha & Heq). destruct (Hto a Ha) as (b' & Hb' & Hr).
    assert (b' = b) as -> by (eapply (NoDup_key kB l'); [done..|]; by rewrite <- (Hk _ _ Hr)). eauto 6.
  - intros a b b' (Hr & _ & Hb) (Hr' & _ & Hb'). eapply (NoDup_key kB l'); [done..|].
    by rewrite <- (Hk _ _ Hr), <- (Hk _ _ Hr').
  - intros a a' b (Hr & Ha & _) (Hr' & Ha' & _). eapply (NoDup_key kA l); [done..|]. by rewrite (Hk _ _ Hr), (Hk _ _ Hr').
  - eapply (sorted_matched R leA leB l l' ts Hle); [| |exact Hp].
    + intros b b' Hb Hb' H1 H2. eapply (NoDup_key kB l'); eauto.
    + eapply Forall2_impl; [exact Hts|]. by intros ? ? [? _].
Qed.

Lemma NoDup_rows_key `{Countable K} {R B} (p : K → R → bool) (m : gmap K R) (f : K * R → B) :
  (∀ k r k' r', m !! k = Some r → m !! k' = Some r' → p k r = true → p k' r' = true → f (k, r) = f (k', r') → k = k') →
  NoDup (f <$> rows p m).
Proof.
  intros Hf. apply NoDup_fmap_2_strong.
  - intros [k r] [k' r'] [Hp Hk]%elem_of_rows [Hp' Hk']%elem_of_rows Heq. assert (k = k') as -> by eauto. congruence.
  - eapply NoDup_fmap_1, NoDup_rows.
Qed.
Lemma elem_of_rows_fmap `{Countable K} {R B} (p : K → R → bool) (m : gmap K R) (f : K * R → B) b :
  b ∈ f <$> rows p m ↔ ∃ k r, m !! k = Some r ∧ p k r = true ∧ b = f (k, r).
Proof.
  rewrite list_elem_of_fmap. split.
  - intros ([k r] & -> & [? ?]%elem_of_rows). eauto.
  - intros (k & r & ? & ? & ->). exists (k, r). split; [done|]. by apply elem_of_rows.
Qed.
(** Selected entries of a map, each with a key its own key gives. *)
Lemma NoDup_omap_key `{Countable K} {V B K'} (f : K * V → option B) (key : B → K') (g : K → K') (m : gmap K V) :
  (∀ k v b, m !! k = Some v → f (k, v) = Some b → key b = g k) →
  (∀ k v k' v' b b', m !! k = Some v → m !! k' = Some v' → f (k, v) = Some b → f (k', v') = Some b' → g k = g k' → k = k') →
  NoDup (key <$> omap f (map_to_list m)).
Proof.
  intros Hkey Hinj. assert (∀ kv, kv ∈ map_to_list m → m !! kv.1 = Some kv.2) as Hin.
  { intros [k v]. by rewrite elem_of_map_to_list. }
  pose proof (NoDup_fst_map_to_list m) as Hn. induction (map_to_list m) as [|[k v] l IH]; cbn; [constructor|].
  apply NoDup_cons in Hn as [Hk Hl]. assert (NoDup (key <$> omap f l)) as Hrest by (apply IH; [|done]; intros; apply Hin; by right).
  destruct (f (k, v)) as [b|] eqn:Hb; [|done]. cbn. constructor; [|done].
  intros (b' & Heq & (kv & Hkv & Hb')%list_elem_of_omap)%list_elem_of_fmap. destruct kv as [k' v']. apply Hk.
  assert (m !! k = Some v) as Hmk by (apply (Hin (k, v)); by left).
  assert (m !! k' = Some v') as Hmk' by (apply (Hin (k', v')); by right).
  rewrite (Hkey _ _ _ Hmk Hb), (Hkey _ _ _ Hmk' Hb') in Heq. rewrite (Hinj _ _ _ _ _ _ Hmk Hmk' Hb Hb' Heq).
  by apply (list_elem_of_fmap_2 fst l (k', v')).
Qed.

Lemma omap_snd {K V B} (f : V → option B) (l : list (K * V)) : omap f l.*2 = omap (λ kv, f kv.2) l.
Proof. induction l as [|[k v] l IH]; [done|]. cbn. by rewrite IH. Qed.

Section lists.
Context `{K8s : Kubernetes, RJ : !ResourcesJSON, QJ : !QuantityJSON, SE : !SemanticEquality, DB : Database, DL : !DatabaseLaws}.
Context (malformed : string → string).
Implicit Types (t : tables) (m : Memory.mem).
Abbreviation holds := (holds malformed).
Abbreviation called := (called malformed).

(** A query of many rows, alone. *)
Lemma wp_list {B X} (q : query B) (f : tables → B) (k : result B → prog sqlE X) Q b n :
  (∀ now t, q now t = Ok (f t, t)) →
  (∀ err n', driver_error err → (n ≤ n')%nat → wp (k (Err err)) Q (mkDatabase b [] n')) →
  wp (k (Ok (f b))) Q (mkDatabase b [] (S n)) →
  wp (rows ← exec q; k rows) Q (mkDatabase b [] n).
Proof.
  intros Hq Hd Hk. rewrite wp_bind. apply wp_exec.
  - intros err n' t He Hn [->|[[a Ha] ->]]; [by apply Hd|]. rewrite Hq in Ha. injection Ha as _ ->. by apply Hd.
  - by rewrite Hq.
Qed.

#[local] Instance collate_trans {A} (key : A → string) : Transitive (λ x y, Is_true (collate (key x) (key y))).
Proof. intros x y z. rewrite !Is_true_true, !ordered_by_bytes. by etrans. Qed.
#[local] Instance collate_total {A} (key : A → string) : Total (λ x y, Is_true (collate (key x) (key y))).
Proof. intros x y. rewrite !Is_true_true, !ordered_by_bytes. apply String.le_total. Qed.

(** *** Templates *)
Definition template_read (r : string * Z * (string * Z * string)) (tm : Template) : Prop :=
  let '(name, version, (profile_name, profile_version, raw)) := r in
  ∃ config, decodeConfig malformed raw = Ok config ∧ tm = mkTemplate name version (mkProfileRef profile_name profile_version) config.
Lemma scanTemplates_read rows tms : Forall2 template_read rows tms → scanTemplates malformed rows = Ok tms.
Proof.
  induction 1 as [|[[name v] [[pn pv] raw]] tm rows tms (config & Hc & ->) _ IH]; [done|]. cbn [scanTemplates]. by rewrite Hc, IH.
Qed.
#[local] Instance template_le_trans : Transitive Memory.template_le.
Proof. intros x y z. unfold Memory.template_le. by etrans. Qed.
#[local] Instance template_le_total : Total Memory.template_le.
Proof. intros x y. apply String.le_total. Qed.

Definition template_columns (kr : (string * string * Z) * templateRow) : string * Z * (string * Z * string) :=
  (kr.1.1.2, kr.1.2, (template_profile_name kr.2, template_profile_version kr.2, jsonb_out (template_config kr.2))).
(** The row of a name's last version holds the store's last template of the name. *)
Lemma last_template t m n org name v row :
  wf m → holds t m n → templates t !! (org, name, v) = Some row → max_of (template_version org name) (templates t) = Some v →
  ∃ l tm, Memory.templates m !! (org, name) = Some l ∧ last l = Some tm ∧ Template_Name tm = name ∧
  template_read (template_columns ((org, name, v), row)) tm.
Proof.
  intros Hwf Ht Hrow Hmax. rewrite (template_versions _ _ _ _ _ _ Ht) in Hmax.
  pose proof (template_found malformed t m n org name v Hwf Ht) as Hf. rewrite Hrow in Hf. destruct Hf as (config & Hc & Hg).
  unfold Memory.get_template in Hg. rewrite get_version_of in Hg. cbn [TemplateRef_Name TemplateRef_Version] in Hg.
  destruct (version_of _ v) as [tm|] eqn:Hv; [|done]. injection Hg as ->. apply version_of_Some in Hv as [? Hv].
  unfold Memory.slice in *. destruct (Memory.templates m !! (org, name)) as [l|]; [|done]. cbn in *.
  eexists l, _. split; [done|]. split; [|split; [|exists config; by split]]; [|done].
  rewrite last_lookup. rewrite <- Hv. f_equal. destruct l; [done|]. injection Hmax as <-. cbn. lia.
Qed.

Lemma list_templates_read t m n org now :
  wf m → holds t m n →
  ∃ rows, listTemplates org now t = Ok (rows, t) ∧ scanTemplates malformed rows = (Memory.list_templates org m).1.
Proof.
  intros Hwf Ht. eexists. split; [done|]. unfold Memory.list_templates. apply scanTemplates_read.
  eapply (keyed_matched template_read _ _ (λ r, r.1.1) Template_Name).
  - by intros [[name v] [[pn pv] raw]] tm (config & _ & ->).
  - intros [[name v] [[pn pv] raw]] tm [[name' v'] [[pn' pv'] raw']] tm' (config & _ & ->) (config' & _ & ->).
    cbn. by rewrite Is_true_true, ordered_by_bytes.
  - intros x y _ _ Hxy Hyx. by apply (anti_symm String.le).
  - rewrite <- list_fmap_compose. apply NoDup_rows_key. intros [[o name] v] r [[o' name'] v'] r' _ _ Hp Hp' Heq.
    cbn in Hp, Hp', Heq. subst name'. apply andb_true_iff in Hp as [->%bool_decide_eq_true Hm%bool_decide_eq_true],
      Hp' as [->%bool_decide_eq_true Hm'%bool_decide_eq_true]. congruence.
  - apply (NoDup_omap_key _ _ snd).
    + intros [o name] l tm Hl Htm. cbn in Htm. case_bool_decide; [|done].
      pose proof (last_lookup_Some _ _ Htm) as Hi. rewrite <- (slice_Some _ _ _ Hl) in Hi. by apply (wf_templates _ Hwf _ _ _ _ Hi).
    + intros [o name] l [o' name'] l' tm tm' _ _ Htm Htm' Heq. cbn in Htm, Htm', Heq. by repeat case_bool_decide; subst.
  - intros r ([[o name] v] & row & Hrow & Hp & ->)%elem_of_rows_fmap.
    cbn in Hp. apply andb_true_iff in Hp as [->%bool_decide_eq_true Hm%bool_decide_eq_true].
    destruct (last_template _ _ _ _ _ _ _ Hwf Ht Hrow Hm) as (l & tm & Hl & Hlast & Hn & Hr). exists tm. split; [|done].
    apply list_elem_of_omap. exists ((org, name), l). split; [by apply elem_of_map_to_list|]. cbn. by rewrite bool_decide_true.
  - intros tm ([[o name] l] & Hl%elem_of_map_to_list & Hlast)%list_elem_of_omap. cbn in Hlast. case_bool_decide; [subst o|done].
    pose proof (last_lookup_Some _ _ Hlast) as Hi. rewrite <- (slice_Some _ _ _ Hl) in Hi.
    destruct (wf_templates _ Hwf _ _ _ _ Hi) as [Hn _].
    assert (max_of (template_version org name) (templates t) = Some (Z.of_nat (length l))) as Hmax.
    { rewrite (template_versions _ _ _ _ _ _ Ht), (slice_Some _ _ _ Hl). by destruct l. }
    assert (is_Some (templates t !! (org, name, Z.of_nat (length l)))) as [row Hrow].
    { apply (Forall2_is_Some _ _ _ (h_templates _ _ _ _ Ht _ _ _)), version_of_is_Some. rewrite (slice_Some _ _ _ Hl).
    destruct l; [done|]. cbn. lia. }
    exists (template_columns ((org, name, Z.of_nat (length l)), row)). split; [|done].
    apply elem_of_rows_fmap. eexists _, row. split; [done|]. split; [|done]. cbn. by rewrite Hmax, !bool_decide_true.
Qed.
Lemma call_ListTemplates org b m n : wf m → holds b m n →
  wp (ListTemplates malformed org) (called (Repository.ListTemplates org) (mkDatabase b [] n) m) (mkDatabase b [] n).
Proof.
  intros Hwf Hb. unfold ListTemplates, try_wrap. eapply wp_list; [done| |].
  - intros err n' He Hn. wp_end. destruct (storeError_opaque "list templates" err He) as [text ->]. by eapply ends_undone.
  - destruct (list_templates_read b m n org 0 Hwf Hb) as (rows & [= <-] & Hr). wp_end. rewrite Hr.
    apply ends_read; [done|constructor|done|lia].
Qed.

(** *** Profiles *)
#[local] Instance ref_le_trans : Transitive Memory.ref_le.
Proof.
  intros x y z. unfold Memory.ref_le. repeat case_bool_decide; try congruence; try lia; try (by etrans).
  intros Hxy Hyz. assert (ProfileRef_Name x = ProfileRef_Name y); [|congruence].
  apply (anti_symm String.le); [done|]. by replace (ProfileRef_Name x) with (ProfileRef_Name z).
Qed.
#[local] Instance ref_le_total : Total Memory.ref_le.
Proof.
  intros x y. unfold Memory.ref_le. repeat case_bool_decide; try congruence; [lia|]. apply String.le_total.
Qed.
Definition listed_ref (r : string * Z) : ProfileRef := mkProfileRef r.1 r.2.
Lemma listed_le_iff x y : Is_true (listed_le x y) ↔ Memory.ref_le (listed_ref x) (listed_ref y).
Proof.
  unfold listed_le, Memory.ref_le. cbn. case_bool_decide; [by rewrite bool_decide_spec|]. by rewrite Is_true_true, ordered_by_bytes.
Qed.
#[local] Instance listed_le_trans : Transitive (λ x y, Is_true (listed_le x y)).
Proof. intros x y z. rewrite !listed_le_iff. by etrans. Qed.
#[local] Instance listed_le_total : Total (λ x y, Is_true (listed_le x y)).
Proof. intros x y. rewrite !listed_le_iff. apply ref_le_total. Qed.

Lemma list_profiles_read t m n org now :
  wf m → holds t m n →
  ∃ rows, listProfiles org now t = Ok (rows, t) ∧ Ok (listed_ref <$> rows) = (Memory.list_profiles org m).1.
Proof.
  intros Hwf Ht. eexists. split; [done|]. unfold Memory.list_profiles. cbn [fst]. f_equal.
  set (refs := map_to_list _ ≫= _).
  assert (∀ ref, ref ∈ refs ↔ is_Some (version_of (Memory.slice (Memory.profiles m) (org, ProfileRef_Name ref)) (ProfileRef_Version ref))) as Hrefs.
  { intros ref. unfold refs. rewrite list_elem_of_bind. split.
    - intros ([[o name] l] & Hin & Hl%elem_of_map_to_list). case_bool_decide as Ho; [|by apply not_elem_of_nil in Hin]. cbn in Ho. subst o.
      apply list_elem_of_fmap in Hin as (p & -> & [i Hi]%list_elem_of_lookup). rewrite <- (slice_Some _ _ _ Hl) in Hi.
      destruct (wf_profiles _ Hwf _ _ _ _ Hi) as [-> ->]. exists p. cbn [ProfileRef_Name ProfileRef_Version]. apply version_of_Some. split; [lia|].
      by replace (Z.to_nat (Z.of_nat i + 1 - 1)) with i by lia.
    - intros [p [? Hp]%version_of_Some]. destruct (wf_profiles _ Hwf _ _ _ _ Hp) as [Hn Hv].
      apply slice_lookup in Hp as (l & Hl & Hp). exists ((org, ProfileRef_Name ref), l). split; [|by apply elem_of_map_to_list].
      cbn [fst]. rewrite bool_decide_true by done. apply list_elem_of_fmap. exists p. split; [|by eapply list_elem_of_lookup_2].
      destruct ref as [rn rv]. cbn in *. rewrite Hn, Hv. f_equal. lia. }
  assert (NoDup refs) as Hnd.
  { unfold refs. apply NoDup_bind; [| |apply NoDup_map_to_list].
    - intros [[o name] l] [[o' name'] l'] ref Hl%elem_of_map_to_list Hl'%elem_of_map_to_list.
      cbn [fst]. intros Hin Hin'. destruct (bool_decide (o = org)) eqn:Ho; [apply bool_decide_eq_true in Ho|by apply not_elem_of_nil in Hin].
      destruct (bool_decide (o' = org)) eqn:Ho'; [apply bool_decide_eq_true in Ho'|by apply not_elem_of_nil in Hin']. subst o o'.
      apply list_elem_of_fmap in Hin as (p & -> & [i Hi]%list_elem_of_lookup).
      apply list_elem_of_fmap in Hin' as (p' & Heq & [i' Hi']%list_elem_of_lookup).
      rewrite <- (slice_Some _ _ _ Hl) in Hi. rewrite <- (slice_Some _ _ _ Hl') in Hi'.
      destruct (wf_profiles _ Hwf _ _ _ _ Hi) as [Hn _], (wf_profiles _ Hwf _ _ _ _ Hi') as [Hn' _]. injection Heq as ? ?.
      assert (name = name') as <- by congruence. congruence.
    - intros [[o name] l] Hl%elem_of_map_to_list. cbn [fst]. case_bool_decide; [|constructor].
      apply NoDup_alt. intros i i' ref. rewrite !list_lookup_fmap, !fmap_Some. intros (p & Hi & ->) (p' & Hi' & Heq).
      rewrite <- (slice_Some _ _ _ Hl) in Hi, Hi'.
      destruct (wf_profiles _ Hwf _ _ _ _ Hi) as [_ Hv], (wf_profiles _ Hwf _ _ _ _ Hi') as [_ Hv']. injection Heq as ? ?. lia. }
  assert (∀ l : list ProfileRef, id <$> l = l) as Hid by apply list_fmap_id.
  assert (∀ (l : list (string * Z)) l', Forall2 (λ r ref, ref = listed_ref r) l l' → listed_ref <$> l = l') as Heq.
  { induction 1 as [|r ref l l' -> _ IH]; [done|]. cbn. by rewrite IH. }
  apply Heq. eapply (keyed_matched (λ r ref, ref = listed_ref r) _ _ listed_ref id).
  - by intros r ref ->.
  - intros r ref r' ref' -> ->. by rewrite listed_le_iff.
  - intros x y _ _. unfold Memory.ref_le. destruct x as [xn xv], y as [yn yv]. cbn. repeat case_bool_decide; try congruence.
    + intros. f_equal; [done|lia].
    + intros Hxy Hyx. by destruct (anti_symm String.le _ _ Hxy Hyx).
  - rewrite <- list_fmap_compose. apply NoDup_rows_key. intros [[o name] v] r [[o' name'] v'] r' _ _ Hp Hp' Hk.
    cbn in Hp, Hp', Hk. apply bool_decide_eq_true in Hp, Hp'. injection Hk as -> ->. by subst.
  - by rewrite Hid.
  - intros r ([[o name] v] & row & Hrow & Hp%bool_decide_eq_true & ->)%elem_of_rows_fmap. cbn in Hp. subst o.
    eexists. split; [|done]. apply Hrefs. cbn. apply (Forall2_is_Some _ _ _ (h_profiles _ _ _ _ Ht _ _ _)). by rewrite Hrow.
  - intros ref Hs%Hrefs. apply (Forall2_is_Some _ _ _ (h_profiles _ _ _ _ Ht _ _ _)) in Hs as [row Hrow].
    exists (ProfileRef_Name ref, ProfileRef_Version ref). split; [|by destruct ref].
    apply elem_of_rows_fmap. eexists _, row. split; [exact Hrow|]. cbn. by rewrite bool_decide_true.
Qed.
Lemma call_ListProfiles org b m n : wf m → holds b m n →
  wp (ListProfiles org) (called (Repository.ListProfiles org) (mkDatabase b [] n) m) (mkDatabase b [] n).
Proof.
  intros Hwf Hb. unfold ListProfiles, try_wrap. eapply wp_list; [done| |].
  - intros err n' He Hn. wp_end. destruct (storeError_opaque "list profiles" err He) as [text ->]. by eapply ends_undone.
  - destruct (list_profiles_read b m n org 0 Hwf Hb) as (rows & [= <-] & Hr). wp_end.
    apply ends_read; [done| |done|lia]. cbn [Memory.handle]. rewrite <- Hr. constructor.
Qed.

(** *** Operators *)
#[local] Instance operator_le_trans : Transitive Memory.operator_le.
Proof. intros x y z. unfold Memory.operator_le. by etrans. Qed.
#[local] Instance operator_le_total : Total Memory.operator_le.
Proof. intros x y. apply String.le_total. Qed.

Abbreviation operatorColumns := (string * option string * option Time * option Time)%type.
Definition operator_read (r : operatorColumns) (o : Operator) : Prop :=
  let '(grn, encoded, reported_at, last_contact_at) := r in
  match encoded with
  | None => Ok []
  | Some raw => match Unmarshal into_images [] raw with Some images => Ok images | None => Err (Errorf "") end
  end = Ok (Operator_Images o) ∧
  o = mkOperator grn (Operator_Images o) reported_at last_contact_at.
Lemma scanOperators_read rows os : Forall2 operator_read rows os → scanOperators malformed rows = Ok os.
Proof.
  induction 1 as [|[[[grn encoded] r] c] o rows os [Hi Ho] _ IH]; [done|]. cbn [scanOperators].
  destruct encoded as [raw|]; [destruct (Unmarshal into_images [] raw) as [images|]; [|done]|]; injection Hi as Hi; cbn;
    rewrite IH; cbn; by rewrite Hi, <- Ho.
Qed.
Lemma operator_row_read g row o :
  operator_row row o → Operator_GRN (Memory.stored_operator o) = g →
  operator_read (g, jsonb_out <$> operator_images row, operator_reported_at row, operator_last_contact_at row)
  (Memory.stored_operator o).
Proof.
  destruct o as [org [og oi orr oc]]. intros (_ & -> & -> & Hi) <-. cbn in *. split; [|done].
  destruct (operator_images row) as [j|]; cbn; [by destruct Hi as [-> _]|by destruct Hi as [-> _]].
Qed.

Lemma list_operators_read t m n org now :
  wf m → holds t m n →
  ∃ rows, listOperators org now t = Ok (rows, t) ∧ scanOperators malformed rows = (Memory.list_operators org m).1.
Proof.
  intros Hwf Ht. eexists. split; [done|]. unfold Memory.list_operators. apply scanOperators_read.
  rewrite omap_snd.
  eapply (keyed_matched operator_read _ _ (λ r, r.1.1.1) Operator_GRN).
  - by intros [[[g e] r] c] o [_ ->].
  - intros [[[g e] r] c] o [[[g' e'] r'] c'] o' [_ ->] [_ ->]. cbn. by rewrite Is_true_true, ordered_by_bytes.
  - intros x y _ _ Hxy Hyx. by apply (anti_symm String.le).
  - rewrite <- list_fmap_compose. apply NoDup_rows_key. by intros g r g' r' _ _ _ _ Heq.
  - apply (NoDup_omap_key _ _ id).
    + intros g o op Ho Hop. cbn in Hop. case_bool_decide; [|done]. injection Hop as <-. by apply (wf_operators _ Hwf).
    + by intros g o g' o' op op' _ _ _ _ Heq.
  - intros r (g & row & Hrow & Hp%bool_decide_eq_true & ->)%elem_of_rows_fmap. cbn in Hp.
    pose proof (h_operators _ _ _ _ Ht g) as Ho. rewrite Hrow in Ho. inversion Ho as [? o Hr Hx Hm|]; subst.
    exists (Memory.stored_operator o). split; [|by apply operator_row_read; [|apply (wf_operators _ Hwf)]].
    apply list_elem_of_omap. exists (g, o). split; [by apply elem_of_map_to_list|]. cbn.
    destruct Hr as (Horg & _). by rewrite bool_decide_true.
  - intros o ([g so] & Hso%elem_of_map_to_list & Hop)%list_elem_of_omap. cbn in Hop. case_bool_decide as Horg; [|done].
    injection Hop as <-. pose proof (h_operators _ _ _ _ Ht g) as Ho. rewrite Hso in Ho. inversion Ho as [row ? Hr Hx Hm|]; subst.
    eexists. split; [apply elem_of_rows_fmap; exists g, row; split; [done|]; split; [|done]|].
    + cbn. destruct Hr as (-> & _). by rewrite bool_decide_true.
    + cbn. symmetry. by apply (wf_operators _ Hwf).
Qed.
Lemma call_ListOperators org b m n : wf m → holds b m n →
  wp (ListOperators malformed org) (called (Repository.ListOperators org) (mkDatabase b [] n) m) (mkDatabase b [] n).
Proof.
  intros Hwf Hb. unfold ListOperators, try_wrap. eapply wp_list; [done| |].
  - intros err n' He Hn. wp_end. destruct (storeError_opaque "list operators" err He) as [text ->]. by eapply ends_undone.
  - destruct (list_operators_read b m n org 0 Hwf Hb) as (rows & [= <-] & Hr). wp_end. rewrite Hr.
    apply ends_read; [done|constructor|done|lia].
Qed.

Lemma option_Forall2_Some_r {A B} (P : A → B → Prop) mx y : option_Forall2 P mx (Some y) → ∃ x, mx = Some x ∧ P x y.
Proof. intros Hp. inversion Hp. eauto. Qed.

Lemma holds_operator t m n g row o :
  holds t m n → operator_row row o → 
  holds (set_operators (<[g := row]> (operators t)) t) (Memory.set_operators (<[g := o]> (Memory.operators m)) m) n.
Proof.
  intros [] Ho. split; try done. cbn. intros g'. destruct (decide (g = g')) as [->|Hne].
  - rewrite !lookup_insert_eq. by constructor.
  - rewrite !lookup_insert_ne by done. apply h_operators0.
Qed.
Lemma operator_row_check row o : operator_row row o → operator_check row = true.
Proof. intros (_ & _ & _ & Hi). unfold operator_check. destruct (operator_images row), (operator_reported_at row); naive_solver. Qed.

Lemma call_RecordOperatorContact org g at_ b m n : holds b m n → time_kept at_ →
  wp (RecordOperatorContact org g at_) (called (Repository.RecordOperatorContact org g at_) (mkDatabase b [] n) m) (mkDatabase b [] n).
Proof.
  intros Hb Hat. unfold RecordOperatorContact. eapply call_exec; [apply _|done|auto with opaque|].
  unfold recordOperatorContact, commits. cbn [Memory.handle]. unfold Memory.record_operator_contact, Memory.operator_locked. rewrite Hat.
  pose proof (h_operators _ _ _ _ Hb g) as Ho.
  inversion Ho as [row o Hr Hrow Hop|Hrow Hop].
  - destruct o as [og [ogrn oi orr oc]], Hr as (Horg & Hrep & Hcon & Hi). cbn in *.
    set (row' := mkOperatorRow _ _ _ _). set (o' := Memory.mkStoredOperator _ _).
    assert (operator_row row' o') as Hr'.
    { unfold row', o'. rewrite Hcon. destruct oc as [last|]; cbn; [case_bool_decide|]; cbn; (split_and!; [done..| |done]); cbn; f_equal; lia. }
    try (rewrite written_ok; [|by eapply (operator_row_check _ o')|done..]).
    split; [constructor|]. split; [apply holds_operator; [by apply holds_next|done]|]. by split.
  - cbn in *. set (row' := mkOperatorRow _ _ _ _). set (o' := Memory.mkStoredOperator _ _).
    assert (operator_row row' o') as Hr' by done.
    try (rewrite written_ok; [|by eapply (operator_row_check _ o')|done..]).
    split; [constructor|]. split; [apply holds_operator; [by apply holds_next|done]|]. by split.
Qed.

Lemma call_ReportOperatorImages org g images at_ b m n : holds b m n →
  storable malformed m (Repository.ReportOperatorImages org g images at_) →
  wp (ReportOperatorImages org g images at_) (called (Repository.ReportOperatorImages org g images at_) (mkDatabase b [] n) m)
  (mkDatabase b [] n).
Proof.
  intros Hb (Himg & Hat & Horg). unfold ReportOperatorImages. eapply call_exec; [apply _|done|auto with opaque|].
  unfold reportOperatorImages, read_json, commits. cbn [Memory.handle]. unfold Memory.report_operator_images, Memory.operator_locked.
  destruct (jsonb_in _) as [j|] eqn:Hj; [|by eapply invalid_json_driver]. specialize (Himg j Hj). rewrite Hat. cbn [mbind result_bind].
  pose proof (h_operators _ _ _ _ Hb g) as Ho.
  assert (∀ c, operator_row (mkOperatorRow org (Some j) (Some at_) c)
    (Memory.mkStoredOperator org (mkOperator g images (Some at_) c))) as Hnew by done.
  inversion Ho as [row o Hr Hrow Hop|Hrow Hop].
  - destruct o as [og [ogrn oi orr oc]], Hr as (Hog & Hrep & Hcon & Hi). cbn in Hog, Hrep, Hcon, Hi. rewrite Hrep, Hcon. cbn.
    destruct (match orr with Some last => bool_decide (last ≤ at_) | None => true end) eqn:Hnewer.
    + assert (match orr with Some last => negb (bool_decide (last > at_)) | None => true end = true) as ->.
      { destruct orr as [last|]; [|done]. apply bool_decide_eq_true in Hnewer. by rewrite bool_decide_false by lia. }
      cbn. split; [constructor|]. split; [|by split]. apply holds_operator; [by apply holds_next|].
      destruct (Hnew oc) as (? & ? & ? & ?). by split_and!.
    + destruct orr as [last|]; [|done]. apply bool_decide_eq_false in Hnewer. rewrite bool_decide_true by lia. cbn.
      split; [constructor|]. split; [|by split]. symmetry in Hop. pose proof (Horg _ _ Hop eq_refl ltac:(lia)) as Heq. cbn in Heq. rewrite <- Heq.
      rewrite (insert_id _ _ _ Hop). apply holds_next. by destruct m.
  - cbn. split; [constructor|]. split; [|by split]. apply holds_operator; [by apply holds_next|done].
Qed.
End lists.
End PostgresLists.

Import Json JsonText MemoryInvariant Distribution Sql Postgres SqlSpec PostgresSpec PostgresRefine.

Module PostgresRecords.

(** The cases of what a map holds, an agent's name read as the string it is. *)
Ltac case_at map x H :=
  unfold GRN in *;
  match goal with |- context [@lookup ?K ?A ?M ?L ?k map] => destruct (@lookup K A M L k map) as [x|] eqn:H end.
(** The same of the slice a map holds. *)
Ltac case_slice map x l H :=
  unfold GRN in *;
  match goal with |- context [@Memory.slice ?K ?E ?C ?A map ?k] => destruct (@Memory.slice K E C A map k) as [|x l] eqn:H end.
(** The same of an equation rewritten with. *)
Ltac rewrite_at eqn := let E := fresh in pose proof eqn as E; unfold GRN in *; rewrite E; clear E.

Section records.
Context `{K8s : Kubernetes, RJ : !ResourcesJSON, QJ : !QuantityJSON, SE : !SemanticEquality, DB : Database, DL : !DatabaseLaws}.
Context (malformed : string → string).
Implicit Types (t b : tables) (m : Memory.mem).
Abbreviation holds := (holds malformed).
Abbreviation called := (called malformed).
Abbreviation commits := (commits malformed).

(** What is committed where nothing of the position changes. *)
Lemma commits_same {A} (e : repoE (result A)) b m n x m' t :
  Memory.handle _ e m = (x, m') → holds t m' n → position t = position b → Memory.position m' = Memory.position m →
  commits e b m n x t.
Proof. intros He Ht Hp Hm. unfold PostgresRefine.commits. rewrite He. cbn. split; [apply agree_same|]. split; [done|]. split; [lia|done]. Qed.
(** Where it moves. *)
Lemma commits_moved {A} (e : repoE (result A)) b m n x m' t :
  Memory.handle _ e m = (x, m') → holds t m' n → position b < position t → commits e b m n x t.
Proof. intros He Ht Hp. unfold PostgresRefine.commits. rewrite He. cbn. split; [apply agree_same|]. split; [done|]. split; [lia|done]. Qed.

(** ** Statuses *)
Lemma call_GetStatus agent b m n : holds b m n →
  wp (GetStatus agent) (called (Repository.GetStatus agent) (mkDatabase b [] n) m) (mkDatabase b [] n).
Proof.
  intros Hb. unfold GetStatus. eapply wp_read; [done| |].
  - intros err n' He Hn. wp_end. rewrite (proj1 He). destruct (storeError_opaque "get status" err He) as [text ->].
    by eapply ends_undone.
  - wp_end. rewrite (h_statuses _ _ _ _ Hb). apply ends_read; [done| |done|lia]. cbn [Memory.handle]. unfold Memory.get_status, Memory.status_of.
    case_at (Memory.statuses m) s Hs; cbn; [|constructor].
    destruct (h_statuses_ok _ _ _ _ Hb _ _ Hs) as (_ & _ & Ha). unfold GRN in *. rewrite <- Ha. destruct s. constructor.
Qed.

Definition status_set agent (s : Status) m : Memory.mem := Memory.set_statuses (<[agent := s]> (Memory.statuses m)) m.
Lemma holds_status t m n agent s :
  holds t m n → 1 ≤ Status_Observed s → 1 ≤ Status_Rendered s →
  Status_Applied s = RuntimeApplied_Revision <$> Memory.applied m !! agent →
  holds (set_agent_status (<[agent := status_row s (Memory.applied m !! agent)]> (agent_status t)) t) (status_set agent s m) n.
Proof.
  intros [] Ho Hr Ha. split; try done; cbn.
  - intros agent'. destruct (decide (agent = agent')) as [->|Hne]; [by rewrite !lookup_insert_eq|].
    rewrite !lookup_insert_ne by done. apply h_statuses0.
  - intros agent' s' [[<- <-]|[_ Hs]]%lookup_insert_cases; [done|]. by apply h_statuses_ok0.
  - intros agent' Hn. apply lookup_insert_None in Hn as [Hn _]. by apply h_applied0.
Qed.

Lemma call_RecordStatus agent s b m n : holds b m n → 1 ≤ Status_Observed s → 1 ≤ Status_Rendered s →
  wp (RecordStatus agent s) (called (Repository.RecordStatus agent s) (mkDatabase b [] n) m) (mkDatabase b [] n).
Proof.
  intros Hb Ho Hr. unfold RecordStatus.
  apply (call_query_try malformed _ _ _ _ Hb _ _ _ (λ x, Ok (mkStatus x.1.1 x.1.2 x.2))); [auto with opaque|by intros [[? ?] ?]|].
  unfold recordStatus. rewrite (h_statuses _ _ _ _ Hb).
  set (stored := Memory.status_of agent m).
  set (s' := mkStatus (Status_Observed stored `max` Status_Observed s) (Status_Rendered stored `max` Status_Rendered s)
    (Status_Applied stored)).
  assert (Status_Applied s' = RuntimeApplied_Revision <$> Memory.applied m !! agent) as Ha.
  { unfold s', stored, Memory.status_of. cbn [Status_Applied]. case_at (Memory.statuses m) s0 Hs; cbn.
    - by apply (h_statuses_ok _ _ _ _ Hb).
    - by rewrite_at (h_applied _ _ _ _ Hb _ Hs). }
  assert (holds (set_agent_status (<[agent := status_row s' (Memory.applied m !! agent)]> (agent_status b)) b) (status_set agent s' m) (S n)) as Ht.
  { apply holds_status; [by apply holds_next| | |done]; cbn; lia. }
  set (row := match _ <$> Memory.statuses m !! agent with Some _ => _ | None => _ end).
  assert (row = status_row s' (Memory.applied m !! agent)) as ->.
  { unfold row, s', stored, Memory.status_of, status_row. case_at (Memory.statuses m) s0 Hs; cbn; [done|].
    rewrite_at (h_applied _ _ _ _ Hb _ Hs). cbn. rewrite !Z.max_r by lia. done. }
  rewrite written_ok; [|unfold status_check; cbn; rewrite !bool_decide_true by lia; by destruct (Memory.applied m !! agent)|done..].
  cbn [mbind result_bind]. eapply commits_same; [|exact Ht|done|done].
  cbn [Memory.handle observed_revision rendered_revision applied_revision status_row fst snd]. unfold Memory.record_status. fold stored.
  rewrite <- Ha. reflexivity.
Qed.

Lemma call_RecordRuntimeApplied agent a b m n : holds b m n →
  storable malformed m (Repository.RecordRuntimeApplied agent a) →
  wp (RecordRuntimeApplied agent a) (called (Repository.RecordRuntimeApplied agent a) (mkDatabase b [] n) m) (mkDatabase b [] n).
Proof.
  intros Hb ([s Hs] & Hr & Hat). unfold RecordRuntimeApplied. eapply (call_exec malformed _ _ _ _ Hb _ _ (λ _, Ok tt)); [auto with opaque|].
  unfold recordRuntimeApplied. rewrite Hat, (h_statuses _ _ _ _ Hb). rewrite_at Hs. cbn [fmap option_fmap option_map].
  destruct (h_statuses_ok _ _ _ _ Hb _ _ Hs) as (Ho & Hre & _).
  rewrite written_ok; [|unfold status_check; cbn; by rewrite !bool_decide_true by lia|done..].
  cbn [mbind result_bind]. eapply commits_same; [done| |done|done].
  unfold Memory.status_of. cbn. rewrite_at Hs. cbn. pose proof (holds_next malformed _ _ _ Hb) as []. split; try done; cbn.
  - intros agent'. destruct (decide (agent = agent')) as [->|Hne]; [by rewrite !lookup_insert_eq|].
    rewrite !lookup_insert_ne by done. apply h_statuses0.
  - intros agent' s' [[<- <-]|[Hne Hs']]%lookup_insert_cases; [by rewrite lookup_insert_eq|].
    rewrite lookup_insert_ne by done. by apply h_statuses_ok0.
  - intros agent' [Hn Hne]%lookup_insert_None. rewrite lookup_insert_ne by done. by apply h_applied0.
Qed.
Lemma call_GetRuntimeApplied agent b m n : holds b m n →
  wp (GetRuntimeApplied agent) (called (Repository.GetRuntimeApplied agent) (mkDatabase b [] n) m) (mkDatabase b [] n).
Proof.
  intros Hb. unfold GetRuntimeApplied, read_one. apply wp_try_bind.
  eapply wp_mono; [|eapply (wp_read _ _ _ (λ r s', match r with
    | Ok x => called (Repository.GetRuntimeApplied agent) (mkDatabase b [] n) m
    (Ok (mkRuntimeApplied x.1.1.1 x.1.1.2 x.1.2 x.2)) s'
    | Err err => called (Repository.GetRuntimeApplied agent) (mkDatabase b [] n) m (Err err) s' end)); [done| |]].
  - by intros [[[[? ?] ?] ?]|err] s'.
  - intros err n' He Hn. wp_end. destruct (storeError_twice_opaque "get runtime applied" err He) as [text ->].
    by eapply ends_undone.
  - cbn beta. rewrite (h_statuses _ _ _ _ Hb). case_at (Memory.statuses m) s Hs; wp_end; cbn -[PostgresSpec.called Memory.applied].
    + case_at (Memory.applied m) a Ha; cbn -[PostgresSpec.called]; apply ends_read; try done; try lia;
        cbn [Memory.handle]; unfold Memory.get_runtime_applied; rewrite_at Ha; [destruct a|]; constructor.
    + apply ends_read; try done; try lia. cbn [Memory.handle]. unfold Memory.get_runtime_applied.
      rewrite_at (h_applied _ _ _ _ Hb _ Hs). constructor.
Qed.

(** ** Positions and definitions *)
Lemma call_GetPosition b m n : holds b m n →
  wp Position_ (called Repository.GetPosition (mkDatabase b [] n) m) (mkDatabase b [] n).
Proof.
  intros Hb. unfold Position_. eapply (call_query_try malformed _ _ _ _ Hb _ _ _ Ok); [auto with opaque|done|].
  cbn beta iota delta [getPosition select]. apply commits_read; [done|constructor|done].
Qed.

(** ** Activations *)
Definition activation_set agent id (a : Activation) m : Memory.mem :=
  Memory.set_activations (<[agent := <[id := a]> (Memory.agent_activations agent m)]> (Memory.activations m)) m.
Lemma activation_set_lookup agent id a m agent' id' :
  Memory.agent_activations agent' (activation_set agent id a m) !! id' =
  if bool_decide ((agent', id') = (agent, id)) then Some a else Memory.agent_activations agent' m !! id'.
Proof.
  unfold activation_set, Memory.agent_activations. cbn. unfold GRN in *. destruct (decide (agent = agent')) as [->|Hne].
  - rewrite lookup_insert_eq. cbn. case_bool_decide as Hk; [injection Hk as ->; by rewrite lookup_insert_eq|].
    rewrite lookup_insert_ne by congruence. done.
  - rewrite lookup_insert_ne by done. case_bool_decide; [congruence|done].
Qed.
Lemma holds_activation t m n agent id a :
  holds t m n → 1 ≤ ActivationRequest_ConfigRevision (Activation_Request a) →
  holds (set_activation_requests (<[(agent, id) := activation_row a]> (activation_requests t)) t) (activation_set agent id a m) n.
Proof.
  intros [] Ha. split; try done; cbn.
  - intros agent' id'. rewrite activation_set_lookup. case_bool_decide as Hk.
    + injection Hk as -> ->. by rewrite lookup_insert_eq.
    + rewrite lookup_insert_ne by congruence. apply h_activations0.
  - intros agent' id' a'. rewrite activation_set_lookup. case_bool_decide; [by intros [= <-]|apply h_activations_ok0].
Qed.

Lemma call_InsertActivation a b m n : wf m → holds b m n → storable malformed m (Repository.InsertActivation a) →
  wp (InsertActivation a) (called (Repository.InsertActivation a) (mkDatabase b [] n) m) (mkDatabase b [] n).
Proof.
  intros Hwf Hb [Hid Hrev]. unfold InsertActivation.
  apply (call_query_row malformed _ _ _ _ Hb _ (λ row, match scanActivation (keyed _ row) _ with Err err => _ | Ok stored => _ end)).
  { intros err He. cbn. apply opaque_answer; auto with opaque. }
  unfold insertActivation, commits. cbn [Memory.handle]. unfold Memory.insert_activation.
  destruct a as [agent r replaces ref id]. cbn in Hid, Hrev. subst id. cbn [Activation_Agent Activation_Request Activation_ReplacesActivationID Activation_OperationRef].
  rewrite (h_activations _ _ _ _ Hb).
  case_at (Memory.agent_activations agent m) stored Hs; cbn [fmap option_fmap option_map default].
  - destruct (agent_activations_ok _ _ _ _ (wf_activations _ Hwf) Hs) as [Hr Hag].
    rewrite written_ok; [|by apply bool_decide_true|done..]. cbn [mbind result_bind fst snd keyed result_map].
    rewrite <- Hr at 1. rewrite <- Hag at 2. rewrite activation_scanned.
    pose proof (holds_activation b m (S n) agent (ActivationRequest_RequestID r) stored (holds_next _ _ _ _ Hb)
      (h_activations_ok _ _ _ _ Hb _ _ _ Hs)) as Ht.
    unfold activation_set in Ht. unfold GRN in *. rewrite (insert_id _ _ _ Hs) in Ht.
    by split; [constructor|].
  - pose proof (holds_activation b m (S n) agent (ActivationRequest_RequestID r) (mkActivation agent r replaces ref "")
      (holds_next _ _ _ _ Hb) Hrev) as Ht.
    rewrite written_ok; [|by apply bool_decide_true|done..]. cbn [mbind result_bind fst snd keyed result_map].
    split; [destruct r; constructor|]. split; [|done]. unfold activation_set in Ht. cbn. by rewrite insert_insert_eq.
Qed.

Lemma call_GetActivation agent id b m n : wf m → holds b m n →
  wp (GetActivation agent id) (called (Repository.GetActivation agent id) (mkDatabase b [] n) m) (mkDatabase b [] n).
Proof.
  intros Hwf Hb. unfold GetActivation.
  apply (call_query_row malformed _ _ _ _ Hb _ (λ row, match scanActivation (keyed _ row) _ with Err err => _ | Ok stored => _ end)).
  { intros err He. cbn. apply (opaque_answer (λ err, storeError _ (notFound _ err))); auto with opaque. }
  cbn beta iota delta [getActivation select]. apply commits_read; [done| |done]. cbn [Memory.handle]. unfold Memory.get_activation.
  rewrite (h_activations _ _ _ _ Hb). case_at (Memory.agent_activations agent m) a Ha; [|constructor].
  destruct (agent_activations_ok _ _ _ _ (wf_activations _ Hwf) Ha) as [<- <-].
  cbn [fmap option_fmap option_map keyed result_map]. rewrite activation_scanned. constructor.
Qed.

Lemma call_RecordActivation agent rid id b m n : holds b m n → storable malformed m (Repository.RecordActivation agent rid id) →
  wp (RecordActivation agent rid id) (called (Repository.RecordActivation agent rid id) (mkDatabase b [] n) m) (mkDatabase b [] n).
Proof.
  intros Hb [Hid [a Ha]]. set (e := Repository.RecordActivation agent rid id). unfold RecordActivation.
  apply (call_transaction_then malformed e b m n Hb
    (λ err, if errors_is err ErrActivationMismatch then err else storeError "record activation" err) (λ x, x)); [|by intros []|by intros; case_match|].
  { intros err He. rewrite (proj1 He). by apply storeError_opaque. }
  apply body_exec; [by left|]. unfold recordActivation. rewrite (h_activations _ _ _ _ Hb). rewrite_at Ha.
  cbn [fmap option_fmap option_map activation_row activation_id activation_epoch activation_generation activation_config_revision
    activation_placement_pod_uid activation_replaces activation_operation_ref].
  assert (negb (null (nullable (Activation_ActivationID a))) && negb (bool_decide (nullable (Activation_ActivationID a) = Some id)) =
    negb (bool_decide (Activation_ActivationID a = "")) && negb (bool_decide (Activation_ActivationID a = id))) as ->.
  { unfold nullable. destruct (bool_decide (Activation_ActivationID a = "")) eqn:H0; [done|]. cbn. f_equal. by apply bool_decide_ext; split; [intros [= ->]|intros ->]. }
  unfold body_error, commits. cbn [Memory.handle e]. unfold Memory.record_activation. rewrite_at Ha.
  destruct (negb _ && negb _).
  - apply body_error_at. right. by eexists.
  - cbn [bool_decide]. apply body_exec; [by left|]. cbn beta iota delta [recordLatestActivation]. apply body_ok.
    split; [constructor|]. split; [|by split].
    set (a' := Memory.with_activation a id).
    pose proof (holds_activation b m (S n) agent rid a' (holds_next _ _ _ _ Hb) (h_activations_ok _ _ _ _ Hb _ _ _ Ha)) as Ht.
    assert (activation_row a' = mkActivationRow (ActivationRequest_Epoch (Activation_Request a)) (ActivationRequest_Generation (Activation_Request a))
      (ActivationRequest_ConfigRevision (Activation_Request a)) (ActivationRequest_PlacementPodUID (Activation_Request a))
      (Activation_ReplacesActivationID a) (Activation_OperationRef a) (Some id)) as Hrow.
    { unfold activation_row, nullable, a'. cbn. by rewrite bool_decide_false. }
    rewrite Hrow in Ht. destruct Ht. split; try done; cbn. by rewrite (h_latest _ _ _ _ Hb).
Qed.

Lemma call_read_one {A} op (q : query (option A)) (f : tables → option A) (e : repoE (result A)) `{!Fallible e} b m n : holds b m n →
  (∀ now t, q now t = Ok (f t, t)) → (Memory.handle _ e m).2 = m →
  agree m e match f b with Some x => Ok x | None => Err ErrNotFound end (Memory.handle _ e m).1 →
  wp (read_one op q) (called e (mkDatabase b [] n) m) (mkDatabase b [] n).
Proof.
  intros Hb Hq Hm Ha. unfold read_one. eapply (call_query_try malformed _ _ _ _ Hb _ _ _ Ok); [auto with opaque|done|].
  rewrite Hq. by destruct (f b); apply commits_read.
Qed.
Lemma call_LatestActivation agent b m n : holds b m n →
  wp (LatestActivation agent) (called (Repository.LatestActivation agent) (mkDatabase b [] n) m) (mkDatabase b [] n).
Proof.
  intros Hb. eapply call_read_one; [done..|]. cbn [Memory.handle]. unfold Memory.latest_activation. cbn.
  rewrite (h_latest _ _ _ _ Hb). constructor.
Qed.

(** Any row, where there is one. *)
Lemma any_row_case `{Countable K} {R} (p : K → R → bool) (rs : gmap K R) :
  match any_row (rows p rs) with
  | Some (k, r) => rs !! k = Some r ∧ p k r = true
  | None => ∀ k r, rs !! k = Some r → p k r = false
  end.
Proof.
  pose proof (any_row_one (rows p rs)) as Ha. destruct (any_row _) as [[k r]|].
  - by apply elem_of_rows in Ha as [? ?].
  - intros k r Hk. destruct (p k r) eqn:Hp; [|done]. assert ((k, r) ∈ rows p rs) as Hin by by apply elem_of_rows.
    rewrite Ha in Hin. by apply not_elem_of_nil in Hin.
Qed.
Lemma call_ActivationOfGeneration agent generation b m n : holds b m n →
  wp (ActivationOfGeneration agent generation)
  (called (Repository.ActivationOfGeneration agent generation) (mkDatabase b [] n) m) (mkDatabase b [] n).
Proof.
  intros Hb. eapply call_read_one; [done..|]. cbn [Memory.handle]. unfold Memory.activation_of_generation. cbn [fst].
  match goal with |- context [any_row (rows ?p ?rs)] => pose proof (any_row_case p rs) as Ha; destruct (any_row (rows p rs)) as [[[ag id] r]|] end;
    cbn in Ha; cbn [mbind option_bind snd].
  - destruct Ha as [Hr [[Hag Hg]%andb_prop Hid]%andb_prop]. apply bool_decide_eq_true in Hag, Hg. subst ag.
    destruct (activation_id r) as [x|] eqn:Hx; [|done].
    rewrite (h_activations _ _ _ _ Hb), fmap_Some in Hr. destruct Hr as (a & Ha & ->). cbn in Hg, Hx.
    destruct (find_value _ _) as [a'|] eqn:Hf.
    { right. exists id, a. unfold nullable in Hx. case_bool_decide; [done|]. by injection Hx as <-. }
    pose proof (find_value_None _ _ _ _ Hf Ha) as Hn. unfold nullable in Hx. cbn in Hn.
    destruct (bool_decide (Activation_ActivationID a = "")); [done|]. by rewrite bool_decide_true in Hn.
  - destruct (find_value _ _) as [a|] eqn:Hf; [|by left].
    apply find_value_Some in Hf as [[Hg Hid]%andb_prop [id Hid']]. apply bool_decide_eq_true in Hg. apply negb_true_iff, bool_decide_eq_false in Hid.
    assert (activation_requests b !! (agent, id) = Some (activation_row a)) as Hr.
    { rewrite (h_activations _ _ _ _ Hb). by rewrite_at Hid'. }
    specialize (Ha _ _ Hr). cbn in Ha. unfold nullable in Ha.
    by rewrite (bool_decide_false (Activation_ActivationID a = "")), !bool_decide_true in Ha.
Qed.

Lemma call_ConfigureReference agent revision b m n : wf m → holds b m n →
  wp (ConfigureReference agent revision) (called (Repository.ConfigureReference agent revision) (mkDatabase b [] n) m) (mkDatabase b [] n).
Proof.
  intros Hwf Hb. eapply call_read_one; [done..|]. cbn [Memory.handle]. unfold Memory.configure_reference. cbn [fst].
  assert (∀ r, bool_decide (request_agent (request_row r) = agent) && bool_decide (request_revision (request_row r) = Some revision) &&
    bool_decide (request_outcome (request_row r) = "applied") = Memory.applied_revision agent revision r) as Hrow.
  { intros r. unfold Memory.applied_revision, request_row. destruct (Request_Outcome r); cbn; [|by rewrite andb_false_r].
    rewrite andb_true_r. f_equal. apply bool_decide_ext. split; [by intros [= ->]|by intros ->]. }
  match goal with |- context [any_row (rows ?p ?rs)] => pose proof (any_row_case p rs) as Ha; destruct (any_row (rows p rs)) as [[k row]|] end;
    cbn [fmap option_fmap option_map snd].
  - destruct Ha as [Hr Hp]. rewrite (h_requests _ _ _ _ Hb), lookup_fmap, fmap_Some in Hr. destruct Hr as (r & Hr & ->). rewrite Hrow in Hp.
    erewrite find_value_unique; [| |exact Hp|]; [by unfold request_row; destruct (Request_Outcome r); constructor|exact Hr|].
    intros k' r' Hr' Hp'. destruct (wf_requests _ Hwf) as (_ & _ & Hu). unfold Memory.applied_revision in Hp, Hp'.
    destruct (Request_Outcome r) as [v|] eqn:Ho; [|done]. destruct (Request_Outcome r') as [v'|] eqn:Ho'; [|done].
    apply andb_prop in Hp as [Hp1%bool_decide_eq_true Hp2%bool_decide_eq_true], Hp' as [Hp1'%bool_decide_eq_true Hp2'%bool_decide_eq_true].
    assert (k = k') as <-; [|congruence]. eapply (Hu _ _ _ _ v Hr Hr'); congruence.
  - destruct (find_value _ _) as [r|] eqn:Hf; [|constructor].
    apply find_value_Some in Hf as [Hp [k Hk]]. assert (requests b !! k = Some (request_row r)) as Hr.
    { rewrite (h_requests _ _ _ _ Hb), lookup_fmap, Hk. done. }
    specialize (Ha _ _ Hr). cbn beta in Ha. by rewrite Hrow, Hp in Ha.
Qed.
End records.
End PostgresRecords.
