(* ===== verification/PostgresDefinitions.v ===== *)
(** The methods of the repository over PostgreSQL that store revisions, configure requests and creations lead to what the
    store in memory does. *)
From S2P Require Import Prelude GoStd Json JsonText Errors Types Validation Repository Memory MemoryInvariant Distribution Sql Postgres SqlSpec PostgresSpec PostgresRefine PostgresRecords.
Import Json JsonText MemoryInvariant Distribution Sql Postgres SqlSpec PostgresSpec PostgresRefine PostgresRecords.

Module PostgresDefinitions.

Section definitions.
Context `{K8s : Kubernetes, RJ : !ResourcesJSON, QJ : !QuantityJSON, SE : !SemanticEquality, DB : Database, DL : !DatabaseLaws}.
Context (malformed : string → string).
Implicit Types (t b : tables) (m : Memory.mem).
Abbreviation holds := (holds malformed).
Abbreviation called := (called malformed).
Abbreviation commits := (commits malformed).
Abbreviation revisions m agent := (Memory.slice (Memory.definitions m) agent).

(** ** Revisions *)
Lemma revision_latest t m n (agent : string) : holds t m n →
  latest_revision t agent = match revisions m agent with [] => None | l => Some (Z.of_nat (length l)) end.
Proof.
  intros Ht. unfold latest_revision. rewrite (versions_max _ _ (λ v, (agent, v)) (revisions m agent)); [by case_match| | |].
  - intros [a v] r x. unfold definition_revision. cbn. case_bool_decide as Ha; [|done]. by subst; intros [= ->].
  - intros v r. unfold definition_revision. cbn. by rewrite bool_decide_true.
  - intros v. rewrite <- version_of_is_Some. eapply Forall2_is_Some, (h_definitions _ _ _ _ Ht).
Qed.
Lemma definition_at t m n (agent : string) v d : holds t m n → version_of (revisions m agent) v = Some d →
  ∃ r, definitions t !! (agent, v) = Some r ∧ definition_row malformed r d.
Proof.
  intros Ht Hd. pose proof (h_definitions _ _ _ _ Ht agent v) as Hr. unfold GRN in *. rewrite Hd in Hr.
  inversion Hr as [r ? ?|]. by exists r.
Qed.
Lemma definition_of t m n (agent : string) v r : holds t m n → definitions t !! (agent, v) = Some r →
  ∃ d, version_of (revisions m agent) v = Some d ∧ definition_row malformed r d.
Proof.
  intros Ht Hd. pose proof (h_definitions _ _ _ _ Ht agent v) as Hr. rewrite Hd in Hr. inversion Hr as [? d ?|]. by exists d.
Qed.
Lemma definition_absent t m n (agent : string) v : holds t m n → Z.of_nat (length (revisions m agent)) < v → definitions t !! (agent, v) = None.
Proof.
  intros Ht Hv. destruct (definitions t !! (agent, v)) as [r|] eqn:Hr; [|done].
  destruct (definition_of _ _ _ _ _ _ Ht Hr) as (d & Hd & _).
  assert (is_Some (version_of (revisions m agent) v)) as Hs by by rewrite Hd. apply version_of_is_Some in Hs. lia.
Qed.

(** The position moved, and nothing else. *)
Lemma holds_moved t m n p : holds t m n → position t ≤ p → holds (set_position p t) m n.
Proof. intros [] Hp. split; try done. cbn. intros k r Hk. specialize (h_position0 k r Hk). lia. Qed.

(** The row of [d] at a position. *)
Definition row_of (d : Definition_) (j : jsonb) p : definitionRow :=
  mkDefinitionRow (Definition_Organization d) (ProfileRef_Name (Definition_Profile d)) (ProfileRef_Version (Definition_Profile d)) j p
  (assignmentColumns (Definition_Assignment d)).1 (assignmentColumns (Definition_Assignment d)).2.
Definition definition_stored (d : Definition_) j t : tables :=
  let next := position t + 1 in
  set_definitions (<[(Definition_Agent d, Definition_Revision d) := row_of d j next]> (definitions t)) (set_position next t).

Lemma append_next d m : Definition_Revision d = Z.of_nat (length (revisions m (Definition_Agent d))) + 1 →
  Memory.append d m = (Ok tt, (Memory.append d m).2) ∧
  Memory.definitions (Memory.append d m).2 = pushed (Memory.definitions m) d ∧
  Memory.positions (Memory.append d m).2 =
  <[Definition_Agent d := Memory.slice (Memory.positions m) (Definition_Agent d) ++ [Memory.position m + 1]]> (Memory.positions m) ∧
  Memory.position (Memory.append d m).2 = Memory.position m + 1.
Proof. intros Hr. unfold Memory.append. by rewrite (bool_decide_true _ Hr). Qed.

Lemma holds_definition t m n d j : wf m → holds t m n →
  Definition_Revision d = Z.of_nat (length (revisions m (Definition_Agent d))) + 1 → config_is malformed j (Definition_Config d) →
  holds (definition_stored d j t) (Memory.append d m).2 n.
Proof.
  intros Hwf Ht Hr Hj. pose proof (wf_positions _ Hwf) as (_ & Hlen & Hrange & _). specialize (Hlen (Definition_Agent d)) as Hlen'.
  assert (∀ agent v p, version_of (Memory.slice (Memory.positions (Memory.append d m).2) agent) v = Some p →
    (agent, v) = (Definition_Agent d, Definition_Revision d) ∧ p = Memory.position m + 1 ∨
    (agent, v) ≠ (Definition_Agent d, Definition_Revision d) ∧ p ≤ Memory.position m ∧
    version_of (Memory.slice (Memory.positions m) agent) v = Some p) as Hps.
  { intros agent v p. destruct (append_next d m Hr) as (_ & _ & -> & _). rewrite slice_insert. case_decide as Ha.
    - subst agent. rewrite version_of_push, Hlen', <- Hr. case_bool_decide as Hv; [intros [= <-]; left; by rewrite Hv|].
      intros Hp. right. split; [by intros [= ?]|]. split; [|done]. apply version_of_Some in Hp as [_ Hp]. by destruct (Hrange _ _ _ Hp).
    - intros Hp. right. split; [congruence|]. split; [|done]. apply version_of_Some in Hp as [_ Hp]. by destruct (Hrange _ _ _ Hp). }
  pose proof Ht as []. unfold Memory.append in *. rewrite (bool_decide_true _ Hr) in *. split; try done; cbn.
  - intros agent v. rewrite slice_insert. case_decide as Ha.
    + subst agent. rewrite version_of_push, <- Hr. case_bool_decide as Hv.
      * subst v. rewrite lookup_insert_eq. constructor. split_and!; try done. symmetry. apply surjective_pairing.
      * rewrite lookup_insert_ne by congruence. apply h_definitions0.
    + rewrite lookup_insert_ne by congruence. apply h_definitions0.
  - intros k r [[<- <-]|[_ Hk]]%lookup_insert_cases; [done|]. specialize (h_position0 k r Hk). lia.
  - unfold GRN, Revision in *. intros a i b' j' pa pb ra rb Hpa%Hps Hpb%Hps. destruct Hpa as [[Ha ->]|(Ha & Hpa & Hla)], Hpb as [[Hb ->]|(Hb & Hpb & Hlb)].
    + lia.
    + lia.
    + intros Hra Hrb _. rewrite lookup_insert_ne in Hra by congruence. rewrite Hb, lookup_insert_eq in Hrb. injection Hrb as <-.
      specialize (h_position0 _ _ Hra). cbn. lia.
    + rewrite !lookup_insert_ne by congruence. by apply h_order0.
Qed.

Lemma insert_definition_ok t m n d j : wf m → holds t m n →
  Definition_Revision d = Z.of_nat (length (revisions m (Definition_Agent d))) + 1 →
  published (Memory.profiles m) (Definition_Organization d) (Definition_Profile d) →
  insert_definition (Definition_Agent d) (Definition_Revision d) (row_of d j (position t + 1)) (set_position (position t + 1) t) =
  Ok (definition_stored d j t).
Proof.
  intros Hwf Ht Hr Hp. unfold insert_definition. rewrite written_ok; [done| | |].
  - rewrite bool_decide_true by (unfold Revision in *; lia). cbn. by destruct (Definition_Assignment d).
  - cbn. rewrite (definition_absent _ _ _ _ _ Ht) by (unfold Revision in *; lia). cbn. apply negb_true_iff, exists_row_false.
    intros k r Hk. pose proof (h_position _ _ _ _ Ht _ _ Hk). apply bool_decide_false. cbn. lia.
  - by apply (profile_is_published malformed t m n).
Qed.

(** A revision stored where it is one past the agent's latest, and none where it is not: the position is moved either way. *)
Lemma append_definition t m n d now : wf m → holds t m n → revisions m (Definition_Agent d) ≠ [] →
  published (Memory.profiles m) (Definition_Organization d) (Definition_Profile d) → config_kept malformed (Definition_Config d) →
  match appendDefinition (Definition_Agent d) (Definition_Organization d) (Definition_Revision d)
    (ProfileRef_Name (Definition_Profile d)) (ProfileRef_Version (Definition_Profile d)) (encodeConfig (Definition_Config d))
    (assignmentColumns (Definition_Assignment d)).1 (assignmentColumns (Definition_Assignment d)).2 now t with
  | Ok (affected, t') =>
    position t' = position t + 1 ∧ requests t' = requests t ∧ holds t' (Memory.append d m).2 n ∧
    (affected = 1 ∧ (Memory.append d m).1 = Ok tt ∧ is_Some (definitions t' !! (Definition_Agent d, Definition_Revision d)) ∨
      affected = 0 ∧ (Memory.append d m).1 = Err ErrStaleRevision)
  | Err err => driver_error err
  end.
Proof.
  intros Hwf Ht Hne Hp Hc. unfold appendDefinition, read_json. destruct (jsonb_in _) as [j|] eqn:Hj; [|by eapply invalid_json_driver]. cbn [mbind result_bind].
  rewrite (revision_latest _ _ _ _ Ht).
  assert (bool_decide (match revisions m (Definition_Agent d) with [] => None | l => Some (Z.of_nat (length l)) end =
    Some (Definition_Revision d - 1)) =
    bool_decide (Definition_Revision d = Z.of_nat (length (revisions m (Definition_Agent d))) + 1)) as ->.
  { assert (match revisions m (Definition_Agent d) with [] => None | l => Some (Z.of_nat (length l)) end =
      Some (Z.of_nat (length (revisions m (Definition_Agent d))))) as -> by by case_match.
    apply bool_decide_ext. unfold Revision. split; [intros Heq%(inj Some); lia|intros ->; f_equal; lia]. }
  case_bool_decide as Hr.
  - fold (row_of d j (position t + 1)). rewrite (insert_definition_ok _ _ _ _ _ Hwf Ht Hr Hp). cbn [mbind result_bind].
    split; [done|]. split; [done|]. split; [by apply holds_definition; [| | |apply Hc]|].
    left. split; [done|]. destruct (append_next d m Hr) as (-> & _). split; [done|]. cbn. by rewrite lookup_insert_eq.
  - unfold Memory.append. rewrite (bool_decide_false _ Hr). cbn. split; [done|]. split; [done|]. split; [|by right].
    apply holds_moved; [done|lia].
Qed.

Lemma definition_exists t m n (agent : string) organization : wf m → holds t m n →
  exists_row (λ k r, bool_decide (k.1 = agent) && bool_decide (definition_organization r = organization)) (definitions t) =
  match revisions m agent with [] => false | first :: _ => bool_decide (Definition_Organization first = organization) end.
Proof.
  intros Hwf Ht. apply eq_true_iff_eq. rewrite exists_row_true. split.
  - intros ([a v] & r & Hr & [Ha Ho]%andb_prop). apply bool_decide_eq_true in Ha, Ho. cbn in Ha. subst a.
    destruct (definition_of _ _ _ _ _ _ Ht Hr) as (d & [_ Hd]%version_of_Some & Horg & _).
    destruct (proj2 (wf_definitions _ Hwf) _ _ _ Hd) as (_ & _ & _ & Hfirst).
    destruct (revisions m agent) as [|first rest] eqn:Hrev; [done|]. specialize (Hfirst first eq_refl). apply bool_decide_eq_true. congruence.

  - destruct (revisions m agent) as [|first rest] eqn:Hrev; [done|]. intros Ho%bool_decide_eq_true.
    destruct (definition_at t m n agent 1 first Ht) as (r & Hr & Horg & _); [apply version_of_Some; by rewrite Hrev|].
    exists (agent, 1), r. split; [done|]. cbn. rewrite !bool_decide_true; [done|congruence|done].
Qed.

(** ** Requests *)
Definition requested (r : Request) m : Memory.mem := Memory.set_requests (<[Request_Key r := r]> (Memory.requests m)) m.
Lemma holds_request t m n r : holds t m n →
  holds (set_requests (<[Request_Key r := request_row r]> (requests t)) t) (requested r m) n.
Proof. intros []. split; try done. cbn. by rewrite h_requests0, fmap_insert. Qed.
Lemma requested_wf r m : wf m → Memory.requests m !! Request_Key r = None → wf (requested (Memory.with_outcome r Stale) m).
Proof.
  intros [] Hk. split; try done. destruct wf_requests0 as (Hkeys & Hrange & Hu). unfold requests_ok. cbn. split_and!.
  - intros k r' [[<- <-]|[_ Hr]]%lookup_insert_cases; [done|by apply Hkeys].
  - intros k r' v [[<- <-]|[_ Hr]]%lookup_insert_cases; [done|by eapply Hrange].
  - intros k r1 k' r2 v [[<- <-]|[_ Hr1]]%lookup_insert_cases; [done|].
    intros [[<- <-]|[_ Hr2]]%lookup_insert_cases; [done|by eapply Hu].
Qed.
(** The outcome written over the request as it was begun. *)
Lemma append_requested r r' d m : Request_Key r = Request_Key r' →
  (Memory.append d (requested r m)).1 = (Memory.append d m).1 ∧
  requested r' (Memory.append d (requested r m)).2 = requested r' (Memory.append d m).2.
Proof.
  intros Hk. unfold Memory.append, requested. cbn. rewrite Hk. destruct (negb _); cbn; by rewrite insert_insert_eq.
Qed.
Lemma append_keeps d m : Memory.requests (Memory.append d m).2 = Memory.requests m ∧ Memory.creations (Memory.append d m).2 = Memory.creations m.
Proof. unfold Memory.append. by destruct (negb _). Qed.

Lemma append_stale d m err : (Memory.append d m).1 = Err err → Memory.append d m = (Err err, m).
Proof. unfold Memory.append. destruct (negb _); [by intros [= <-]|done]. Qed.

(** The revision appended in a savepoint of its transaction. *)
Lemma body_append {A} t m n d b (Ok_ : A → tables → Prop) (Err_ : error → Prop) (k : bool → prog sqlE (result A)) :
  wf m → holds t m n → revisions m (Definition_Agent d) ≠ [] →
  published (Memory.profiles m) (Definition_Organization d) (Definition_Profile d) → config_kept malformed (Definition_Config d) →
  (∀ err, driver_error err → Err_ err) →
  (∀ t' (applied : bool), position t' = position t + 1 → requests t' = requests t → holds t' (Memory.append d m).2 n →
    (if applied then (Memory.append d m).1 = Ok tt ∧ is_Some (definitions t' !! (Definition_Agent d, Definition_Revision d))
      else (Memory.append d m).1 = Err ErrStaleRevision) →
    wp (k applied) (ends b n Ok_ Err_) (mkDatabase b [Some t'] n)) →
  wp (applied ←? appendDefinitionIn d (encodeConfig (Definition_Config d)); k applied) (ends b n Ok_ Err_) (mkDatabase b [Some t] n).
Proof.
  intros Hwf Ht Hne Hp Hc Hd Hk. apply wp_try_bind. unfold appendDefinitionIn.
  rewrite (surjective_pairing (assignmentColumns _)), wp_bind.
  assert (∀ err x, driver_error err → wp (mret (if isUniqueViolation err then Ok false else Err err))
    (λ r s', match r with Ok a => wp (k a) (ends b n Ok_ Err_) s' | Err err => ends b n Ok_ Err_ (Err err) s' end) (mkDatabase b [x] n)) as Hfail.
  { intros err x He. rewrite (driver_no_violation _ He). wp_end. split; [by eexists|by apply Hd]. }
  apply wp_savepoint; [by intros err x He; apply Hfail|].
  apply wp_exec_tx; [intros err He; split; [by eexists|intros x _; by apply Hfail]|].
  pose proof (append_definition t m n d (now_of n) Hwf Ht Hne Hp Hc) as Ha.
  destruct (appendDefinition _ _ _ _ _ _ _ _ _ _) as [[affected t']|err].
  - exists t'. split; [done|]. destruct Ha as (Hpos & Hreq & Ht' & Ha). wp_end.
    destruct Ha as [(-> & Ho & Hrow)|[-> Ho]]; cbn [bool_decide]; [apply (Hk t' true)|apply (Hk t' false)]; done.
  - split; [by eexists|]. intros x _. by apply Hfail.
Qed.

Lemma call_Configure r d b m n : wf m → holds b m n → legal m (Repository.Configure r d) → config_kept malformed (Definition_Config d) →
  wp (Configure r d) (called (Repository.Configure r d) (mkDatabase b [] n) m) (mkDatabase b [] n).
Proof.
  intros Hwf Hb [Hpub Hagent] Hc. set (e := Repository.Configure r d). unfold Configure.
  apply (call_transaction malformed e b m n Hb (storeError "configure") (λ x, x)); [auto with opaque|].
  apply body_exec; [by left|]. unfold beginRequest. rewrite (h_requests _ _ _ _ Hb), lookup_fmap.
  unfold body_error, commits, PostgresRefine.commits. cbn [Memory.handle e]. unfold Memory.configure.
  destruct (Request_Key r) as [org rid] eqn:Hkey. cbn [Key_Organization Key_RequestID].
  destruct (Memory.requests m !! mkRequestKey org rid) as [stored|] eqn:Hstored; cbn [fmap option_fmap option_map].
  - cbn [bool_decide]. eapply body_row; [done| |].
    { intros err He. apply (body_error_at _ _ _ _ (notFound "get request" err)). left. apply opaquely_driver; auto with opaque. }
    assert (requests b !! mkRequestKey org rid = Some (request_row stored)) as ->
      by (rewrite (h_requests _ _ _ _ Hb), lookup_fmap; by rewrite Hstored).
    rewrite <- (proj1 (wf_requests _ Hwf) _ _ Hstored). cbn beta iota. rewrite request_scanned. apply body_ok.
    split; [constructor|]. by split; [apply holds_next|].
  - rewrite written_ok; [|done..]. cbn [mbind result_bind].
    set (r0 := Memory.with_outcome r Stale). set (m0 := requested r0 m).
    set (t0 := set_requests _ b).
    assert (holds t0 m0 (S n)) as Ht0.
    { pose proof (holds_request b m (S n) r0 (holds_next _ _ _ _ Hb)) as Ht. unfold request_row in Ht. cbn in Ht. by rewrite Hkey, (h_requests _ _ _ _ Hb) in Ht. }
    assert (wf m0) as Hwf0 by (apply requested_wf; [done|by rewrite Hkey]).
    apply body_query_row; [by left|]. cbn beta iota delta [definitionExists select].
    change (definitions t0) with (definitions b). rewrite_at (definition_exists _ _ _ (Definition_Agent d) (Definition_Organization d) Hwf Hb).
    case_slice (Memory.definitions m) d0 rest Hrev; cbn [negb]; [apply body_error_at; right; by eexists|].
    destruct (bool_decide (Definition_Organization d0 = Definition_Organization d)); cbn [negb]; [|apply body_error_at; right; by eexists].
    assert (∀ r', Request_Key r' = Request_Key r → (Memory.append d m0).1 = (Memory.append d m).1 ∧
      requested r' (Memory.append d m0).2 = requested r' (Memory.append d m).2) as Hsame by (intros r' Hr; by apply append_requested).
    eapply (body_append t0 m0); [done|done| |done|done|by left|].
    { unfold m0. cbn. by rewrite_at Hrev. }
    intros t' applied Hpos Hreq Ht' Happ. assert (position b < position t') as Hlt by (rewrite Hpos; cbn; lia).
    destruct applied; cbn [negb].
    + set (r1 := Memory.with_outcome r (Applied (Definition_Revision d))). destruct (Hsame r1 eq_refl) as [Ho Hm], Happ as [Happ Hrow].
      destruct (Memory.append d m) as [o m1]. cbn [fst snd] in Ho, Hm. rewrite Happ in Ho. subst o.
      apply body_exec; [by left|]. unfold applyRequest.
      assert (requests t' !! mkRequestKey org rid = Some (request_row r0)) as -> by (rewrite Hreq; apply lookup_insert_eq). rewrite written_ok; [|done|done|cbn; apply bool_decide_true; by rewrite Hagent].
      cbn [mbind result_bind]. apply body_ok. split; [constructor|]. cbn [fst snd].
      pose proof (holds_request t' _ (S n) r1 Ht') as Ht. rewrite Hm in Ht. unfold request_row in Ht. cbn in Ht. rewrite Hkey in Ht.
      unfold requested in Ht. cbn in Ht. rewrite Hkey in Ht. cbn. rewrite Hkey. split; [done|]. split; [lia|done].
    + rewrite (append_stale _ _ _ Happ) in Ht'. destruct (Hsame r0 eq_refl) as [Ho _]. rewrite Happ in Ho. symmetry in Ho.
      rewrite (append_stale _ _ _ Ho). apply body_ok. split; [constructor|]. cbn [fst snd]. split; [done|]. split; [lia|done].
Qed.

(** ** The latest revision *)
Lemma latest_row t m n (agent : string) : holds t m n →
  one_row (λ k _, bool_decide (k.1 = agent) && bool_decide (latest_revision t agent = Some k.2)) (definitions t) =
  match revisions m agent with
  | [] => None
  | l => (λ r, ((agent, Z.of_nat (length l)), r)) <$> definitions t !! (agent, Z.of_nat (length l))
  end.
Proof.
  intros Ht. rewrite (revision_latest _ _ _ _ Ht). destruct (revisions m agent) as [|d0 rest] eqn:Hrev.
  - destruct (one_row _ _) as [[k r]|] eqn:Ho; [|done]. apply one_row_Some in Ho as [_ Hp]. by rewrite andb_false_r in Hp.
  - destruct (definition_at t m n agent (Z.of_nat (length (d0 :: rest))) (default d0 (last (d0 :: rest))) Ht) as (r & Hr & _).
    { apply version_of_Some. rewrite Hrev. split; [cbn; lia|]. replace (Z.to_nat _) with (length rest) by (cbn; lia).
    rewrite last_lookup. cbn [length Nat.pred]. by destruct (lookup_lt_is_Some_2 (d0 :: rest) (length rest)) as [d ->]; [cbn; lia|]. }
    cbv zeta. rewrite Hr. cbn [fmap option_fmap option_map]. eapply one_row_is; [done|cbn [fst snd]; by rewrite !bool_decide_true|].
    intros [a v] r' _ [Ha Hv]%andb_prop. apply bool_decide_eq_true in Ha, Hv. cbn [fst snd] in Ha, Hv. injection Hv as <-. by rewrite Ha.
Qed.

Lemma call_GetDefinition agent b m n : wf m → holds b m n →
  wp (GetDefinition malformed agent) (called (Repository.GetDefinition agent) (mkDatabase b [] n) m) (mkDatabase b [] n).
Proof.
  intros Hwf Hb. unfold GetDefinition, try_wrap. eapply wp_read; [done| |].
  - intros err n' He Hn. wp_end. destruct (notFound_opaque "get definition" err He) as [text ->]. by eapply ends_undone.
  - cbn beta. rewrite (latest_row _ _ _ _ Hb). cbv zeta.
    assert (Memory.get_definition agent m = (match last (revisions m agent) with Some d => Ok d | None => Err ErrNotFound end, m)) as Hget by done.
    destruct (revisions m agent) as [|d0 rest] eqn:Hrev.
    { cbn [mbind option_bind]. apply ends_read; [done| |done|lia]. cbn [Memory.handle]. rewrite Hget. constructor. }
    destruct (lookup_lt_is_Some_2 (revisions m agent) (length rest)) as [d Hd]; [rewrite Hrev; cbn; lia|].
    destruct (proj2 (wf_definitions _ Hwf) _ _ _ Hd) as (Hag & Hrv & _ & _).
    destruct (definition_at b m n agent (Z.of_nat (length (d0 :: rest))) d Hb) as (r & -> & Horg & Hpn & Hpv & Hcfg & Has).
    { apply version_of_Some. split; [cbn; lia|]. by replace (Z.to_nat _) with (length rest) by (cbn; lia). }
    cbn [fmap option_fmap option_map mbind option_bind fst snd]. rewrite Hcfg. wp_end.
    apply ends_read; [done| |done|lia]. cbn [Memory.handle]. rewrite Hget, last_lookup. cbn [length Nat.pred]. rewrite <- Hrev, Hd. cbn [fst].
    pose proof (f_equal fst Has) as Ho. pose proof (f_equal snd Has) as He. cbn [fst snd] in Ho, He. rewrite Ho, He, assignment_read, Horg, Hpn, Hpv.
    replace (Z.of_nat (S (length rest))) with (Definition_Revision d) by (rewrite Hrv; unfold Revision; lia).
    rewrite <- Hag. destruct d as [? ? ? [? ?] ? ?]. constructor.
Qed.

(** ** Creations *)
Definition created key (c : Creation) m : Memory.mem := Memory.set_creations (<[key := c]> (Memory.creations m)) m.
Lemma holds_creation t m n key c : holds t m n → unassigned_binding (Creation_Binding c) →
  holds (set_creations (<[key := creation_row c]> (creations t)) t) (created key c m) n.
Proof.
  intros [] Hb. split; try done; cbn; [by rewrite h_creations0, fmap_insert|].
  intros k c' [[<- <-]|[_ Hc]]%lookup_insert_cases; [done|by eapply h_creations_ok0].
Qed.
Lemma creations_at t m n key : holds t m n → creations t !! key = creation_row <$> Memory.creations m !! key.
Proof. intros Ht. by rewrite (h_creations _ _ _ _ Ht), lookup_fmap. Qed.
(** A creation as it is read. *)
Lemma creation_read t m n key : wf m → holds t m n →
  scanCreation match creations t !! key with Some r => Ok r | None => Err ErrNoRows end key =
  match Memory.creations m !! key with Some c => Ok c | None => Err ErrNotFound end.
Proof.
  intros Hwf Ht. rewrite (creations_at _ _ _ _ Ht). destruct (Memory.creations m !! key) as [c|] eqn:Hc; [|done].
  cbn [fmap option_fmap option_map]. rewrite <- (proj1 (wf_creations _ Hwf) _ _ Hc). apply creation_scanned, (h_creations_ok _ _ _ _ Ht _ _ Hc).
Qed.
Lemma created_wf key c m : wf m → Creation_Key c = key →
  (∀ r, Creation_Outcome c = RegisteredAs r → False) → wf (created key c m).
Proof.
  intros [] Hk Ho. split; try done. destruct wf_creations0 as (Hkeys & Hreg & Hu). unfold creations_ok. cbn. split_and!.
  - intros k c' [[<- <-]|[_ Hc]]%lookup_insert_cases; [done|by apply Hkeys].
  - intros k c' r [[<- <-]|[_ Hc]]%lookup_insert_cases Hr; [by destruct (Ho r)|by eapply Hreg].
  - intros k c1 r1 k' c2 r2 [[<- <-]|[_ H1]]%lookup_insert_cases [[<- <-]|[_ H2]]%lookup_insert_cases; [done|by intros ?%Ho|by intros _ ?%Ho|by eapply Hu].
Qed.

Lemma template_is_published t m n org ref : holds t m n → template_exists m org ref →
  template_published t org (TemplateRef_Name ref) (TemplateRef_Version ref) = true.
Proof.
  intros Ht Hp. unfold template_published. apply bool_decide_true.
  by apply (Forall2_is_Some _ _ _ (h_templates _ _ _ _ Ht _ _ _)).
Qed.

Lemma call_BeginCreation c b m n : wf m → holds b m n → storable malformed m (Repository.BeginCreation c) →
  wp (BeginCreation c) (called (Repository.BeginCreation c) (mkDatabase b [] n) m) (mkDatabase b [] n).
Proof.
  intros Hwf Hb (Htm & Hp & Hun). unfold BeginCreation. destruct (Creation_Key c) as [org rid] eqn:Hkey.
  cbn [Key_Organization Key_RequestID] in *.
  eapply (call_write_read malformed _ _ _ _ Hb _ _ _ _ (λ row, scanCreation row (mkRequestKey org rid)));
    [auto with opaque|intros err He; apply opaque_answer; auto with opaque|done|].
  cbn beta. unfold beginCreation, PostgresRefine.commits. cbn [Memory.handle]. unfold Memory.begin_creation.
  rewrite (creations_at _ _ _ _ Hb), Hkey.
  destruct (Memory.creations m !! mkRequestKey org rid) as [stored|] eqn:Hs; cbn [fmap option_fmap option_map].
  - rewrite (creation_read _ _ _ _ Hwf Hb), Hs. split; [constructor|]. split; [by apply holds_next|done].
  - set (c' := Memory.creation_outcome c Pending). set (row := mkCreationRow _ _ _ _ _ _ _ _ _ _ _).
    assert (row = creation_row c') as -> by done.
    rewrite written_ok; [|done|done|by rewrite (template_is_published _ _ _ _ _ Hb), (profile_is_published malformed _ _ _ _ _ Hb)].
    pose proof (holds_creation b m (S n) (mkRequestKey org rid) c' (holds_next _ _ _ _ Hb) Hun) as Ht.
    assert (wf (created (mkRequestKey org rid) c' m)) as Hwf' by by apply created_wf.
    cbn [mbind result_bind]. pose proof (creation_read _ _ _ (mkRequestKey org rid) Hwf' Ht) as Hr. cbn [Memory.creations created Memory.set_creations] in Hr.
    rewrite lookup_insert_eq in Hr. rewrite Hr. split; [constructor|]. cbn. rewrite Hkey. by split.
Qed.

Lemma pending_row c : bool_decide (creation_state (creation_row c) = "pending") = bool_decide (Creation_Outcome c = Pending).
Proof. unfold creation_row. destruct (Creation_Outcome c); cbn; apply bool_decide_ext; by split. Qed.
Lemma registered_row agent c :
  bool_decide (creation_agent (creation_row c) = Some agent) && bool_decide (creation_state (creation_row c) = "registered") =
  Memory.registered_agent agent c.
Proof.
  unfold creation_row, Memory.registered_agent. destruct (Creation_Outcome c); cbn; [done| |by rewrite andb_false_r].
  rewrite andb_true_r. apply bool_decide_ext. split; [by intros [= ->]|by intros ->].
Qed.

Lemma call_FailCreation key reason conflict b m n : wf m → holds b m n →
  wp (FailCreation key reason conflict) (called (Repository.FailCreation key reason conflict) (mkDatabase b [] n) m) (mkDatabase b [] n).
Proof.
  intros Hwf Hb. unfold FailCreation. destruct key as [org rid]. cbn [Key_Organization Key_RequestID].
  eapply (call_write_read malformed _ _ _ _ Hb _ _ _ _ (λ row, scanCreation row (mkRequestKey org rid)));
    [auto with opaque|intros err He; apply opaque_answer; auto with opaque|done|].
  cbn beta. unfold failCreation, PostgresRefine.commits. cbn [Memory.handle]. unfold Memory.fail_creation.
  rewrite (creations_at _ _ _ _ Hb).
  destruct (Memory.creations m !! mkRequestKey org rid) as [c|] eqn:Hc; cbn [fmap option_fmap option_map].
  2:{ rewrite (creation_read _ _ _ _ Hwf Hb), Hc. split; [constructor|]. split; [by apply holds_next|done]. }
  rewrite pending_row. case_bool_decide as Hp; cbn [negb].
  2:{ rewrite (creation_read _ _ _ _ Hwf Hb), Hc. split; [constructor|]. split; [by apply holds_next|done]. }
  set (c' := Memory.creation_outcome c (Failed reason conflict)). set (row := creation_settled _ _ _ _ _ _).
  assert (row = creation_row c') as -> by (unfold row, creation_row; rewrite Hp; done).
  rewrite written_ok; [|done..].
  pose proof (holds_creation b m (S n) (mkRequestKey org rid) c' (holds_next _ _ _ _ Hb) (h_creations_ok _ _ _ _ Hb _ _ Hc)) as Ht.
  assert (wf (created (mkRequestKey org rid) c' m)) as Hwf' by (apply created_wf; [done|apply (proj1 (wf_creations _ Hwf) _ _ Hc)|done]).
  cbn [mbind result_bind]. pose proof (creation_read _ _ _ (mkRequestKey org rid) Hwf' Ht) as Hr. cbn [Memory.creations created Memory.set_creations] in Hr.
  rewrite lookup_insert_eq in Hr. rewrite Hr. split; [constructor|]. by split.
Qed.

Lemma call_CreationOf agent b m n : wf m → holds b m n →
  wp (CreationOf agent) (called (Repository.CreationOf agent) (mkDatabase b [] n) m) (mkDatabase b [] n).
Proof.
  intros Hwf Hb. unfold CreationOf, try_wrap. eapply wp_read; [done| |].
  - intros err n' He Hn. wp_end. destruct (storeError_twice_opaque "get creation of agent" err He) as [text ->]. by eapply ends_undone.
  - cbn beta. destruct (one_row _ _) as [[key row]|] eqn:Ho; cbn [fmap option_fmap option_map fst].
    + apply one_row_Some in Ho as [Hrow Hp]. rewrite (creations_at _ _ _ _ Hb), fmap_Some in Hrow. destruct Hrow as (c & Hc & ->).
      rewrite registered_row in Hp. eapply wp_read; [done| |].
      * intros err n' He Hn. wp_end. destruct (notFound_opaque "get creation" err He) as [text Hx]. unfold scanCreation. rewrite Hx.
        eapply ends_undone; [apply _|done|lia|done].
      * wp_end. replace (mkRequestKey (Key_Organization key) (Key_RequestID key)) with key by by destruct key.
        rewrite (creation_read _ _ _ _ Hwf Hb), Hc. apply ends_read; [done| |done|lia]. cbn [Memory.handle]. unfold Memory.creation_of.
        erewrite find_value_unique; [constructor|exact Hc|exact Hp|]. intros k' c' Hc' Hp'.
        unfold Memory.registered_agent in Hp, Hp'. destruct (Creation_Outcome c) eqn:Hoc, (Creation_Outcome c') eqn:Hoc'; try done.
        apply bool_decide_eq_true in Hp, Hp'. destruct (wf_creations _ Hwf) as (_ & _ & Hu).
        assert (key = k') as <- by (eapply Hu; [done..|congruence]). congruence.
    + wp_end. apply ends_read; [done| |done|lia]. cbn [Memory.handle]. unfold Memory.creation_of.
      destruct (find_value _ _) as [c|] eqn:Hf; [|constructor]. apply find_value_Some in Hf as [Hp [k Hk]].
      pose proof (one_row_None _ _ Ho k (creation_row c)) as Hn. cbn beta in Hn. rewrite registered_row, Hp in Hn. by discriminate Hn; rewrite (creations_at _ _ _ _ Hb), Hk.
Qed.

Lemma first_definition t m n d now : wf m → holds t m n → Definition_Revision d = 1 →
  published (Memory.profiles m) (Definition_Organization d) (Definition_Profile d) → config_kept malformed (Definition_Config d) →
  match insertFirstDefinition (Definition_Agent d) (Definition_Organization d) (ProfileRef_Name (Definition_Profile d))
    (ProfileRef_Version (Definition_Profile d)) (encodeConfig (Definition_Config d))
    (assignmentColumns (Definition_Assignment d)).1 (assignmentColumns (Definition_Assignment d)).2 now t with
  | Ok (_, t') => position t' = position t + 1 ∧ creations t' = creations t ∧ holds t' (Memory.append d m).2 n ∧
    (Memory.append d m).1 = Ok tt ∧ revisions m (Definition_Agent d) = []
  | Err err => driver_error err ∨ err = unique_violation ∧ (Memory.append d m).1 = Err ErrStaleRevision
  end.
Proof.
  intros Hwf Ht Hrev Hp Hc. unfold insertFirstDefinition, read_json. destruct (jsonb_in _) as [j|] eqn:Hj; [|left; by eapply invalid_json_driver]. cbn [mbind result_bind].
  fold (row_of d j (position t + 1)).
  replace (insert_definition (Definition_Agent d) 1) with (insert_definition (Definition_Agent d) (Definition_Revision d)) by by rewrite Hrev.
  destruct (revisions m (Definition_Agent d)) as [|d0 rest] eqn:Hrevs.
  - assert (Definition_Revision d = Z.of_nat (length (revisions m (Definition_Agent d))) + 1) as Hr by by rewrite Hrevs, Hrev.
    rewrite (insert_definition_ok _ _ _ _ _ Hwf Ht Hr Hp). cbn [mbind result_bind].
    split; [done|]. split; [done|]. split; [by apply holds_definition; [| | |apply Hc]|]. by destruct (append_next d m Hr) as (-> & _).
  - assert (insert_definition (Definition_Agent d) (Definition_Revision d) (row_of d j (position t + 1)) (set_position (position t + 1) t) =
      Err unique_violation) as ->.
    { destruct (definition_at t m n (Definition_Agent d) 1 d0 Ht) as (r & Hr & _); [apply version_of_Some; split; [lia|]; by rewrite_at Hrevs|].
    unfold insert_definition, written. rewrite Hrev. cbn [definitions set_position]. unfold GRN in *. rewrite Hr. cbn.
    by destruct (Definition_Assignment d). }
    cbn. right. split; [done|]. unfold Memory.append. unfold GRN in *. rewrite Hrevs, bool_decide_false; [done|]. rewrite Hrev. cbn. lia.
Qed.

Lemma call_RegisterCreation key d b m n : wf m → holds b m n → legal m (Repository.RegisterCreation key d) →
  config_kept malformed (Definition_Config d) →
  wp (RegisterCreation key d) (called (Repository.RegisterCreation key d) (mkDatabase b [] n) m) (mkDatabase b [] n).
Proof.
  intros Hwf Hb (Hpub & Hrev & [a Ha] & Horg) Hc. unfold RegisterCreation. rewrite Ha.
  set (e := Repository.RegisterCreation key d).
  apply (call_transaction malformed e b m n Hb (storeError "register creation") (λ x, x)); [auto with opaque|].
  eapply body_row; [done| |].
  { intros err He. apply body_error_at. left. apply opaquely_driver; auto with opaque. }
  replace (mkRequestKey (Key_Organization key) (Key_RequestID key)) with key by by destruct key.
  rewrite (creation_read _ _ _ _ Hwf Hb). unfold body_error, commits, PostgresRefine.commits. cbn [Memory.handle e]. unfold Memory.register_creation.
  destruct (Memory.creations m !! key) as [c|] eqn:Hkc; [|apply body_error_at; right; by eexists].
  apply body_lift. unfold is_pending. case_bool_decide as Hpend; cbn [negb].
  2:{ apply body_ok. split; [constructor|]. split; [by apply holds_next|done]. }
  pose proof (first_definition b m (S n) d (now_of (S n)) Hwf (holds_next _ _ _ _ Hb) Hrev Hpub Hc) as Hfirst. rewrite Ha in Hfirst. cbn [assignmentColumns fst snd] in Hfirst.
  apply body_result.
  { intros err He. cbn beta iota. rewrite (driver_no_violation _ He). apply body_error_at. by left. }
  destruct (insertFirstDefinition _ _ _ _ _ _ _ _ b) as [[x t]|err].
  2:{ cbn beta iota. destruct Hfirst as [He|[-> Happ]]; [rewrite (driver_no_violation _ He)|cbn]; apply body_error_at; [by left|]. right.
  rewrite (append_stale _ _ _ Happ). by eexists. }
  destruct Hfirst as (Hpos & Hcs & Ht & Happ & Hrevs).
  destruct (Memory.append d m) as [o m1] eqn:Happend. cbn [fst snd] in *. subst o.
  apply body_exec; [by left|]. unfold registerCreation. rewrite Ha.
  replace (mkRequestKey (Key_Organization key) (Key_RequestID key)) with key by by destruct key.
  assert (creations t !! key = Some (creation_row c)) as -> by (rewrite Hcs, (creations_at _ _ _ _ Hb); by rewrite Hkc).
  set (c' := Memory.creation_outcome c (RegisteredAs (mkRegistered (Definition_Agent d) (Assignment_Epoch a)))).
  set (row := creation_settled _ _ _ _ _ _). assert (row = creation_row c') as -> by (unfold row, creation_row; rewrite Hpend; done).
  rewrite written_ok; [|done| |done].
  - cbn [mbind result_bind]. apply body_ok. cbn [fst snd]. split; [constructor|].
    split; [by apply (holds_creation t m1 (S n) key c' Ht), (h_creations_ok _ _ _ _ Hb _ _ Hkc)|]. cbn. split; [lia|intros _; lia].
  - unfold creations_agent. apply negb_true_iff, exists_row_false. intros k r. rewrite Hcs, (creations_at _ _ _ _ Hb), fmap_Some.
    intros (c1 & Hc1 & ->). apply andb_false_iff. right. apply bool_decide_false. unfold creation_row.
    destruct (Creation_Outcome c1) as [|[ag ep]|] eqn:Ho; cbn; try done. intros [= ->].
    destruct (wf_creations _ Hwf) as (_ & Hreg & _). destruct (Hreg _ _ _ Hc1 Ho) as (d0 & _ & Hd0 & _). cbn in Hd0. by rewrite Hrevs in Hd0.
Qed.
End definitions.
End PostgresDefinitions.
