(* ===== verification/PostgresLifecycle.v ===== *)
(** The methods of the repository over PostgreSQL that register placements, stop and start agents, and recover credentials
    lead to what the store in memory does. *)
From S2P Require Import Prelude GoStd Json JsonText Errors Types Validation Repository Memory MemoryInvariant StoreHistory Distribution Sql Postgres SqlSpec PostgresSpec PostgresRefine PostgresRecords.

Import Validation MemoryInvariant StoreHistory Distribution Sql Postgres SqlSpec PostgresSpec PostgresRefine PostgresRecords.

Module PostgresPlacements.

Section placements.
Context `{K8s : Kubernetes, RJ : !ResourcesJSON, QJ : !QuantityJSON, SE : !SemanticEquality, DB : Database, DL : !DatabaseLaws}.
Context (malformed : string → string).
Implicit Types (t b : tables) (m : Memory.mem).
Abbreviation holds := (holds malformed).
Abbreviation called := (called malformed).
Abbreviation placed m agent := (Memory.agent_placements agent m).

Lemma placement_revoked_read agent uid r p : placement_read agent uid r p → null (placement_revoked_at r) = negb (Placement_Superseded p).
Proof. unfold placement_read. cbn. intros [= <-]. cbn. by rewrite negb_involutive. Qed.
Lemma placement_of t m n (agent uid : string) r : holds t m n → placements t !! (agent, uid) = Some r →
  ∃ p, placed m agent !! uid = Some p ∧ placement_read agent uid r p.
Proof.
  intros Ht Hr. pose proof (h_placements _ _ _ _ Ht agent uid) as Hp. rewrite Hr in Hp. inversion Hp as [? p ?|]. by exists p.
Qed.
Lemma placement_at t m n (agent uid : string) p : holds t m n → placed m agent !! uid = Some p →
  ∃ r, placements t !! (agent, uid) = Some r ∧ placement_read agent uid r p.
Proof.
  intros Ht Hr. pose proof (h_placements _ _ _ _ Ht agent uid) as Hp. unfold GRN in *. rewrite Hr in Hp. inversion Hp as [r ? ?|]. by exists r.
Qed.

(** The placement of a Pod, and the agent's current one, as they are read. *)
Lemma pod_read t m n (agent uid : string) : holds t m n →
  scanPlacement match (λ r, ((agent, uid), r)) <$> placements t !! (agent, uid) with Some x => Ok x | None => Err ErrNoRows end agent =
  Ok (placed m agent !! uid).
Proof.
  intros Ht. pose proof (h_placements _ _ _ _ Ht agent uid) as Hp. unfold GRN in *.
  inversion Hp as [r p Hr Hx Hy|Hx Hy]; cbn [fmap option_fmap option_map]; [exact Hr|done].
Qed.
Lemma current_read t m n (agent : string) : wf m → holds t m n →
  scanPlacement match one_row (λ k r, bool_decide (k.1 = agent) && null (placement_revoked_at r)) (placements t) with
  | Some x => Ok x | None => Err ErrNoRows end agent = Ok (current_of agent m).
Proof.
  intros Hwf Ht. destruct (one_row _ _) as [[[ag uid] r]|] eqn:Ho.
  - apply one_row_Some in Ho as [Hr [Hag Hn]%andb_prop]. apply bool_decide_eq_true in Hag. cbn in Hag. subst ag.
    destruct (placement_of _ _ _ _ _ _ Ht Hr) as (p & Hp & Hread). rewrite (placement_revoked_read _ _ _ _ Hread) in Hn.
    assert (current_of agent m = Some p) as ->; [|exact Hread].
    apply current_of_Some; [apply (wf_placements _ Hwf)|]. exists uid. split; [done|]. by apply negb_true_iff.
  - destruct (current_of agent m) as [p|] eqn:Hc; [|done]. apply current_of_Some in Hc as (uid & Hp & Hs); [|apply (wf_placements _ Hwf)].
    destruct (placement_at _ _ _ _ _ _ Ht Hp) as (r & Hr & Hread).
    pose proof (one_row_None _ _ Ho _ _ Hr) as Hn. cbn in Hn. by rewrite bool_decide_true, (placement_revoked_read _ _ _ _ Hread), Hs in Hn.
Qed.

Lemma call_CurrentPlacement agent b m n : wf m → holds b m n →
  wp (CurrentPlacement agent) (called (Repository.CurrentPlacement agent) (mkDatabase b [] n) m) (mkDatabase b [] n).
Proof.
  intros Hwf Hb. unfold CurrentPlacement.
  apply (call_query_row malformed _ _ _ _ Hb _ (λ row, match scanPlacement row agent with Err err => _ | Ok None => _ | Ok (Some p) => _ end)).
  { intros err He. cbn. rewrite (proj1 He). apply opaque_answer; auto with opaque. }
  cbn beta iota delta [currentPlacement lockCurrentPlacement select]. apply commits_read; [done| |done].
  rewrite (current_read _ _ _ _ Hwf Hb). cbn [Memory.handle]. unfold Memory.current_placement. fold (current_of agent m).
  destruct (current_of agent m); constructor.
Qed.

(** *** Registering *)
Lemma superseded_map m agent uid : wf m →
  match current_of agent m with
  | Some c => <[PlacementRequest_PodUID (Placement_Request c) := Memory.superseded c]> (placed m agent)
  | None => placed m agent
  end !! uid = Memory.superseded <$> placed m agent !! uid.
Proof.
  intros Hwf. pose proof (agent_placements_ok m agent (wf_placements _ Hwf)) as [Hk Hu].
  assert (∀ p, Placement_Superseded p = true → Memory.superseded p = p) as Hs by (intros []; cbn; by intros ->).
  destruct (current_of agent m) as [c|] eqn:Hc.
  - apply current_of_Some in Hc as (cuid & Hc & Hcs); [|apply (wf_placements _ Hwf)]. destruct (Hk _ _ Hc) as [-> _].
    destruct (decide (cuid = uid)) as [<-|Hne]; [by rewrite lookup_insert_eq, Hc|]. rewrite lookup_insert_ne by done.
    destruct (placed m agent !! uid) as [p|] eqn:Hp; [|done]. cbn. f_equal. symmetry. apply Hs.
    destruct (Placement_Superseded p) eqn:Hps; [done|]. destruct Hne. by eapply Hu.
  - destruct (placed m agent !! uid) as [p|] eqn:Hp; [|done]. cbn. f_equal. symmetry. apply Hs. by eapply current_of_None.
Qed.

(** A row as the statement that revokes leaves it. *)
Definition revoked_of agent (now : Time) (k : string * string) (r : placementRow) : placementRow :=
  if bool_decide (k.1 = agent) && null (placement_revoked_at r) then placement_revoked now r else r.
Lemma revoked_read agent uid now r p : placement_read agent uid r p →
  placement_read agent uid (revoked_of agent now (agent, uid) r) (Memory.superseded p).
Proof.
  intros Hr. unfold revoked_of. cbn [fst]. rewrite bool_decide_true by done. cbn [andb].
  destruct (placement_revoked_at r) eqn:Hrev; unfold placement_read in *; cbn in *; injection Hr as <-; cbn; by rewrite ?Hrev.
Qed.

(** What registering leaves in the table: the replaced placement's row revoked, and the new one's. *)
Definition placement_stored (input : PlacementInput) (now : Time) t : tables :=
  let agent := PlacementInput_Agent input in
  let r := PlacementInput_Request input in
  set_placements (<[(agent, PlacementRequest_PodUID r) :=
    mkPlacementRow (PlacementInput_Controller input) (PlacementRequest_Epoch r) (PlacementRequest_PVCUID r)
    (PlacementRequest_TokenSHA256 r) (Previous_PodUID (PlacementRequest_Previous r))
    (Previous_WriterStoppedSHA256 (PlacementRequest_Previous r)) now None]>
    (map_imap (λ k r, Some (revoked_of agent now k r)) (placements t))) t.
Definition placement_registered (input : PlacementInput) m : Memory.mem :=
  Memory.set_placements (<[PlacementInput_Agent input := registered_map (PlacementInput_Agent input) input m]> (Memory.placements m)) m.

Lemma holds_placement t m n input now : wf m → holds t m n →
  holds (placement_stored input now t) (placement_registered input m) n.
Proof.
  intros Hwf Ht. pose proof Ht as []. split; try done. cbn. intros agent uid. unfold Memory.agent_placements. cbn. unfold GRN in *.
  destruct (decide (PlacementInput_Agent input = agent)) as [<-|Hne].
  - rewrite lookup_insert_eq. cbn [default id]. unfold id, registered_map.
    destruct (decide (PlacementRequest_PodUID (PlacementInput_Request input) = uid)) as [<-|Hne].
    + rewrite !lookup_insert_eq. constructor. unfold placement_read. cbn. destruct input as [? ? [? ? ? ? []]]. done.
    + rewrite !lookup_insert_ne by congruence. rewrite map_lookup_imap. rewrite (superseded_map m _ uid Hwf).
      pose proof (h_placements0 (PlacementInput_Agent input) uid) as Hp. unfold GRN in *.
      inversion Hp as [r p Hr Hx Hy|Hx Hy]; cbn [mbind option_bind fmap option_fmap option_map]; [|constructor].
      constructor. by apply revoked_read.
  - rewrite !lookup_insert_ne by congruence. rewrite map_lookup_imap.
    pose proof (h_placements0 agent uid) as Hp. unfold Memory.agent_placements, GRN in *.
    destruct (placements t !! (agent, uid)) as [r|]; cbn [mbind option_bind]; [|done].
    unfold revoked_of. cbn [fst]. by rewrite bool_decide_false by congruence.
Qed.

(** The row of a Pod that has none is written with no other current. *)
Lemma insert_placement t m n input now : holds t m n →
  placed m (PlacementInput_Agent input) !! PlacementRequest_PodUID (PlacementInput_Request input) = None →
  let agent := PlacementInput_Agent input in
  let r := PlacementInput_Request input in
  let t' := set_placements (map_imap (λ k r, Some (revoked_of agent now k r)) (placements t)) t in
  insertPlacement agent (PlacementRequest_PodUID r) (PlacementInput_Controller input) (PlacementRequest_Epoch r)
  (PlacementRequest_PVCUID r) (PlacementRequest_TokenSHA256 r) (Previous_PodUID (PlacementRequest_Previous r))
  (Previous_WriterStoppedSHA256 (PlacementRequest_Previous r)) now t' = Ok (1, placement_stored input now t).
Proof.
  intros Ht Hn agent r t'. unfold insertPlacement. rewrite written_ok; [done|done| |done].
  apply andb_true_iff. split.
  - cbn. rewrite map_lookup_imap. destruct (placements t !! _) as [row|] eqn:Hr; [|done].
    destruct (placement_of _ _ _ _ _ _ Ht Hr) as (p & Hp & _). by pose proof (eq_trans (eq_sym Hp) Hn).
  - unfold placements_current. apply negb_true_iff, exists_row_false. intros k row. cbn. rewrite map_lookup_imap.
    destruct (placements t !! k) as [row0|]; [|done]. cbn. intros [= <-]. unfold revoked_of.
    destruct (bool_decide (k.1 = agent)); [|done]. cbn [andb]. destruct (placement_revoked_at row0) eqn:Hrev; cbn; rewrite ?Hrev; by rewrite andb_false_r.
Qed.

Lemma decide_refuses current same input err : DecidePlacement current same input = Err err →
  isPlacementRefusal err = true ∧ isUniqueViolation err = false.
Proof.
  unfold DecidePlacement. intros Hd. repeat (case_match; try done); by injection Hd as <-.
Qed.

Lemma wp_registerPlacement input Q b m n : wf m → holds b m n →
  (∀ err n', driver_error err → (n ≤ n')%nat → Q (Err err) (mkDatabase b [] n')) →
  (∀ err n', isPlacementRefusal err = true → isUniqueViolation err = false → Memory.register_placement input m = (Err err, m) →
    (n ≤ n')%nat → Q (Err err) (mkDatabase b [] n')) →
  (∀ a t, commits malformed (Repository.RegisterPlacement input) b m (S n) (Ok a) t →
    Q (Ok a) (mkDatabase t [] (S n)) ∧ ∀ err, driver_error err → Q (Err err) (mkDatabase t [] (S n))) →
  wp (registerPlacement input) Q (mkDatabase b [] n).
Proof.
  intros Hwf Hb Hd Hr Ho. unfold registerPlacement, register_decided.
  eapply (wp_transaction _ _ (λ a t, commits malformed (Repository.RegisterPlacement input) b m (S n) (Ok a) t) (λ err, driver_error err ∨
    isPlacementRefusal err = true ∧ isUniqueViolation err = false ∧ Memory.register_placement input m = (Err err, m))); [by left| |done|].
  { intros err n' [He|(H1 & H2 & H3)] Hn; auto. }
  assert (∀ err, driver_error err → scanPlacement (Err err) (PlacementInput_Agent input) = Err err) as Hscan.
  { intros err He. unfold scanPlacement. by rewrite (proj1 He). }
  eapply body_row; [done|intros err He; rewrite (Hscan err He); apply body_error_at; by left|].
  rewrite (current_read _ _ _ _ Hwf Hb). apply body_lift.
  eapply body_row; [done|intros err He; rewrite (Hscan err He); apply body_error_at; by left|].
  rewrite (pod_read _ _ _ _ _ Hb). apply body_lift. unfold commits. cbn [Memory.handle]. unfold Memory.register_placement.
  fold (current_of (PlacementInput_Agent input) m).
  set (same := placed m _ !! _). destruct (DecidePlacement _ _ _) as [[]|err] eqn:Hdec.
  - apply body_lift. destruct same as [p|] eqn:Hsame.
    + apply body_ok. split; [constructor|]. by split; [apply holds_next|].
    + exfalso. unfold DecidePlacement in Hdec. repeat (case_match; try done).
  - assert (same = None) as Hsame by by eapply DecidePlacement_register.
    apply body_lift, body_exec; [by left|]. unfold revokePlacement.
    apply body_exec; [by left|]. cbv zeta. pose proof (insert_placement b m (S n) input (now_of (S n)) (holds_next _ _ _ _ Hb) Hsame) as Hi.
    cbv zeta in Hi. unfold revoked_of in Hi. rewrite Hi. apply body_ok. split; [constructor|]. cbn [fst snd].
    split; [exact (holds_placement _ _ _ input _ Hwf (holds_next _ _ _ _ Hb))|done].
  - apply body_lift. right. destruct (decide_refuses _ _ _ _ Hdec) as [H1 H2]. by split_and!.
Qed.

(** No attempt is made again over a database that serves one transaction after another. *)
Lemma call_RegisterPlacement input b m n : wf m → holds b m n →
  wp (RegisterPlacement input) (called (Repository.RegisterPlacement input) (mkDatabase b [] n) m) (mkDatabase b [] n).
Proof.
  intros Hwf Hb. unfold RegisterPlacement, placementAttempts. cbn [Nat.sub register_again]. rewrite wp_bind.
  assert (∀ err, driver_error err → isUniqueViolation err = false ∧
    ∃ text : failed, (if isPlacementRefusal err then err else storeError "register placement" err) = Errorf text) as Hd.
  { intros err He. split; [by apply driver_no_violation|]. unfold isPlacementRefusal. rewrite !(proj1 He). cbn. by apply storeError_opaque. }
  apply (wp_registerPlacement _ _ b m n Hwf Hb).
  - intros err n' He Hn. destruct (Hd err He) as [-> [text ->]]. wp_end. by eapply ends_undone.
  - intros err n' Hr Hu He Hn. rewrite Hu, Hr. wp_end. apply ends_read; [done| | |done]; cbn [Memory.handle]; rewrite He; [constructor|done].
  - intros a t Ha. split; [by apply ends_answered|]. intros err He. destruct (Hd err He) as [-> [text ->]]. wp_end.
    destruct Ha as (_ & Ht & Hp & _). by eapply ends_done.
Qed.
End placements.
End PostgresPlacements.

Import Validation MemoryInvariant Distribution Sql Postgres SqlSpec PostgresSpec PostgresRefine PostgresRecords.

Module PostgresStops.

Section stops.
Context `{K8s : Kubernetes, RJ : !ResourcesJSON, QJ : !QuantityJSON, SE : !SemanticEquality, DB : Database, DL : !DatabaseLaws}.
Context (malformed : string → string).
Implicit Types (t b : tables) (m : Memory.mem).
Abbreviation holds := (holds malformed).
Abbreviation called := (called malformed).
Abbreviation commits := (commits malformed).

(** ** Stops as they are read *)
Lemma stop_at t m n k s : holds t m n → Memory.stops m !! k = Some s → ∃ row, stops t !! k = Some row ∧ stop_row s row.
Proof. intros Ht Hs. pose proof (h_stops _ _ _ _ Ht k) as Hr. rewrite Hs in Hr. inversion Hr as [? row|]. by exists row. Qed.
Lemma stop_of t m n k row : holds t m n → stops t !! k = Some row → ∃ s, Memory.stops m !! k = Some s ∧ stop_row s row.
Proof. intros Ht Hs. pose proof (h_stops _ _ _ _ Ht k) as Hr. rewrite Hs in Hr. inversion Hr as [s|]. by exists s. Qed.
Lemma stop_none t m n k : holds t m n → Memory.stops m !! k = None → stops t !! k = None.
Proof. intros Ht Hs. pose proof (h_stops _ _ _ _ Ht k) as Hr. rewrite Hs in Hr. by inversion Hr. Qed.
Lemma stored_scanned t m n k s row : wf m → holds t m n → Memory.stops m !! k = Some s → stop_row s row → scanStop (Ok (k, row)) = Ok s.
Proof.
  intros Hwf Ht Hs Hr. rewrite <- (proj1 (wf_stops _ Hwf) _ _ Hs). apply stop_scanned; [done|].
  intros e He. rewrite (proj1 (wf_stops _ Hwf) _ _ Hs). by eapply (h_ends _ _ _ _ Ht).
Qed.
Lemma stop_read t m n k : wf m → holds t m n →
  scanStop match (λ r, (k, r)) <$> stops t !! k with Some x => Ok x | None => Err ErrNoRows end =
  match Memory.stops m !! k with Some s => Ok s | None => Err ErrNoRows end.
Proof.
  intros Hwf Ht. destruct (Memory.stops m !! k) as [s|] eqn:Hs.
  - destruct (stop_at _ _ _ _ _ Ht Hs) as (row & -> & Hr). by eapply stored_scanned.
  - by rewrite (stop_none _ _ _ _ Ht Hs).
Qed.

(** The stop that holds an agent. *)
Lemma current_stop_Some m agent s : wf m →
  Memory.current_stop_locked agent m = Some s ↔ Memory.stops m !! Stop_Key s = Some s ∧ Stop_Agent s = agent ∧ Stop_Start s = None.
Proof. intros Hwf. by apply current_stop_locked_Some, (wf_stops _ Hwf). Qed.
Lemma no_current_stop m agent k s : Memory.current_stop_locked agent m = None → Memory.stops m !! k = Some s →
  Stop_Agent s = agent → Stop_Start s = None → False.
Proof. intros Hn Hs Ha Hst. pose proof (find_value_None _ _ _ _ Hn Hs) as Hf. cbn in Hf. by rewrite !bool_decide_true in Hf. Qed.
Definition holds_agent (agent : string) (r : stopRow) : bool := bool_decide (stop_agent r = agent) && null (stop_started_at r).
Lemma holds_agent_row agent s row : stop_row s row →
  holds_agent agent row = bool_decide (Stop_Agent s = agent) && bool_decide (Stop_Start s = None).
Proof.
  intros (Ha & _ & _ & _ & _ & _ & Hst). unfold holds_agent. rewrite Ha, Hst. f_equal. by destruct (Stop_Start s).
Qed.
Lemma current_row t m n agent : wf m → holds t m n →
  scanStop match one_row (λ _ r, bool_decide (stop_agent r = agent) && null (stop_started_at r)) (stops t) with
  | Some x => Ok x | None => Err ErrNoRows end =
  match Memory.current_stop_locked agent m with Some s => Ok s | None => Err ErrNoRows end.
Proof.
  intros Hwf Ht. destruct (one_row _ _) as [[k row]|] eqn:Ho.
  - apply one_row_Some in Ho as [Hrow Hp]. destruct (stop_of _ _ _ _ _ Ht Hrow) as (s & Hs & Hr).
    rewrite (stored_scanned _ _ _ _ _ _ Hwf Ht Hs Hr). fold (holds_agent agent row) in Hp. rewrite (holds_agent_row _ _ _ Hr) in Hp.
    apply andb_prop in Hp as [Ha%bool_decide_eq_true Hst%bool_decide_eq_true].
    assert (Memory.current_stop_locked agent m = Some s) as ->; [|done]. apply current_stop_Some; [done|].
    by rewrite (proj1 (wf_stops _ Hwf) _ _ Hs).
  - destruct (Memory.current_stop_locked agent m) as [s|] eqn:Hc; [|done]. apply current_stop_Some in Hc as (Hs & Ha & Hst); [|done].
    destruct (stop_at _ _ _ _ _ Ht Hs) as (row & Hrow & Hr). pose proof (one_row_None _ _ Ho _ _ Hrow) as Hn. cbn beta in Hn.
    fold (holds_agent agent row) in Hn. rewrite (holds_agent_row _ _ _ Hr) in Hn. by rewrite !bool_decide_true in Hn.
Qed.
Lemma stopped_row t m n agent : wf m → holds t m n → agent_stopped t agent = bool_decide (Memory.current_stop_locked agent m ≠ None).
Proof.
  intros Hwf Ht. apply eq_true_iff_eq. unfold agent_stopped. rewrite exists_row_true, bool_decide_eq_true. split.
  - intros (k & row & Hrow & Hp). destruct (stop_of _ _ _ _ _ Ht Hrow) as (s & Hs & Hr).
    fold (holds_agent agent row) in Hp. rewrite (holds_agent_row _ _ _ Hr) in Hp.
    apply andb_prop in Hp as [Ha%bool_decide_eq_true Hst%bool_decide_eq_true]. intros Hn. by eapply no_current_stop.
  - destruct (Memory.current_stop_locked agent m) as [s|] eqn:Hc; [|done]. intros _. apply current_stop_Some in Hc as (Hs & Ha & Hst); [|done].
    destruct (stop_at _ _ _ _ _ Ht Hs) as (row & Hrow & Hr). exists (Stop_Key s), row. split; [done|].
    fold (holds_agent agent row). rewrite (holds_agent_row _ _ _ Hr). by rewrite !bool_decide_true.
Qed.

Lemma call_CurrentStop agent b m n : wf m → holds b m n →
  wp (CurrentStop agent) (called (Repository.CurrentStop agent) (mkDatabase b [] n) m) (mkDatabase b [] n).
Proof.
  intros Hwf Hb. unfold CurrentStop.
  apply (call_query_row malformed _ _ _ _ Hb _ (λ row, match scanStop row with Ok s => _ | Err err => _ end)).
  { intros err He. cbn. apply opaque_answer; auto with opaque. }
  cbn beta iota delta [currentStop select]. apply commits_read; [done| |done].
  rewrite (current_row _ _ _ _ Hwf Hb). cbn [Memory.handle]. unfold Memory.current_stop.
  destruct (Memory.current_stop_locked agent m); constructor.
Qed.

(** ** Stops as they are written *)
Lemma holds_bumped t m n : holds t m n → holds (set_position (position t + 1) t) (Memory.bump m) n.
Proof. intros [] . split; try done. cbn. intros k r Hk. specialize (h_position0 k r Hk). lia. Qed.
Lemma holds_stop t m n k s row : holds t m n → stop_row s row →
  (∀ e, Stop_Start s = Some e → Key_Organization (StopEnd_Key e) = Key_Organization k ∧ Memory.stopEnds m !! StopEnd_Key e = Some k) →
  holds (set_stops (<[k := row]> (stops t)) t) (Memory.set_stops (<[k := s]> (Memory.stops m)) m) n.
Proof.
  intros [] Hr He. split; try done; cbn.
  - intros k'. destruct (decide (k = k')) as [->|Hne]; [rewrite !lookup_insert_eq; by constructor|].
    rewrite !lookup_insert_ne by done. apply h_stops0.
  - intros k' s' e [[<- <-]|[_ Hs]]%lookup_insert_cases; [apply He|by apply h_ends0].
Qed.
(** A start recorded under a key of its own. *)
Lemma holds_end t m n k key : holds t m n → Memory.stopEnds m !! key = None →
  holds t (Memory.set_stopEnds (<[key := k]> (Memory.stopEnds m)) m) n.
Proof.
  intros [] Hn. split; try done; cbn. intros k' s e Hs Hst. destruct (h_ends0 _ _ _ Hs Hst) as [Ho Hk]. split; [done|].
  rewrite lookup_insert_ne; [done|]. intros Heq. by rewrite <- Heq, Hn in Hk.
Qed.

Lemma call_RecordDeactivation key b m n : holds b m n →
  wp (RecordDeactivation key) (called (Repository.RecordDeactivation key) (mkDatabase b [] n) m) (mkDatabase b [] n).
Proof.
  intros Hb. unfold RecordDeactivation.
  apply (call_exec_then malformed _ _ _ _ Hb _ _ _ (λ affected, if bool_decide (affected = 0) then Err ErrNotFound else Ok tt));
    [auto with opaque|by intros x; destruct (bool_decide _)|].
  unfold recordDeactivation, PostgresRefine.commits. cbn [Memory.handle]. unfold Memory.record_deactivation.
  destruct (Memory.stops m !! key) as [s|] eqn:Hs.
  - destruct (stop_at _ _ _ _ _ Hb Hs) as (row & -> & Hr). cbn [bool_decide]. split; [constructor|]. split; [|done].
    apply (holds_stop b m (S n)); [by apply holds_next| |by intros e He; apply (h_ends _ _ _ _ Hb _ _ _ Hs)].
    destruct Hr as (? & ? & ? & ? & ? & ? & ?). by split_and!.
  - rewrite (stop_none _ _ _ _ Hb Hs). cbn [bool_decide]. split; [constructor|]. by split; [apply holds_next|].
Qed.

Lemma stops_unique_open t m n key r : holds t m n → stop_start r = None → stop_started_at r = None →
  Memory.stops m !! key = None →
  stops_unique t key r = bool_decide (Memory.current_stop_locked (stop_agent r) m = None).
Proof.
  intros Ht Hst Hsa Hk. unfold stops_unique. rewrite Hst, Hsa. cbn [null].
  destruct (Memory.current_stop_locked (stop_agent r) m) as [s|] eqn:Hc; [rewrite bool_decide_false by done|rewrite bool_decide_true by done].
  - apply negb_false_iff, exists_row_true. apply find_value_Some in Hc as [[Ha Hn]%andb_prop [k Hs]]. apply bool_decide_eq_true in Ha, Hn.
    destruct (stop_at _ _ _ _ _ Ht Hs) as (row & Hrow & Hr). exists k, row. split; [done|].
    rewrite bool_decide_false by congruence. pose proof (holds_agent_row (stop_agent r) _ _ Hr) as Hh. unfold holds_agent in Hh.
    rewrite (bool_decide_true (Stop_Agent s = stop_agent r)), (bool_decide_true (Stop_Start s = None)) in Hh by done.
    cbn [negb orb andb] in *. by rewrite andb_true_r.
  - apply negb_true_iff, exists_row_false. intros k row Hrow. destruct (stop_of _ _ _ _ _ Ht Hrow) as (s & Hs & Hr). cbn [orb].
    pose proof (holds_agent_row (stop_agent r) _ _ Hr) as Hh. unfold holds_agent in Hh. rewrite andb_true_r, Hh.
    apply andb_false_iff. right. destruct (bool_decide (Stop_Agent s = _)) eqn:H1, (bool_decide (Stop_Start s = None)) eqn:H2; try done.
    apply bool_decide_eq_true in H1, H2. by destruct (no_current_stop _ _ _ _ Hc Hs H1 H2).
Qed.

Lemma call_RecordStop s b m n : wf m → holds b m n →
  wp (RecordStop s) (called (Repository.RecordStop s) (mkDatabase b [] n) m) (mkDatabase b [] n).
Proof.
  intros Hwf Hb. set (e := Repository.RecordStop s). unfold RecordStop, lifecycle.
  apply (call_transaction malformed e b m n Hb (lifecycleError "record stop") (λ x, x)); [auto with opaque|].
  apply body_exec; [by left|]. unfold insertStop. set (row := mkStopRow _ _ _ _ _ _ _ _).
  unfold body_error, PostgresRefine.commits. cbn [Memory.handle e]. unfold Memory.record_stop.
  assert (∀ t (k : result stopColumns → prog sqlE (result (Stop * bool))) Q E,
    (∀ err, driver_error err → wp (k (Err err)) (ends b (S n) Q E) (mkDatabase b [None] (S n))) →
    wp (k match (λ r, (Stop_Key s, r)) <$> stops t !! Stop_Key s with Some x => Ok x | None => Err ErrNoRows end) (ends b (S n) Q E) (mkDatabase b [Some t] (S n)) →
    wp (row ← query_row (getStopByKey (Stop_Key s)); k row) (ends b (S n) Q E) (mkDatabase b [Some t] (S n))) as Hread.
  { intros t k Q E Hd Hk. by eapply body_row. }
  assert (∀ err, driver_error err → scanStop (Err err) = Err err) as Hscan by done.
  destruct (Memory.stops m !! Stop_Key s) as [stored|] eqn:Hs.
  - destruct (stop_at _ _ _ _ _ Hb Hs) as (row' & Hrow' & Hr). rewrite Hrow'. cbn [null andb negb].
    apply Hread; [intros err He; rewrite (Hscan err He), (proj1 He); apply body_error_at; by left|].
    rewrite (stop_read _ _ _ _ Hwf Hb), Hs. cbn [bool_decide].
    apply body_ok. split; [constructor|]. by split; [apply holds_next|].
  - rewrite (stop_none _ _ _ _ Hb Hs). cbn [null andb].
    rewrite (stops_unique_open _ _ _ _ _ Hb) by done. change (stop_agent row) with (Stop_Agent s).
    destruct (Memory.current_stop_locked (Stop_Agent s) m) as [current|] eqn:Hc.
    + rewrite bool_decide_false by done. cbn [negb].
      apply Hread; [intros err He; rewrite (Hscan err He), (proj1 He); apply body_error_at; by left|].
      rewrite (stop_read _ _ _ _ Hwf Hb), Hs. apply body_error_at. right. by eexists.
    + rewrite bool_decide_true by done. cbn [negb]. rewrite written_ok; [|done..]. cbn [mbind result_bind].
      set (s' := mkStop (Stop_Agent s) (Stop_Key s) (Stop_Binding s) (Stop_ActivationID s) false None).
      assert (stop_row s' row) as Hr by by split_and!.
      apply Hread; [intros err He; rewrite (Hscan err He), (proj1 He); apply body_error_at; by left|].
      assert (scanStop match (λ r, (Stop_Key s, r)) <$> stops (set_stops (<[Stop_Key s := row]> (stops b)) b) !! Stop_Key s with
        Some x => Ok x | None => Err ErrNoRows end = Ok s') as ->.
      { cbn [stops set_stops]. rewrite lookup_insert_eq. by apply (stop_scanned s'). }
      cbn [bool_decide]. apply body_exec; [by left|]. cbn beta iota delta [movePosition]. apply body_ok.
      split; [constructor|]. cbn [fst snd]. split; [|cbn; split; [lia|intros _; lia]].
      by apply holds_bumped, holds_stop; [apply holds_next| |].
Qed.

(** The stop a start's key ended. *)
Definition started_by organization start_id (k : RequestKey) (r : stopRow) : bool :=
  bool_decide (Key_Organization k = organization) &&
  match stop_start r with Some s => bool_decide (start_request_id s = start_id) | None => false end.
Lemma started_by_row k s row organization start_id : stop_row s row →
  (∀ e, Stop_Start s = Some e → Key_Organization (StopEnd_Key e) = Key_Organization k) →
  started_by organization start_id k row = true ↔ ∃ e, Stop_Start s = Some e ∧ StopEnd_Key e = mkRequestKey organization start_id.
Proof.
  intros (_ & _ & _ & _ & _ & Hst & _) Ho. unfold started_by. rewrite Hst. destruct (Stop_Start s) as [e|]; cbn.
  - specialize (Ho e eq_refl). destruct (StopEnd_Key e) as [eo ei] eqn:Hke. cbn in Ho. subst eo. rewrite andb_true_iff, !bool_decide_eq_true. cbn.
    split; [intros [<- <-]; by exists e|]. intros (? & [= <-] & Heq). rewrite Hke in Heq. by injection Heq as <- <-.
  - rewrite andb_false_r. split; [done|]. by intros (? & ? & _).
Qed.
Lemma started_row t m n organization start_id : wf m → holds t m n →
  scanStop match one_row (started_by organization start_id) (stops t) with Some x => Ok x | None => Err ErrNoRows end =
  match Memory.stopEnds m !! mkRequestKey organization start_id with
  | Some k => Ok (default Memory.zeroStop (Memory.stops m !! k))
  | None => Err ErrNoRows
  end.
Proof.
  intros Hwf Ht. destruct (one_row _ _) as [[k row]|] eqn:Ho.
  - apply one_row_Some in Ho as [Hrow Hp]. destruct (stop_of _ _ _ _ _ Ht Hrow) as (s & Hs & Hr).
    destruct (proj1 (started_by_row k s row organization start_id Hr
      (λ e He, proj1 (h_ends _ _ _ _ Ht _ _ e Hs He))) Hp) as (e & He & Hk).
    destruct (h_ends _ _ _ _ Ht _ _ _ Hs He) as [_ Hend]. rewrite Hk in Hend. rewrite Hend, Hs. by eapply stored_scanned.
  - destruct (Memory.stopEnds m !! mkRequestKey organization start_id) as [k|] eqn:Hend; [|done].
    destruct (proj2 (proj2 (wf_stops _ Hwf)) _ _ Hend) as (s & e & Hs & He & Hk). destruct (stop_at _ _ _ _ _ Ht Hs) as (row & Hrow & Hr).
    pose proof (one_row_None _ _ Ho _ _ Hrow) as Hn. enough (started_by organization start_id k row = true) by congruence.
    apply (started_by_row k s row); [done|by intros e' He'; apply (h_ends _ _ _ _ Ht _ _ _ Hs)|]. by exists e.
Qed.

Definition started (s : Types.Stop) (e : StopEnd) : Types.Stop :=
  mkStop (Stop_Agent s) (Stop_Key s) (Stop_Binding s) (Stop_ActivationID s) (Stop_Deactivated s) (Some e).
Definition row_started (e : StopEnd) (now : Time) (r : stopRow) : stopRow :=
  mkStopRow (stop_agent r) (stop_bound r) (stop_assigned r) (stop_activation_id r) (stop_stopped_at r) (stop_deactivated_at r)
  (Some (start_row e)) (Some now).
Lemma record_start t m n s e now : wf m → holds t m n →
  Memory.stops m !! Stop_Key s = Some s → Stop_Start s = None → Memory.stopEnds m !! StopEnd_Key e = None →
  Key_Organization (Stop_Key s) = Key_Organization (StopEnd_Key e) →
  ∃ row, recordStart (Stop_Key s) (Key_RequestID (StopEnd_Key e)) (bound_of (StopEnd_Binding e)) (assigned_of (StopEnd_Binding e)) now t =
  Ok (1, set_stops (<[Stop_Key s := row]> (stops t)) t) ∧ stop_row (started s e) row.
Proof.
  intros Hwf Ht Hs Hst Hend Ho. destruct (stop_at _ _ _ _ _ Ht Hs) as (row & Hrow & Hr). exists (row_started e now row).
  pose proof Hr as (E1 & E2 & E3 & E4 & E5 & E6 & E7).
  split; [|by split_and!]. unfold recordStart. rewrite Hrow. rewrite E7, Hst. cbn [null negb]. fold (start_row e). fold (row_started e now row).
  rewrite written_ok; [done|done| |done]. unfold stops_unique. apply negb_true_iff, exists_row_false. intros k' row' Hrow'.
  destruct (stop_of _ _ _ _ _ Ht Hrow') as (s' & Hs' & Hr'). cbn [stop_start row_started stop_started_at null]. rewrite andb_false_r, orb_false_r.
  apply andb_false_iff. right. pose proof Hr' as (_ & _ & _ & _ & _ & E6' & _). rewrite E6'. destruct (Stop_Start s') as [e'|] eqn:He'; [|done]. cbn.
  apply andb_false_iff. destruct (h_ends _ _ _ _ Ht _ _ _ Hs' He') as [Ho' Hend'].
  destruct (decide (Key_Organization k' = Key_Organization (Stop_Key s))) as [Heq|]; [right|left; by apply bool_decide_false].
  apply bool_decide_false. intros Hid. assert (StopEnd_Key e' = StopEnd_Key e) as Hke; [|by rewrite Hke, Hend in Hend'].
  assert (∀ k1 k2 : RequestKey, Key_Organization k1 = Key_Organization k2 → Key_RequestID k1 = Key_RequestID k2 → k1 = k2) as Hkey
    by (intros [] []; cbn; by intros -> ->).
  apply Hkey; [congruence|exact Hid].
Qed.

Lemma call_RecordStart agent e b m n : wf m → holds b m n → storable malformed m (Repository.RecordStart agent e) →
  wp (RecordStart agent e) (called (Repository.RecordStart agent e) (mkDatabase b [] n) m) (mkDatabase b [] n).
Proof.
  intros Hwf Hb Horg. unfold RecordStart, lifecycle.
  apply (call_transaction malformed (Repository.RecordStart agent e) b m n Hb (lifecycleError "record start") (λ x, x)); [auto with opaque|].
  unfold body_error, PostgresRefine.commits. cbn [Memory.handle]. unfold Memory.record_start.
  eapply body_row; [done|intros err He; cbn; rewrite (proj1 He); apply body_error_at; by left|].
  cbn beta. fold (started_by (Key_Organization (StopEnd_Key e)) (Key_RequestID (StopEnd_Key e))).
  rewrite (started_row _ _ _ _ _ Hwf Hb).
  replace (mkRequestKey (Key_Organization (StopEnd_Key e)) (Key_RequestID (StopEnd_Key e))) with (StopEnd_Key e) by by destruct (StopEnd_Key e).
  destruct (Memory.stopEnds m !! StopEnd_Key e) as [k|] eqn:Hend.
  { apply body_ok. split; [constructor|]. by split; [apply holds_next|]. }
  cbn [errors_is bool_decide negb]. eapply body_row; [done|intros err He; cbn; rewrite (proj1 He); apply body_error_at; by left|].
  rewrite (current_row _ _ _ _ Hwf Hb). destruct (Memory.current_stop_locked agent m) as [s|] eqn:Hc; [|apply body_error_at; right; by eexists].
  apply body_exec; [by left|]. specialize (Horg s Hc). apply current_stop_Some in Hc as (Hs & Ha & Hst); [|done].
  destruct (record_start b m (S n) s e (now_of (S n)) Hwf (holds_next _ _ _ _ Hb) Hs Hst Hend Horg) as (row & -> & Hr).
  apply body_exec; [by left|]. cbn beta iota delta [movePosition]. apply body_ok.
  split; [constructor|]. cbn [fst snd]. split; [|cbn; split; [lia|intros _; lia]].
  apply holds_bumped.
  pose proof (holds_stop b _ (S n) (Stop_Key s) (started s e) row (holds_end _ _ _ (Stop_Key s) _ (holds_next _ _ _ _ Hb) Hend) Hr) as Ht.
  apply Ht. intros e' [= <-]. cbn. by rewrite lookup_insert_eq.
Qed.
End stops.
End PostgresStops.

Import Validation MemoryInvariant Distribution Sql Postgres SqlSpec PostgresSpec PostgresRefine PostgresRecords PostgresStops.

Module PostgresRecoveries.

Section recoveries.
Context `{K8s : Kubernetes, RJ : !ResourcesJSON, QJ : !QuantityJSON, SE : !SemanticEquality, DB : Database, DL : !DatabaseLaws}.
Context (malformed : string → string).
Implicit Types (t b : tables) (m : Memory.mem).
Abbreviation holds := (holds malformed).
Abbreviation called := (called malformed).
Abbreviation commits := (commits malformed).
Abbreviation recs m agent := (Memory.slice (Memory.recoveries m) agent).

(** ** Recoveries as they are read *)
Definition row_is r (row : recoveryRow) : Prop := recovery_row r (recovery_opened_at row) row.
Lemma row_scanned (agent : string) m i r row : wf m → recs m agent !! i = Some r → row_is r row →
  scanRecovery (Ok ((agent, Recovery_RequestID r), row)) = Ok r.
Proof. intros Hwf Hi Hr. destruct (proj1 (wf_recoveries _ Hwf) _ _ _ Hi) as [<- _]. by eapply recovery_scanned. Qed.
Lemma row_key r row : row_is r row → recovery_key row = Recovery_Key r.
Proof. intros [-> _]. done. Qed.
Lemma row_stage r row : row_is r row → recovery_stage row = stage_text (Recovery_Stage r).
Proof. intros [-> _]. done. Qed.
Lemma row_finalized r row : row_is r row →
  bool_decide (recovery_stage row = "finalized") = bool_decide (Recovery_Stage r = RecoveryFinalized).
Proof. intros Hr. rewrite (row_stage _ _ Hr). by destruct (Recovery_Stage r). Qed.

Lemma recovery_at t m n (agent : string) i r : holds t m n → recs m agent !! i = Some r →
  ∃ row, recoveries t !! (agent, Recovery_RequestID r) = Some row ∧ row_is r row.
Proof. intros Ht Hi. by eapply (h_recoveries _ _ _ _ Ht). Qed.
Lemma recovery_of t m n (agent id : string) row : holds t m n → recoveries t !! (agent, id) = Some row →
  ∃ i r, recs m agent !! i = Some r ∧ Recovery_RequestID r = id ∧ row_is r row.
Proof.
  intros Ht Hr. destruct (h_recoveries_only _ _ _ _ Ht _ _ _ Hr) as (i & r & Hi & Hid). exists i, r. split; [done|]. split; [done|].
  destruct (recovery_at _ _ _ _ _ _ Ht Hi) as (row' & Hrow' & Hr'). rewrite Hid, Hr in Hrow'. by injection Hrow' as <-.
Qed.
(** By its request, and by the console's key. *)
Lemma id_read t m n (agent id : string) : wf m → holds t m n →
  scanRecovery match (λ r, ((agent, id), r)) <$> recoveries t !! (agent, id) with Some x => Ok x | None => Err ErrNoRows end =
  match Memory.recovery_locked agent id m with
  | Some i => match recs m agent !! i with Some r => Ok r | None => Err ErrNoRows end
  | None => Err ErrNoRows
  end.
Proof.
  intros Hwf Ht. destruct (Memory.recovery_locked agent id m) as [i|] eqn:Hl.
  - apply recovery_locked_Some in Hl as (r & Hi & <-). destruct (recovery_at _ _ _ _ _ _ Ht Hi) as (row & -> & Hr).
    rewrite_at Hi. by eapply row_scanned.
  - destruct (recoveries t !! (agent, id)) as [row|] eqn:Hr; [|done].
    destruct (recovery_of _ _ _ _ _ _ Ht Hr) as (i & r & Hi & Hid & _). by destruct (recovery_locked_None _ _ _ _ _ Hl Hi).
Qed.
Lemma id_absent t m n (agent id : string) : holds t m n → Memory.recovery_locked agent id m = None → recoveries t !! (agent, id) = None.
Proof.
  intros Ht Hl. destruct (recoveries t !! (agent, id)) as [row|] eqn:Hr; [|done].
  destruct (recovery_of _ _ _ _ _ _ Ht Hr) as (i & r & Hi & Hid & _). by destruct (recovery_locked_None _ _ _ _ _ Hl Hi).
Qed.
Lemma key_read t m n key : wf m → holds t m n →
  scanRecovery match one_row (λ _ r, bool_decide (recovery_key r = key)) (recoveries t) with Some x => Ok x | None => Err ErrNoRows end =
  match keyed_recovery key m with Some r => Ok r | None => Err ErrNoRows end.
Proof.
  intros Hwf Ht. destruct (one_row _ _) as [[[agent id] row]|] eqn:Ho.
  - apply one_row_Some in Ho as [Hrow Hk%bool_decide_eq_true]. destruct (recovery_of _ _ _ _ _ _ Ht Hrow) as (i & r & Hi & <- & Hr).
    rewrite (row_scanned _ _ _ _ _ Hwf Hi Hr). rewrite (row_key _ _ Hr) in Hk.
    destruct (keyed_recovery key m) as [r'|] eqn:Hkey; [|by destruct (keyed_recovery_None _ _ _ _ _ Hkey Hi)].
    apply keyed_recovery_Some in Hkey as (Hk' & a & j & Hj). destruct (wf_recoveries _ Hwf) as (_ & _ & Hkeys).
    destruct (Hkeys _ _ _ _ _ _ Hi Hj) as [<- <-]; [congruence|]. by rewrite Hi in Hj; injection Hj as <-.
  - destruct (keyed_recovery key m) as [r|] eqn:Hkey; [|done]. apply keyed_recovery_Some in Hkey as (Hk & a & i & Hi).
    destruct (recovery_at _ _ _ _ _ _ Ht Hi) as (row & Hrow & Hr). pose proof (one_row_None _ _ Ho _ _ Hrow) as Hn. cbn beta in Hn.
    by rewrite (row_key _ _ Hr), bool_decide_true in Hn.
Qed.

(** The open one, which is the last. *)
Lemma open_locked_Some m agent o : wf m → Memory.open_recovery_locked agent m = Some o ↔
  ∃ i r, recs m agent !! i = Some r ∧ Recovery_Stage r ≠ RecoveryFinalized ∧ o = mkOpenRecovery (Recovery_RequestID r) (Recovery_Epoch r).
Proof.
  intros Hwf. unfold Memory.open_recovery_locked. split.
  - destruct (List.find _ _) as [r|] eqn:Hf; [|done]. intros [= <-]. apply find_some in Hf as [Hin Hst].
    apply list_elem_of_In, list_elem_of_lookup in Hin as [i Hi]. exists i, r. split; [done|]. split; [|done].
    by apply negb_true_iff, bool_decide_eq_false in Hst.
  - intros (i & r & Hi & Hst & ->). destruct (List.find _ _) as [r'|] eqn:Hf.
    + apply find_some in Hf as [Hin Hst']. apply list_elem_of_In, list_elem_of_lookup in Hin as [j Hj].
      apply negb_true_iff, bool_decide_eq_false in Hst'. destruct (wf_recoveries _ Hwf) as (Hrs & _).
      destruct (Hrs _ _ _ Hi) as (_ & _ & Hli), (Hrs _ _ _ Hj) as (_ & _ & Hlj).
      assert (i = j) as <- by (specialize (Hli Hst); specialize (Hlj Hst'); lia). rewrite Hi in Hj. by injection Hj as <-.
    + apply (find_none _ _) with (x := r) in Hf; [by rewrite bool_decide_false in Hf|].
      by apply list_elem_of_In, list_elem_of_lookup; exists i.
Qed.
Lemma open_rows t m n agent : wf m → holds t m n →
  (λ kr, (kr.1.2, recovery_epoch kr.2)) <$> open_recoveries t agent =
  match Memory.open_recovery_locked agent m with
  | Some o => [(OpenRecovery_RequestID o, OpenRecovery_Epoch o)]
  | None => []
  end.
Proof.
  intros Hwf Ht. unfold open_recoveries. set (p := λ (k : string * string) (r : recoveryRow), _ && _).
  assert (∀ k row, recoveries t !! k = Some row → p k row = true → ∃ r, k = (agent, Recovery_RequestID r) ∧ row_is r row ∧
    Memory.open_recovery_locked agent m = Some (mkOpenRecovery (Recovery_RequestID r) (Recovery_Epoch r))) as Hp.
  { intros [a id] row Hrow [Ha Hst]%andb_prop. apply bool_decide_eq_true in Ha. cbn in Ha. subst a.
    destruct (recovery_of _ _ _ _ _ _ Ht Hrow) as (i & r & Hi & <- & Hr). exists r. split; [done|]. split; [done|].
    rewrite (row_finalized _ _ Hr) in Hst. apply negb_true_iff, bool_decide_eq_false in Hst. apply open_locked_Some; [done|]. by exists i, r. }
  destruct (rows p (recoveries t)) as [|[k row] l] eqn:Hrows.
  - destruct (Memory.open_recovery_locked agent m) as [o|] eqn:Ho; [|done].
    apply open_locked_Some in Ho as (i & r & Hi & Hst & ->); [|done]. destruct (recovery_at _ _ _ _ _ _ Ht Hi) as (row & Hrow & Hr).
    assert (((agent, Recovery_RequestID r), row) ∈ rows p (recoveries t)) as Hin; [|rewrite Hrows in Hin; by apply not_elem_of_nil in Hin].
    apply elem_of_rows. split; [|done]. unfold p. cbn [fst]. rewrite (row_finalized _ _ Hr), bool_decide_true, bool_decide_false by done. done.
  - assert ((k, row) ∈ rows p (recoveries t)) as [Hk Hrow]%elem_of_rows by (rewrite Hrows; by left).
    destruct (Hp _ _ Hrow Hk) as (r & -> & Hr & Ho). rewrite Ho. destruct l as [|[k' row'] l]; [cbn; by destruct Hr as [-> _]|].
    exfalso. assert ((k', row') ∈ rows p (recoveries t)) as [Hk' Hrow']%elem_of_rows by (rewrite Hrows; right; by left).
    destruct (Hp _ _ Hrow' Hk') as (r' & -> & Hr' & Ho'). rewrite Ho in Ho'. injection Ho' as Hid _.
    pose proof (NoDup_rows p (recoveries t)) as Hnd. rewrite Hrows in Hnd. cbn in Hnd. rewrite Hid in Hnd.
    apply NoDup_cons in Hnd as [Hnd _]. apply Hnd. by left.
Qed.

#[local] Instance later_trans : Transitive (λ x y, Is_true (later_recovery x y)).
Proof.
  intros [kx x] [ky y] [kz z]. unfold later_recovery. cbn.
  destruct (bool_decide (recovery_stage x = _)), (bool_decide (recovery_stage y = _)), (bool_decide (recovery_stage z = _)); cbn; try done;
    rewrite !bool_decide_spec; lia.
Qed.
#[local] Instance later_total : Total (λ x y, Is_true (later_recovery x y)).
Proof.
  intros [kx x] [ky y]. unfold later_recovery. cbn.
  destruct (bool_decide (recovery_stage x = _)), (bool_decide (recovery_stage y = _)); cbn; try auto; rewrite !bool_decide_spec; lia.
Qed.
Lemma head_least {A} (le : relation A) `{!RelDecision le, !Transitive le, !Total le} l x :
  x ∈ l → (∀ y, y ∈ l → le y x → y = x) → head (merge_sort le l) = Some x.
Proof.
  intros Hx Hu. pose proof (merge_sort_Permutation le l) as Hp. pose proof (StronglySorted_merge_sort le l) as Hs.
  destruct (merge_sort le l) as [|y l'] eqn:Hm; [apply Permutation_nil in Hp; subst; by apply not_elem_of_nil in Hx|]. cbn. f_equal.
  apply Hu; [rewrite <- Hp; by left|]. rewrite <- Hp in Hx. apply elem_of_cons in Hx as [->|Hx].
  - by destruct (total le y y).
  - apply StronglySorted_inv in Hs as [_ Hall]. by apply (proj1 (Forall_forall _ _) Hall).
Qed.
(** The one opened last is answered. *)
Lemma latest_read t m n (agent : string) now : wf m → holds t m n →
  ∃ x, latestRecovery agent now t = Ok (x, t) ∧
  scanRecovery match x with Some x => Ok x | None => Err ErrNoRows end = match last (recs m agent) with Some r => Ok r | None => Err ErrNoRows end.
Proof.
  intros Hwf Ht. eexists. split; [done|]. cbn beta. set (p := λ (k : string * string) (_ : recoveryRow), bool_decide (k.1 = agent)).
  destruct (last (recs m agent)) as [r|] eqn:Hlast.
  - pose proof (last_lookup_Some _ _ Hlast) as Hi. destruct (recovery_at _ _ _ _ _ _ Ht Hi) as (row & Hrow & Hr).
    match goal with |- context [head ?l] => assert (head l = Some ((agent, Recovery_RequestID r), row)) as -> end; [|by eapply row_scanned].
    apply head_least; [exact later_trans|exact later_total| |].
    + apply elem_of_rows. unfold p. by rewrite bool_decide_true.
    + intros [[a id] row'] [Ha Hrow']%elem_of_rows Hle. apply bool_decide_eq_true in Ha. cbn in Ha. subst a.
      destruct (recovery_of _ _ _ _ _ _ Ht Hrow') as (j & r' & Hj & <- & Hr').
      destruct (decide (j = (length (recs m agent) - 1)%nat)) as [->|Hne].
      { rewrite Hi in Hj. injection Hj as <-. by rewrite Hrow in Hrow'; injection Hrow' as <-. }
      exfalso. assert (j < length (recs m agent) - 1)%nat as Hlt by (apply lookup_lt_Some in Hj; lia).
      pose proof (h_opened_order _ _ _ _ Ht _ _ _ _ _ _ _ Hj Hi Hlt Hrow' Hrow) as Hopened.
      destruct (proj1 (wf_recoveries _ Hwf) _ _ _ Hj) as (_ & _ & Hst).
      unfold later_recovery in Hle. cbn in Hle. rewrite (row_finalized _ _ Hr'), (row_finalized _ _ Hr) in Hle.
      destruct (decide (Recovery_Stage r' = RecoveryFinalized)) as [Hf|Hf]; [|specialize (Hst Hf); lia].
      rewrite (bool_decide_true _ Hf) in Hle. apply andb_prop_elim in Hle as [_ Hle%bool_decide_spec]. lia.
  - apply last_None in Hlast. destruct (head _) as [[[a id] row]|] eqn:Hh; [|done].
    match type of Hh with head ?l = _ => assert (((a, id), row) ∈ l) as Hin by (destruct l; [done|]; cbn in Hh; injection Hh as ->; by left) end.
    rewrite merge_sort_Permutation in Hin. apply elem_of_rows in Hin as [Ha Hrow].
    apply bool_decide_eq_true in Ha. cbn in Ha. subst a.
    destruct (recovery_of _ _ _ _ _ _ Ht Hrow) as (i & r & Hi & _). by rewrite Hlast in Hi.
Qed.
Lemma call_LatestRecovery agent b m n : wf m → holds b m n →
  wp (LatestRecovery agent) (called (Repository.LatestRecovery agent) (mkDatabase b [] n) m) (mkDatabase b [] n).
Proof.
  intros Hwf Hb. unfold LatestRecovery.
  apply (call_query_row malformed _ _ _ _ Hb _ (λ row, match scanRecovery row with Ok s => _ | Err err => _ end)).
  { intros err He. cbn. apply opaque_answer; auto with opaque. }
  destruct (latest_read b m n agent (now_of (S n)) Hwf Hb) as (x & -> & Hx). apply commits_read; [done| |done].
  rewrite Hx. cbn [Memory.handle]. unfold Memory.latest_recovery. cbn [fst]. destruct (last _); constructor.
Qed.

(** ** Recoveries as they are written *)
Lemma holds_opened b m n r row : holds b m n → row_is r row → recovery_opened_at row = now_of (S n) →
  Memory.recovery_locked (Recovery_Agent r) (Recovery_RequestID r) m = None →
  holds (set_recoveries (<[(Recovery_Agent r, Recovery_RequestID r) := row]> (recoveries b)) b)
  (Memory.set_recoveries (<[Recovery_Agent r := recs m (Recovery_Agent r) ++ [r]]> (Memory.recoveries m)) m) (S n).
Proof.
  intros Hb Hr Hat Hl. assert (now_of n < now_of (S n)) as Hclock by (apply clock_on; lia).
  assert (∀ agent i r', recs m agent !! i = Some r' → (Recovery_Agent r, Recovery_RequestID r) ≠ (agent, Recovery_RequestID r')) as Hne.
  { intros agent i r' Hi [= Hag Hid]. rewrite <- Hag in Hi. by destruct (recovery_locked_None _ _ _ _ _ Hl Hi). }
  pose proof Hb as []. split; try done; cbn; unfold GRN in *.
  - intros agent i r' [Hi|(-> & -> & ->)]%slice_push_lookup; [|exists row; by rewrite lookup_insert_eq].
    rewrite lookup_insert_ne by by eapply Hne. by eapply h_recoveries0.
  - intros agent id row' [[[= <- <-] <-]|[_ Hrow]]%lookup_insert_cases.
    + exists (length (recs m (Recovery_Agent r))), r. split; [|done]. rewrite slice_insert_eq, lookup_app_r, Nat.sub_diag by done. done.
    + destruct (h_recoveries_only0 _ _ _ Hrow) as (i & r' & Hi & Hid). exists i, r'. split; [by apply slice_push_mono|done].
  - intros k row' [[<- <-]|[_ Hrow]]%lookup_insert_cases; [lia|]. specialize (h_opened0 _ _ Hrow). lia.
  - intros agent i j r1 r2 row1 row2 [Hi|(-> & -> & ->)]%slice_push_lookup [Hj|(E1 & -> & ->)]%slice_push_lookup Hlt.
    + rewrite !lookup_insert_ne by by eapply Hne. by eapply h_opened_order0.
    + subst agent. rewrite lookup_insert_eq, lookup_insert_ne by by eapply Hne. intros Hrow [= <-]. specialize (h_opened0 _ _ Hrow). lia.
    + apply lookup_lt_Some in Hj. lia.
    + lia.
Qed.

Lemma holds_written t m n (agent : string) i r r' row row' : wf m → holds t m n → recs m agent !! i = Some r →
  recoveries t !! (agent, Recovery_RequestID r) = Some row → row_is r' row' → Recovery_RequestID r' = Recovery_RequestID r →
  recovery_opened_at row' = recovery_opened_at row →
  holds (set_recoveries (<[(agent, Recovery_RequestID r) := row']> (recoveries t)) t) (Memory.write_recovery agent i r' m) n.
Proof.
  intros Hwf Ht Hi Hrow Hr' Hid Hat. destruct (wf_recoveries _ Hwf) as (_ & Hids & _).
  assert (∀ a j r0, recs (Memory.write_recovery agent i r' m) a !! j = Some r0 →
    (a = agent ∧ j = i ∧ r0 = r') ∨ recs m a !! j = Some r0 ∧ (agent, Recovery_RequestID r) ≠ (a, Recovery_RequestID r0)) as Hold.
  { intros a j r0. cbn. rewrite slice_insert. case_decide as Ha.
    - subst a. intros [(-> & -> & _)|[Hne Hj]]%list_lookup_insert_Some; [by left|]. right. split; [done|]. intros [= Heq].
      apply Hne. by eapply Hids.
    - intros Hj. right. split; [done|]. by intros [= ? _]. }
  assert (∀ k row0, (<[(agent, Recovery_RequestID r) := row']> (recoveries t)) !! k = Some row0 →
    ∃ row1, recoveries t !! k = Some row1 ∧ recovery_opened_at row0 = recovery_opened_at row1) as Hopen.
  { intros k row0 [[<- <-]|[_ Hk]]%lookup_insert_cases; [by exists row|by exists row0]. }
  pose proof Ht as []. split; try done; cbn [recoveries set_recoveries].
  - intros a j r0 [(-> & -> & ->)|[Hj Hne]]%Hold; [exists row'; rewrite Hid; by rewrite lookup_insert_eq|].
    rewrite lookup_insert_ne by done. by eapply h_recoveries0.
  - intros a id row0 (row1 & Hrow1 & _)%Hopen. destruct (h_recoveries_only0 _ _ _ Hrow1) as (j & r0 & Hj & Hid0). cbn.
    destruct (decide (a = agent ∧ j = i)) as [[-> ->]|Hne].
    + rewrite Hi in Hj. injection Hj as <-. exists i, r'. rewrite slice_insert_eq, list_lookup_insert_eq by by eapply lookup_lt_Some. split; [done|congruence].
    + exists j, r0. split; [|done]. rewrite slice_insert. case_decide as Ha; [|done]. subst a. rewrite list_lookup_insert_ne; [done|]. by intros <-; destruct Hne.
  - intros k row0 (row1 & Hrow1 & ->)%Hopen. by apply h_opened0 in Hrow1.
  - assert (∀ a j r0, recs (Memory.write_recovery agent i r' m) a !! j = Some r0 →
      ∃ r1, recs m a !! j = Some r1 ∧ Recovery_RequestID r0 = Recovery_RequestID r1) as Hsame.
    { intros a j r0 [(-> & -> & ->)|[Hj _]]%Hold; [by exists r|by exists r0]. }
    intros a j k r1 r2 row1 row2 (r1' & Hj & ->)%Hsame (r2' & Hk & ->)%Hsame Hlt (row1' & H1 & ->)%Hopen (row2' & H2 & ->)%Hopen.
    by eapply (h_opened_order0 _ _ _ _ _ _ _ Hj Hk).
Qed.

(** ** What the unique indexes let pass *)
Lemma unique_update t m n (agent : string) i r row' : wf m → holds t m n → recs m agent !! i = Some r →
  Recovery_Stage r ≠ RecoveryFinalized → recovery_key row' = Recovery_Key r → recoveries_unique t (agent, Recovery_RequestID r) row' = true.
Proof.
  intros Hwf Ht Hi Hst Hk. destruct (wf_recoveries _ Hwf) as (Hrs & _ & Hkeys).
  unfold recoveries_unique. apply negb_true_iff, exists_row_false. intros [a id] row0 Hrow0.
  destruct (recovery_of _ _ _ _ _ _ Ht Hrow0) as (j & r0 & Hj & <- & Hr0). rewrite (row_finalized _ _ Hr0), (row_key _ _ Hr0), Hk.
  destruct (decide (a = agent ∧ j = i)) as [[-> ->]|Hne].
  { rewrite Hi in Hj. injection Hj as <-. by rewrite bool_decide_true. }
  apply andb_false_iff. right. apply orb_false_iff. split.
  - apply bool_decide_false. intros Heq. by destruct (Hkeys _ _ _ _ _ _ Hj Hi Heq) as [-> ->]; destruct Hne.
  - destruct (bool_decide ((a, Recovery_RequestID r0).1 = _)) eqn:Ha; [|done]. apply bool_decide_eq_true in Ha. cbn in Ha. subst a.
    destruct (bool_decide (Recovery_Stage r0 = RecoveryFinalized)) eqn:Hf; [by rewrite andb_false_r|]. apply bool_decide_eq_false in Hf.
    destruct (Hrs _ _ _ Hi) as (_ & _ & Hli), (Hrs _ _ _ Hj) as (_ & _ & Hlj). specialize (Hli Hst). specialize (Hlj Hf).
    destruct Hne. split; [done|lia].
Qed.
Lemma unique_fresh t m n (agent id : string) row : wf m → holds t m n → Memory.recovery_locked agent id m = None → recovery_stage row = "requested" →
  recoveries_unique t (agent, id) row = bool_decide (keyed_recovery (recovery_key row) m = None) && bool_decide (Memory.open_recovery_locked agent m = None).
Proof.
  intros Hwf Ht Hl Hst. apply eq_true_iff_eq. rewrite andb_true_iff, !bool_decide_eq_true. unfold recoveries_unique.
  rewrite negb_true_iff, exists_row_false, Hst. split.
  - intros Hno. split.
    + destruct (keyed_recovery _ m) as [r|] eqn:Hk; [|done]. apply keyed_recovery_Some in Hk as (Hk & a & i & Hi).
      destruct (recovery_at _ _ _ _ _ _ Ht Hi) as (row' & Hrow' & Hr'). specialize (Hno _ _ Hrow').
      rewrite (row_key _ _ Hr'), (bool_decide_true _ Hk), orb_true_l, andb_true_r in Hno.
      apply negb_false_iff, bool_decide_eq_true in Hno. injection Hno as -> Hid. by destruct (recovery_locked_None _ _ _ _ _ Hl Hi).
    + destruct (Memory.open_recovery_locked agent m) as [o|] eqn:Ho; [|done]. apply open_locked_Some in Ho as (i & r & Hi & Hs & _); [|done].
      destruct (recovery_at _ _ _ _ _ _ Ht Hi) as (row' & Hrow' & Hr'). specialize (Hno _ _ Hrow').
      rewrite (row_finalized _ _ Hr'), (bool_decide_false _ Hs) in Hno. cbn [fst] in Hno. rewrite (bool_decide_true (agent = agent)) in Hno by done. cbn in Hno.
      rewrite orb_true_r, andb_true_r in Hno. apply negb_false_iff, bool_decide_eq_true in Hno. injection Hno as Hid.
      by destruct (recovery_locked_None _ _ _ _ _ Hl Hi).
  - intros [Hk Ho] [a id'] row' Hrow'. destruct (recovery_of _ _ _ _ _ _ Ht Hrow') as (i & r & Hi & <- & Hr').
    apply andb_false_iff. right. apply orb_false_iff. split.
    + apply bool_decide_false. rewrite (row_key _ _ Hr'). by eapply keyed_recovery_None.
    + destruct (bool_decide ((a, Recovery_RequestID r).1 = _)) eqn:Ha; [|done]. apply bool_decide_eq_true in Ha. cbn in Ha. subst a.
      rewrite (row_finalized _ _ Hr'), (bool_decide_true (Recovery_Stage r = RecoveryFinalized)) by by eapply open_recovery_locked_None.
      by rewrite andb_false_r.
Qed.

(** ** The methods *)
Lemma scan_driver err : driver_error err → scanRecovery (Err err) = Err err.
Proof. done. Qed.
Lemma call_OpenRecovery r b m n : wf m → holds b m n → legal m (Repository.OpenRecovery_ r) →
  wp (OpenRecovery r) (called (Repository.OpenRecovery_ r) (mkDatabase b [] n) m) (mkDatabase b [] n).
Proof.
  intros Hwf Hb (Hst & Hbody & Hrec). unfold OpenRecovery, lifecycle. set (e := Repository.OpenRecovery_ r).
  apply (call_transaction malformed e b m n Hb (lifecycleError "open recovery") (λ x, x)); [auto with opaque|].
  apply body_exec; [by left|]. unfold insertRecovery.
  unfold body_error, PostgresRefine.commits. cbn [Memory.handle e]. unfold Memory.open_recovery. fold (keyed_recovery (Recovery_Key r) m).
  set (row := mkRecoveryRow _ _ _ _ _ _ _ _ _).
  assert (row_is r row) as Hr.
  { unfold row_is, recovery_row, row. rewrite Hst, Hbody, Hrec. done. }
  match goal with |- context [null ?x && recoveries_unique ?t ?k ?r0] => assert (null x && recoveries_unique t k r0 =
    bool_decide (Memory.recovery_locked (Recovery_Agent r) (Recovery_RequestID r) m = None) &&
    (bool_decide (keyed_recovery (Recovery_Key r) m = None) && bool_decide (Memory.open_recovery_locked (Recovery_Agent r) m = None))) as -> end.
  { destruct (Memory.recovery_locked _ _ m) as [i|] eqn:Hl.
    - apply recovery_locked_Some in Hl as (r' & Hi & Hid). destruct (recovery_at _ _ _ _ _ _ Hb Hi) as (row' & Hrow' & _).
      rewrite Hid in Hrow'. unfold GRN in *. by rewrite Hrow'.
    - rewrite (id_absent _ _ _ _ _ Hb Hl), (unique_fresh b m n _ _ row Hwf Hb Hl) by done. done. }
  destruct (keyed_recovery (Recovery_Key r) m) as [stored|] eqn:Hkey.
  { cbn [bool_decide decide]. rewrite (bool_decide_false (Some stored = None)), andb_false_r by done. cbn [negb].
    eapply body_row; [done|intros err He; rewrite (scan_driver _ He), (proj1 He); apply body_error_at; by left|].
    rewrite (key_read _ _ _ _ Hwf Hb), Hkey. apply body_ok. split; [constructor|]. by split; [apply holds_next|]. }
  destruct (Memory.recovery_locked _ _ m) as [i|] eqn:Hl.
  { rewrite (bool_decide_false (Some i = None)) by done. cbn [andb negb].
    eapply body_row; [done|intros err He; rewrite (scan_driver _ He), (proj1 He); apply body_error_at; by left|].
    rewrite (key_read _ _ _ _ Hwf Hb), Hkey. cbn [errors_is bool_decide negb].
    eapply body_row; [done|intros err He; rewrite (scan_driver _ He), (proj1 He); apply body_error_at; by left|].
    rewrite (id_read _ _ _ _ _ Hwf Hb), Hl. apply recovery_locked_Some in Hl as (r' & Hi & _). rewrite_at Hi.
    apply body_error_at. right. by eexists. }
  destruct (Memory.open_recovery_locked (Recovery_Agent r) m) as [o|] eqn:Ho.
  { rewrite (bool_decide_false (Some o = None)), !andb_false_r by done. cbn [andb negb].
    eapply body_row; [done|intros err He; rewrite (scan_driver _ He), (proj1 He); apply body_error_at; by left|].
    rewrite (key_read _ _ _ _ Hwf Hb), Hkey. cbn [errors_is bool_decide negb].
    eapply body_row; [done|intros err He; rewrite (scan_driver _ He), (proj1 He); apply body_error_at; by left|].
    rewrite (id_read _ _ _ _ _ Hwf Hb), Hl. apply body_error_at. right. by eexists. }
  rewrite !bool_decide_true by done. cbn [andb negb]. rewrite written_ok; [|done..]. cbn [mbind result_bind].
  eapply body_row; [done|intros err He; rewrite (scan_driver _ He), (proj1 He); apply body_error_at; by left|].
  match goal with |- context [one_row ?p ?rs] => assert (one_row p rs = Some ((Recovery_Agent r, Recovery_RequestID r), row)) as -> end.
  { apply one_row_is; [apply lookup_insert_eq|by apply bool_decide_true|].
    intros k' row' [[<- <-]|[_ Hrow']]%lookup_insert_cases; [done|]. intros Hk%bool_decide_eq_true. destruct k' as [a id].
    destruct (recovery_of _ _ _ _ _ _ Hb Hrow') as (j & r' & Hj & _ & Hr'). rewrite (row_key _ _ Hr') in Hk.
    by destruct (keyed_recovery_None _ _ _ _ _ Hkey Hj). }
  match goal with |- context [scanRecovery ?x] => assert (scanRecovery x = Ok r) as -> by exact (recovery_scanned r (recovery_opened_at row) row Hr) end.
  cbn [bool_decide].
  apply body_exec; [by left|]. cbn beta iota delta [movePosition]. apply body_ok.
  split; [constructor|]. cbn [fst snd]. split; [|cbn; split; [lia|intros _; lia]].
  by apply holds_bumped, holds_opened.
Qed.

(** The recovery a step is taken on. *)
Lemma body_locked {A} b n t m (agent id : string) (Ok_ : A → tables → Prop) (Err_ : error → Prop) (k : Recovery → prog sqlE (result A)) :
  wf m → holds t m n → (∀ err, driver_error err → Err_ err) →
  match Memory.recovery_locked agent id m with
  | Some i => ∀ r row, recs m agent !! i = Some r → Recovery_RequestID r = id → recoveries t !! (agent, id) = Some row → row_is r row →
    wp (k r) (ends b n Ok_ Err_) (mkDatabase b [Some t] n)
  | None => Err_ ErrNotFound
  end → wp (r ←? locked_recovery agent id; k r) (ends b n Ok_ Err_) (mkDatabase b [Some t] n).
Proof.
  intros Hwf Ht Hd Hk. apply wp_try_bind. unfold locked_recovery. rewrite wp_bind. apply wp_query_row, wp_exec_tx.
  - intros err He. wp_end. rewrite (scan_driver _ He), (proj1 He). split; [by eexists|by apply Hd].
  - cbn beta iota delta [lockRecovery getRecovery select].
    rewrite (id_read _ _ _ _ _ Hwf Ht). destruct (Memory.recovery_locked agent id m) as [i|] eqn:Hl.
    + apply recovery_locked_Some in Hl as (r & Hi & Hid). destruct (recovery_at _ _ _ _ _ _ Ht Hi) as (row & Hrow & Hr).
      rewrite_at Hi. wp_end. rewrite Hid in Hrow. by eapply Hk.
    + wp_end. by split; [eexists|].
Qed.

(** A recovery of a stage moved on. *)
Lemma update_recovery_ok t m n (agent : string) i r r' row stage f now : wf m → holds t m n → recs m agent !! i = Some r →
  recoveries t !! (agent, Recovery_RequestID r) = Some row → row_is r row → stage = stage_text (Recovery_Stage r) →
  Recovery_Stage r ≠ RecoveryFinalized → row_is r' (f row) → Recovery_RequestID r' = Recovery_RequestID r → Recovery_Key r' = Recovery_Key r →
  recovery_opened_at (f row) = recovery_opened_at row →
  ∃ t', update_recovery agent (Recovery_RequestID r) stage f now t = Ok (1, t') ∧ holds t' (Memory.write_recovery agent i r' m) n ∧
  position t' = position t.
Proof.
  intros Hwf Ht Hi Hrow Hr -> Hst Hr' Hid Hk Hat. unfold update_recovery. rewrite Hrow, (row_stage _ _ Hr), bool_decide_true by done. cbn [negb].
  rewrite written_ok; [| |by eapply unique_update; [..|rewrite (row_key _ _ Hr'), Hk]|done].
  - eexists. split; [done|]. split; [|done]. by eapply holds_written.
  - by destruct Hr' as (_ & _ & ?).
Qed.

Lemma call_PrepareRecovery agent id epoch body b m n : wf m → holds b m n →
  wp (PrepareRecovery agent id epoch body) (called (Repository.PrepareRecovery agent id epoch body) (mkDatabase b [] n) m) (mkDatabase b [] n).
Proof.
  intros Hwf Hb. unfold PrepareRecovery, lifecycle. set (e := Repository.PrepareRecovery agent id epoch body).
  apply (call_transaction malformed e b m n Hb (lifecycleError "prepare recovery") (λ x, x)); [auto with opaque|].
  unfold body_error, PostgresRefine.commits. cbn [Memory.handle e]. unfold Memory.prepare_recovery.
  apply (body_locked b (S n) b m); [done|by apply holds_next|by left|].
  destruct (Memory.recovery_locked agent id m) as [i|]; [|right; by eexists]. intros r row Hi <- Hrow Hr. rewrite_at Hi.
  destruct (bool_decide (Recovery_Epoch r = epoch)); cbn [negb]; [|apply body_error_at; right; by eexists].
  case_bool_decide as Hst.
  - apply body_exec; [by left|]. unfold prepareRecovery.
    match goal with |- context [update_recovery _ _ _ ?f] => destruct (update_recovery_ok b m (S n) agent i r (Memory.prepared r body) row "requested" f
      (now_of (S n)) Hwf (holds_next _ _ _ _ Hb) Hi Hrow Hr) as (t' & -> & Ht' & Hp) end; [by rewrite Hst|by rewrite Hst| |done..|].
    { destruct Hr as (-> & _ & _). destruct (proj1 (wf_recoveries _ Hwf) _ _ _ Hi) as (_ & Hs & _). unfold recovery_staged in Hs. rewrite Hst in Hs.
    destruct Hs as [_ Hrec]. unfold row_is, recovery_row, recovery_check, Memory.prepared. cbn. by rewrite Hrec. }
    apply body_ok. split; [constructor|]. cbn [fst snd]. split; [done|]. split; [lia|done].
  - destruct (negb (bool_decide (Recovery_Body r = body)) && bool_decide (Recovery_Stage r = RecoveryFinalized));
      [apply body_error_at; right; by eexists|].
    destruct (negb (bool_decide (Recovery_Body r = body))); [apply body_error_at; right; by eexists|].
    apply body_ok. split; [constructor|]. by split; [apply holds_next|].
Qed.

Lemma call_FinalizeRecovery agent id c b m n : wf m → holds b m n →
  wp (FinalizeRecovery agent id c) (called (Repository.FinalizeRecovery agent id c) (mkDatabase b [] n) m) (mkDatabase b [] n).
Proof.
  intros Hwf Hb. unfold FinalizeRecovery, lifecycle. set (e := Repository.FinalizeRecovery agent id c).
  apply (call_transaction malformed e b m n Hb (lifecycleError "finalize recovery") (λ x, x)); [auto with opaque|].
  unfold body_error, PostgresRefine.commits. cbn [Memory.handle e]. unfold Memory.finalize_recovery.
  apply (body_locked b (S n) b m); [done|by apply holds_next|by left|].
  destruct (Memory.recovery_locked agent id m) as [i|]; [|right; by eexists]. intros r row Hi <- Hrow Hr. rewrite_at Hi.
  destruct (Recovery_Stage r) eqn:Hst.
  - apply body_error_at. right. by eexists.
  - apply body_exec; [by left|]. unfold finalizeRecovery.
    match goal with |- context [update_recovery _ _ _ ?f] => destruct (update_recovery_ok b m (S n) agent i r (Memory.finalized r c) row "prepared" f
      (now_of (S n)) Hwf (holds_next _ _ _ _ Hb) Hi Hrow Hr) as (t' & -> & Ht' & Hp) end; [by rewrite Hst|by rewrite Hst| |done..|].
    { destruct Hr as (Heq & Hbody & Hcheck). unfold row_is, recovery_row, recovery_check, Memory.finalized in *.
    rewrite Heq, Hst in Hcheck. rewrite Heq. cbn in *. split; [done|]. split; [done|].
    destruct (recovery_garam_body row), (recovery_garam_body_sha256 row); cbn in *; try done. }
    apply body_exec; [by left|]. cbn beta iota delta [movePosition]. apply body_ok.
    split; [constructor|]. cbn [fst snd]. split; [by apply holds_bumped|]. cbn. rewrite Hp. split; [lia|intros _; lia].
  - apply body_ok. split; [constructor|]. by split; [apply holds_next|].
Qed.
End recoveries.
End PostgresRecoveries.
