(* ===== verification/DistributionSpec.v ===== *)
(** What the controller's routes promise, whatever garam and the store answer: nothing is read or recorded for a
    controller garam does not prove, an agent's revision is released and a report on it taken only where garam
    proves the agent placed on the caller, and the feed's wait ends. *)
From S2P Require Import Prelude GoStd Json JsonText Errors Types Validation Repository Service Distribution.
From Stdlib Require Import Ascii.
Import GoStd Json JsonText Validation Distribution.

Module DistributionSpec.
#[local] Arguments try_bind : simpl never.

Section spec.
Context `{K8s : Kubernetes, RJ : !ResourcesJSON}.
Abbreviation distributionE := (repoE +' proverE +' distE).
Abbreviation history := (list (event distributionE)).
Context (pollInterval : Z) (maxAgents : Z) (r : httpRequest).
Implicit Types (h : history) (c : controller) (agent epoch : string).

Definition stored {X} h (e : repoE X) (x : X) : Prop := Ev (InL (InL e)) x ∈ h.
Definition answered h grn token agent (x : result Proof) : Prop := Ev (InL (InR (Prove grn token agent))) x ∈ h.

(** The controller is the one the request names, and garam proved the token it presented to be its own, under
its organization. *)
Definition controller_proved h c : Prop :=
  controller_grn c = http_controller r ∧ operatorToken (controller_token c) = true ∧
  ∃ proof, answered h (controller_grn c) (controller_token c) "" (Ok proof) ∧
  Proof_Operator proof = controller_grn c ∧ Proof_Org proof = controller_orgGRN c.

(** garam proved the agent placed on the controller under the epoch. *)
Definition agent_placed h c agent epoch : Prop :=
  ∃ proof, answered h (controller_grn c) (controller_token c) agent (Ok proof) ∧
  Proof_Operator proof = controller_grn c ∧ Proof_Agent proof = Some (mkProvenAgent agent epoch).

(** The agent's latest revision was read, recorded for the controller under the epoch. *)
Definition assigned h c agent epoch : Prop :=
  ∃ d, stored h (GetDefinition agent) (Ok d) ∧ Definition_Assignment d = Some (mkAssignment (controller_grn c) epoch).

Definition both_prove h c agent epoch : Prop := assigned h c agent epoch ∧ agent_placed h c agent epoch.

(** The calls of a route: what each is made on. *)
Definition proved_call h X (e : distributionE X) : Prop :=
  match e with
  | InL (InL e) =>
    ∃ c, controller_proved h c ∧
    match e with
    | GetPosition | GetDefinition _ => True
    | Desired operator limit => operator = controller_grn c ∧ limit = maxAgents + 1
    | RecordOperatorContact org operator _ | ReportOperatorImages org operator _ _ =>
      org = controller_orgGRN c ∧ operator = controller_grn c
    | RecordStatus agent _ => agent = http_agent r ∧ ∃ epoch, both_prove h c agent epoch
    | RegisterPlacement input =>
      PlacementInput_Agent input = http_agent r ∧ PlacementInput_Controller input = controller_grn c ∧
      both_prove h c (http_agent r) (PlacementRequest_Epoch (PlacementInput_Request input))
    | PrepareRecovery agent _ epoch _ => agent = http_agent r ∧ both_prove h c agent epoch
    | _ => False
    end
  | InL (InR (Prove grn token agent)) =>
    agent = "" ∧ grn = http_controller r ∨ ∃ c, controller_proved h c ∧ grn = controller_grn c ∧ token = controller_token c
  | InR _ => True
  end.

Abbreviation keeps h Q := (λ h' x, h `suffix_of` h' ∧ Q h' x).

Lemma answered_later h h' grn token agent x :
  h `suffix_of` h' → answered h grn token agent x → answered h' grn token agent x.
Proof. intros [k ->] ?. apply elem_of_app. by right. Qed.
Lemma stored_later {X} (e : repoE X) x h h' : h `suffix_of` h' → stored h e x → stored h' e x.
Proof. intros [k ->] ?. apply elem_of_app. by right. Qed.
Lemma proved_later h h' c : h `suffix_of` h' → controller_proved h c → controller_proved h' c.
Proof. intros Hs (? & ? & proof & Ha & ?). split_and!; [done..|]. exists proof. split; [|done]. by eapply answered_later. Qed.
Lemma placed_later h h' c agent epoch : h `suffix_of` h' → agent_placed h c agent epoch → agent_placed h' c agent epoch.
Proof. intros Hs (proof & Ha & ?). exists proof. split; [|done]. by eapply answered_later. Qed.
Lemma assigned_later h h' c agent epoch : h `suffix_of` h' → assigned h c agent epoch → assigned h' c agent epoch.
Proof. intros Hs (d & Ha & ?). exists d. split; [|done]. by eapply stored_later. Qed.
Hint Resolve proved_later placed_later assigned_later : later.

Lemma suffix_one h (ev : event distributionE) : h `suffix_of` ev :: h.
Proof. by exists [ev]. Qed.
Lemma suffix_two h (ev ev' : event distributionE) : h `suffix_of` ev :: ev' :: h.
Proof. by exists [ev; ev']. Qed.

(** A program whose every call is proved, and whose result satisfies [Q] of what was called. *)
Abbreviation proves Q h p := (safe proved_call Q h p).

(** Goes on after a program that keeps what was proved before it. *)
Lemma proves_try {A B} (Q : history → A → Prop) (Q' : history → result B → Prop) (p : prog distributionE (result A)) k h :
  proves (keeps h (λ h' x, match x with Ok a => Q h' a | Err _ => True end)) h p →
  (∀ h' err, Q' h' (Err err)) →
  (∀ h' a, h `suffix_of` h' → Q h' a → proves Q' h' (k a)) →
  proves Q' h (try_bind p k).
Proof.
  intros Hp He Hk. rewrite safe_try_bind. eapply safe_mono, Hp.
  intros h' [a|err] [Hs Ha]; [by apply Hk|apply He].
Qed.
Lemma proves_lift {A B} (Q' : history → result B → Prop) (x : result A) k h :
  (∀ h' err, Q' h' (Err err)) → (∀ a, x = Ok a → proves Q' h (k a)) → proves Q' h (try_bind (lift x) k).
Proof. intros He Hk. rewrite safe_try_bind. cbn. destruct x; [by apply Hk|apply He]. Qed.

(** ** The controller *)
Lemma authenticate_proves h :
  proves (keeps h (λ h' x, match x with Ok c => controller_proved h' c | Err _ => True end)) h (authenticate r).
Proof.
  unfold authenticate. destruct (Cut _ _) as [[scheme token] found].
  destruct (_ || _) eqn:Hform; [done|]. apply orb_false_iff in Hform as [[_ Htoken]%orb_false_iff _].
  apply negb_false_iff in Htoken. rewrite safe_try_bind. cbn. split; [by left|].
  intros [proof|err]; cbn; [|split; [apply suffix_one|done]].
  case_bool_decide as Ho; [|split; [apply suffix_one|done]]. cbn [negb].
  set (c := mkController _ _ _). set (h1 := Ev _ _ :: h).
  assert (controller_proved h1 c) as Hc.
  { split_and!; [done..|]. exists proof. split; [|done]. by apply elem_of_cons; left. }
  unfold contacts_record, Service.RecordOperatorContact. cbn. split; [done|]. intros now. cbn. split; [done|].
  intros [|]; cbn.
  - split; [exists c; split; [eapply proved_later, Hc; apply suffix_two|done]|].
    intros [[]|err]; cbn; [split; [by eexists [_; _; _; _]|eapply proved_later, Hc; by eexists [_; _; _]]|].
    split; [done|]. intros []. cbn. split; [done|]. intros []. cbn.
    split; [by eexists [_; _; _; _; _; _]|eapply proved_later, Hc; by eexists [_; _; _; _; _]].
  - split; [by eexists [_; _; _]|eapply proved_later, Hc; apply suffix_two].
Qed.

(** ** The agent's placement *)

(** Why an agent is withheld: garam does not prove it placed on the controller under the epoch. *)
Definition withheld h c agent epoch : Prop :=
  ∃ x, answered h (controller_grn c) (controller_token c) agent x ∧
  match x with
  | Err err => errors_is err ErrNotProved = true
  | Ok proof => Proof_Operator proof ≠ controller_grn c ∨ Proof_Agent proof ≠ Some (mkProvenAgent agent epoch)
  end.
Lemma withheld_later h h' c agent epoch : h `suffix_of` h' → withheld h c agent epoch → withheld h' c agent epoch.
Proof. intros Hs (x & Ha & ?). exists x. split; [|done]. by eapply answered_later. Qed.

Lemma provedEpoch_proves h c agent :
  controller_proved h c →
  proves (keeps h (λ h' x, match x with
  | Ok epoch => agent_placed h' c agent epoch
  | Err err => errors_is err ErrNotProved = true → ∀ epoch, withheld h' c agent epoch
  end)) h (provedEpoch c agent).
Proof.
  intros Hc. unfold provedEpoch. rewrite safe_try_bind. cbn. split; [right; by exists c|].
  intros x. assert (∀ h, answered (Ev (InL (InR (Prove (controller_grn c) (controller_token c) agent))) x :: h)
    (controller_grn c) (controller_token c) agent x) as Hin by (intros; by apply elem_of_cons; left).
  destruct x as [proof|err]; cbn; [|split; [apply suffix_one|]; intros Hn epoch; by exists (Err err)].
  destruct (Proof_Agent proof) as [[grn epoch]|] eqn:Ha.
  - cbn. case_bool_decide as Ho; cbn; [case_bool_decide as Hg; cbn|];
      (split; [apply suffix_one|]); [subst; by exists proof|intros _ epoch'; exists (Ok proof)..];
      (split; [done|]); [right; rewrite Ha; congruence|by left].
  - cbn. split; [apply suffix_one|]. intros _ epoch'. exists (Ok proof). split; [done|]. right. by rewrite Ha.
Qed.

Lemma placed_proves h c agent epoch :
  controller_proved h c →
  proves (keeps h (λ h' x, match x with
  | Ok true => agent_placed h' c agent epoch
  | Ok false => withheld h' c agent epoch
  | Err _ => True
  end)) h (placed c agent epoch).
Proof.
  intros Hc. unfold placed. rewrite safe_bind. eapply safe_mono, provedEpoch_proves, Hc.
  intros h' [proved|err] [Hs Hp]; cbn.
  - case_bool_decide as He; (split; [done|]); [by subst|].
    destruct Hp as (proof & Ha & Ho & Hag). exists (Ok proof). split; [done|]. right. rewrite Hag. congruence.
  - destruct (errors_is err ErrNotProved) eqn:Hn; cbn; (split; [done|]); [by apply Hp|done].
Qed.

Lemma assigned_read h agent d c assignment :
  Definition_Assignment d = Some assignment → Assignment_Operator assignment = controller_grn c →
  assigned (Ev (InL (InL (GetDefinition agent))) (Ok d) :: h) c agent (Assignment_Epoch assignment).
Proof.
  intros Hd Ho. exists d. split; [by apply elem_of_cons; left|]. rewrite Hd. destruct assignment. cbn in *. by subst.
Qed.

Lemma provePlacedAt_proves h c agent epoch :
  controller_proved h c →
  proves (keeps h (λ h' x, match x with Ok _ => both_prove h' c agent epoch | Err _ => True end)) h
  (provePlacedAt c agent epoch).
Proof.
  intros Hc. unfold provePlacedAt, Service.GetDefinition. rewrite safe_try_bind. cbn. split; [by exists c|].
  intros [d|err]; cbn; [|split; [apply suffix_one|done]].
  destruct (Definition_Assignment d) as [assignment|] eqn:Hd; [|split; [apply suffix_one|done]].
  case_bool_decide as Ho; cbn; [|split; [apply suffix_one|done]].
  rewrite safe_bind. eapply safe_mono, provedEpoch_proves, proved_later, Hc; [|apply suffix_one].
  intros h' [proved|err] [Hs Hp].
  - do 2 (case_bool_decide; cbn; [|split; [etrans; [apply suffix_one|exact Hs]|done]]).
    split; [etrans; [apply suffix_one|exact Hs]|]. subst. split; [|done].
    eapply assigned_later; [exact Hs|]. by apply assigned_read.
  - destruct (errors_is err ErrNotProved); cbn; (split; [etrans; [apply suffix_one|exact Hs]|done]).
Qed.

(** ** The feed *)

(** The page's agents: each released where garam proved it placed under its revision's epoch, and left out
where garam did not. *)
Inductive released_as h c : list DesiredRevision → list json → Prop :=
| released_nil : released_as h c [] []
| released_one d assignment j ds js :
  Definition_Assignment (Desired_Definition d) = Some assignment →
  agent_placed h c (Definition_Agent (Desired_Definition d)) (Assignment_Epoch assignment) →
  desiredAgentOf d = Ok j → released_as h c ds js → released_as h c (d :: ds) (j :: js)
| withheld_one d assignment ds js :
  Definition_Assignment (Desired_Definition d) = Some assignment →
  withheld h c (Definition_Agent (Desired_Definition d)) (Assignment_Epoch assignment) →
  released_as h c ds js → released_as h c (d :: ds) js.

Lemma released_as_later h h' c ds js : h `suffix_of` h' → released_as h c ds js → released_as h' c ds js.
Proof.
  intros Hs. induction 1; [constructor|eapply released_one|eapply withheld_one];
    eauto using placed_later, withheld_later.
Qed.

Lemma released_proves h c ds :
  controller_proved h c →
  proves (keeps h (λ h' x, match x with Ok js => released_as h' c ds js | Err _ => True end)) h (released c ds).
Proof.
  revert h. induction ds as [|d ds IH]; intros h Hc; [by split; [|constructor]|]. cbn [released].
  destruct (Definition_Assignment (Desired_Definition d)) as [assignment|] eqn:Hd; [|done].
  rewrite safe_try_bind. eapply safe_mono, placed_proves, Hc. intros h1 [placed_|err] [Hs Hp]; [|done].
  rewrite safe_try_bind.
  assert (∀ this, match this with
    | [] => withheld h1 c (Definition_Agent (Desired_Definition d)) (Assignment_Epoch assignment)
    | [j] => agent_placed h1 c (Definition_Agent (Desired_Definition d)) (Assignment_Epoch assignment) ∧
    desiredAgentOf d = Ok j
    | _ => False end →
    proves (keeps h (λ h' x, match x with Ok js => released_as h' c (d :: ds) js | Err _ => True end)) h1
    (rest ←? released c ds; mret (Ok (this ++ rest)))) as Hrest.
  { intros this Hthis. rewrite safe_try_bind. eapply safe_mono, IH, proved_later, Hc; [|done].
    intros h2 [js|err] [Hs2 Hr]; cbn; (split; [by etrans|]); [|done].
    destruct this as [|j [|]]; [eapply withheld_one; eauto using withheld_later|destruct Hthis as [? ?]|done].
    eapply released_one; eauto using placed_later. }
  destruct placed_; cbn; [|by apply (Hrest [])].
  destruct (desiredAgentOf d) as [j|err] eqn:Hj; cbn; [by apply (Hrest [j])|by split].
Qed.

Lemma poll_proves n after deadline h c :
  controller_proved h c →
  proves (keeps h (λ _ _, True)) h (poll pollInterval n after deadline).
Proof.
  revert h. induction n as [|n IH]; intros h Hc; [done|]. cbn. split; [by exists c|].
  intros [position|err]; cbn; [|by split; [apply suffix_one|]].
  case_bool_decide; cbn; [by split; [apply suffix_one|]|]. case_bool_decide; cbn; [by split; [apply suffix_one|]|].
  split; [done|]. intros now. case_bool_decide; cbn; [|by split; [apply suffix_two|]].
  split; [done|]. intros now'. split; [done|]. intros [|]; cbn; [by split; [by eexists [_; _; _; _]|]|].
  eapply safe_mono, IH, proved_later, Hc; [|by eexists [_; _; _; _]].
  intros h' x [Hs _]. split; [|done]. etrans; [|exact Hs]. by eexists [_; _; _; _].
Qed.

Lemma respondError_proves (Q : history → response → Prop) h err :
  (∀ answer h', h `suffix_of` h' → response_status answer ≠ 200 → Q h' answer) →
  proves Q h (respondError err).
Proof.
  intros HQ. unfold respondError. destruct (refusal err) as [answer|] eqn:Ha.
  - cbn. apply HQ; [done|]. revert Ha. unfold refusal.
    destruct (List.find _ _) as [[? ?]|]; [by intros [= <-]|].
    repeat (case_match; [by intros [= <-]|]). done.
  - cbn. split; [done|]. intros []. apply HQ; [apply suffix_one|done].
Qed.

(** What a 200 of the feed carries. *)
Definition feed_answer h (answer : response) : Prop :=
  ∃ c page js,
  controller_proved h c ∧ stored h (Desired (controller_grn c) (maxAgents + 1)) (Ok page) ∧
  Z.of_nat (length (Page_Revisions page)) ≤ maxAgents ∧ released_as h c (Page_Revisions page) js ∧
  answer = writeJSON 200 (desiredResponse (Page_Position page) js).

Lemma answer_feed_proves h c :
  controller_proved h c →
  proves (λ h' answer, response_status answer = 200 → feed_answer h' answer) h
  (respond (answer_feed maxAgents c)).
Proof.
  intros Hc. unfold respond. rewrite safe_bind.
  assert (∀ h err, proves (λ h' answer, response_status answer = 200 → feed_answer h' answer) h (respondError err))
    as Herr by (intros; by apply respondError_proves).
  unfold answer_feed, Service.Desired. rewrite safe_try_bind. cbn. split; [by exists c|].
  intros [page|err]; cbn; [|apply Herr]. case_bool_decide as Hlen; cbn; [apply Herr|].
  rewrite safe_try_bind. eapply safe_mono, released_proves, proved_later, Hc; [|apply suffix_one].
  intros h' [js|err] [Hs Hjs]; cbn; [|apply Herr]. intros _. exists c, page, js.
  assert (controller_proved h' c) by (eapply proved_later, Hc; etrans; [apply suffix_one|exact Hs]).
  assert (stored h' (Desired (controller_grn c) (maxAgents + 1)) (Ok page)).
  { eapply stored_later; [exact Hs|]. by apply elem_of_cons; left. }
  split_and!; (done || lia).
Qed.

Lemma desired_proves n h :
  proves (λ h' x, ∀ answer, x = Some answer → response_status answer = 200 → feed_answer h' answer) h
  (desired pollInterval maxAgents n r).
Proof.
  unfold desired.
  assert (∀ h p, proves (λ h' answer, response_status answer = 200 → feed_answer h' answer) h p →
    proves (λ h' x, ∀ answer, x = Some answer → response_status answer = 200 → feed_answer h' answer) h
    (answer ← p; mret (Some answer))) as Hsome.
  { intros h' p Hp. rewrite safe_bind. eapply safe_mono, Hp. cbn. by intros ? ? ? ? [= <-]. }
  assert (∀ h err, proves (λ h' x, ∀ answer, x = Some answer → response_status answer = 200 → feed_answer h' answer) h
    (answer ← respondError err; mret (Some answer))) as Herr.
  { intros. apply Hsome. by apply respondError_proves. }
  destruct (parseFeedQuery r) as [[after wait]|err]; [|apply Herr].
  rewrite safe_bind. eapply safe_mono, authenticate_proves. intros h1 [c|err] [Hs Hc]; [|apply Herr].
  rewrite safe_bind. apply safe_mono with (λ h' _, h1 `suffix_of` h').
  { intros h2 [[[]|err]|] Hs2; [|apply Herr|done]. by eapply Hsome, answer_feed_proves, proved_later. }
  unfold waitPast. destruct after as [after|]; [|cbn; reflexivity]. cbn. split; [done|]. intros now.
  eapply safe_mono, poll_proves, proved_later, Hc; [|apply suffix_one].
  intros h2 x [Hs2 _]. etrans; [apply suffix_one|exact Hs2].
Qed.

(** C16: The feed releases an agent's revision only where garam, asked for this answer, proves the agent placed on the
caller under the revision's epoch, and leaves out only agents it does not prove: whatever garam and the store
answer, a 200 is the page read from the store for the controller garam proved, of no more agents than one
answer carries, each decided by a proof of its own. *)
Theorem feed_releases_placed n :
  safe proved_call (λ h x, ∀ answer, x = Some answer → response_status answer = 200 → feed_answer h answer) []
  (desired pollInterval maxAgents n r).
Proof. apply desired_proves. Qed.

(** ** The reports *)
Lemma respond_proves (p : prog distributionE (result response)) h :
  proves (λ _ _, True) h p → proves (λ _ _, True) h (respond p).
Proof.
  intros Hp. unfold respond. rewrite safe_bind. eapply safe_mono, Hp. intros h' [answer|err] _; [done|].
  by apply respondError_proves.
Qed.

(** A report: read, authenticated, and decoded before it is acted on. *)
Lemma authenticated_proves {B} (k : controller → prog distributionE (result B)) h :
  (∀ h' c, controller_proved h' c → proves (λ _ _, True) h' (k c)) →
  proves (λ _ _, True) h (c ←? authenticate r; k c).
Proof. intros Hk. eapply proves_try; [apply authenticate_proves|done|]. auto. Qed.

Lemma report_proves {A B} (parsed : result A) (p : A → controller → prog distributionE (result B)) h :
  (∀ a h' c, controller_proved h' c → proves (λ _ _, True) h' (p a c)) →
  proves (λ _ _, True) h (c ←? authenticate r; a ←? lift parsed; p a c).
Proof. intros Hp. apply authenticated_proves. intros h' c Hc. apply proves_lift; [done|]. auto. Qed.

Lemma status_proves h : proves (λ _ _, True) h (status r).
Proof.
  apply respond_proves. destruct (read_body _ _) as [body|]; [|done].
  apply authenticated_proves. intros h' c Hc. apply proves_lift; [done|]. intros [observed rendered] _.
  unfold Service.GetDefinition. rewrite safe_try_bind. cbn. split; [by exists c|]. intros [d|err]; [|done]. cbn.
  destruct (Definition_Assignment d) as [assignment|] eqn:Hd; [|done]. case_bool_decide as Ho; [|done]. cbn [negb].
  eapply proves_try; [eapply placed_proves, proved_later, Hc; apply suffix_one|done|].
  intros h2 [|] Hs Hp; [|done]. cbn [negb]. unfold Service.RecordStatus. rewrite !safe_try_bind. cbn -[existsb].
  assert (controller_proved h2 c) as Hc2 by (eapply proved_later, Hc; etrans; [apply suffix_one|exact Hs]).
  split; [by exists c|]. intros [latest|err]; [|done]. cbn. match goal with |- context [if ?b then _ else _] => destruct b; [done|] end.
  assert (both_prove h2 c (http_agent r) (Assignment_Epoch assignment)) as Hb.
  { split; [|done]. eapply assigned_later; [exact Hs|]. by apply assigned_read. }
  cbn. split; [|by intros []]. exists c. split; [eapply proved_later, Hc2; apply suffix_one|]. split; [done|].
  exists (Assignment_Epoch assignment). destruct Hb.
  split; [eapply assigned_later; [apply suffix_one|]|eapply placed_later; [apply suffix_one|]]; done.
Qed.

Lemma registerPlacement_proves h : proves (λ _ _, True) h (registerPlacement r).
Proof.
  apply respond_proves. destruct (read_body _ _) as [body|]; [|done].
  apply report_proves. intros i h' c Hc. eapply proves_try; [by apply provePlacedAt_proves|done|].
  intros h2 [] Hs Hb. unfold Service.RegisterPlacement. rewrite safe_try_bind. cbn.
  split; [|intros [[stored_ first]|err]; done]. exists c. split; [by eapply proved_later|]. by split_and!.
Qed.

Lemma prepareRecovery_proves h : proves (λ _ _, True) h (prepareRecovery r).
Proof.
  apply respond_proves. destruct (read_body _ _) as [body|]; [|done].
  apply report_proves. intros i h' c Hc. eapply proves_try; [by apply provePlacedAt_proves|done|].
  intros h2 [] Hs Hb. unfold Service.PrepareRecovery. rewrite safe_try_bind. cbn.
  split; [|intros [stored_|err]; done]. exists c. split; [by eapply proved_later|]. by split.
Qed.

Lemma reportImages_proves h : proves (λ _ _, True) h (reportImages r).
Proof.
  apply respond_proves. destruct (read_body _ _) as [body|]; [|done].
  apply authenticated_proves. intros h' c Hc. destruct (decode_one _ _ _) as [images|]; [|done].
  rewrite safe_bind. cbn. split; [done|]. intros now. unfold Service.ReportOperatorImages.
  rewrite safe_try_bind. apply safe_mono with (λ _ _, True); [by intros ? []|].
  apply proves_lift; [done|]. intros _ _. cbn. split; [|done]. exists c. split; [eapply proved_later, Hc; apply suffix_one|done].
Qed.

(** C15: Whatever garam and the store answer, a route reads and writes the store only for the controller the request
names, once garam proved the token presented to be its own; and it records a status, a placement or a
recovery request of an agent only where the agent's latest revision is recorded for that controller and garam
proved the agent placed there, for this request, under that revision's epoch, which a placement and a recovery
request must name. *)
Theorem controller_calls_proved n (route : route) :
  safe proved_call (λ _ _, True) [] (serve pollInterval maxAgents n route r).
Proof.
  assert (∀ p : prog distributionE response, proves (λ _ _, True) [] p →
    proves (λ _ (_ : option response), True) [] (answer ← p; mret (Some answer))) as Hsome.
  { intros p Hp. rewrite safe_bind. by eapply safe_mono, Hp. }
  destruct route; cbn [serve]; [by eapply safe_mono, desired_proves|apply Hsome..].
  - apply reportImages_proves.
  - apply status_proves.
  - apply registerPlacement_proves.
  - apply prepareRecovery_proves.
Qed.
End spec.

(** ** The wait ends *)

Section wait.
Context `{K8s : Kubernetes, RJ : !ResourcesJSON} {S : Type}.
Abbreviation distributionE := (repoE +' proverE +' distE).

(** A clock that a wait moves on by what was waited and nothing moves back. *)
Record steady (hd : handler distributionE S) (clock : S → Time) : Prop := {
  clock_read : ∀ s, (hd _ (InR WallClock) s).1 = clock s;
  clock_waits : ∀ d s, clock s + d ≤ clock (hd _ (InR (WaitFor d)) s).2;
  clock_forward : ∀ X (e : distributionE X) s, clock s ≤ clock (hd X e s).2;
}.

Context (hd : handler distributionE S) (clock : S → Time) (pollInterval : Z) (maxAgents : Z) (r : httpRequest).

Lemma run_forward {A} (p : prog distributionE A) s :
  steady hd clock → clock s ≤ clock (run hd p s).2.
Proof.
  intros Hc. revert s. induction p as [a|X e k IH]; intros s; cbn; [done|].
  pose proof (clock_forward hd clock Hc X e s) as He. destruct (hd X e s) as [x s'].
  specialize (IH x s'). cbn in He. lia.
Qed.

(** Goes on after a program, no earlier. *)
Lemma run_later {A B} (p : prog distributionE A) (k : A → prog distributionE B) s (Q : B → Prop) :
  steady hd clock → (∀ a s', clock s ≤ clock s' → Q (run hd (k a) s').1) → Q (run hd (mbind k p) s).1.
Proof.
  intros Hc Hk. rewrite run_bind. pose proof (run_forward p s Hc) as Hs.
  destruct (run hd p s) as [a s']. by apply Hk.
Qed.
Lemma run_clock {B} (k : Time → prog distributionE B) s (Q : B → Prop) :
  steady hd clock → (∀ s', clock s ≤ clock s' → Q (run hd (k (clock s)) s').1) →
  Q (run hd (mbind k (call WallClock)) s).1.
Proof.
  intros Hc Hk. rewrite run_bind, run_call. pose proof (clock_read hd clock Hc s) as Hr.
  pose proof (clock_forward hd clock Hc _ (InR WallClock) s) as Hs. cbn in *.
  destruct (hd _ _ s) as [now s']. cbn in *. subst now. by apply Hk.
Qed.
Lemma run_wait {B} (k : bool → prog distributionE B) d s (Q : B → Prop) :
  steady hd clock → (∀ cancelled s', clock s ≤ clock s' → clock s + d ≤ clock s' → Q (run hd (k cancelled) s').1) →
  Q (run hd (mbind k (call (WaitFor d))) s).1.
Proof.
  intros Hc Hk. rewrite run_bind, run_call. pose proof (clock_waits hd clock Hc d s) as Hw.
  pose proof (clock_forward hd clock Hc _ (InR (WaitFor d)) s) as Hs. cbn in *.
  destruct (hd _ _ s) as [cancelled s']. by apply Hk.
Qed.

Lemma poll_ends n after deadline s :
  steady hd clock → 0 < pollInterval → deadline ≤ clock s + Z.of_nat n * pollInterval →
  is_Some (run hd (poll pollInterval (Datatypes.S n) after deadline) s).1.
Proof.
  intros Hc Hp. revert s. induction n as [|n IH]; intros s Hd; cbn [poll]; (apply run_later; [done|]);
    (intros [position|err] s1 Hs1; [|done]); (case_bool_decide; [done|]); (case_bool_decide; [done|]);
    (apply run_clock; [done|]); intros s2 Hs2.
  - by rewrite bool_decide_false by lia.
  - case_bool_decide; [|done]. cbn [negb]. apply run_clock; [done|]. intros s3 Hs3. apply run_wait; [done|].
    intros [|] s4 Hs4 Hw; [done|]. apply IH. lia.
Qed.

Lemma parseFeedQuery_wait after wait : parseFeedQuery r = Ok (after, wait) → wait ≤ maxWait.
Proof.
  unfold parseFeedQuery.
  destruct (if bool_decide (http_after r = "") then _ else _) as [after'|err]; [|done]. cbn.
  case_bool_decide; [intros [= _ <-]; done|]. destruct (ParseInt _) as [seconds|]; [|done].
  destruct (_ || _) eqn:Hw; [done|]. apply orb_false_iff in Hw as [_ Hw%bool_decide_eq_false].
  intros [= _ <-]. lia.
Qed.

(** C40: The seconds a request may wait for: at most thirty, or so many that the int64 of their nanoseconds wraps, which
the refusal of a longer wait takes for a short one. *)
Theorem feed_wait_bounds (after : option Position) (wait : Z)
  (Hparsed : parseFeedQuery r = Ok (after, wait)) (Hasked : http_waitSeconds r ≠ "") :
  wait ≤ maxWait ∧ ∃ seconds, ParseInt (http_waitSeconds r) = Some seconds ∧ 0 ≤ seconds ∧
  wait = int64 (seconds * Second) ∧ (seconds ≤ 30 ∨ maxInt64 < seconds * Second).
Proof.
  revert Hparsed. unfold parseFeedQuery.
  destruct (if bool_decide (http_after r = "") then _ else _) as [after'|err]; [|done]. cbn.
  rewrite bool_decide_false by done. destruct (ParseInt _) as [seconds|]; [|done].
  destruct (_ || _) eqn:Hw; [done|]. apply orb_false_iff in Hw as [Hs%bool_decide_eq_false Hw%bool_decide_eq_false].
  intros [= _ <-]. split; [lia|]. exists seconds. split_and!; [done|lia|done|].
  destruct (decide (seconds * Second ≤ maxInt64)) as [Hm|]; [left|right; lia].
  rewrite int64_small in Hw by (unfold minInt64, Second in *; lia). unfold maxWait, Second in *. lia.
Qed.

(** C29: A request for the feed is answered: with a clock that moves on by what is waited, and nothing moving it back,
one poll more than fit in the longest wait are enough, whatever the query asks, garam and the store answer and
the request's cancellation. *)
Theorem feed_answers n (s : S)
  (Hclock : steady hd clock) (Hpoll : 0 < pollInterval) (Hn : maxWait ≤ Z.of_nat n * pollInterval) :
  is_Some (run hd (desired pollInterval maxAgents (Datatypes.S n) r) s).1.
Proof.
  unfold desired. destruct (parseFeedQuery r) as [[after wait]|err] eqn:Hq.
  2: { apply run_later; [done|]. done. }
  apply run_later; [done|]. intros [c|err] s1 H1; [|by apply run_later].
  rewrite run_bind.
  assert (is_Some (run hd (waitPast pollInterval (Datatypes.S n) after wait) s1).1) as [x Hx].
  { unfold waitPast. destruct after as [after|]; [|done]. apply run_clock; [done|]. intros s2 H2.
    apply poll_ends; [done..|]. apply parseFeedQuery_wait in Hq. lia. }
  destruct (run hd (waitPast _ _ _ _) s1) as [waited s2]. cbn in Hx. subst waited.
  destruct x as [[]|err]; by apply run_later.
Qed.
End wait.
End DistributionSpec.
