(* ===== verification/Desired.v ===== *)
(** The manager's side of the controller routes ([src/internal/desired/desired.go], [client.go], [images.go],
    [self/pod.go]): the answers it decodes, the reports it sends, and the images it reports. *)
From S2P Require Import Prelude GoStd Json JsonText Errors Types Validation Distribution.
From Stdlib Require Import Ascii.
Import GoStd Json JsonText.

Module Desired.

(** ** desired.go *)
Record Embedding := mkEmbedding { Embedding_BaseURL : string; Embedding_Name : string; Embedding_APIKeyRef : string }.
#[global] Instance Embedding_eq_dec : EqDecision Embedding.
Proof. solve_decision. Defined.

Record Model := mkModel {
  Model_Provider : string;
  Model_BaseURL : string;
  Model_Name : string;
  Model_APIKeyRef : string;
  Model_Embedding : option Embedding;
}.
#[global] Instance Model_eq_dec : EqDecision Model.
Proof. solve_decision. Defined.
Definition zeroModel : Model := mkModel "" "" "" "" None.

Record Configuration := mkConfiguration {
  Configuration_Model : Model;
  Configuration_Ego : string;
  Configuration_Tools : gmap string string;
}.

Record OpenRecovery := mkOpenRecovery { OpenRecovery_RequestID : string; OpenRecovery_Epoch : string }.
#[global] Instance OpenRecovery_eq_dec : EqDecision OpenRecovery.
Proof. solve_decision. Defined.

Record PreviousPlacement := mkPrevious { Previous_PodUID : string; Previous_WriterStoppedSHA256 : string }.
#[global] Instance PreviousPlacement_eq_dec : EqDecision PreviousPlacement.
Proof. solve_decision. Defined.

Record Placement := mkPlacement {
  Placement_Epoch : string;
  Placement_PodUID : string;
  Placement_PVCUID : string;
  Placement_TokenSHA256 : string;
  Placement_Previous : option PreviousPlacement;
}.
#[global] Instance Placement_eq_dec : EqDecision Placement.
Proof. solve_decision. Defined.

Section answer.
Context `{K8s : Kubernetes}.

Record Profile := mkProfile {
  Profile_Name : string;
  Profile_Version : Z;
  Profile_Resources : ResourceRequirements;
  Profile_StorageSize : string;
  Profile_StorageClassName : option string;
  Profile_WorkspaceStorageSize : option string;
}.

Record Agent := mkAgent {
  Agent_GRN : string;
  Agent_Revision : string;
  Agent_Epoch : string;
  Agent_Profile : Profile;
  Agent_Configuration : Configuration;
  Agent_Stopped : bool;
  Agent_Recovery : option OpenRecovery;
}.

Record Answer := mkAnswer { Answer_Cursor : string; Answer_Agents : list Agent }.

Definition zeroProfile : Profile := mkProfile "" 0 (mkResourceRequirements ∅ ∅ []) "" None None.
Definition zeroAgent : Agent :=
  mkAgent "" "" "" zeroProfile (mkConfiguration zeroModel "" ∅) false None.
End answer.

(** ** The recoverer's and the image report's data *)
Record RecoveryRequest := mkRecoveryRequest { RecoveryRequest_ID : string; RecoveryRequest_Epoch : string }.
#[global] Instance RecoveryRequest_eq_dec : EqDecision RecoveryRequest.
Proof. solve_decision. Defined.

Record Recovered := mkRecovered {
  Recovered_Agent : string;
  Recovered_RequestID : string;
  Recovered_Epoch : string;
  Recovered_Lineage : string;
}.

Record Image := mkImage { Image_Name : string; Image_Ref : string; Image_Digest : option string }.
#[global] Instance Image_eq_dec : EqDecision Image.
Proof. solve_decision. Defined.

(** ** client.go: the wire, decoded into the types it is returned as, field by field *)
Definition embedding_fields : list (field Embedding) :=
  [at_field "baseUrl" into_string Embedding_BaseURL (λ e s, mkEmbedding s (Embedding_Name e) (Embedding_APIKeyRef e));
   at_field "name" into_string Embedding_Name (λ e s, mkEmbedding (Embedding_BaseURL e) s (Embedding_APIKeyRef e));
   at_field "apiKeyRef" into_string Embedding_APIKeyRef (λ e s, mkEmbedding (Embedding_BaseURL e) (Embedding_Name e) s)].
Definition model_fields : list (field Model) :=
  [at_field "provider" into_string Model_Provider (λ m s,
     mkModel s (Model_BaseURL m) (Model_Name m) (Model_APIKeyRef m) (Model_Embedding m));
   at_field "baseUrl" into_string Model_BaseURL (λ m s,
     mkModel (Model_Provider m) s (Model_Name m) (Model_APIKeyRef m) (Model_Embedding m));
   at_field "name" into_string Model_Name (λ m s,
     mkModel (Model_Provider m) (Model_BaseURL m) s (Model_APIKeyRef m) (Model_Embedding m));
   at_field "apiKeyRef" into_string Model_APIKeyRef (λ m s,
     mkModel (Model_Provider m) (Model_BaseURL m) (Model_Name m) s (Model_Embedding m));
   at_field "embedding" (into_pointer (mkEmbedding "" "" "") (into_struct false embedding_fields)) Model_Embedding (λ m e,
     mkModel (Model_Provider m) (Model_BaseURL m) (Model_Name m) (Model_APIKeyRef m) e)].
Definition configuration_fields : list (field Configuration) :=
  [at_field "model" (into_struct false model_fields) Configuration_Model (λ c m,
     mkConfiguration m (Configuration_Ego c) (Configuration_Tools c));
   at_field "ego" into_string Configuration_Ego (λ c s, mkConfiguration (Configuration_Model c) s (Configuration_Tools c));
   at_field "tools" into_map Configuration_Tools (λ c t, mkConfiguration (Configuration_Model c) (Configuration_Ego c) t)].
Definition recovery_fields : list (field OpenRecovery) :=
  [at_field "requestId" into_string OpenRecovery_RequestID (λ r s, mkOpenRecovery s (OpenRecovery_Epoch r));
   at_field "epoch" into_string OpenRecovery_Epoch (λ r s, mkOpenRecovery (OpenRecovery_RequestID r) s)].

Section wire.
Context `{K8s : Kubernetes, RJ : !Distribution.ResourcesJSON}.

Definition profile_fields : list (field Profile) :=
  [at_field "name" into_string Profile_Name (λ p s, mkProfile s (Profile_Version p) (Profile_Resources p)
    (Profile_StorageSize p) (Profile_StorageClassName p) (Profile_WorkspaceStorageSize p));
    at_field "version" into_int64 Profile_Version (λ p z, mkProfile (Profile_Name p) z (Profile_Resources p)
      (Profile_StorageSize p) (Profile_StorageClassName p) (Profile_WorkspaceStorageSize p));
    at_field "resources" Distribution.into_resources Profile_Resources (λ p r, mkProfile (Profile_Name p) (Profile_Version p) r
      (Profile_StorageSize p) (Profile_StorageClassName p) (Profile_WorkspaceStorageSize p));
    at_field "storageSize" into_string Profile_StorageSize (λ p s, mkProfile (Profile_Name p) (Profile_Version p)
      (Profile_Resources p) s (Profile_StorageClassName p) (Profile_WorkspaceStorageSize p));
    at_field "storageClassName" (into_pointer "" into_string) Profile_StorageClassName (λ p s, mkProfile (Profile_Name p)
      (Profile_Version p) (Profile_Resources p) (Profile_StorageSize p) s (Profile_WorkspaceStorageSize p));
    at_field "workspaceStorageSize" (into_pointer "" into_string) Profile_WorkspaceStorageSize (λ p s, mkProfile
      (Profile_Name p) (Profile_Version p) (Profile_Resources p) (Profile_StorageSize p) (Profile_StorageClassName p) s)].

Definition agent_fields : list (field Agent) :=
  [at_field "agent" into_string Agent_GRN (λ a s, mkAgent s (Agent_Revision a) (Agent_Epoch a) (Agent_Profile a)
    (Agent_Configuration a) (Agent_Stopped a) (Agent_Recovery a));
    at_field "revision" into_string Agent_Revision (λ a s, mkAgent (Agent_GRN a) s (Agent_Epoch a) (Agent_Profile a)
      (Agent_Configuration a) (Agent_Stopped a) (Agent_Recovery a));
    at_field "epoch" into_string Agent_Epoch (λ a s, mkAgent (Agent_GRN a) (Agent_Revision a) s (Agent_Profile a)
      (Agent_Configuration a) (Agent_Stopped a) (Agent_Recovery a));
    at_field "profile" (into_struct false profile_fields) Agent_Profile (λ a p, mkAgent (Agent_GRN a) (Agent_Revision a)
      (Agent_Epoch a) p (Agent_Configuration a) (Agent_Stopped a) (Agent_Recovery a));
    at_field "configuration" (into_struct false configuration_fields) Agent_Configuration (λ a c, mkAgent (Agent_GRN a)
      (Agent_Revision a) (Agent_Epoch a) (Agent_Profile a) c (Agent_Stopped a) (Agent_Recovery a));
    at_field "stopped" into_bool Agent_Stopped (λ a b, mkAgent (Agent_GRN a) (Agent_Revision a) (Agent_Epoch a)
      (Agent_Profile a) (Agent_Configuration a) b (Agent_Recovery a));
    at_field "recovery" (into_pointer (mkOpenRecovery "" "") (into_struct false recovery_fields)) Agent_Recovery (λ a r,
      mkAgent (Agent_GRN a) (Agent_Revision a) (Agent_Epoch a) (Agent_Profile a) (Agent_Configuration a)
      (Agent_Stopped a) r)].

Definition answer_fields : list (field Answer) :=
  [at_field "cursor" into_string Answer_Cursor (λ a s, mkAnswer s (Answer_Agents a));
    at_field "agents" (into_slice zeroAgent (into_struct false agent_fields)) Answer_Agents (λ a l,
      mkAnswer (Answer_Cursor a) l)].
Definition decode_answer : string → option Answer := decode_first (into_struct false answer_fields) (mkAnswer "" []).
End wire.

(** [wireRecovered]; the stage is read and not used. *)
Definition recovered_fields : list (field Recovered) :=
  [at_field "agent" into_string Recovered_Agent (λ r s,
     mkRecovered s (Recovered_RequestID r) (Recovered_Epoch r) (Recovered_Lineage r));
   at_field "recoveryRequestId" into_string Recovered_RequestID (λ r s,
     mkRecovered (Recovered_Agent r) s (Recovered_Epoch r) (Recovered_Lineage r));
   at_field "epoch" into_string Recovered_Epoch (λ r s,
     mkRecovered (Recovered_Agent r) (Recovered_RequestID r) s (Recovered_Lineage r));
   Field "stage" (λ j r, (λ _, r) <$> into_string j "");
   at_field "lineage" into_string Recovered_Lineage (λ r s,
     mkRecovered (Recovered_Agent r) (Recovered_RequestID r) (Recovered_Epoch r) s)].

(** [wireError], as its kind and message. *)
Definition error_fields : list (field (string * string)) :=
  [at_field "kind" into_string fst (λ e s, (s, e.2)); at_field "message" into_string snd (λ e s, (e.1, s))].

Definition status_json (observed rendered : string) : json :=
  JObject [("observedRevision", JString observed); ("renderedRevision", JString rendered)].
Definition recovery_request_json (r : RecoveryRequest) : json :=
  JObject [("requestId", JString (RecoveryRequest_ID r)); ("epoch", JString (RecoveryRequest_Epoch r))].
Definition placement_json (p : Placement) : json :=
  JObject [("epoch", JString (Placement_Epoch p)); ("podUid", JString (Placement_PodUID p));
           ("pvcUid", JString (Placement_PVCUID p)); ("tokenSha256", JString (Placement_TokenSHA256 p));
           ("previous", match Placement_Previous p with
              | Some q => JObject [("podUid", JString (Previous_PodUID q));
                                   ("writerStoppedSha256", JString (Previous_WriterStoppedSHA256 q))]
              | None => JNull
              end)].
Definition image_json (i : Image) : json :=
  JObject ([("name", JString (Image_Name i)); ("ref", JString (Image_Ref i))] ++
           match Image_Digest i with Some d => [("digest", JString d)] | None => [] end).

Definition routeDesired := "desired".
Definition routeStatus := "status".
Definition routePlacements := "placements".
Definition routeRecoveryRequests := "recovery_requests".
Definition routeImages := "images".
Definition requestMargin : Z := 30 * Second.

(** ** net/url: escaping a path segment and a query's value *)
Definition unreserved (c : ascii) : bool :=
  is_digit c || bool_decide (65 ≤ byte_of c ≤ 90) || bool_decide (97 ≤ byte_of c ≤ 122) ||
  bool_decide (byte_of c ∈ [45; 95; 46; 126]).
Definition upper_hex (z : Z) : ascii := of_byte (if bool_decide (z < 10) then 48 + z else 55 + z).
Definition percent (c : ascii) : string :=
  String "%" (String (upper_hex (byte_of c / 16)) (String (upper_hex (byte_of c mod 16)) EmptyString)).
Fixpoint escape_with (keep : ascii → bool) (s : string) : string :=
  match s with
  | EmptyString => EmptyString
  | String c s => (if keep c then String c EmptyString else percent c) +:+ escape_with keep s
  end.
Definition PathEscape : string → string :=
  escape_with (λ c, unreserved c || bool_decide (byte_of c ∈ [36; 38; 43; 58; 61; 64])).
Fixpoint QueryEscape (s : string) : string :=
  match s with
  | EmptyString => EmptyString
  | String c s =>
      (if unreserved c then String c EmptyString else if bool_decide (c = " "%char) then "+" else percent c) +:+
      QueryEscape s
  end.

(** ** Calls *)

(** What the transport carries to the control service: a method, what follows the address in the URL, and the
    body, for at most [timeout]; answered by a status and a body, or not answered. *)
Inductive controlE : Type → Type :=
| Do (method path : string) (body : option string) (timeout : Z) : controlE (result (Z * string)).

(** The first bytes of a refusal's body that are read. *)
Definition refusal_limit : nat := 65536.

Section client.
Context `{K8s : Kubernetes, RJ : !Distribution.ResourcesJSON}.
Context {E : Type → Type} `{!SubEvent controlE E}.
(** What the JSON decoder says of a text it refuses. *)
Context (decode_error : string → string).

(** [send], an answer decoded by [decode] where it is asked for. *)
Definition send {A} method path body timeout (route : string) (decode : string → option A) : prog E (result (Z * A)) :=
  response ← call (Do method path body timeout);
  match response with
  | Err err => mret (Err (Wrapf ("call the control service's " +:+ route +:+ " route: ") err ""))
  | Ok (status, text) =>
    if bool_decide (400 ≤ status < 500) then
    let limited := String.substring 0 refusal_limit text in
    let '(kind, message) := default ("", "") (decode_first (into_struct false error_fields) ("", "") limited) in
    mret (Err (RefusalError route status kind message))
    else if negb (bool_decide (status ∈ [200; 201; 202; 204])) then
    mret (Err (Errorf ("the control service's " +:+ route +:+ " route answered " +:+ FormatInt status)))
    else match decode text with
    | Some answer => mret (Ok (status, answer))
    | None => mret (Err (Wrapf ("decode the control service's " +:+ route +:+ " answer: ") (Errorf (decode_error text)) ""))
    end
  end.
Definition no_answer (text : string) : option () := Some tt.

Definition Desired (after : string) (wait : Z) : prog E (result Answer) :=
  let query := (if bool_decide (after = "") then "" else "after=" +:+ QueryEscape after +:+ "&") +:+
  "waitSeconds=" +:+ FormatInt (Z.quot wait Second) in
  '(_, answer) ←? send "GET" ("/v1/operators/self/desired?" +:+ query) None (wait + requestMargin) routeDesired decode_answer;
  mret (Ok answer).

Definition agent_path (agent route : string) : string := "/v1/operators/self/agents/" +:+ PathEscape agent +:+ "/" +:+ route.

Definition ReportStatus (agent observed rendered : string) : prog E (result ()) :=
  _ ←? send "POST" (agent_path agent "status") (Some (Marshal (status_json observed rendered))) requestMargin routeStatus
  no_answer;
  mret (Ok tt).

Definition PrepareRecovery (agent : string) (request : RecoveryRequest) : prog E (result Recovered) :=
  '(status, answer) ←? send "POST" (agent_path agent "recovery-requests") (Some (Marshal (recovery_request_json request)))
  requestMargin routeRecoveryRequests (decode_first (into_struct false recovered_fields) (mkRecovered "" "" "" ""));
  mret (Ok (mkRecovered (Recovered_Agent answer) (Recovered_RequestID answer) (Recovered_Epoch answer)
    (if bool_decide (status = 200) then Recovered_Lineage answer else ""))).

Definition RegisterPlacement (agent : string) (placement : Placement) : prog E (result bool) :=
  '(status, _) ←? send "POST" (agent_path agent "placements") (Some (Marshal (placement_json placement))) requestMargin
  routePlacements no_answer;
  mret (Ok (bool_decide (status = 201))).

Definition ReportImages (images : list Image) : prog E (result ()) :=
  _ ←? send "PUT" "/v1/operators/self/images" (Some (Marshal (JObject [("images", JArray (image_json <$> images))])))
  requestMargin routeImages no_answer;
  mret (Ok tt).
End client.

(** The client as the loops use it: one call per method. *)
Inductive clientE `{K8s : Kubernetes} : Type → Type :=
| AskDesired (after : string) (wait : Z) : clientE (result Answer)
| TellStatus (agent observed rendered : string) : clientE (result ())
| SendRecovery (agent : string) (request : RecoveryRequest) : clientE (result Recovered)
| SendPlacement (agent : string) (placement : Placement) : clientE (result bool)
| TellImages (images : list Image) : clientE (result ()).

Definition client `{K8s : Kubernetes, RJ : !Distribution.ResourcesJSON, !SubEvent controlE E} (decode_error : string → string)
    X (e : clientE X) : prog E X :=
  match e with
  | AskDesired after wait => Desired decode_error after wait
  | TellStatus agent observed rendered => ReportStatus decode_error agent observed rendered
  | SendRecovery agent request => PrepareRecovery decode_error agent request
  | SendPlacement agent placement => RegisterPlacement decode_error agent placement
  | TellImages images => ReportImages decode_error images
  end.

(** What each of the manager's loops does of its own: whether it is cancelled, a wait, its clock and its log. *)
Inductive loopE : Type → Type :=
| Cancelled : loopE bool
| Pause (d : Z) : loopE ()
| LoopNow : loopE Time
| LoopLog (text : string) (attributes : list (string * string)) : loopE ().

(** ** puller.go, registrar.go, recoverer.go: the waits every loop keeps *)
Definition longPoll : Z := 30 * Second.
Definition transientFirst : Z := Second.
Definition transientLast : Z := 30 * Second.
Definition refusedWait : Z := 300 * Second.
Definition next_backoff (backoff : Z) : Z := (2 * backoff) `min` transientLast.
(** A backoff that begins at zero. *)
Definition retry_backoff (backoff : Z) : Z := if bool_decide (backoff = 0) then transientFirst else next_backoff backoff.

(** ** images.go *)
Definition imageAgent := "agent".
Definition imageAdapter := "adapter".
Definition imageCopy := "copy".
Definition imageWorkspace := "workspace".

(** [^sha256:[0-9a-f]{64}$]. *)
Definition sha256Digest (s : string) : bool :=
  match CutPrefix s "sha256:" with
  | Some hex => bool_decide (String.length hex = 64%nat) && string_forall is_lower_hex hex
  | None => false
  end.

Definition configuredImage (name ref : string) : Image :=
  let '(_, pinned, found) := Cut ref "@"%char in
  mkImage name ref (if found && sha256Digest pinned then Some pinned else None).
Definition ConfiguredImages (agent adapter copyImage workspace : string) : list Image :=
  (λ c, configuredImage c.1 c.2) <$>
  filter (λ c, c.2 ≠ "") [(imageAgent, agent); (imageAdapter, adapter); (imageCopy, copyImage); (imageWorkspace, workspace)].

(** What follows the last "@", or the whole text where there is none. *)
Fixpoint after_last (c : ascii) (s : string) : option string :=
  match s with
  | EmptyString => None
  | String x s => match after_last c s with
                  | Some t => Some t
                  | None => if Ascii.eqb x c then Some s else None
                  end
  end.
Definition DigestOf (imageID : string) : option string :=
  let digest := default imageID (after_last "@"%char imageID) in
  if sha256Digest digest then Some digest else None.
End Desired.
