(* ===== verification/Machine.v ===== *)
(** HTTP as a client of the program sees it, and the client of garam's machine listener
    ([src/internal/garammachine/client.go]): one call, sent again while garam leaves it undecided. *)
From S2P Require Import Prelude GoStd GoTime Json JsonText Errors.
From Stdlib Require Import Ascii.
Import GoStd Json JsonText.

Module Machine.

(** ** net/http *)
Record wireRequest := mkWireRequest {
  wire_method : string;
  wire_url : string;
  wire_headers : gmap string string;
  wire_body : option string;
}.
#[global] Instance wireRequest_eq_dec : EqDecision wireRequest.
Proof. solve_decision. Defined.

(** An answer: its body is the text read before the connection ends, and how it failed where it does. *)
Record wireResponse := mkWireResponse {
  answer_status : Z;
  answer_headers : gmap string string;
  answer_text : string;
  answer_failure : option error;
}.
Definition answer_header (r : wireResponse) (name : string) : string := default "" (answer_headers r !! name).

(** [http.NewRequestWithContext], which refuses a URL it cannot parse; the transport; and a wait the context may
    end, with its error. *)
Inductive httpE : Type → Type :=
| NewRequest (method url : string) : httpE (result ())
| RoundTrip (request : wireRequest) : httpE (result wireResponse)
| WaitFor (d : Z) : httpE (option error).

(** [io.ReadAll] of a body, and of the first [limit] bytes of one. *)
Definition read_all (r : wireResponse) : result string :=
  match answer_failure r with Some err => Err err | None => Ok (answer_text r) end.
Definition read_limited (limit : Z) (r : wireResponse) : result string :=
  if bool_decide (limit ≤ Z.of_nat (String.length (answer_text r)))
  then Ok (String.substring 0 (Z.to_nat limit) (answer_text r))
  else read_all r.

(** What [json.Unmarshal] leaves in a variable where its error is not looked at: the members of an object that are of
    their field's type, and nothing of a text that is no JSON. *)
Definition Unmarshal_into {T} (fields : list (field T)) (zero : T) (text : string) : T :=
  match parse text with
  | Some (JObject ms) => foldl (λ t m, default t (member false fields (Some t) m)) zero ms
  | _ => zero
  end.

(** ** client.go *)
Definition contractHeader := "Garam-Contract-Version".
Definition operationHeader := "Garam-Operation".
Definition OperationAuthority := "operation-authority.v2".
Definition ExecutionFence := "execution-fence.v2".
Definition AgentEnrollment := "agent-enrollment.v1".
Definition maxAnswerBytes : Z := 1048576.

Record Client := mkClient { Client_baseURL : string; Client_Attempts : Z; Client_Backoff : Z }.
Definition TrimSuffix (s : string) (c : ascii) : string :=
  match reverse (String.list_ascii_of_string s) with
  | x :: r => if Ascii.eqb x c then String.string_of_list_ascii (reverse r) else s
  | [] => s
  end.
Definition New (baseURL : string) : Client := mkClient (TrimSuffix baseURL "/"%char) 3 (200 * 1000000).

Record Answer := mkAnswer { Answer_Status : Z; Answer_Body : string }.

Record Call := mkCall {
  Call_Method : string;
  Call_Contract : string;
  Call_Path : string;
  Call_Body : option json;
  Call_Raw : option string;
  Call_Operation : string;
}.
Definition payload_of (call : Call) : option string :=
  match Call_Raw call with Some raw => Some raw | None => Marshal <$> Call_Body call end.

(** What one attempt sends. *)
Definition request_of (c : Client) (call : Call) (payload : option string) : wireRequest :=
  let headers := match payload with Some _ => {["Content-Type" := "application/json"]} | None => ∅ end in
  let headers := <[contractHeader := Call_Contract call]> headers in
  mkWireRequest (Call_Method call) (Client_baseURL c +:+ Call_Path call)
    (if bool_decide (Call_Operation call = "") then headers else <[operationHeader := Call_Operation call]> headers) payload.

(** An attempt's end: garam's decision or an error that ends the call, or an error after which it is sent again. *)
Inductive attempted := Ended (answer : result Answer) | Again (err : error).

Section client.
Context {E : Type → Type} `{!SubEvent httpE E}.

Definition sendOnce (c : Client) (call_ : Call) (payload : option string) : prog E attempted :=
  built ← call (NewRequest (Call_Method call_) (Client_baseURL c +:+ Call_Path call_));
  match built with
  | Err err => mret (Ended (Err (Errorf ("build " +:+ Call_Path call_ +:+ ": " +:+ error_text err))))
  | Ok _ =>
    response ← call (RoundTrip (request_of c call_ payload));
    match response with
    | Err err => mret (Again err)
    | Ok response =>
      match read_limited maxAnswerBytes response with
      | Err err => mret (Again (Errorf ("read answer: " +:+ error_text err)))
      | Ok body =>
        let status := answer_status response in
        let got := answer_header response contractHeader in
        if bool_decide (status = 500) || bool_decide (status = 503) then
        mret (Again (Errorf ("status " +:+ FormatInt status)))
        else if negb (bool_decide (got = Call_Contract call_)) then
        mret (Ended (Err (ContractError (Call_Path call_) status got (Call_Contract call_))))
        else mret (Ended (Ok (mkAnswer status body)))
      end
    end
  end.

(** The attempts after which [more] more may be sent. *)
Fixpoint send_from (c : Client) (call_ : Call) (payload : option string) (more : nat) (attempt wait : Z) :
  prog E (result Answer) :=
  ended ← sendOnce c call_ payload;
  match ended with
  | Ended answer => mret answer
  | Again err =>
    match more with
    | O => mret (Err (Wrapf "" ErrMachineUndecided (" after " +:+ FormatInt attempt +:+ " attempts: " +:+ error_text err)))
    | S more =>
      done ← call (WaitFor wait);
      match done with
      | Some err => mret (Err (Wrapf "" ErrMachineUndecided (": " +:+ error_text err)))
      | None => send_from c call_ payload more (attempt + 1) (int64 (2 * wait))
      end
    end
  end.
Definition Send (c : Client) (call_ : Call) : prog E (result Answer) :=
  send_from c call_ (payload_of call_) (Z.to_nat (Client_Attempts c - 1)) 1 (Client_Backoff c).

Definition Post (c : Client) (contract path : string) (body : json) : prog E (result Answer) :=
  Send c (mkCall "POST" contract path (Some body) None "").
End client.

Definition FirstLine (body : string) : string :=
  let '(line, _, _) := Cut body (of_byte 10) in
  if bool_decide (200 < String.length line)%nat then String.substring 0 200 line else line.
End Machine.
