(* ===== verification/FeedWire.v ===== *)
(** The desired feed across the two processes: what the control service writes for a page, the manager's client
    decodes into the same agents ([src/internal/distribution/desired.go] to [src/internal/desired/client.go]). *)
From S2P Require Import Prelude GoStd Json JsonText JsonRound Errors Types Validation Distribution Desired.
From Stdlib Require Import DecimalString.
Import GoStd Json JsonText JsonRound Validation Distribution.

Module FeedWire.

(** A value printable at a depth is printable at any greater one. *)
Lemma printable_mono j d d' : (d ≤ d')%nat → printable d j → printable d' j.
Proof.
  revert d d'. induction j as [|b|n|s|l IH|ms IH] using json_ind'; intros d d' Hd Hp; try done.
  - apply printable_JArray in Hp as (e & -> & Hp). destruct d' as [|d']; [lia|]. apply printable_JArray.
    exists d'. split; [done|]. rewrite Forall_forall in IH, Hp |- *. intros j Hj. eapply IH; [done| |by apply Hp]. lia.
  - apply printable_JObject in Hp as (e & -> & Hp). destruct d' as [|d']; [lia|]. apply printable_JObject.
    exists d'. split; [done|]. rewrite Forall_forall in IH, Hp |- *. intros m Hm. destruct (Hp m Hm).
    split; [done|]. eapply IH; [done| |done]. lia.
Qed.

(** A map is read back from its members in any order. *)
Lemma into_map_members (m : gmap string string) (l : list (string * string)) : l ≡ₚ map_to_list m →
  into_map (JObject ((λ kv, (kv.1, JString kv.2)) <$> l)) ∅ = Some m.
Proof.
  intros Hp. cbn [into_map].
  assert (∀ m0, foldl (λ m kv, m ← m; s ← into_string kv.2 ""; Some (<[kv.1 := s]> m)) (Some m0)
    ((λ kv, (kv.1, JString kv.2)) <$> l) = Some (foldl (λ m kv, <[kv.1 := kv.2]> m) m0 l)) as ->.
  { clear Hp. induction l as [|kv l IH]; intros m0; [done|]. cbn. apply IH. }
  f_equal. rewrite <- (list_to_map_to_list m). rewrite <- (list_to_map_proper l (map_to_list m)); [|by
    rewrite Hp; apply NoDup_fst_map_to_list|done].
  assert (NoDup l.*1) as Hn by (rewrite Hp; apply NoDup_fst_map_to_list). clear Hp.
  assert (∀ m0 : gmap string string, (∀ k, k ∈ l.*1 → m0 !! k = None) →
    foldl (λ m kv, <[kv.1 := kv.2]> m) m0 l = list_to_map l ∪ m0) as Hfold.
  { induction l as [|[k v] l IH]; intros m0 Hm0; [cbn; by rewrite (left_id_L ∅ (∪))|]. cbn.
    apply NoDup_cons in Hn as [Hk Hn]. rewrite IH; [|done|].
    - rewrite <- insert_union_r by (by apply not_elem_of_list_to_map). by rewrite insert_union_l.
    - intros k' Hk'. rewrite lookup_insert_ne by (by intros ->). apply Hm0. by right. }
  rewrite Hfold by done. by rewrite (right_id_L ∅ (∪)).
Qed.
Lemma into_map_read (m : gmap string string) : into_map (string_map_json m) ∅ = Some m.
Proof. apply into_map_members, merge_sort_Permutation. Qed.

(** Opens an object's members, one by one. *)
Ltac print_members :=
  apply printable_JObject; eexists; split; [reflexivity|]; cbn [app];
  repeat first [apply Forall_nil_2|apply Forall_cons_2; [split; [reflexivity|cbn [snd fst]]|]].

Section wire.
Context `{K8s : Kubernetes, RJ : !ResourcesJSON}.

(** What Kubernetes documents of its own texts: a quantity prints as text, and resource requirements print as
a value that reads back. *)
Class WireLaws := {
  resources_received : ResourceRequirements → ResourceRequirements;
  quantity_text : ∀ q, utf8 (Quantity_String q) = true;
  resources_printable : ∀ r, printable 8 (resources_json r);
  resources_read : ∀ r, into_resources (resources_json r) (mkResourceRequirements ∅ ∅ []) = Some (resources_received r);
}.
Context {WL : WireLaws}.

(** The agent a page's revision is received as, [assignment] what it was recorded under. *)
Definition received_embedding (e : Embedding) : Desired.Embedding :=
  Desired.mkEmbedding (Embedding_BaseURL e) (Embedding_Name e) (Embedding_APIKey e).
Definition received_model (m : Model) : Desired.Model :=
  Desired.mkModel (Model_Provider m) (Model_BaseURL m) (Model_Name m) (Model_APIKey m)
  (received_embedding <$> Model_Embedding m).
Definition received_configuration (c : Configuration) : Desired.Configuration :=
  Desired.mkConfiguration (received_model (Configuration_Model c)) (Configuration_Ego c) (Configuration_Tools c).
Definition received_profile (ref : ProfileRef) (s : ExecutionSettings) : Desired.Profile :=
  Desired.mkProfile (ProfileRef_Name ref) (ProfileRef_Version ref) (resources_received (Settings_Resources s))
  (Quantity_String (Settings_StorageSize s)) (Settings_StorageClassName s)
  (Quantity_String <$> Settings_WorkspaceStorageSize s).
Definition received (d : DesiredRevision) (assignment : Assignment) : Desired.Agent :=
  let def := Desired_Definition d in
  Desired.mkAgent (Definition_Agent def) (Revision_String (Definition_Revision def)) (Assignment_Epoch assignment)
  (received_profile (Definition_Profile def) (Desired_Settings d)) (received_configuration (Definition_Config def))
  (Desired_Stopped d)
  ((λ r, Desired.mkOpenRecovery (OpenRecovery_RequestID r) (OpenRecovery_Epoch r)) <$> Desired_Recovery d).

(** ** Each part read back *)
Lemma embedding_read e :
  into_struct false Desired.embedding_fields (embedding_json e) (Desired.mkEmbedding "" "" "") = Some (received_embedding e).
Proof. unfold embedding_json. by repeat read_member. Qed.

Lemma model_read m :
  into_struct false Desired.model_fields (model_json m) Desired.zeroModel = Some (received_model m).
Proof.
  unfold model_json. destruct m as [p b n k [e|]]; cbn [Model_Embedding option_map fmap option_fmap optional app];
    repeat read_member; [|done].
  rewrite (into_pointer_Some _ _ _ _ (received_embedding e)); [by repeat read_member|done|apply embedding_read].
Qed.

Lemma configuration_read c :
  into_struct false Desired.configuration_fields (configuration_json c) (Desired.mkConfiguration Desired.zeroModel "" ∅) =
  Some (received_configuration c).
Proof.
  unfold configuration_json. read_member. rewrite model_read. cbn [fmap option_fmap option_map]. read_member.
  read_member. cbn [Desired.Configuration_Tools]. rewrite into_map_read. by repeat read_member.
Qed.

Lemma profile_read ref s :
  minInt64 ≤ ProfileRef_Version ref ≤ maxInt64 →
  into_struct false Desired.profile_fields (profile_json ref s) Desired.zeroProfile = Some (received_profile ref s).
Proof.
  intros Hv. unfold profile_json. cbn [app]. read_member. read_member. rewrite into_int64_FormatInt by done.
  cbn [fmap option_fmap option_map]. read_member. cbn [Desired.Profile_Resources Desired.zeroProfile].
  rewrite resources_read. cbn [fmap option_fmap option_map]. read_member. read_member.
  destruct s as [r q class ws]. cbn [Settings_Resources Settings_StorageSize Settings_StorageClassName
    Settings_WorkspaceStorageSize].
  assert (∀ j, into_pointer "" into_string (from_option JString JNull class) j = Some class) as Hclass by by destruct class.
  rewrite Hclass. cbn [fmap option_fmap option_map]. destruct ws as [w|]; cbn [optional fmap option_fmap option_map];
    by repeat read_member.
Qed.

Lemma recovery_read r :
  into_struct false Desired.recovery_fields (recovery_json r) (Desired.mkOpenRecovery "" "") =
  Some (Desired.mkOpenRecovery (OpenRecovery_RequestID r) (OpenRecovery_Epoch r)).
Proof. unfold recovery_json. by repeat read_member. Qed.

Lemma agent_read d assignment j :
  minInt64 ≤ ProfileRef_Version (Definition_Profile (Desired_Definition d)) ≤ maxInt64 →
  Definition_Assignment (Desired_Definition d) = Some assignment → desiredAgentOf d = Ok j →
  into_struct false Desired.agent_fields j Desired.zeroAgent = Some (received d assignment).
Proof.
  intros Hv Ha. unfold desiredAgentOf. rewrite Ha. intros [= <-]. cbn [app].
  do 3 read_member. read_member. cbn [Desired.Agent_Profile Desired.zeroAgent].
  rewrite profile_read by done. cbn [fmap option_fmap option_map]. read_member. cbn [Desired.Agent_Configuration].
  rewrite configuration_read. cbn [fmap option_fmap option_map].
  destruct d as [def s stopped recovery]. cbn [Desired_Stopped Desired_Recovery].
  destruct stopped, recovery as [rec|]; cbn [optional fmap option_fmap option_map app]; repeat read_member; try done.
  all: change (into_bool (JBool true) _) with (Some true); cbn [fmap option_fmap option_map]; repeat read_member; try done.
  all: rewrite (into_pointer_Some _ _ _ _ _ ltac:(done) (recovery_read rec)); cbn [fmap option_fmap option_map]; by read_member.
Qed.

(** ** Each part printed *)

(** Text a definition may hold: well-formed UTF-8, as every string a request's JSON was decoded into is. *)
Definition text (s : string) : Prop := utf8 s = true.
Definition text_configuration (c : Configuration) : Prop :=
  let m := Configuration_Model c in
  text (Model_Provider m) ∧ text (Model_BaseURL m) ∧ text (Model_Name m) ∧ text (Model_APIKey m) ∧
  (∀ e, Model_Embedding m = Some e → text (Embedding_BaseURL e) ∧ text (Embedding_Name e) ∧ text (Embedding_APIKey e)) ∧
  text (Configuration_Ego c) ∧ map_Forall (λ k v, text k ∧ text v) (Configuration_Tools c).
Definition text_desired (d : DesiredRevision) (assignment : Assignment) : Prop :=
  let def := Desired_Definition d in
  Definition_Assignment def = Some assignment ∧ text (Definition_Agent def) ∧ text (Assignment_Epoch assignment) ∧
  text (ProfileRef_Name (Definition_Profile def)) ∧
  minInt64 ≤ ProfileRef_Version (Definition_Profile def) ≤ maxInt64 ∧ 0 ≤ Definition_Revision def ∧
  text_configuration (Definition_Config def) ∧
  (∀ class, Settings_StorageClassName (Desired_Settings d) = Some class → text class) ∧
  (∀ r, Desired_Recovery d = Some r → text (OpenRecovery_RequestID r) ∧ text (OpenRecovery_Epoch r)).

Lemma string_map_printable d m :
  map_Forall (λ k v, text k ∧ text v) m → printable (S d) (string_map_json m).
Proof.
  intros Hm. apply printable_JObject. exists d. split; [done|]. rewrite Forall_fmap, Forall_forall.
  intros [k v] Hin. rewrite merge_sort_Permutation in Hin. apply elem_of_map_to_list in Hin. by apply Hm.
Qed.

Lemma digits_utf8 n s : string_forall is_digit s = true → (String.length s ≤ n)%nat → utf8_bytes n (bytes_of s) = true.
Proof.
  revert n. induction s as [|c s IH]; intros [|n] Hs Hn; cbn in Hs, Hn; try (done || lia).
  apply andb_true_iff in Hs as [Hc Hs]. apply bool_decide_eq_true in Hc.
  change (utf8_bytes (S n) (byte_of c :: bytes_of s) = true). cbn [utf8_bytes].
  rewrite bool_decide_true by lia. apply IH; [done|lia].
Qed.
Lemma FormatInt_utf8 z : text (FormatInt z).
Proof.
  unfold text, utf8. destruct (FormatInt_cases z) as [->|(neg & d & _ & _ & -> & _)]; [done|].
  destruct neg; [|by apply digits_utf8; [apply string_of_uint_digits|]]. cbn -[utf8_bytes]. cbn [utf8_bytes].
  change (utf8_bytes _ _ = true) with
    (utf8_bytes (String.length (NilEmpty.string_of_uint d)) (bytes_of (NilEmpty.string_of_uint d)) = true).
  by apply digits_utf8; [apply string_of_uint_digits|].
Qed.

Lemma model_printable d m :
  text (Model_Provider m) → text (Model_BaseURL m) → text (Model_Name m) → text (Model_APIKey m) →
  (∀ e, Model_Embedding m = Some e → text (Embedding_BaseURL e) ∧ text (Embedding_Name e) ∧ text (Embedding_APIKey e)) →
  printable (S (S d)) (model_json m).
Proof.
  intros Hp Hb Hn Hk He. unfold model_json. destruct (Model_Embedding m) as [e|]; cbn [fmap option_fmap option_map optional].
  - destruct (He e eq_refl) as (? & ? & ?). unfold embedding_json. by print_members.
  - by print_members.
Qed.

Lemma profile_printable ref s :
  text (ProfileRef_Name ref) → (∀ class, Settings_StorageClassName s = Some class → text class) →
  printable 9 (profile_json ref s).
Proof.
  intros Hn Hc. unfold profile_json. destruct (Settings_WorkspaceStorageSize s) as [q|];
    cbn [fmap option_fmap option_map optional]; print_members; try done; try (by eexists);
    try apply resources_printable; try apply quantity_text;
    destruct (Settings_StorageClassName s) as [class|]; try done; by apply Hc.
Qed.

Lemma agent_printable d assignment j :
  text_desired d assignment → desiredAgentOf d = Ok j → printable 10 j.
Proof.
  intros (Ha & Hg & He & Hn & Hv & Hr & (? & ? & ? & ? & ? & ? & ?) & Hs & Hrec). unfold desiredAgentOf. rewrite Ha.
  intros [= <-].
  assert (printable 9 (configuration_json (Definition_Config (Desired_Definition d)))) as Hcfg.
  { unfold configuration_json. print_members; (done || (by apply model_printable) || by apply string_map_printable). }
  assert (printable 9 (profile_json (Definition_Profile (Desired_Definition d)) (Desired_Settings d))) as Hp
    by by apply profile_printable.
  assert (text (Revision_String (Definition_Revision (Desired_Definition d)))) as Hrev by by apply FormatInt_utf8.
  assert (∀ r, Desired_Recovery d = Some r → printable 9 (recovery_json r)) as Hrecp.
  { intros r [? ?]%Hrec. unfold recovery_json. by print_members. }
  destruct (Desired_Stopped d), (Desired_Recovery d) as [r|]; cbn [fmap option_fmap option_map optional];
    print_members; try done; by apply Hrecp.
Qed.

(** The revisions and what each prints as. *)
Lemma elements_read ds js :
  Forall2 (λ p j, text_desired p.1 p.2 ∧ desiredAgentOf p.1 = Ok j) ds js →
  into_elements Desired.zeroAgent (into_struct false Desired.agent_fields) js [] =
  Some ((λ p, received p.1 p.2) <$> ds).
Proof.
  induction 1 as [|[d assignment] j ds js [Ht Hj] Hall IH]; [done|]. cbn [into_elements head tail default].
  destruct Ht as (Ha & _ & _ & _ & Hv & _). rewrite (agent_read d assignment) by done.
  cbn [mbind option_bind]. by rewrite IH.
Qed.

(** C22: What the control service writes of a page, the manager's client reads: of any page whose texts are
well-formed UTF-8, each revision released is received with its own revision, epoch, profile, configuration,
stop and open recovery, in the page's order, under the page's position as the cursor. *)
Theorem feed_read (position : Position) (ds : list (DesiredRevision * Assignment)) (js : list json)
  (Hposition : 0 ≤ position)
  (Hpage : Forall2 (λ p j, text_desired p.1 p.2 ∧ desiredAgentOf p.1 = Ok j) ds js) :
  Desired.decode_answer (response_body (writeJSON 200 (desiredResponse position js))) =
  Some (Desired.mkAnswer (FormatInt position) ((λ p, received p.1 p.2) <$> ds)).
Proof.
  unfold Desired.decode_answer. cbn [response_body writeJSON]. rewrite decode_first_Encoded.
  - unfold desiredResponse. read_member. read_member. cbn [Desired.Answer_Agents].
    assert (∀ l, into_slice Desired.zeroAgent (into_struct false Desired.agent_fields) (JArray js) l =
      into_elements Desired.zeroAgent (into_struct false Desired.agent_fields) js l) as -> by done.
    rewrite (elements_read ds js Hpage). cbn [fmap option_fmap option_map]. by read_member.
  - exists 12%nat. split; [|done]. unfold desiredResponse. print_members; [by apply FormatInt_utf8|].
    apply printable_JArray. exists 10%nat. split; [done|].
    induction Hpage as [|[d assignment] j ds js [Ht Hj] Hall IH]; [done|]. constructor; [|done].
    by eapply agent_printable.
Qed.
End wire.
End FeedWire.
