(* ===== verification/Puller.v ===== *)
(** The puller ([src/internal/desired/puller.go]): the loop that asks for the feed, renders each agent's revision
    and reports it, and what it remembers between answers; and the image report ([images.go], [self/pod.go]). *)
From S2P Require Import Prelude GoStd Errors Types Desired.
Import GoStd Desired.

Module Puller.

Section puller.
Context `{K8s : Kubernetes}.

(** What the loop keeps: its cursor, its backoff, the refusal last logged, and what was last rendered and
reported of each agent. *)
Record puller := mkPuller {
  pull_cursor : string;
  pull_backoff : Z;
  pull_refusedAs : string;
  pull_rendered : gmap string string;
}.
Definition NewPuller : puller := mkPuller "" transientFirst "" ∅.

Definition renderedKey (agent : Agent) : string :=
  if Agent_Stopped agent then Agent_Revision agent +:+ "/stopped" else Agent_Revision agent.

(** The interface [Renderer], the recoveries offered, and the metric of the feed. *)
Inductive pullerE : Type → Type :=
| Render (agent : Agent) : pullerE (result ())
| Offer (open : gmap string OpenRecovery) : pullerE ()
| SetFeedRefused (refused : bool) : pullerE ().

Definition open_recoveries (answer : Answer) : gmap string OpenRecovery :=
  foldl (λ open agent, match Agent_Recovery agent with
  | Some r => <[Agent_GRN agent := r]> open | None => open end) ∅ (Answer_Agents answer).

Context {E : Type → Type} `{!SubEvent clientE E, !SubEvent pullerE E, !SubEvent loopE E}.
(** Whether recoveries are offered to anything. *)
Context (recoveries : bool).

Definition log text attributes : prog E () := call (LoopLog text attributes).

(** [apply], on what was rendered. *)
Definition apply (agent : Agent) (rendered : gmap string string) : prog E (gmap string string) :=
  let about := [("agent", Agent_GRN agent); ("revision", Agent_Revision agent)] in
  if bool_decide (default "" (rendered !! Agent_GRN agent) = renderedKey agent) then mret rendered
  else
  result ← call (Render agent);
  match result with
  | Err err =>
    _ ← (if errors_is err ErrNotControlSource
      then log "Not rendering an agent whose desired state another source holds" about
      else if errors_is err ErrMalformed then log "Not rendering a revision that cannot be rendered" about
      else log "Failed to render a revision" about);
    mret rendered
  | Ok _ =>
    reported ← call (TellStatus (Agent_GRN agent) (Agent_Revision agent) (Agent_Revision agent));
    match reported with
    | Err _ => _ ← log "Failed to report a rendered revision" about; mret rendered
    | Ok _ => _ ← log "Rendered a revision" about; mret (<[Agent_GRN agent := renderedKey agent]> rendered)
    end
  end.
Fixpoint apply_all (agents : list Agent) (rendered : gmap string string) : prog E (gmap string string) :=
  match agents with
  | [] => mret rendered
  | agent :: agents => rendered ← apply agent rendered; apply_all agents rendered
  end.

Definition offerRecoveries (answer : Answer) : prog E () :=
  if recoveries then call (Offer (open_recoveries answer)) else mret tt.

(** One turn of the loop: [None] where it ends. *)
Definition turn (p : puller) : prog E (option puller) :=
  cancelled ← call Cancelled;
  if (cancelled : bool) then mret None
  else
  let wait := if bool_decide (pull_cursor p = "") then 0 else longPoll in
  answer ← call (AskDesired (pull_cursor p) wait);
  match answer with
  | Err err =>
    cancelled ← call Cancelled;
    if (cancelled : bool) then mret None
    else match asRefusal err with
    | Some (status, kind) =>
      _ ← call (SetFeedRefused true);
      let kind := FormatInt status +:+ " " +:+ kind in
      _ ← (if negb (bool_decide (kind = pull_refusedAs p))
        then log "The control service refused the desired feed; asking again slowly" [("error", error_text err)]
        else mret tt);
      _ ← call (Pause refusedWait);
      mret (Some (mkPuller (pull_cursor p) (pull_backoff p) kind (pull_rendered p)))
    | None =>
      _ ← log "The desired feed did not answer; asking again" [("error", error_text err)];
      _ ← call (Pause (pull_backoff p));
      mret (Some (mkPuller (pull_cursor p) (next_backoff (pull_backoff p)) (pull_refusedAs p) (pull_rendered p)))
    end
  | Ok answer =>
    _ ← call (SetFeedRefused false);
    _ ← offerRecoveries answer;
    rendered ← apply_all (Answer_Agents answer) (pull_rendered p);
    mret (Some (mkPuller (Answer_Cursor answer) transientFirst "" rendered))
  end.

(** [Start], for [n] turns of its loop at most: what it holds then, or [None] where it ended before. *)
Fixpoint Start (n : nat) (p : puller) : prog E (option puller) :=
  match n with
  | O => mret (Some p)
  | S n => next ← turn p; match next with Some p => Start n p | None => mret None end
  end.

(** ** The image report *)

(** [ManagerImager]. *)
Inductive imagerE : Type → Type :=
| ManagerImage : imagerE (result Image).

(** The loop of [ImageReporter.Start], [n] its turns at most: whether it ended. *)
Fixpoint report_images `{!SubEvent imagerE E} (configured : list Image) (n : nat) (backoff : Z) (omitted : bool) : prog E bool :=
  match n with
  | O => mret false
  | S n =>
    cancelled ← call Cancelled;
    if (cancelled : bool) then mret true
    else
    own ← call ManagerImage;
    '(images, omitted) ← match own with
    | Ok own => mret (own :: configured, omitted)
    | Err err =>
      if omitted then mret (configured, omitted)
      else _ ← log "Reporting the images this operator runs without the manager's own" [("error", error_text err)];
      mret (configured, true)
    end;
    match images with
    | [] => _ ← log "Reporting no images: no image flag is set and the manager's own image cannot be read" []; mret true
    | _ =>
      reported ← call (TellImages images);
      match reported with
      | Ok _ => _ ← log "Reported the images this operator runs" []; mret true
      | Err err =>
        match asRefusal err with
        | Some _ =>
          _ ← log "The control service refused the image report; reporting again slowly" [("error", error_text err)];
          _ ← call (Pause refusedWait);
          report_images configured n 0 omitted
        | None =>
          let backoff := retry_backoff backoff in
          _ ← log "The image report did not answer; reporting again" [("error", error_text err)];
          _ ← call (Pause backoff);
          report_images configured n backoff omitted
        end
      end
    end
  end.

(** *** self/pod.go *)
Definition container := "manager".
Definition imageName := "manager".

(** What is read of the manager's Pod: its containers' names and images, and its statuses' names and image IDs. *)
Record managerPod := mkManagerPod { manager_containers : list (string * string); manager_statuses : list (string * string) }.
Inductive podE : Type → Type :=
| GetManagerPod (namespace name : string) : podE (result managerPod).

Definition readManagerImage `{!SubEvent podE E} (namespace name : string) : prog E (result Image) :=
  if bool_decide (name = "") then mret (Err ErrNoPodName)
  else
  pod ←? call (GetManagerPod namespace name)
  wrap (λ err, Wrapf ("read the manager's Pod " +:+ namespace +:+ "/" +:+ name +:+ ": ") err "");
  match List.find (λ c, bool_decide (c.1 = container)) (manager_containers pod) with
  | Some (_, ref) =>
(* Every status of the container's name sets the digest, the last one for good. *)
let digest := foldl (λ d s, if bool_decide (s.1 = container) then DigestOf s.2 else d) None (manager_statuses pod) in
mret (Ok (mkImage imageName ref digest))
| None =>
mret (Err (Errorf ("the manager's Pod " +:+ namespace +:+ "/" +:+ name +:+ " has no " +:+ quote container +:+ " container")))
end.
End puller.
End Puller.
