(* ===== verification/PullerSpec.v ===== *)
(** What the puller promises, whatever the control service and the cluster answer: a revision is reported rendered
    only once it was, one is left unrendered only where it was rendered and reported before, every wait is
    bounded, and each agent of an answer is rendered and reported, or refused. *)
From S2P Require Import Prelude GoStd Errors Types Desired Puller.
Import GoStd Desired Puller.

Module PullerSpec.
#[local] Arguments try_bind : simpl never.

Section spec.
Context `{K8s : Kubernetes} (recoveries : bool).
Abbreviation fullE := (clientE +' pullerE +' loopE).
Abbreviation history := (list (event fullE)).
Implicit Types (h : history) (agent : Agent) (p : puller).

Definition asked {X} h (e : clientE X) (x : X) : Prop := Ev (InL (InL e)) x ∈ h.
Definition did {X} h (e : pullerE X) (x : X) : Prop := Ev (InL (InR e)) x ∈ h.

Lemma asked_later {X} (e : clientE X) x h h' : h `suffix_of` h' → asked h e x → asked h' e x.
Proof. intros [k ->] ?. apply elem_of_app. by right. Qed.
Lemma did_later {X} (e : pullerE X) x h h' : h `suffix_of` h' → did h e x → did h' e x.
Proof. intros [k ->] ?. apply elem_of_app. by right. Qed.
Hint Resolve asked_later did_later : later.
Lemma later_cons h (ev : event fullE) : h `suffix_of` ev :: h.
Proof. by exists [ev]. Qed.
Hint Resolve later_cons : later.

(** An agent of some answer of the feed. *)
Definition offered h agent : Prop := ∃ after wait answer, asked h (AskDesired after wait) (Ok answer) ∧ agent ∈ Answer_Agents answer.
(** It was rendered, and the control service took the report of its revision. *)
Definition settled h agent : Prop :=
  offered h agent ∧ did h (Render agent) (Ok tt) ∧
  asked h (TellStatus (Agent_GRN agent) (Agent_Revision agent) (Agent_Revision agent)) (Ok tt).

(** What the loop remembers was rendered and reported. *)
Definition remembers h (rendered : gmap string string) : Prop :=
  map_Forall (λ grn key, ∃ agent, Agent_GRN agent = grn ∧ renderedKey agent = key ∧ settled h agent) rendered.

(** The calls the loop makes: what each is made on, and no wait without its bound. *)
Definition pull_call h X (e : fullE X) : Prop :=
  match e with
  | InL (InL (AskDesired after wait)) =>
    if decide (after = "") then wait = 0
    else wait = longPoll ∧ ∃ after' wait' answer, asked h (AskDesired after' wait') (Ok answer) ∧ Answer_Cursor answer = after
  | InL (InL (TellStatus grn observed rendered)) =>
    ∃ agent, offered h agent ∧ did h (Render agent) (Ok tt) ∧
    grn = Agent_GRN agent ∧ observed = Agent_Revision agent ∧ rendered = Agent_Revision agent
  | InL (InL _) => False
  | InL (InR (Render agent)) => offered h agent
  | InL (InR (Offer open)) =>
    ∃ after wait answer, asked h (AskDesired after wait) (Ok answer) ∧ open = open_recoveries answer
  | InR (Pause d) => transientFirst ≤ d ≤ transientLast ∨ d = refusedWait
  | _ => True
  end.

Lemma offered_later h h' agent : h `suffix_of` h' → offered h agent → offered h' agent.
Proof. intros Hs (after & wait & answer & ? & ?). exists after, wait, answer. eauto with later. Qed.
Lemma settled_later h h' agent : h `suffix_of` h' → settled h agent → settled h' agent.
Proof. intros Hs (? & ? & ?). split_and!; eauto using offered_later with later. Qed.
Lemma remembers_later h h' rendered : h `suffix_of` h' → remembers h rendered → remembers h' rendered.
Proof. intros Hs Hr grn key Hk. destruct (Hr grn key Hk) as (agent & ? & ? & ?). eauto using settled_later. Qed.

(** Why an agent of an answer is not up to date: rendering it, or reporting it, was refused. *)
Definition refused h agent : Prop :=
  (∃ err, did h (Render agent) (Err err)) ∨
  did h (Render agent) (Ok tt) ∧ ∃ err,
  asked h (TellStatus (Agent_GRN agent) (Agent_Revision agent) (Agent_Revision agent)) (Err err).
Lemma refused_later h h' agent : h `suffix_of` h' → refused h agent → refused h' agent.
Proof. intros Hs [[err ?]|[? [err ?]]]; [left|right]; eauto with later. Qed.

Definition up_to_date (rendered : gmap string string) agent : Prop :=
  default "" (rendered !! Agent_GRN agent) = renderedKey agent.

Lemma apply_spec agent rendered h :
  offered h agent → remembers h rendered →
  safe pull_call (λ h' rendered', h `suffix_of` h' ∧ remembers h' rendered' ∧
    (up_to_date rendered' agent ∨ refused h' agent) ∧
    ∀ grn, grn ≠ Agent_GRN agent → rendered' !! grn = rendered !! grn) h (apply agent rendered).
Proof.
  intros Ho Hr. unfold apply, log. case_bool_decide as Hk; [by split_and!; try left|]. cbn. split; [done|].
  assert (∀ x, did (Ev (InL (InR (Render agent))) x :: h) (Render agent) x) as Hdid
    by (intros; by apply elem_of_cons; left).
  intros [[]|err]; cbn.
  - split; [exists agent; split_and!; eauto using offered_later with later|].
    assert (∀ x h, asked (Ev (InL (InL (TellStatus (Agent_GRN agent) (Agent_Revision agent) (Agent_Revision agent)))) x :: h)
      (TellStatus (Agent_GRN agent) (Agent_Revision agent) (Agent_Revision agent)) x) as Hasked
      by (intros; by apply elem_of_cons; left).
    intros [[]|err]; cbn; (split; [done|]); intros []; cbn; (split; [by eexists [_; _; _]|]).
    + split; [|split; [left; unfold up_to_date; by rewrite lookup_insert_eq|intros; by rewrite lookup_insert_ne]].
      apply map_Forall_insert_2; [|eapply remembers_later, Hr; by eexists [_; _; _]].
      exists agent. unfold settled. split_and!; try done.
      * eapply offered_later, Ho. by eexists [_; _; _].
      * eapply did_later, Hdid. by eexists [_; _].
      * eapply asked_later, Hasked. by eexists [_].
    + split; [eapply remembers_later, Hr; by eexists [_; _; _]|]. split; [|done]. right. right.
      split; [eapply did_later, Hdid; by eexists [_; _]|]. exists err. eapply asked_later, Hasked. by eexists [_].
  - assert (∀ h', Ev (InL (InR (Render agent))) (Err err) :: h `suffix_of` h' →
      h `suffix_of` h' ∧ remembers h' rendered ∧ (up_to_date rendered agent ∨ refused h' agent) ∧
      ∀ grn, grn ≠ Agent_GRN agent → rendered !! grn = rendered !! grn) as Hend.
    { intros h' Hs. split_and!; [etrans; [apply later_cons|exact Hs]| | |done].
    - eapply remembers_later, Hr. etrans; [apply later_cons|exact Hs].
    - right. left. exists err. by eapply did_later, Hdid. }
    destruct (errors_is err ErrNotControlSource), (errors_is err ErrMalformed); cbn; (split; [done|]); intros [];
      cbn; apply Hend; by eexists [_].
Qed.

Lemma apply_all_spec agents rendered h :
  (∀ agent, agent ∈ agents → offered h agent) → remembers h rendered →
  safe pull_call (λ h' rendered', h `suffix_of` h' ∧ remembers h' rendered' ∧
    (∀ grn, grn ∉ Agent_GRN <$> agents → rendered' !! grn = rendered !! grn) ∧
    (NoDup (Agent_GRN <$> agents) → ∀ agent, agent ∈ agents → up_to_date rendered' agent ∨ refused h' agent))
  h (apply_all agents rendered).
Proof.
  revert rendered h. induction agents as [|agent agents IH]; intros rendered h Ho Hr.
  { cbn. split_and!; [done..|]. by intros _ ? ?%not_elem_of_nil. }
  cbn [apply_all]. rewrite safe_bind. eapply safe_mono, apply_spec; [|apply Ho; by left|done].
  intros h1 rendered1 (Hs & Hr1 & Hthis & Hkeep). eapply safe_mono, IH; [|intros; eapply offered_later, Ho; [done|by right]|done].
  intros h2 rendered2 (Hs2 & Hr2 & Hkeep2 & Hall). split_and!; [by etrans|done| |].
  - intros grn [Hne Hin]%not_elem_of_cons. rewrite Hkeep2, Hkeep by done. done.
  - cbn. intros [Hnin Hnd]%NoDup_cons a [->|Ha]%elem_of_cons; [|by apply Hall].
    destruct Hthis as [Hu|Hf]; [left|right; by eapply refused_later].
    unfold up_to_date. by rewrite Hkeep2.
Qed.

(** What a loop holds between its turns. *)
Definition holds h p : Prop :=
  remembers h (pull_rendered p) ∧ transientFirst ≤ pull_backoff p ≤ transientLast ∧
  (pull_cursor p ≠ "" → ∃ after wait answer, asked h (AskDesired after wait) (Ok answer) ∧ Answer_Cursor answer = pull_cursor p).

(** Where a turn was answered, its agents are all accounted for. *)
Definition accounted h p : Prop :=
  ∃ after wait answer, asked h (AskDesired after wait) (Ok answer) ∧ pull_cursor p = Answer_Cursor answer ∧
  (NoDup (Agent_GRN <$> Answer_Agents answer) →
    ∀ agent, agent ∈ Answer_Agents answer → up_to_date (pull_rendered p) agent ∨ refused h agent).

Lemma holds_later h h' p p' :
  h `suffix_of` h' → holds h p → pull_rendered p' = pull_rendered p → pull_cursor p' = pull_cursor p →
  transientFirst ≤ pull_backoff p' ≤ transientLast → holds h' p'.
Proof.
  intros Hs (Hr & _ & Hc) Er Ec Hb. split_and!; [rewrite Er; by eapply remembers_later|lia..|].
  rewrite Ec. intros (after & wait & answer & ? & ?)%Hc. exists after, wait, answer. eauto with later.
Qed.

Lemma next_backoff_range b :
  transientFirst ≤ b ≤ transientLast → transientFirst ≤ next_backoff b ≤ transientLast.
Proof. unfold next_backoff, transientFirst, transientLast, Second. lia. Qed.

Lemma turn_spec p h :
  holds h p →
  safe pull_call (λ h' x, match x with
  | Some p' => holds h' p' ∧ (pull_cursor p' = pull_cursor p ∧ pull_rendered p' = pull_rendered p ∨ accounted h' p')
  | None => True
  end) h (turn recoveries p).
Proof.
  intros Hp. unfold turn, log. cbn. split; [done|]. intros [|]; [done|]. cbn. split.
  { destruct Hp as (_ & _ & Hc). case_decide as Hd; [by rewrite bool_decide_true|].
    rewrite bool_decide_false by done. split; [done|]. destruct (Hc Hd) as (after & wait & answer & ? & ?).
    exists after, wait, answer. split; [|done]. eauto with later. }
  set (wait := if bool_decide _ then _ else _). intros [answer|err].
  - cbn. split; [done|]. intros []. 
    set (h1 := Ev _ _ :: h). set (h2 := Ev _ (Ok answer) :: h1).
    assert (asked h2 (AskDesired (pull_cursor p) wait) (Ok answer)) as Hanswer by (by apply elem_of_cons; left).
    assert (∀ h', h2 `suffix_of` h' →
      safe pull_call (λ h' x, match x with
      | Some p' => holds h' p' ∧ (pull_cursor p' = pull_cursor p ∧ pull_rendered p' = pull_rendered p ∨ accounted h' p')
      | None => True end) h'
      (rendered ← apply_all (Answer_Agents answer) (pull_rendered p);
      mret (Some (mkPuller (Answer_Cursor answer) transientFirst "" rendered)))) as Happly.
    { intros h' Hs. rewrite safe_bind. eapply safe_mono, apply_all_spec.
    - intros h3 rendered (Hs3 & Hr & _ & Hall).
      assert (asked h3 (AskDesired (pull_cursor p) wait) (Ok answer)) as Hanswer3
        by (eapply asked_later, Hanswer; by etrans).
      split; [|right; by exists (pull_cursor p), wait, answer]. split_and!; [done|done|done|].
      intros _. by exists (pull_cursor p), wait, answer.
    - intros agent Ha. exists (pull_cursor p), wait, answer. split; [by eapply asked_later|done].
    - eapply remembers_later, (proj1 Hp). etrans; [|exact Hs]. by eexists [_; _]. }
    unfold offerRecoveries. destruct recoveries; cbn.
    + split; [|intros []; apply Happly; by eexists [_; _]]. exists (pull_cursor p), wait, answer.
      split; [|done]. eapply asked_later, Hanswer. by eexists [_].
    + apply Happly. by eexists [_].
  - cbn. split; [done|]. intros [|]; [done|]. cbn. destruct (asRefusal err) as [[status kind]|]; cbn.
    + split; [done|]. intros []. destruct (negb _); cbn.
      all: repeat (split; [by (done || by right)|]; intros []; cbn).
      all: split; [|by left]; eapply holds_later; [|exact Hp|done..|apply Hp].
      1: by eexists [_; _; _; _; _; _]. by eexists [_; _; _; _; _].
    + split; [done|]. intros []. cbn. split; [left; apply Hp|]. intros []. cbn. split; [|by left].
      eapply holds_later; [|exact Hp|done..|apply next_backoff_range, Hp]. by eexists [_; _; _; _; _].
Qed.

Lemma accounted_later h h' p p' :
  h `suffix_of` h' → accounted h p → pull_cursor p' = pull_cursor p → pull_rendered p' = pull_rendered p → accounted h' p'.
Proof.
  intros Hs (after & wait & answer & Ha & Hc & Hall) Ec Er. exists after, wait, answer. rewrite Ec, Er.
  split_and!; [eauto with later|done|]. intros Hnd agent Hin. destruct (Hall Hnd agent Hin) as [?|?]; [by left|right].
  by eapply refused_later.
Qed.

Lemma Start_spec n p h :
  holds h p → (pull_cursor p = "" ∧ pull_rendered p = ∅ ∨ accounted h p) →
  safe pull_call (λ h' x, ∀ p', x = Some p' →
    holds h' p' ∧ (pull_cursor p' = "" ∧ pull_rendered p' = ∅ ∨ accounted h' p')) h (Start recoveries n p).
Proof.
  revert p h. induction n as [|n IH]; intros p h Hp Hc; cbn [Start].
  { cbn. by intros ? [= <-]. }
  rewrite safe_bind. eapply safe_mono; [|eapply safe_suffix, turn_spec, Hp].
  intros h' [p'|]; [intros [Hs [Hp' Hkept]]|done]. apply IH; [done|].
  destruct Hkept as [[Ec Er]|Hacc]; [|by right]. rewrite Ec, Er.
  destruct Hc as [Hc|Hacc]; [by left|right]. by eapply accounted_later.
Qed.

Lemma holds_new : holds [] NewPuller.
Proof. split_and!; try done. Qed.

(** C24: Whatever the control service and the cluster answer, over any number of turns: the loop reports a revision of an
agent only after rendering that agent as an answer of the feed gave it, remembers only what was rendered and
whose report was taken, waits within its bounds, and asks after no cursor but its last answer's; and each agent
of that answer, named once, is at the revision and the stop it was answered with, or was refused when it was
rendered or reported. *)
Theorem pull_loop_sound n :
  safe pull_call (λ h x, ∀ p, x = Some p →
    remembers h (pull_rendered p) ∧ transientFirst ≤ pull_backoff p ≤ transientLast ∧
    (pull_cursor p = "" ∧ pull_rendered p = ∅ ∨ accounted h p)) [] (Start recoveries n NewPuller).
Proof.
  eapply safe_mono, Start_spec; [|apply holds_new|by left].
  intros h x Hx p Hp. destruct (Hx p Hp) as [(? & ? & _) ?]. done.
Qed.
End spec.
End PullerSpec.
