(* ===== verification/Console.v ===== *)
(** The console's routes ([src/internal/console/*.go]): each is served only under an operation authority garam
    introspects for it, bound to the organization, the operation, the target and the body; and the one place an
    error becomes an answer. *)
From S2P Require Import Prelude GoStd Json JsonText Errors Types Validation Repository Service Distribution.
From Stdlib Require Import Ascii.
Import GoStd Json JsonText Validation.

Module Console.

(** ** console.go, lifecycle.go, introspector.go *)
Definition Authority := string.
#[global] Typeclasses Transparent Authority.

Definition OperationConfigure := "agent:configure".
Definition OperationCreate := "agent:create".
Definition OperationTemplateRead := "agent-template:read".
Definition OperationTemplatePublish := "agent-template:publish".
Definition OperationProfileRead := "execution-profile:read".
Definition OperationExecutionRead := "agent:execution-read".
Definition OperationOperatorRead := "operator:read".
Definition OperationRecover := "agent:recover".

(** The [Binding] of package console: what an authority binds, as garam answers it. *)
Record Introspected := mkIntrospected {
  Bound_OperationRef : string;
  Bound_Org : string;
  Bound_Actor : string;
  Bound_Audience : string;
  Bound_Operation : string;
  Bound_Target : string;
  Bound_Assignment : option Assignment;
  Bound_RequestID : string;
  Bound_BodySHA256 : string;
  Bound_RequestTarget : string;
  Bound_ExpiresAt : Time;
}.

(** The interfaces [Introspector] and [Lifecycle], and what the server reads and writes of its own. *)
Inductive consoleE : Type → Type :=
| Introspect (authority : Authority) : consoleE (result Introspected)
| Recover (agent : string) (handoff : Authority) (body : string) : consoleE (result RecoveredCredential)
| Deactivate (agent activationID : string) : consoleE (result ())
| Now : consoleE Time
| LogFailure (message : string) (attributes : list (string * string)) : consoleE ().

(** ** Requests *)

(** A request: what its path names, its raw target, the headers the routes read, and its body, [None] where it
    cannot be read. *)
Record httpRequest := mkHttp {
  http_method : string;
  http_org : string;
  http_agent : string;
  http_name : string;
  http_version : string;
  http_uri : string;
  http_authorization : string;
  http_origin : string;
  http_preflight : string;
  http_body : option string;
}.

Definition maxBodyBytes : Z := 1048576.
Definition read_body (r : httpRequest) : option string :=
  body ← http_body r; if bool_decide (Z.of_nat (String.length body) ≤ maxBodyBytes) then Some body else None.

(** *** Bodies *)
Definition strict {T} (fields : list (field T)) (zero : T) (body : string) : option T :=
  decode_one (into_struct true fields) zero body.

Definition versionRef_fields {T} (name : T → string) (version : T → Z) (make : string → Z → T) : list (field T) :=
  [at_field "name" into_string name (λ r s, make s (version r));
   at_field "version" into_int64 version (λ r v, make (name r) v)].
Definition profileRef_fields := versionRef_fields ProfileRef_Name ProfileRef_Version mkProfileRef.
Definition templateRef_fields := versionRef_fields TemplateRef_Name TemplateRef_Version mkTemplateRef.

Definition embedding_fields : list (field Embedding) :=
  [at_field "baseUrl" into_string Embedding_BaseURL (λ e s, mkEmbedding s (Embedding_Name e) (Embedding_APIKey e));
   at_field "name" into_string Embedding_Name (λ e s, mkEmbedding (Embedding_BaseURL e) s (Embedding_APIKey e));
   at_field "apiKeyRef" into_string Embedding_APIKey (λ e s, mkEmbedding (Embedding_BaseURL e) (Embedding_Name e) s)].
Definition model_fields : list (field Model) :=
  [at_field "provider" into_string Model_Provider (λ m s,
     mkModel s (Model_BaseURL m) (Model_Name m) (Model_APIKey m) (Model_Embedding m));
   at_field "baseUrl" into_string Model_BaseURL (λ m s,
     mkModel (Model_Provider m) s (Model_Name m) (Model_APIKey m) (Model_Embedding m));
   at_field "name" into_string Model_Name (λ m s,
     mkModel (Model_Provider m) (Model_BaseURL m) s (Model_APIKey m) (Model_Embedding m));
   at_field "apiKeyRef" into_string Model_APIKey (λ m s,
     mkModel (Model_Provider m) (Model_BaseURL m) (Model_Name m) s (Model_Embedding m));
   at_field "embedding" (into_pointer (mkEmbedding "" "" "") (into_struct true embedding_fields)) Model_Embedding (λ m e,
     mkModel (Model_Provider m) (Model_BaseURL m) (Model_Name m) (Model_APIKey m) e)].
Definition configuration_fields : list (field Configuration) :=
  [at_field "model" (into_struct true model_fields) Configuration_Model (λ c m,
     mkConfiguration m (Configuration_Ego c) (Configuration_Tools c));
   at_field "ego" into_string Configuration_Ego (λ c s,
     mkConfiguration (Configuration_Model c) s (Configuration_Tools c));
   at_field "tools" into_map Configuration_Tools (λ c t,
     mkConfiguration (Configuration_Model c) (Configuration_Ego c) t)].
Definition zeroConfiguration : Configuration := mkConfiguration zeroModel "" ∅.
Definition zeroProfileRef : ProfileRef := mkProfileRef "" 0.

Record configureRequest := mkConfigureRequest {
  configure_RequestID : string;
  configure_ExpectedRevision : string;
  configure_Profile : ProfileRef;
  configure_Configuration : Configuration;
}.
Definition configureRequest_fields : list (field configureRequest) :=
  [at_field "requestId" into_string configure_RequestID (λ r s,
     mkConfigureRequest s (configure_ExpectedRevision r) (configure_Profile r) (configure_Configuration r));
   at_field "expectedRevision" into_string configure_ExpectedRevision (λ r s,
     mkConfigureRequest (configure_RequestID r) s (configure_Profile r) (configure_Configuration r));
   at_field "profile" (into_struct true profileRef_fields) configure_Profile (λ r p,
     mkConfigureRequest (configure_RequestID r) (configure_ExpectedRevision r) p (configure_Configuration r));
   at_field "configuration" (into_struct true configuration_fields) configure_Configuration (λ r c,
     mkConfigureRequest (configure_RequestID r) (configure_ExpectedRevision r) (configure_Profile r) c)].

Definition parseConfigure (body : string) : result (configureRequest * Revision) :=
  match strict configureRequest_fields (mkConfigureRequest "" "" zeroProfileRef zeroConfiguration) body with
  | None => Err errInvalidBody
  | Some i =>
      if bool_decide (configure_RequestID i = "") then Err errInvalidBody
      else match ParseRevision (configure_ExpectedRevision i) with
      | Err _ => Err errInvalidBody
      | Ok expected => Ok (i, expected)
      end
  end.

Record publishRequest := mkPublishRequest {
  publish_RequestID : string;
  publish_Profile : ProfileRef;
  publish_Configuration : Configuration;
}.
Definition publishRequest_fields : list (field publishRequest) :=
  [at_field "requestId" into_string publish_RequestID (λ r s,
     mkPublishRequest s (publish_Profile r) (publish_Configuration r));
   at_field "profile" (into_struct true profileRef_fields) publish_Profile (λ r p,
     mkPublishRequest (publish_RequestID r) p (publish_Configuration r));
   at_field "configuration" (into_struct true configuration_fields) publish_Configuration (λ r c,
     mkPublishRequest (publish_RequestID r) (publish_Profile r) c)].

Record createRequest := mkCreateRequest {
  create_RequestID : string;
  create_Controller : string;
  create_Template : TemplateRef;
  create_Profile : ProfileRef;
}.
Definition createRequest_fields : list (field createRequest) :=
  [at_field "requestId" into_string create_RequestID (λ r s,
     mkCreateRequest s (create_Controller r) (create_Template r) (create_Profile r));
   at_field "controller" into_string create_Controller (λ r s,
     mkCreateRequest (create_RequestID r) s (create_Template r) (create_Profile r));
   at_field "template" (into_struct true templateRef_fields) create_Template (λ r t,
     mkCreateRequest (create_RequestID r) (create_Controller r) t (create_Profile r));
   at_field "profile" (into_struct true profileRef_fields) create_Profile (λ r p,
     mkCreateRequest (create_RequestID r) (create_Controller r) (create_Template r) p)].
Definition parseCreate (body : string) : result createRequest :=
  match strict createRequest_fields (mkCreateRequest "" "" (mkTemplateRef "" 0) zeroProfileRef) body with
  | None => Err errInvalidBody
  | Some i =>
      if bool_decide (create_RequestID i = "") || bool_decide (create_Controller i = "") ||
         bool_decide (TemplateRef_Name (create_Template i) = "") || bool_decide (ProfileRef_Name (create_Profile i) = "")
      then Err errInvalidBody else Ok i
  end.

(** A stop's and a start's body. *)
Definition stopRequest_fields : list (field string) := [at_field "requestId" into_string id (λ _ s, s)].
(** [openRecoveryRequest]'s and [finalizeRequest]'s two strings. *)
Definition pair_fields (first second : string) : list (field (string * string)) :=
  [at_field first into_string fst (λ p s, (s, p.2)); at_field second into_string snd (λ p s, (p.1, s))].
Definition openRecoveryRequest_fields := pair_fields "requestId" "recoveryRequestId".
Definition finalizeRequest_fields := pair_fields "requestId" "epoch".

(** [^[A-Za-z0-9._~-]{1,128}$]. *)
Definition garamRequestID : string → bool := Distribution.requestIDPattern.

(** [parseVersion]. *)
Definition parseVersion (s : string) : result Version :=
  match s with
  | EmptyString => Err ErrNotFound
  | String c _ =>
      if bool_decide (c = "0"%char) || negb (string_forall is_digit s) then Err ErrNotFound
      else match ParseInt s with Some n => Ok n | None => Err ErrNotFound end
  end.

(** ** Answers *)
Record response := mkResponse {
  response_status : Z;
  response_headers : list (string * string);
  response_body : string;
}.
Definition writeJSON (status : Z) (j : json) : response :=
  mkResponse status [("Content-Type", "application/json")] (Encoded j).
Definition errorBody : string → string → json := Distribution.errorBody.
Definition writeMessage (status : Z) (message : string) : response := writeJSON status (errorBody "" message).

Definition kindInvalidAPIKeyRef := "invalid_api_key_ref".
Definition kindEmbeddingRequired := "embedding_required".
Definition kindEmbeddingImmutable := "embedding_immutable".
Definition kindGaramContractUnsupported := "garam_contract_unsupported".
Definition kindRecoveryOpen := "recovery_open".
Definition kindRecoveryStage := "recovery_stage".
Definition kindRecoveryMismatch := "recovery_mismatch".
Definition kindAgentStopped := "agent_stopped".
Definition kindAgentNotStopped := "agent_not_stopped".

(** [errors.As] for the two error types of the package. *)
Definition as_lifecycle : error → option (Z * string * string) :=
  errors_as (λ e, match e with LifecycleRefusal status kind message => Some (status, kind, message) | _ => None end).
Definition as_mismatch (e : error) : bool :=
  bool_decide (is_Some (errors_as (λ e, match e with MismatchError _ => Some () | _ => None end) e)).

(** The answer an error has of its own; any other is logged and answered 500, as is a refusal of garam under a
    status [http.ResponseWriter] takes for no status, at which [WriteHeader] panics. *)
Definition refusal (err : error) : option response :=
  let has s := errors_is err s in
  let kinded status kind := Some (writeJSON status (errorBody kind (error_text err))) in
  let plain status := Some (writeMessage status (error_text err)) in
  match as_lifecycle err with
  | Some (status, kind, message) =>
      if bool_decide (100 ≤ status ≤ 999) then Some (writeJSON status (errorBody kind message)) else None
  | None =>
      if has ErrLifecycleUndecided then plain 503
      else if has ErrRecoveryOpen then kinded 409 kindRecoveryOpen
      else if has ErrRecoveryStage then kinded 409 kindRecoveryStage
      else if has ErrRecoveryMismatch then kinded 409 kindRecoveryMismatch
      else if has ErrAgentStopped then kinded 409 kindAgentStopped
      else if has ErrAgentNotStopped then kinded 409 kindAgentNotStopped
      else if has ErrNoAuthority then
        Some (mkResponse 401 [("WWW-Authenticate", "Garam-Operation"); ("Content-Type", "application/json")]
                (Encoded (errorBody "" (error_text err))))
      else if has ErrAuthorityUnknown then plain 401
      else if has ErrAuthorityForbidden || has ErrDigestMismatch || as_mismatch err then plain 403
      else if has ErrAuthorityUndecided then plain 503
      else if has errInvalidBody || has errInvalidPublish then plain 400
      else if has ErrInvalidSecretRef then kinded 400 kindInvalidAPIKeyRef
      else if has ErrEmbeddingRequired then kinded 400 kindEmbeddingRequired
      else if has ErrEmbeddingImmutable then kinded 409 kindEmbeddingImmutable
      else if has ErrNotFound then plain 404
      else if has ErrStaleRevision || has ErrRequestReused || has ErrRegistrationConflict || has ErrAssignmentMoved
      then plain 409
      else if has ErrRegistrationRefused then plain 403
      else if has ErrRegistrationUndecided then plain 503
      else if has ErrAuthorityContractUnsupported || has ErrGaramContractUnsupported
      then kinded 503 kindGaramContractUnsupported
      else None
  end.
(** What a failed request is logged as. *)
Definition panicked (err : error) : bool := Distribution.is_panic err || bool_decide (is_Some (as_lifecycle err)).

(** *** What the routes answer *)
Definition string_json (s : option string) : json := from_option JString JNull s.
Definition versionRef_json (name : string) (version : Z) : json :=
  JObject [("name", JString name); ("version", JNumber (FormatInt version))].
Definition stage_text := Distribution.stage_text.

Definition recoveryAnswerOf (r : Recovery) : json :=
  let body := if bool_decide (Recovery_Body r = "") then None else Some (Recovery_Body r) in
  JObject ([("agent", JString (Recovery_Agent r)); ("recoveryRequestId", JString (Recovery_RequestID r));
            ("epoch", JString (Recovery_Epoch r)); ("stage", JString (stage_text (Recovery_Stage r)));
            ("body", string_json body);
            ("bodySha256", string_json ((λ b, EncodeToString (Sum256 (bytes_of b))) <$> body))] ++
           Distribution.optional "lineage" (JString ∘ Recovered_Lineage <$> Recovery_Recovered r)).

Definition stopAnswerOf (s : Stop) : json :=
  let id := Stop_ActivationID s in
  JObject [("agent", JString (Stop_Agent s)); ("stopped", JBool (bool_decide (Stop_Start s = None)));
           ("activationId", if bool_decide (id = "") then JNull else JString id);
           ("deactivated", JBool (Stop_Deactivated s || bool_decide (id = "")))].

Definition configurationOf : Configuration → json := Distribution.configuration_json.

(** *** cors.go *)
Definition corsAllowMethods := "GET, POST, PUT".
Definition corsAllowHeaders := "Authorization, Content-Type, Garam-Contract-Version".
Definition corsMaxAge : Z := 600.

(** What an authority may stand for: the operation on which target, in which organization, on which route. *)
Record target := mkTarget { target_org : string; target_operation : string; target_grn : string; target_request : string }.

Definition orgGRNPrefix := "grn:root:default:org:".
Definition authorizationScheme := "Garam-Operation ".

(** What an authority binds, as the store keeps it with the request. *)
Definition bindingOf (b : Introspected) : Binding :=
  mkBinding (Bound_Actor b) (Bound_Operation b) (Bound_Target b) (Bound_BodySHA256 b) (Bound_OperationRef b)
    (default (mkAssignment "" "") (Bound_Assignment b)).

(** The check of [authorizeHeader], every field in its order, the digest last. *)
Definition Binding_check (audience : string) (now : Time) (body : string) (want : target) (b : Introspected) : result () :=
  if negb (bool_decide (now < Bound_ExpiresAt b)) then Err ErrAuthorityUnknown
  else if negb (bool_decide (Bound_Audience b = audience)) then Err (MismatchError "audience")
  else if negb (bool_decide (Bound_Org b = orgGRNPrefix +:+ target_org want)) then Err (MismatchError "organization")
  else if negb (bool_decide (Bound_Operation b = target_operation want)) then Err (MismatchError "operation")
  else if negb (bool_decide (target_grn want = "")) && negb (bool_decide (Bound_Target b = target_grn want))
  then Err (MismatchError "target")
  else if (bool_decide (Bound_Operation b = OperationConfigure) || bool_decide (Bound_Operation b = OperationExecutionRead) ||
           bool_decide (Bound_Operation b = OperationRecover)) && bool_decide (Bound_Assignment b = None)
  then Err (MismatchError "assignment")
  else if negb (bool_decide (target_request want = "")) && negb (bool_decide (Bound_RequestTarget b = target_request want))
  then Err (MismatchError "request target")
  else if negb (bool_decide (EncodeToString (Sum256 (bytes_of body)) = Bound_BodySHA256 b)) then Err ErrDigestMismatch
  else Ok tt.

Definition requestKey (r : httpRequest) (b : Introspected) : RequestKey := mkRequestKey (http_org r) (Bound_RequestID b).
Definition orgGRN (r : httpRequest) : string := orgGRNPrefix +:+ http_org r.

Section server.
Context `{K8s : Kubernetes, SE : !SemanticEquality, RJ : !Distribution.ResourcesJSON}.
Context {E : Type → Type} `{!SubEvent repoE E, !SubEvent registrarE E, !SubEvent consoleE E}.
(** The audience and the origins of the server's configuration, and how [time.Time] prints itself. *)
Context (audience : string) (origins : list string) (time_json : Time → json).

Definition respondError (err : error) : prog E response :=
  match refusal err with
  | Some answer => mret answer
  | None =>
    _ ← call (LogFailure (if panicked err then "console handler panicked" else "console request failed")
      [("error", error_text err)]);
    mret (writeMessage 500 "internal error")
  end.

Definition respond (p : prog E (result response)) : prog E response :=
  r ← p;
  match r with
  | Ok answer => mret answer
  | Err err => respondError err
  end.

(** ** authorize.go *)
Definition authorizeHeader (header body : string) (want : target) : prog E (result Introspected) :=
  match CutPrefix header authorizationScheme with
  | None | Some EmptyString => mret (Err ErrNoAuthority)
  | Some authority =>
    b ←? call (Introspect authority);
    now ← call Now;
    _ ←? lift (Binding_check audience now body want b);
    mret (Ok b)
  end.
Definition authorize (r : httpRequest) (body : string) (want : target) : prog E (result Introspected) :=
  authorizeHeader (http_authorization r) body want.

(** What each route of a bound body begins with: the body read, and the request authorized for it. *)
Definition authorized_body (r : httpRequest) (operation grn request : string) : prog E (result (Introspected * string)) :=
  match read_body r with
  | None => mret (Err errInvalidBody)
  | Some body =>
    b ←? authorize r body (mkTarget (http_org r) operation grn request);
    mret (Ok (b, body))
  end.

(** [authorized], bound to the raw target the request arrived with. *)
Definition authorized (r : httpRequest) (operation grn : string) : prog E (result (Introspected * string)) :=
  authorized_body r operation grn (http_uri r).

(** ** configure.go, create.go, publish.go *)
Definition configure (r : httpRequest) : prog E response :=
  respond (
    '(b, body) ←? authorized_body r OperationConfigure (http_agent r) "";
    '(i, expected) ←? lift (parseConfigure body);
    if negb (bool_decide (configure_RequestID i = Bound_RequestID b)) then mret (Err (MismatchError "request id"))
    else
    applied ←? Service.Configure (mkConfigureInput (requestKey r b) (bindingOf b) (http_agent r) expected
      (configure_Profile i) (configure_Configuration i));
    mret (Ok (writeJSON 200 (JObject [("agent", JString (http_agent r)); ("revision", JString (Revision_String applied))])))).

(** A creation's binding holds no assignment, as a publication's. *)
Definition unassigned (b : Introspected) : Binding :=
  mkBinding (Bound_Actor b) (Bound_Operation b) (Bound_Target b) (Bound_BodySHA256 b) (Bound_OperationRef b) (mkAssignment "" "").

Definition create (r : httpRequest) : prog E response :=
  respond (
    '(b, body) ←? authorized_body r OperationCreate "" "";
    i ←? lift (parseCreate body);
    if negb (bool_decide (create_RequestID i = Bound_RequestID b)) then mret (Err (MismatchError "request id"))
    else if negb (bool_decide (create_Controller i = Bound_Target b)) then mret (Err (MismatchError "target"))
    else
    '(c, first) ←? Service.CreateAgent (mkCreateInput (requestKey r b) (unassigned b) (create_Controller i)
      (create_Template i) (create_Profile i));
    match Creation_Outcome c with
    | RegisteredAs outcome =>
      mret (Ok (writeJSON (if (first : bool) then 201 else 200)
        (JObject [("agent", JString (Registered_Agent outcome)); ("revision", JString (Revision_String 1));
          ("epoch", JString (Registered_Epoch outcome))])))
    | Failed reason conflict =>
      mret (Err (Wrapf "" (if conflict then ErrRegistrationConflict else ErrRegistrationRefused) (": " +:+ reason)))
    | Pending => mret (Err (Errorf ("creation " +:+ Bound_RequestID b +:+ " answered as definition.Pending")))
    end).

Definition publish (r : httpRequest) : prog E response :=
  respond (
    '(b, body) ←? authorized r OperationTemplatePublish (orgGRN r);
    match strict publishRequest_fields (mkPublishRequest "" zeroProfileRef zeroConfiguration) body with
    | None => mret (Err errInvalidPublish)
    | Some i =>
      if bool_decide (publish_RequestID i = "") then mret (Err errInvalidPublish)
      else if negb (bool_decide (publish_RequestID i = Bound_RequestID b)) then mret (Err (MismatchError "request id"))
      else
      '(p, created) ←? Service.Publish (mkPublishInput (requestKey r b) (unassigned b)
        (mkTemplate (http_name r) 0 (publish_Profile i) (publish_Configuration i)));
      mret (Ok (writeJSON (if (created : bool) then 201 else 200)
        (versionRef_json (TemplateRef_Name (Publication_Template p)) (TemplateRef_Version (Publication_Template p)))))
    end).

(** ** read.go *)
Definition listTemplates (r : httpRequest) : prog E response :=
  respond (
    _ ←? authorized r OperationTemplateRead (orgGRN r);
    templates ←? Service.ListTemplates (http_org r);
    mret (Ok (writeJSON 200 (JObject [("templates", JArray ((λ t,
      JObject [("name", JString (Template_Name t)); ("version", JNumber (FormatInt (Template_Version t)));
        ("profile", versionRef_json (ProfileRef_Name (Template_Profile t))
          (ProfileRef_Version (Template_Profile t)))]) <$> templates))])))).

Definition getTemplate (r : httpRequest) : prog E response :=
  respond (
    _ ←? authorized r OperationTemplateRead (orgGRN r);
    version ←? lift (parseVersion (http_version r));
    t ←? Service.GetTemplate (http_org r) (mkTemplateRef (http_name r) version);
    mret (Ok (writeJSON 200 (JObject
      [("name", JString (Template_Name t)); ("version", JNumber (FormatInt (Template_Version t)));
        ("profile", versionRef_json (ProfileRef_Name (Template_Profile t)) (ProfileRef_Version (Template_Profile t)));
        ("configuration", configurationOf (Template_Config t))])))).

Definition listProfiles (r : httpRequest) : prog E response :=
  respond (
    _ ←? authorized r OperationProfileRead (orgGRN r);
    refs ←? Service.ListProfiles (http_org r);
    mret (Ok (writeJSON 200 (JObject [("profiles", JArray ((λ ref,
      versionRef_json (ProfileRef_Name ref) (ProfileRef_Version ref)) <$> refs))])))).

Definition getProfile (r : httpRequest) : prog E response :=
  respond (
    _ ←? authorized r OperationProfileRead (orgGRN r);
    version ←? lift (parseVersion (http_version r));
    p ←? Service.GetProfile (http_org r) (mkProfileRef (http_name r) version);
    mret (Ok (writeJSON 200 (Distribution.profile_json (mkProfileRef (Profile_Name p) (Profile_Version p)) (Profile_Settings p))))).

Definition execution (r : httpRequest) : prog E response :=
  respond (
    _ ←? authorized r OperationExecutionRead (http_agent r);
    e ←? Service.Execution (http_org r) (http_agent r);
    mret (Ok (writeJSON 200 (JObject
      [("desired", JObject [("revision", JString (Revision_String (Execution_Desired e)));
        ("pending", JBool (bool_decide (Execution_Rendered e < Execution_Desired e)))]);
        ("rendered", if bool_decide (Execution_Rendered e > 0)
          then JObject [("revision", JString (Revision_String (Execution_Rendered e)))] else JNull);
        ("effective", from_option (λ f, JObject
          [("revision", JString (Revision_String (Effective_Revision f)));
            ("generation", JString (Effective_Generation f));
            ("observedAt", time_json (Effective_ObservedAt f))]) JNull (Execution_Effective e))])))).

Definition listOperators (r : httpRequest) : prog E response :=
  respond (
    _ ←? authorized r OperationOperatorRead (orgGRN r);
    operators ←? Service.ListOperators (orgGRN r);
    mret (Ok (writeJSON 200 (JObject [("operators", JArray ((λ o, JObject (
      [("grn", JString (Operator_GRN o));
        ("images", JArray ((λ image, JObject ([("name", JString (OperatorImage_Name image));
          ("ref", JString (OperatorImage_Ref image))] ++
          Distribution.optional "digest" (JString <$> OperatorImage_Digest image))) <$> Operator_Images o))] ++
      Distribution.optional "reportedAt" (time_json <$> Operator_ReportedAt o) ++
      Distribution.optional "lastContactAt" (time_json <$> Operator_LastContactAt o))) <$> operators))])))).

(** ** recovery.go *)
Definition openRecovery (r : httpRequest) : prog E response :=
  respond (
    '(b, body) ←? authorized_body r OperationRecover (http_agent r) "";
    match strict openRecoveryRequest_fields ("", "") body with
    | None => mret (Err errInvalidBody)
    | Some (requestID, recoveryRequestID) =>
      if bool_decide (requestID = "") || negb (garamRequestID recoveryRequestID) then mret (Err errInvalidBody)
      else if negb (bool_decide (requestID = Bound_RequestID b)) then mret (Err (MismatchError "request id"))
      else
      '(opened, first) ←? Service.OpenRecovery (mkOpenRecoveryInput (requestKey r b) (bindingOf b) (http_agent r)
        recoveryRequestID);
      mret (Ok (writeJSON (if (first : bool) then 201 else 200) (recoveryAnswerOf opened)))
    end).

Definition getRecovery (r : httpRequest) : prog E response :=
  respond (
    _ ←? authorized r OperationExecutionRead (http_agent r);
    recovery ←? Service.RecoveryOf (http_org r) (http_agent r);
    mret (Ok (writeJSON 200 (recoveryAnswerOf recovery)))).

Definition finalizeRecovery (r : httpRequest) : prog E response :=
  respond (
    '(b, body) ←? authorized_body r OperationRecover (http_agent r) "";
    match strict finalizeRequest_fields ("", "") body with
    | None => mret (Err errInvalidBody)
    | Some (requestID, _) =>
      if bool_decide (requestID = "") then mret (Err errInvalidBody)
      else if negb (bool_decide (requestID = Bound_RequestID b)) then mret (Err (MismatchError "request id"))
      else
      recovery ←? Service.RecoveryOf (http_org r) (http_agent r);
      if negb (bool_decide (Recovery_RequestID recovery = requestID)) then mret (Err ErrNotFound)
      else if bool_decide (Recovery_Stage recovery = RecoveryRequested) then mret (Err ErrRecoveryStage)
      else if negb (bool_decide (Recovery_Body recovery = body)) then mret (Err ErrRecoveryMismatch)
      else if bool_decide (Recovery_Stage recovery = RecoveryFinalized)
      then mret (Ok (writeJSON 200 (recoveryAnswerOf recovery)))
      else
      let handoff := default (http_authorization r) (CutPrefix (http_authorization r) authorizationScheme) in
      recovered ←? call (Recover (http_agent r) handoff body);
      finalized ←? Service.FinalizeRecovery (http_agent r) requestID recovered;
      mret (Ok (writeJSON 201 (recoveryAnswerOf finalized)))
    end).

(** ** stop.go *)
Definition stopInput (r : httpRequest) : prog E (result StopInput) :=
  '(b, body) ←? authorized_body r OperationConfigure (http_agent r) "";
  match strict stopRequest_fields "" body with
  | None => mret (Err errInvalidBody)
  | Some requestID =>
    if bool_decide (requestID = "") then mret (Err errInvalidBody)
    else if negb (bool_decide (requestID = Bound_RequestID b)) then mret (Err (MismatchError "request id"))
    else mret (Ok (mkStopInput (requestKey r b) (bindingOf b) (http_agent r)))
  end.

Definition stop (r : httpRequest) : prog E response :=
  respond (
    input ←? stopInput r;
    '(stop, _) ←? Service.Stop input;
    if bool_decide (Stop_Start stop = None) && negb (Stop_Deactivated stop) && negb (bool_decide (Stop_ActivationID stop = ""))
    then
    _ ←? call (Deactivate (StopInput_Agent input) (Stop_ActivationID stop));
    _ ←? Service.RecordDeactivation (StopInput_Key input);
    mret (Ok (writeJSON 200 (stopAnswerOf (mkStop (Stop_Agent stop) (Stop_Key stop) (Stop_Binding stop)
      (Stop_ActivationID stop) true (Stop_Start stop)))))
    else mret (Ok (writeJSON 200 (stopAnswerOf stop)))).

Definition start (r : httpRequest) : prog E response :=
  respond (
    input ←? stopInput r;
    stop ←? Service.Start input;
    mret (Ok (writeJSON 200 (stopAnswerOf stop)))).

(** ** server.go *)
Inductive route :=
| CreateRoute | ConfigureRoute | TemplatesRoute | TemplateRoute | PublishRoute | ProfilesRoute | ProfileRoute
| ExecutionRoute | OperatorsRoute | OpenRecoveryRoute | RecoveryRoute | FinalizeRoute | StopRoute | StartRoute.

Definition serve (route : route) : httpRequest → prog E response :=
  match route with
  | CreateRoute => create | ConfigureRoute => configure
  | TemplatesRoute => listTemplates | TemplateRoute => getTemplate | PublishRoute => publish
  | ProfilesRoute => listProfiles | ProfileRoute => getProfile
  | ExecutionRoute => execution | OperatorsRoute => listOperators
  | OpenRecoveryRoute => openRecovery | RecoveryRoute => getRecovery | FinalizeRoute => finalizeRecovery
  | StopRoute => stop | StartRoute => start
  end.

(** [cors], around the routes. *)
Definition cors (next : httpRequest → prog E response) (r : httpRequest) : prog E response :=
  let origin := http_origin r in
  let registered := bool_decide (origin ∈ origins) && negb (bool_decide (origin = "")) in
  let vary := match origins with [] => [] | _ => [("Vary", "Origin")] end in
  if bool_decide (http_method r = "OPTIONS") && negb (bool_decide (http_preflight r = "")) then
  if negb registered then mret (mkResponse 403 vary "")
  else mret (mkResponse 204 (vary ++ [("Access-Control-Allow-Origin", origin);
    ("Access-Control-Allow-Methods", corsAllowMethods); ("Access-Control-Allow-Headers", corsAllowHeaders);
    ("Access-Control-Max-Age", FormatInt corsMaxAge)]) "")
  else
  answer ← next r;
  mret (mkResponse (response_status answer)
    (vary ++ (if registered then [("Access-Control-Allow-Origin", origin)] else []) ++ response_headers answer)
    (response_body answer)).

Definition handler (route : route) (r : httpRequest) : prog E response := cors (serve route) r.
End server.
End Console.
