(* ===== verification/ConsoleSpec.v ===== *)
(** What the console's routes promise, whatever garam and the store answer: every call of the store and of garam is
    made under an operation authority garam introspected for this request, and carries what it binds; and garam
    finalizes a recovery and deactivates an activation only as the store holds them. *)
From S2P Require Import Prelude GoStd Json JsonText Errors Types Validation Repository Service Distribution Console.
From Stdlib Require Import Ascii.
Import GoStd Json JsonText Validation Console.

Module ConsoleSpec.

Section spec.
Context `{K8s : Kubernetes, SE : !SemanticEquality, RJ : !Distribution.ResourcesJSON}.
Context (audience : string) (origins : list string) (time_json : Time → json).
Context (r : httpRequest).
Abbreviation fullE := (repoE +' registrarE +' consoleE).
Abbreviation history := (list (event fullE)).
Implicit Types (h : history) (b : Introspected) (rt : route).

Definition stored {X} h (e : repoE X) (x : X) : Prop := Ev (InL (InL e)) x ∈ h.
Definition garam {X} h (e : consoleE X) (x : X) : Prop := Ev (InR e) x ∈ h.

(** The operation each route asks an authority for. *)
Definition operation_of rt : string :=
  match rt with
  | CreateRoute => OperationCreate
  | ConfigureRoute | StopRoute | StartRoute => OperationConfigure
  | TemplatesRoute | TemplateRoute => OperationTemplateRead
  | PublishRoute => OperationTemplatePublish
  | ProfilesRoute | ProfileRoute => OperationProfileRead
  | ExecutionRoute | RecoveryRoute => OperationExecutionRead
  | OperatorsRoute => OperationOperatorRead
  | OpenRecoveryRoute | FinalizeRoute => OperationRecover
  end.
(** The routes of one agent, and those an authority is bound to by their raw target. *)
Definition of_agent rt : bool :=
  match rt with
  | ConfigureRoute | StopRoute | StartRoute | ExecutionRoute | RecoveryRoute | OpenRecoveryRoute | FinalizeRoute => true
  | _ => false
  end.
Definition by_target rt : bool :=
  match rt with
  | TemplatesRoute | TemplateRoute | PublishRoute | ProfilesRoute | ProfileRoute | ExecutionRoute | OperatorsRoute
  | RecoveryRoute => true
  | _ => false
  end.
Definition target_of rt : string :=
  match rt with CreateRoute => "" | _ => if of_agent rt then http_agent r else orgGRN r end.

(** The authority stands for this request: read unexpired, for this service, organization, operation, target and
body, and for the route by its raw target where the route asks for that. *)
Definition binds rt b (now : Time) (body : string) : Prop :=
  now < Bound_ExpiresAt b ∧ Bound_Audience b = audience ∧ Bound_Org b = orgGRN r ∧ Bound_Operation b = operation_of rt ∧
  (target_of rt ≠ "" → Bound_Target b = target_of rt) ∧
  (operation_of rt = OperationConfigure ∨ operation_of rt = OperationExecutionRead ∨ operation_of rt = OperationRecover →
    is_Some (Bound_Assignment b)) ∧
  (by_target rt = true → http_uri r ≠ "" → Bound_RequestTarget b = http_uri r) ∧
  EncodeToString (Sum256 (bytes_of body)) = Bound_BodySHA256 b.

(** garam introspected the authority the request presents as one that stands for it. *)
Definition presented authority : Prop := http_authorization r = authorizationScheme +:+ authority ∧ authority ≠ "".
Definition bound rt h b : Prop :=
  ∃ authority now body, presented authority ∧ garam h (Introspect authority) (Ok b) ∧ garam h Now now ∧
  read_body r = Some body ∧ binds rt b now body.

(** What a call is made on, under an authority that binds rt [b]. *)
Definition store_call rt h b X (e : repoE X) : Prop :=
  match e with
  | GetTemplate org _ | GetProfile org _ | ListTemplates org | ListProfiles org => org = http_org r
  | ListOperators org => org = orgGRN r
  | GetDefinition agent | GetStatus agent | GetRuntimeApplied agent | LatestActivation agent | LatestRecovery agent
  | Lock agent | Unlock agent => of_agent rt = true ∧ agent = http_agent r
  | Configure request d =>
    rt = ConfigureRoute ∧ Request_Key request = requestKey r b ∧ Request_Binding request = bindingOf b ∧
    Request_Agent request = http_agent r ∧ Definition_Agent d = http_agent r ∧ Definition_Organization d = http_org r ∧
    Definition_Assignment d = Bound_Assignment b
  | PublishOnce p t =>
    rt = PublishRoute ∧ Publication_Key p = requestKey r b ∧ Publication_Binding p = unassigned b ∧
    Template_Name t = http_name r
  | BeginCreation c =>
    rt = CreateRoute ∧ Creation_Key c = requestKey r b ∧ Creation_Binding c = unassigned b ∧
    Creation_Controller c = Bound_Target b
  | RegisterCreation key d =>
    rt = CreateRoute ∧ key = requestKey r b ∧ Definition_Organization d = http_org r ∧
    Assignment_Operator <$> Definition_Assignment d = Some (Bound_Target b)
  | FailCreation key _ _ => rt = CreateRoute ∧ key = requestKey r b
  | OpenRecovery_ recovery =>
    rt = OpenRecoveryRoute ∧ Recovery_Key recovery = requestKey r b ∧ Recovery_Binding recovery = bindingOf b ∧
    Recovery_Agent recovery = http_agent r
  | FinalizeRecovery agent requestID recovered =>
    rt = FinalizeRoute ∧ agent = http_agent r ∧ requestID = Bound_RequestID b ∧
    ∃ handoff body, garam h (Recover agent handoff body) (Ok recovered)
  | RecordStop s =>
    rt = StopRoute ∧ Stop_Key s = requestKey r b ∧ Stop_Binding s = bindingOf b ∧ Stop_Agent s = http_agent r
  | RecordDeactivation key =>
    rt = StopRoute ∧ key = requestKey r b ∧ ∃ id, garam h (Deactivate (http_agent r) id) (Ok tt)
  | RecordStart agent end_ =>
    rt = StartRoute ∧ agent = http_agent r ∧ end_ = mkStopEnd (requestKey r b) (bindingOf b)
  | _ => False
  end.
Definition garam_call rt h b X (e : consoleE X) : Prop :=
  match e with
  | Recover agent handoff body =>
    rt = FinalizeRoute ∧ agent = http_agent r ∧ presented handoff ∧
    EncodeToString (Sum256 (bytes_of body)) = Bound_BodySHA256 b ∧
    ∃ recovery, stored h (LatestRecovery agent) (Ok recovery) ∧ Key_Organization (Recovery_Key recovery) = http_org r ∧
    Recovery_RequestID recovery = Bound_RequestID b ∧ Recovery_Stage recovery = RecoveryPrepared ∧
    Recovery_Body recovery = body
  | Deactivate agent id =>
    rt = StopRoute ∧ agent = http_agent r ∧ id ≠ "" ∧
    ∃ s stop first, stored h (RecordStop s) (Ok (stop, first)) ∧ Stop_Agent stop = agent ∧
    Stop_Binding stop = bindingOf b ∧ Stop_ActivationID stop = id ∧ Stop_Start stop = None
  | _ => False
  end.
Definition authorized_call rt h X (e : fullE X) : Prop :=
  match e with
  | InL (InL e) => ∃ b, bound rt h b ∧ store_call rt h b X e
  | InL (InR (Register reg)) => ∃ b, bound rt h b ∧ rt = CreateRoute ∧
    reg = mkRegistration (requestKey r b) (Bound_Target b) (Bound_OperationRef b)
  | InR (Introspect authority) => presented authority
  | InR Now | InR (LogFailure _ _) => True
  | InR e => ∃ b, bound rt h b ∧ garam_call rt h b _ e
  end.
Abbreviation proves rt h p := (safe (authorized_call rt) (λ _ _, True) h p).

(** ** The authority *)
Lemma CutPrefix_app s p t : CutPrefix s p = Some t → s = p +:+ t.
Proof.
  revert s. induction p as [|c p IH]; intros [|c' s]; cbn; try done; [by intros [= <-]|by intros [= <-]|].
  destruct (Ascii.eqb_spec c c') as [->|]; [|done]. intros ?%IH. by subst.
Qed.

Lemma CutPrefix_prefix p t : CutPrefix (p +:+ t) p = Some t.
Proof.
  induction p as [|c p IH]; [by destruct t|]. change (CutPrefix _ _) with (if Ascii.eqb c c then CutPrefix (p +:+ t) p else None).
  by rewrite Ascii.eqb_refl.
Qed.

Lemma bound_later rt h h' b : h `suffix_of` h' → bound rt h b → bound rt h' b.
Proof.
  intros [k ->] (authority & now & body & ? & ? & ? & ? & ?). exists authority, now, body.
  split_and!; try done; apply elem_of_app; by right.
Qed.

(** The target an authority is asked to bind on the route. *)
Definition wanted rt : target := mkTarget (http_org r) (operation_of rt) (target_of rt) (if by_target rt then http_uri r else "").

Lemma Binding_check_binds rt now body b : Binding_check audience now body (wanted rt) b = Ok tt → binds rt b now body.
Proof.
  unfold Binding_check, binds, wanted. cbn [target_org target_operation target_grn target_request].
  do 4 (case_bool_decide; [|done]; cbn [negb]).
  destruct (negb (bool_decide (target_of rt = "")) && _) eqn:Ht; [done|].
  destruct (_ && bool_decide (Bound_Assignment b = None)) eqn:Ha; [done|].
  destruct (negb (bool_decide ((if by_target rt then _ else _) = _)) && _) eqn:Hr; [done|].
  destruct (decide (EncodeToString (Sum256 (bytes_of body)) = Bound_BodySHA256 b)) as [|Hd];
    [|by rewrite (bool_decide_false _ Hd)].
  intros _. split_and!; try done.
  - intros Hne. by rewrite (bool_decide_false _ Hne) in Ht; apply negb_false_iff, bool_decide_eq_true in Ht.
  - intros Hop. destruct (Bound_Assignment b); [by eexists|]. rewrite andb_true_r in Ha.
    apply orb_false_iff in Ha as [[Ha1%bool_decide_eq_false Ha2%bool_decide_eq_false]%orb_false_iff
      Ha3%bool_decide_eq_false]. destruct Hop as [?|[?|?]]; congruence.
  - intros Hby Hne. rewrite Hby, (bool_decide_false _ Hne) in Hr. by apply negb_false_iff, bool_decide_eq_true in Hr.
Qed.

Lemma authorized_proves {A} rt (Q : history → result A → Prop) (k : Introspected * string → prog fullE (result A)) request :
  request = target_request (wanted rt) → (∀ h err, Q h (Err err)) →
  (∀ h b body, bound rt h b → read_body r = Some body → EncodeToString (Sum256 (bytes_of body)) = Bound_BodySHA256 b →
    safe (authorized_call rt) Q h (k (b, body))) →
  safe (authorized_call rt) Q [] (try_bind (authorized_body audience r (operation_of rt) (target_of rt) request) k).
Proof.
  intros -> HQ Hk. unfold authorized_body, authorize, authorizeHeader.
  destruct (read_body r) as [body|] eqn:Hbody; [|apply HQ].
  destruct (CutPrefix _ _) as [[|c authority]|] eqn:Hcut; [apply HQ| |apply HQ].
  assert (presented (String c authority)) as Hp by (split; [by apply CutPrefix_app|done]).
  cbn -[Binding_check]. split; [done|]. intros [b|err]; [|apply HQ]. cbn -[Binding_check]. split; [done|]. intros now.
  change (mkTarget _ _ _ _) with (wanted rt).
  destruct (Binding_check audience now body (wanted rt) b) as [[]|err] eqn:Hc; [|apply HQ]. cbn.
  apply Binding_check_binds in Hc. apply Hk; [|done|apply Hc].
  exists (String c authority), now, body. split_and!; try done; apply elem_of_cons; [right; apply elem_of_cons|]; by left.
Qed.

Lemma suffix_refl h : h `suffix_of` h.
Proof. done. Qed.

Lemma answer_proves rt p : proves rt [] p → proves rt [] (respond p).
Proof.
  intros Hp. unfold respond. rewrite safe_bind. eapply safe_mono, Hp. intros h' [answer|err] _; [done|].
  unfold respondError. by destruct (refusal err).
Qed.

(** What the tests a program passed say. *)
Ltac passed :=
  repeat match goal with
  | H : negb _ = true |- _ => apply negb_true_iff in H
  | H : negb _ = false |- _ => apply negb_false_iff in H
  | H : _ || _ = false |- _ => apply orb_false_iff in H as [? ?]
  | H : _ && _ = true |- _ => apply andb_true_iff in H as [? ?]
  | H : bool_decide _ = true |- _ => apply bool_decide_eq_true in H
  | H : bool_decide _ = false |- _ => apply bool_decide_eq_false in H
  end.

(** A call made under the authority bound before it. *)
Ltac under Hb :=
  subst; eexists; split; [eapply bound_later, Hb; repeat apply suffix_cons_r; reflexivity|];
  cbn; unfold stored, garam; repeat match goal with u : () |- _ => destruct u end;
  split_and?; try done; try congruence; eauto 20 using list_elem_of_here, list_elem_of_further.

(** Each call of a program in turn, whatever it is answered. *)
Ltac calls Hb :=
  repeat (cbn -[Configuration_check Settings_check elem_of]; first
    [ done
    | progress unfold mret, prog_mret
    | match goal with
      | |- _ ∧ (∀ _, _) => split; [first [done|passed; by under Hb]|]
      | |- ∀ _ : result _, _ => intros [?|?]
      | |- ∀ _ : (_ * _), _ => intros [? ?]
      | |- ∀ _, _ => intros ?
      | |- context [match ?x with Ok _ => _ | Err _ => _ end] => destruct x
      | |- context [if ?b then _ else _] => destruct b eqn:?
      | |- context [match ?x with Some _ => _ | None => _ end] => destruct x eqn:?
      | |- context [match ?x with Pending => _ | RegisteredAs _ => _ | Failed _ _ => _ end] => destruct x eqn:?
      | |- context [match ?x with Applied _ => _ | Stale => _ end] => destruct x
      | p : (_ * _)%type |- _ => destruct p
      end ]).

Lemma stopInput_proves rt {A} (k : StopInput → prog fullE (result A)) :
  rt = StopRoute ∨ rt = StartRoute →
  (∀ h b, bound rt h b → proves rt h (k (mkStopInput (requestKey r b) (bindingOf b) (http_agent r)))) →
  proves rt [] (try_bind (stopInput audience r) k).
Proof.
  intros Hrt Hk. rewrite safe_try_bind. unfold stopInput.
  assert (operation_of rt = OperationConfigure ∧ target_of rt = http_agent r ∧ target_request (wanted rt) = "") as (<- & <- & He)
    by by destruct Hrt as [->| ->].
  apply authorized_proves; [done..|]. intros h b body Hb _ _.
  destruct (strict _ _ _) as [requestID|]; [|done]. destruct (bool_decide (requestID = "")); [done|]. destruct (negb _); [done|].
  replace (target_of rt) with (http_agent r) by by destruct Hrt as [->| ->]. by apply Hk.
Qed.

Lemma bound_assignment rt h b :
  bound rt h b → operation_of rt = OperationConfigure → ∀ x, Some (default x (Bound_Assignment b)) = Bound_Assignment b.
Proof.
  intros (? & ? & ? & _ & _ & _ & _ & _ & _ & _ & _ & _ & Ha & _) Ho y. by destruct (Ha (or_introl Ho)) as [? ->].
Qed.

Lemma bound_handoff rt h b :
  bound rt h b → presented (default (http_authorization r) (CutPrefix (http_authorization r) authorizationScheme)).
Proof.
  intros (authority & ? & ? & Hp & _). destruct Hp as [Ha Hne]. split; [|]; rewrite Ha; by rewrite ?CutPrefix_prefix.
Qed.

Lemma stage_prepared stage : stage ≠ RecoveryRequested → stage ≠ RecoveryFinalized → stage = RecoveryPrepared.
Proof. by destruct stage. Qed.

(** An authority that stands for a stop stands for a start of the same agent under the same body: neither route asks for
its own request target. *)
Theorem stop_authority_starts b now body : binds StopRoute b now body ↔ binds StartRoute b now body.
Proof. done. Qed.

(** C17: Whatever garam and the store answer, a route calls the store and garam only under an authority introspected in
this request, unexpired, that binds this service, the route's operation, its organization, the digest of the body it was
sent, the organization or the agent its path names as the target, an assignment where the operation needs one, and, on the
reads and the publication, the request target. The other routes ask for no request target, so an authority may stand for
two of them (see [stop_authority_starts]). What it stores, it stores under the authority's own request id
and with what the authority binds. garam is asked to finalize a recovery only with the very bytes the store
holds prepared, under the handoff presented, and to deactivate an activation only as the stop just recorded
names it; and what garam answered is what is recorded. *)
Theorem console_calls_authorized rt :
  proves rt [] (handler audience origins time_json rt r).
Proof.
  unfold handler, cors.
  destruct (_ && negb (bool_decide (http_preflight r = ""))); [by destruct (negb _)|].
  rewrite safe_bind. apply safe_mono with (λ _ _, True); [done|].
  destruct rt; cbn [serve]; apply answer_proves;
    match goal with
    | |- proves StopRoute _ _ => apply stopInput_proves; [by auto|]; intros h b Hb
    | |- proves StartRoute _ _ => apply stopInput_proves; [by auto|]; intros h b Hb
    | |- proves ?rt _ _ => apply (authorized_proves rt); [done|done|]; intros h b body Hb Hbody Hd
    end; pose proof (bound_assignment _ _ _ Hb) as Ha; pose proof (bound_handoff _ _ _ Hb); pose proof stage_prepared;
    calls Hb.
Qed.
End spec.
End ConsoleSpec.
