(* ===== verification/GaramPorts.v ===== *)
(** The control service's clients of garam, each an implementation of an interface over the machine client:
    [src/internal/execution/garam/garam.go], [src/internal/console/introspector/garam.go],
    [src/internal/console/lifecycle/garam.go], [src/internal/distribution/prover/garam.go] and
    [src/internal/definition/registrar/garam.go]. *)
From S2P Require Import Prelude GoStd GoTime Json JsonText Errors Types Repository Execution Distribution Desired Console Machine.
Import GoStd Json JsonText Machine.

Module GaramPorts.

(** A string the source sends as a pointer, null where it is empty. *)
Definition nullable (s : string) : json := if bool_decide (s = "") then JNull else JString s.
(** A pointer to a string, read as the string, empty where it is nil. *)
Definition pointed : option string → string := default "".

(** Each client's reading of an error of the machine client: the sentinel of an undecided call, the error of an
    answer under another contract, and any other. *)
Definition port_error (undecided : error → error) (foreign : string * string → error → error) (other : error → error)
    (err : error) : error :=
  if errors_is err ErrMachineUndecided then undecided err
  else match asContractError err with
  | Some c => foreign c err
  | None => other err
  end.
(** [fmt.Errorf] of a sentinel and a text after it. *)
Definition after_sentinel (s : sentinel) (text : string) : error := Wrapf "" s (": " +:+ text).

(** ** execution/garam/garam.go *)
Module ExecutionPort.
(** The answer to introspectAgentExecution as it is decoded. *)
Record introspection := mkWire {
  wire_grn : string; wire_org : string; wire_assignee : string; wire_epoch : string; wire_mode : string;
  wire_credential : string; wire_generation : string; wire_activationId : option string }.
Definition zeroIntrospection : introspection := mkWire "" "" "" "" "" "" "" None.
Definition introspection_fields : list (field introspection) :=
  [at_field "grn" into_string wire_grn (λ i x,
     mkWire x (wire_org i) (wire_assignee i) (wire_epoch i) (wire_mode i) (wire_credential i) (wire_generation i)
       (wire_activationId i));
   at_field "org" into_string wire_org (λ i x,
     mkWire (wire_grn i) x (wire_assignee i) (wire_epoch i) (wire_mode i) (wire_credential i) (wire_generation i)
       (wire_activationId i));
   at_field "assignee" into_string wire_assignee (λ i x,
     mkWire (wire_grn i) (wire_org i) x (wire_epoch i) (wire_mode i) (wire_credential i) (wire_generation i)
       (wire_activationId i));
   at_field "epoch" into_string wire_epoch (λ i x,
     mkWire (wire_grn i) (wire_org i) (wire_assignee i) x (wire_mode i) (wire_credential i) (wire_generation i)
       (wire_activationId i));
   at_field "mode" into_string wire_mode (λ i x,
     mkWire (wire_grn i) (wire_org i) (wire_assignee i) (wire_epoch i) x (wire_credential i) (wire_generation i)
       (wire_activationId i));
   at_field "credential" into_string wire_credential (λ i x,
     mkWire (wire_grn i) (wire_org i) (wire_assignee i) (wire_epoch i) (wire_mode i) x (wire_generation i)
       (wire_activationId i));
   at_field "generation" into_string wire_generation (λ i x,
     mkWire (wire_grn i) (wire_org i) (wire_assignee i) (wire_epoch i) (wire_mode i) (wire_credential i) x
       (wire_activationId i));
   at_field "activationId" (into_pointer "" into_string) wire_activationId (λ i x,
     mkWire (wire_grn i) (wire_org i) (wire_assignee i) (wire_epoch i) (wire_mode i) (wire_credential i)
       (wire_generation i) x)].
Definition introspected (i : introspection) : Execution.Introspection :=
  Execution.mkIntrospection (wire_grn i) (wire_org i) (wire_assignee i) (wire_epoch i) (wire_mode i) (wire_credential i)
    (wire_generation i) (pointed (wire_activationId i)).

(** The answer to activateAgent as it is decoded. *)
Definition zeroActivation : Execution.GaramActivation := Execution.mkGaramActivation "" "" 0 "" "" "".
Definition activation_fields : list (field Execution.GaramActivation) :=
  let with_ f := λ (i : Execution.GaramActivation), f (Execution.Garam_ActivationID i) (Execution.Garam_Token i)
    (Execution.Garam_TokenVersion i) (Execution.Garam_GRN i) (Execution.Garam_Epoch i) (Execution.Garam_Generation i) in
  [at_field "activationId" into_string Execution.Garam_ActivationID (λ i x,
     with_ (λ _ b c d e f, Execution.mkGaramActivation x b c d e f) i);
   at_field "token" into_string Execution.Garam_Token (λ i x,
     with_ (λ a _ c d e f, Execution.mkGaramActivation a x c d e f) i);
   at_field "tokenVersion" into_int64 Execution.Garam_TokenVersion (λ i x,
     with_ (λ a b _ d e f, Execution.mkGaramActivation a b x d e f) i);
   at_field "grn" into_string Execution.Garam_GRN (λ i x,
     with_ (λ a b c _ e f, Execution.mkGaramActivation a b c x e f) i);
   at_field "epoch" into_string Execution.Garam_Epoch (λ i x,
     with_ (λ a b c d _ f, Execution.mkGaramActivation a b c d x f) i);
   at_field "generation" into_string Execution.Garam_Generation (λ i x,
     with_ (λ a b c d e _, Execution.mkGaramActivation a b c d e x) i)].

(** [decode]; [malformed] is what the JSON decoder says of a body it refuses. *)
Definition decode {T} (malformed : string → string) (answer : Answer) (status : Z) (i : into T) (zero : T) : result T :=
  let got := Answer_Status answer in
  if bool_decide (got = status) then
    match Unmarshal i zero (Answer_Body answer) with
    | Some out => Ok out
    | None => Err (Errorf ("decode garam's answer: " +:+ malformed (Answer_Body answer)))
    end
  else if bool_decide (got = 403) || bool_decide (got = 404) then
    Err (after_sentinel ErrNotAuthorized ("garam answered " +:+ FormatInt got))
  else if bool_decide (got = 422) then Err (after_sentinel ErrCredentialRefused "garam answered 422")
  else if bool_decide (got = 409) then Err (after_sentinel ErrActivationSuperseded "garam answered 409")
  else Err (Errorf ("garam answered " +:+ FormatInt got +:+ ": " +:+ FirstLine (Answer_Body answer))).

Section garam.
Context {E : Type → Type} `{!SubEvent httpE E}.
Context (machine : Client) (malformed : string → string).

Definition post (contract path : string) (body : json) : prog E (result Answer) :=
  answer ←? Post machine contract path body wrap
  port_error (λ err, after_sentinel ErrUndecided (error_text err)) (λ foreign _, GaramContractError foreign.1 foreign.2)
  (λ err, Errorf ("call garam " +:+ path +:+ ": " +:+ error_text err));
  mret (Ok answer).

Definition Introspect (agent token generation : string) : prog E (result Execution.Introspection) :=
  answer ←? post ExecutionFence ("/agents/" +:+ Desired.PathEscape agent +:+ "/execution/introspection")
  (JObject [("token", JString token); ("generation", nullable generation)]);
  out ←? lift (decode malformed answer 200 (into_struct false introspection_fields) zeroIntrospection);
  mret (Ok (introspected out)).

Definition Activate (agent : string) (c : Execution.ActivationCall) : prog E (result (Execution.GaramActivation * bool)) :=
  answer ←? post ExecutionFence ("/agents/" +:+ Desired.PathEscape agent +:+ "/activations")
  (JObject [("requestId", JString (Execution.Call_RequestID c)); ("epoch", JString (Execution.Call_Epoch c));
    ("generation", JString (Execution.Call_Generation c));
    ("replacesActivationId", nullable (Execution.Call_ReplacesActivationID c));
    ("operationRef", nullable (Execution.Call_OperationRef c)); ("token", JString (Execution.Call_Token c))]);
  let created := bool_decide (Answer_Status answer = 201) in
  let answer := if created then mkAnswer 200 (Answer_Body answer) else answer in
  out ←? lift (decode malformed answer 200 (into_struct false activation_fields) zeroActivation);
  mret (Ok (out, created)).

(** The interface the routes call, over the machine client. *)
Definition execution_garam X (e : Execution.garamE X) : prog E X :=
  match e with
  | Execution.Introspect agent token generation => Introspect agent token generation
  | Execution.Activate agent c => Activate agent c
  end.
End garam.
End ExecutionPort.

(** ** console/introspector/garam.go *)
Module IntrospectorPort.
Definition introspectionPath := "/operation-authorities/introspection".

(** [bindingJSON]; its grantId is checked to be a string, and read by nothing. *)
Record assignmentJSON := mkAssignmentJSON { assignment_OperatorGRN : string; assignment_Epoch : string }.
Record bindingJSON := mkBindingJSON {
  binding_OperationRef : string; binding_GrantID : string; binding_OrgGRN : string; binding_ActorGRN : string;
  binding_AudienceGRN : string; binding_Operation : string; binding_TargetGRN : string;
  binding_Assignment : option assignmentJSON; binding_RequestID : string; binding_BodySHA256 : string;
  binding_RequestTarget : string; binding_ExpiresAt : option (option Time) }.
Definition zeroBinding : bindingJSON := mkBindingJSON "" "" "" "" "" "" "" None "" "" "" None.
Definition assignment_fields : list (field assignmentJSON) :=
  [at_field "operatorGrn" into_string assignment_OperatorGRN (λ a x, mkAssignmentJSON x (assignment_Epoch a));
   at_field "epoch" into_string assignment_Epoch (λ a x, mkAssignmentJSON (assignment_OperatorGRN a) x)].

Section wire.
Context `{TJ : Execution.TimeJSON}.
Definition binding_fields : list (field bindingJSON) :=
  let with_ f := λ i, f (binding_OperationRef i) (binding_GrantID i) (binding_OrgGRN i) (binding_ActorGRN i)
  (binding_AudienceGRN i) (binding_Operation i) (binding_TargetGRN i) (binding_Assignment i) (binding_RequestID i)
  (binding_BodySHA256 i) (binding_RequestTarget i) (binding_ExpiresAt i) in
  [at_field "operationRef" into_string binding_OperationRef (λ i x,
    with_ (λ _ b c d e f g h j k l m, mkBindingJSON x b c d e f g h j k l m) i);
    at_field "grantId" into_string binding_GrantID (λ i x,
      with_ (λ a _ c d e f g h j k l m, mkBindingJSON a x c d e f g h j k l m) i);
    at_field "orgGrn" into_string binding_OrgGRN (λ i x,
      with_ (λ a b _ d e f g h j k l m, mkBindingJSON a b x d e f g h j k l m) i);
    at_field "actorGrn" into_string binding_ActorGRN (λ i x,
      with_ (λ a b c _ e f g h j k l m, mkBindingJSON a b c x e f g h j k l m) i);
    at_field "audienceGrn" into_string binding_AudienceGRN (λ i x,
      with_ (λ a b c d _ f g h j k l m, mkBindingJSON a b c d x f g h j k l m) i);
    at_field "operation" into_string binding_Operation (λ i x,
      with_ (λ a b c d e _ g h j k l m, mkBindingJSON a b c d e x g h j k l m) i);
    at_field "targetGrn" into_string binding_TargetGRN (λ i x,
      with_ (λ a b c d e f _ h j k l m, mkBindingJSON a b c d e f x h j k l m) i);
    at_field "assignment" (into_pointer (mkAssignmentJSON "" "") (into_struct false assignment_fields)) binding_Assignment
    (λ i x, with_ (λ a b c d e f g _ j k l m, mkBindingJSON a b c d e f g x j k l m) i);
    at_field "requestId" into_string binding_RequestID (λ i x,
      with_ (λ a b c d e f g h _ k l m, mkBindingJSON a b c d e f g h x k l m) i);
    at_field "bodySha256" into_string binding_BodySHA256 (λ i x,
      with_ (λ a b c d e f g h j _ l m, mkBindingJSON a b c d e f g h j x l m) i);
    at_field "requestTarget" into_string binding_RequestTarget (λ i x,
      with_ (λ a b c d e f g h j k _ m, mkBindingJSON a b c d e f g h j k x m) i);
    at_field "expiresAt" (into_pointer None Execution.into_time) binding_ExpiresAt (λ i x,
      with_ (λ a b c d e f g h j k l _, mkBindingJSON a b c d e f g h j k l x) i)].

Definition bound (b : bindingJSON) : Console.Introspected :=
  Console.mkIntrospected (binding_OperationRef b) (binding_OrgGRN b) (binding_ActorGRN b) (binding_AudienceGRN b)
  (binding_Operation b) (binding_TargetGRN b)
  ((λ a, mkAssignment (assignment_OperatorGRN a) (assignment_Epoch a)) <$> binding_Assignment b)
  (binding_RequestID b) (binding_BodySHA256 b) (binding_RequestTarget b)
  (default GoTime.zeroTime (mjoin (binding_ExpiresAt b))).
End wire.

Section garam.
Context {E : Type → Type} `{!SubEvent httpE E, TJ : Execution.TimeJSON}.
Context (machine : Client) (malformed : string → string).

Definition introspect_authority (authority : string) : prog E (result Console.Introspected) :=
  answer ←? Post machine OperationAuthority introspectionPath (JObject [("authority", JString authority)]) wrap
  port_error (λ err, after_sentinel ErrAuthorityUndecided (error_text err))
  (λ _ err, after_sentinel ErrAuthorityContractUnsupported (error_text err))
  (λ err, Errorf ("introspect: " +:+ error_text err));
  let status := Answer_Status answer in
  if bool_decide (status = 404) then mret (Err ErrAuthorityUnknown)
  else if bool_decide (status = 403) then mret (Err ErrAuthorityForbidden)
  else if negb (bool_decide (status = 200)) then
  mret (Err (Errorf ("introspection answered " +:+ FormatInt status +:+ ": " +:+ FirstLine (Answer_Body answer))))
  else match Unmarshal (into_struct false binding_fields) zeroBinding (Answer_Body answer) with
  | Some b => mret (Ok (bound b))
  | None => mret (Err (Errorf ("decode introspection: " +:+ malformed (Answer_Body answer))))
  end.
End garam.
End IntrospectorPort.

(** ** console/lifecycle/garam.go *)
Module LifecyclePort.
(** The answer to a recovery, and garam's error body, as they are decoded. *)
Record recovered := mkRecoveredJSON { recovered_GRN : string; recovered_Lineage : string }.
Definition recovered_fields : list (field recovered) :=
  [at_field "grn" into_string recovered_GRN (λ i x, mkRecoveredJSON x (recovered_Lineage i));
   at_field "lineage" into_string recovered_Lineage (λ i x, mkRecoveredJSON (recovered_GRN i) x)].
Definition refused_fields : list (field (string * string)) :=
  [at_field "kind" into_string fst (λ i x, (x, i.2)); at_field "message" into_string snd (λ i x, (i.1, x))].

Definition refusal (what : string) (answer : Answer) : error :=
  let status := Answer_Status answer in
  if bool_decide (status ∈ [400; 403; 404; 409; 422]) then
    let '(kind, message) := Unmarshal_into refused_fields ("", "") (Answer_Body answer) in
    LifecycleRefusal status kind message
  else Errorf ("garam answered the " +:+ what +:+ " " +:+ FormatInt status +:+ ": " +:+ FirstLine (Answer_Body answer)).

Section garam.
Context {E : Type → Type} `{!SubEvent httpE E}.
Context (machine : Client) (malformed : string → string).

Definition send (c : Call) : prog E (result Answer) :=
  answer ←? Send machine c wrap
  port_error (λ err, after_sentinel ErrLifecycleUndecided (error_text err))
  (λ _ err, after_sentinel ErrAuthorityContractUnsupported (error_text err))
  (λ err, Errorf ("call garam " +:+ Call_Path c +:+ ": " +:+ error_text err));
  mret (Ok answer).

Definition Recover (agent handoff body : string) : prog E (result RecoveredCredential) :=
  answer ←? send (mkCall "POST" ExecutionFence ("/agents/" +:+ Desired.PathEscape agent +:+ "/credential-recovery") None (Some body)
    handoff);
  if negb (bool_decide (Answer_Status answer = 201)) then mret (Err (refusal "recovery" answer))
  else match Unmarshal (into_struct false recovered_fields) (mkRecoveredJSON "" "") (Answer_Body answer) with
  | None => mret (Err (Errorf ("decode the recovery: " +:+ malformed (Answer_Body answer))))
  | Some out =>
    if negb (bool_decide (recovered_GRN out = agent)) || bool_decide (recovered_Lineage out = "") then
    mret (Err (Errorf ("garam answered the recovery of " +:+ agent +:+ " for " +:+ quote (recovered_GRN out) +:+
      ", lineage " +:+ quote (recovered_Lineage out))))
    else mret (Ok (mkRecovered (recovered_Lineage out)))
  end.

Definition Deactivate (agent activationID : string) : prog E (result ()) :=
  answer ←? send (mkCall "POST" ExecutionFence
    ("/agents/" +:+ Desired.PathEscape agent +:+ "/activations/" +:+ Desired.PathEscape activationID +:+ "/deactivation") None None "");
  if negb (bool_decide (Answer_Status answer = 200)) then mret (Err (refusal "deactivation" answer)) else mret (Ok tt).
End garam.

(** The interfaces the console calls, over the machine client; its clock and its log are its own. *)
Definition console_ports {E} `{!SubEvent httpE E, !SubEvent Console.consoleE E, TJ : Execution.TimeJSON} (machine : Client)
    (malformed : string → string) X (e : Console.consoleE X) : prog E X :=
  match e with
  | Console.Introspect authority => IntrospectorPort.introspect_authority machine malformed authority
  | Console.Recover agent handoff body => Recover machine malformed agent handoff body
  | Console.Deactivate agent activationID => Deactivate machine agent activationID
  | Console.Now => call Console.Now
  | Console.LogFailure message attributes => call (Console.LogFailure message attributes)
  end.
End LifecyclePort.

(** ** distribution/prover/garam.go *)
Module ProverPort.
Record proofJSON := mkProofJSON { proof_Operator : string; proof_Org : string; proof_Agent : option Distribution.ProvenAgent }.
Definition agent_fields : list (field Distribution.ProvenAgent) :=
  [at_field "grn" into_string Distribution.ProvenAgent_GRN (λ a x,
     Distribution.mkProvenAgent x (Distribution.ProvenAgent_Epoch a));
   at_field "epoch" into_string Distribution.ProvenAgent_Epoch (λ a x,
     Distribution.mkProvenAgent (Distribution.ProvenAgent_GRN a) x)].
Definition proof_fields : list (field proofJSON) :=
  [at_field "operator" into_string proof_Operator (λ i x, mkProofJSON x (proof_Org i) (proof_Agent i));
   at_field "org" into_string proof_Org (λ i x, mkProofJSON (proof_Operator i) x (proof_Agent i));
   at_field "agent" (into_pointer (Distribution.mkProvenAgent "" "") (into_struct false agent_fields)) proof_Agent
     (λ i x, mkProofJSON (proof_Operator i) (proof_Org i) x)].

Section garam.
Context {E : Type → Type} `{!SubEvent httpE E}.
Context (machine : Client) (malformed : string → string).

Definition Prove (controller token agent : string) : prog E (result Distribution.Proof) :=
  answer ←? Post machine OperationAuthority ("/operators/" +:+ Desired.PathEscape controller +:+ "/introspection")
  (JObject [("token", JString token); ("agent", nullable agent)]) wrap
  port_error (λ err, after_sentinel ErrProofUndecided (error_text err))
  (λ _ err, after_sentinel ErrProofContractUnsupported (error_text err))
  (λ err, Errorf ("prove controller: " +:+ error_text err));
  let status := Answer_Status answer in
  if bool_decide (status = 422) then
  mret (Err (after_sentinel ErrTokenRefused ("garam answered " +:+ FormatInt status)))
  else if bool_decide (status = 403) || bool_decide (status = 404) then
  mret (Err (after_sentinel ErrNotProved ("garam answered " +:+ FormatInt status)))
  else if negb (bool_decide (status = 200)) then
  mret (Err (Errorf ("prove controller answered " +:+ FormatInt status +:+ ": " +:+ FirstLine (Answer_Body answer))))
  else match Unmarshal (into_struct false proof_fields) (mkProofJSON "" "" None) (Answer_Body answer) with
  | None => mret (Err (Errorf ("decode controller proof: " +:+ malformed (Answer_Body answer))))
  | Some p => mret (Ok (Distribution.mkProof (proof_Operator p) (proof_Org p) (proof_Agent p)))
  end.

Definition prover_garam X (e : Distribution.proverE X) : prog E X :=
  match e with Distribution.Prove controller token agent => Prove controller token agent end.
End garam.
End ProverPort.

(** ** definition/registrar/garam.go *)
Module RegistrarPort.
Record enrollmentBinding := mkEnrollment {
  enrollment_RequestID : string; enrollment_Placement : string; enrollment_Assignee : string;
  enrollment_OperationRef : string }.
Definition enrollment_json (b : enrollmentBinding) : json :=
  JObject [("requestId", JString (enrollment_RequestID b)); ("placement", JString (enrollment_Placement b));
           ("assignee", JString (enrollment_Assignee b)); ("operationRef", JString (enrollment_OperationRef b))].
Definition approval_fields : list (field string) := [at_field "approvalId" into_string id (λ _ x, x)].
(** The agent's GRN and epoch. *)
Definition admitted_fields : list (field (string * string)) :=
  [at_field "grn" into_string fst (λ i x, (x, i.2)); at_field "epoch" into_string snd (λ i x, (i.1, x))].
Definition reason_fields : list (field string) := [at_field "reason" into_string id (λ _ x, x)].

Definition registration_refusal (body : string) : string :=
  match Unmarshal (into_struct false reason_fields) "" body with
  | Some reason => if negb (bool_decide (reason = "")) then ", reason " +:+ reason +:+ ": " +:+ FirstLine body
                   else ": " +:+ FirstLine body
  | None => ": " +:+ FirstLine body
  end.

Section garam.
Context {E : Type → Type} `{!SubEvent httpE E}.
Context (machine : Client).

Definition enroll {T} (stage path : string) (binding : enrollmentBinding) (i : into T) (zero : T) : prog E (result T) :=
  answered ←? Post machine AgentEnrollment path (enrollment_json binding) wrap
  port_error (λ err, after_sentinel ErrRegistrationUndecided (stage +:+ ": " +:+ error_text err))
  (λ _ err, after_sentinel ErrGaramContractUnsupported (stage +:+ ": " +:+ error_text err))
  (λ err, Errorf (stage +:+ ": " +:+ error_text err));
  let status := Answer_Status answered in
  let body := Answer_Body answered in
  if bool_decide (status = 201) || bool_decide (status = 200) then
  match Unmarshal i zero body with
  | Some answer => mret (Ok answer)
  | None => mret (Err (Errorf ("decode " +:+ stage +:+ ": " +:+ quote (FirstLine body))))
  end
  else if bool_decide (status = 403) || bool_decide (status = 404) then
  mret (Err (after_sentinel ErrRegistrationRefused (stage +:+ " answered " +:+ FormatInt status +:+ registration_refusal body)))
  else if bool_decide (status = 409) then
  mret (Err (after_sentinel ErrRegistrationConflict (stage +:+ " answered 409" +:+ registration_refusal body)))
  else mret (Err (Errorf (stage +:+ " answered " +:+ FormatInt status +:+ ": " +:+ FirstLine body))).

Definition Register (r : Registration) : prog E (result Registered) :=
  let binding := mkEnrollment (Key_RequestID (Registration_Request r)) "managed" (Registration_Controller r)
  (Registration_OperationRef r) in
  approval ←? enroll "prepare agent enrollment" "/agent-enrollment-approvals" binding (into_struct false approval_fields) "";
  if bool_decide (approval = "") then mret (Err (Errorf "prepare agent enrollment answered no approval"))
  else
  '(grn, epoch) ←? enroll "admit agent enrollment"
  ("/agent-enrollment-approvals/" +:+ Desired.PathEscape approval +:+ "/admission") binding (into_struct false admitted_fields) ("", "");
  if bool_decide (grn = "") || bool_decide (epoch = "") then
  mret (Err (Errorf "admit agent enrollment answered no agent or epoch"))
  else mret (Ok (mkRegistered grn epoch)).

Definition registrar_garam X (e : registrarE X) : prog E X := match e with Repository.Register r => Register r end.
End garam.
End RegistrarPort.
End GaramPorts.
