(* ===== verification/MachineToken.v ===== *)
(** The operator's own token ([src/internal/machinetoken/*.go]): the client assertion it is exchanged for, the source
    that holds one token at a time, the transport that presents it, and the run of failures a health check reads. *)
From S2P Require Import Prelude GoStd GoTime Json JsonText Errors Types Desired Machine.
From Stdlib Require Import Ascii.
Import GoStd GoTime JsonText Machine.

Module MachineToken.

(** ** machinetoken.go *)
Record Files := mkFiles { Files_PrivateKey : string; Files_ClientID : string; Files_TokenURL : string }.
Definition ReasonKey := "key".
Definition ReasonInvalidClient := "invalid_client".
Definition ReasonThrottled := "throttled".
Definition ReasonRefused := "refused".
Definition ReasonUnavailable := "unavailable".

(** ** assertion.go *)
Definition assertionLifetime : Z := 60 * Second.
Definition jtiBytes : Z := 32.

(** [base64.RawURLEncoding]. *)
Definition base64_char (z : Z) : ascii :=
  of_byte (if bool_decide (z < 26) then 65 + z else if bool_decide (z < 52) then 71 + z
           else if bool_decide (z < 62) then z - 4 else if bool_decide (z = 62) then 45 else 95).
Fixpoint base64_url (l : list Z) : string :=
  match l with
  | a :: b :: c :: l =>
      String (base64_char (Z.shiftr a 2)) (String (base64_char (Z.lor (Z.shiftl (Z.land a 3) 4) (Z.shiftr b 4)))
        (String (base64_char (Z.lor (Z.shiftl (Z.land b 15) 2) (Z.shiftr c 6))) (String (base64_char (Z.land c 63)) (base64_url l))))
  | [a; b] =>
      String (base64_char (Z.shiftr a 2)) (String (base64_char (Z.lor (Z.shiftl (Z.land a 3) 4) (Z.shiftr b 4)))
        (String (base64_char (Z.shiftl (Z.land b 15) 2)) EmptyString))
  | [a] => String (base64_char (Z.shiftr a 2)) (String (base64_char (Z.shiftl (Z.land a 3) 4)) EmptyString)
  | [] => EmptyString
  end.
Example base64_vectors :
  base64_url <$> [bytes_of "f"; bytes_of "fo"; bytes_of "foo"; bytes_of "foobar"; [255; 239; 190]] =
  ["Zg"; "Zm8"; "Zm9v"; "Zm9vYmFy"; "_---"].
Proof. vm_compute. reflexivity. Qed.

(** [jwt.Claims], its dates in seconds. *)
Record Claims := mkClaims {
  Claims_Issuer : string;
  Claims_Subject : string;
  Claims_Audience : list string;
  Claims_IssuedAt : Z;
  Claims_Expiry : Z;
  Claims_ID : string;
}.

(** The libraries an identity is read and an assertion signed with: a PEM block's type and bytes, a PKCS#8 key
    ([None] where it is no RSA key), a key's SHA-256 thumbprint, and a JWT signed with RS256 under a key's id. *)
Class Signing := {
  rsaKey : Type;
  PemDecode : string → option (string * string);
  ParsePKCS8PrivateKey : string → result (option rsaKey);
  Thumbprint : rsaKey → result (list Z);
  Serialize : rsaKey → string → Claims → result string;
}.

(** What the source does of its own: its files, its randomness, its clock, what is told of a failure, and which of
    the end of its context and its two tickers comes next. *)
Inductive next := ContextDone | TokenTick | IdentityTick.
Inductive sourceE : Type → Type :=
| ReadFile (path : string) : sourceE (result string)
| ReadRandom (n : Z) : sourceE (result (list Z))
| SourceNow : sourceE Time
| TellFailed (err : error) : sourceE ()
| Select : sourceE next.

Section assertion.
Context `{SG : Signing}.
Context {E : Type → Type} `{!SubEvent sourceE E}.

Record identity := mkIdentity { identity_key : rsaKey; identity_clientID : string; identity_tokenURL : string }.

Definition is_line_end (c : ascii) : bool := Ascii.eqb c (of_byte 13) || Ascii.eqb c (of_byte 10).
Definition TrimRight (s : string) (cutset : ascii → bool) : string :=
  String.string_of_list_ascii (reverse (String.list_ascii_of_string
    (TrimLeft (String.string_of_list_ascii (reverse (String.list_ascii_of_string s))) cutset))).

Definition readValue (path name : string) : prog E (result string) :=
  text ←? call (ReadFile path) wrap (λ err, Wrapf ("read the " +:+ name +:+ " file: ") err "");
  let value := TrimRight text is_line_end in
  if bool_decide (value = "") then mret (Err (Errorf ("the " +:+ name +:+ " file is empty"))) else mret (Ok value).
Definition ReadClientID (path : string) : prog E (result string) := readValue path "client_id".

Definition readIdentity (files : Files) : prog E (result identity) :=
  clientID ←? readValue (Files_ClientID files) "client_id";
  tokenURL ←? readValue (Files_TokenURL files) "tokenUrl";
  encoded ←? call (ReadFile (Files_PrivateKey files)) wrap (λ err, Wrapf "read the private key file: " err "");
  match PemDecode encoded with
  | Some (type, bytes) =>
    if negb (bool_decide (type = "PRIVATE KEY")) then
    mret (Err (Errorf "the private key file holds no PKCS#8 PRIVATE KEY PEM block"))
    else match ParsePKCS8PrivateKey bytes with
    | Err err => mret (Err (Wrapf "parse the private key: " err ""))
    | Ok None => mret (Err (Errorf "the private key is not an RSA key, and garam verifies RS256 alone"))
    | Ok (Some key) => mret (Ok (mkIdentity key clientID tokenURL))
    end
  | None => mret (Err (Errorf "the private key file holds no PKCS#8 PRIVATE KEY PEM block"))
  end.

Definition thumbprint (key : rsaKey) : result string :=
  match Thumbprint key with
  | Ok sum => Ok (base64_url sum)
  | Err err => Err (Wrapf "compute the key's thumbprint: " err "")
  end.

(** What one assertion claims. *)
Definition claims_of (id : identity) (now : Time) (nonce : list Z) : Claims :=
  let issued := now / Second * Second in
  mkClaims (identity_clientID id) (identity_clientID id) [identity_tokenURL id] (issued / Second)
  ((issued + assertionLifetime) / Second) (base64_url nonce).
Definition sign (id : identity) (now : Time) : prog E (result string) :=
  kid ←? lift (thumbprint (identity_key id));
  nonce ←? call (ReadRandom jtiBytes) wrap (λ err, Wrapf "draw an assertion's jti: " err "");
  lift (Serialize (identity_key id) kid (claims_of id now nonce)).
End assertion.

(** ** health.go *)
Definition SustainedFailure : Z := 3600 * Second.

(** [cause]: 0 where no run is open. *)
Definition causeExchange : Z := 1.
Definition causeCall : Z := 2.
Record streak := mkStreak { streak_since : Time; streak_cause : Z; streak_last : option error }.
Definition noStreak : streak := mkStreak zeroTime 0 None.

Definition streak_fail (now : Time) (c : Z) (err : error) (s : streak) : streak :=
  mkStreak (if IsZero (streak_since s) then now else streak_since s) (streak_cause s `max` c) (Some err).
Definition streak_end (c : Z) (s : streak) : streak := if bool_decide (streak_cause s ≤ c) then noStreak else s.

(** ** source.go *)
Definition assertionContract := "machine-token.v2".
Definition firstBackoff : Z := Second.
Definition lastBackoff : Z := 300 * Second.
Definition tokenAnswerBytes : Z := 65536.

(** [Config]: what a source exchanges with. *)
Record Config := mkConfig {
  Config_Endpoint : string;
  Config_Files : Files;
  Config_Audience : string;
  Config_IdentityURL : string;
}.

Record source := mkSource {
  source_token : string;
  source_clientID : string;
  source_refresh : Time;
  source_expiry : Time;
  source_failures : Z;
  source_until : Time;
  source_failed : option error;
  source_streak : streak;
}.
Definition NewSource : source := mkSource "" "" zeroTime zeroTime 0 zeroTime None noStreak.
Definition with_streak (f : streak → streak) (s : source) : source :=
  mkSource (source_token s) (source_clientID s) (source_refresh s) (source_expiry s) (source_failures s) (source_until s)
    (source_failed s) (f (source_streak s)).

(** [retryAfter]: the seconds a 429 asks for, as a duration, which wraps. *)
Definition retryAfter (value : string) : Z :=
  match ParseInt (TrimSpace value) with
  | Some seconds => if bool_decide (seconds ≤ 0) then 0 else int64 (seconds * Second)
  | None => 0
  end.

(** [url.Values.Encode]. *)
Definition Encode (values : list (string * string)) : string :=
  Join ((λ kv, Desired.QueryEscape kv.1 +:+ "=" +:+ Desired.QueryEscape kv.2) <$>
        merge_sort (λ a b, Is_true (String.leb a.1 b.1)) values) "&".

(** [oauthToken] and [oauthError]. *)
Record oauthToken := mkOauthToken { AccessToken : string; TokenType : string; ExpiresIn : Z }.
Definition oauthToken_fields : list (field oauthToken) :=
  [at_field "access_token" into_string AccessToken (λ t x, mkOauthToken x (TokenType t) (ExpiresIn t));
   at_field "token_type" into_string TokenType (λ t x, mkOauthToken (AccessToken t) x (ExpiresIn t));
   at_field "expires_in" into_int64 ExpiresIn (λ t x, mkOauthToken (AccessToken t) (TokenType t) x)].
Definition oauthError_fields : list (field (string * string)) :=
  [at_field "error" into_string fst (λ e x, (x, e.2)); at_field "error_description" into_string snd (λ e x, (e.1, x))].

(** How one exchange ends. *)
Inductive exchanged :=
| Answered (token clientID : string) (lifetime : Z)
| FailedFor (reason : string) (retry : Z) (err : error).

(** What an answer of the exchange says. *)
Definition answered (clientID : string) (response : wireResponse) (body : string) : exchanged :=
  let status := answer_status response in
  let unavailable err := FailedFor ReasonUnavailable 0 err in
  if bool_decide (status = 200) then
    let got := answer_header response contractHeader in
    if negb (bool_decide (got = assertionContract)) then
      unavailable (Errorf ("garam answered the exchange under contract " +:+ quote got +:+ ", want " +:+ quote assertionContract))
    else match Unmarshal (into_struct false oauthToken_fields) (mkOauthToken "" "" 0) body with
    | None => unavailable (Errorf "garam's token answer is not RFC 6749 JSON")
    | Some t =>
      if bool_decide (AccessToken t = "") || negb (Json.same_name (TokenType t) "Bearer") || bool_decide (ExpiresIn t ≤ 0)
      then unavailable (Errorf "garam's token answer carries no bearer token or no lifetime")
      else Answered (AccessToken t) clientID (int64 (ExpiresIn t * Second))
    end
  else if bool_decide (status = 429) then
    FailedFor ReasonThrottled (retryAfter (answer_header response "Retry-After")) (Errorf "garam answered 429: too many exchanges")
  else if bool_decide (500 ≤ status) then unavailable (Errorf ("garam answered " +:+ FormatInt status))
  else
    let '(error, description) := Unmarshal_into oauthError_fields ("", "") body in
    if bool_decide (error = "invalid_client") then FailedFor ReasonInvalidClient 0 ErrInvalidClient
    else FailedFor ReasonRefused 0 (Errorf ("garam answered " +:+ FormatInt status +:+ " " +:+ quote error +:+ ": " +:+ description)).

Section source.
Context `{SG : Signing}.
Context {E : Type → Type} `{!SubEvent sourceE E, !SubEvent httpE E}.
Context (cfg : Config).

Definition form_of (clientID assertion : string) : string :=
  Encode ([("grant_type", "client_credentials"); ("client_id", clientID);
    ("client_assertion_type", "urn:ietf:params:oauth:client-assertion-type:jwt-bearer");
    ("client_assertion", assertion)] ++
    (if bool_decide (Config_Audience cfg = "") then [] else [("audience", Config_Audience cfg)])).
Definition exchange_request (clientID assertion : string) : wireRequest :=
  mkWireRequest "POST" (Config_Endpoint cfg) {["Content-Type" := "application/x-www-form-urlencoded"]}
  (Some (form_of clientID assertion)).

Definition send (now : Time) : prog E exchanged :=
  id ← readIdentity (Config_Files cfg);
  match id with
  | Err err => mret (FailedFor ReasonKey 0 err)
  | Ok id =>
    assertion ← sign id now;
    match assertion with
    | Err err => mret (FailedFor ReasonKey 0 err)
    | Ok assertion =>
      built ← call (NewRequest "POST" (Config_Endpoint cfg));
      match built with
      | Err err => mret (FailedFor ReasonUnavailable 0 (Wrapf "build the exchange: " err ""))
      | Ok _ =>
        response ← call (RoundTrip (exchange_request (identity_clientID id) assertion));
        match response with
        | Err err => mret (FailedFor ReasonUnavailable 0 err)
        | Ok response =>
          match read_limited tokenAnswerBytes response with
          | Err err => mret (FailedFor ReasonUnavailable 0 (Wrapf "read the exchange's answer: " err ""))
          | Ok body => mret (answered (identity_clientID id) response body)
          end
        end
      end
    end
  end.

(** The wait after a failed exchange, [failures] in a row with it. *)
Definition backoff (failures retry : Z) : Z :=
  if bool_decide (retry ≤ 0) then int64 (Z.shiftl firstBackoff ((failures - 1) `min` 16)) `min` lastBackoff else retry.

(** [exchange]: whether a token was answered. *)
Definition exchange (now : Time) (s : source) : prog E (bool * source) :=
  ended ← send now;
  match ended with
  | FailedFor reason retry err =>
    let failures := source_failures s + 1 in
    let until := now + backoff failures retry in
    let failed := TokenError reason until err in
    _ ← call (TellFailed failed);
    mret (false, mkSource (source_token s) (source_clientID s) (source_refresh s) (source_expiry s) failures until (Some failed)
      (streak_fail now causeExchange failed (source_streak s)))
  | Answered token clientID lifetime =>
    mret (true, mkSource token clientID (now + Z.quot (int64 (lifetime * 2)) 3) (now + lifetime) 0 zeroTime None
      (streak_end causeExchange (source_streak s)))
  end.

Definition held (now : Time) (s : source) : result (string * string) :=
  if negb (bool_decide (source_token s = "")) && bool_decide (now < source_expiry s) then Ok (source_token s, source_clientID s)
  else match source_failed s with
  | Some failed => Err failed
  | None => Err (Errorf "no garam token is held")
  end.

(** [credential], under the source's lock; [Token] is its first half. *)
Definition credential_at (now : Time) (s : source) : prog E (result (string * string) * source) :=
  if negb (bool_decide (source_token s = "")) && bool_decide (now < source_refresh s)
  then mret (Ok (source_token s, source_clientID s), s)
  else if bool_decide (now < source_until s) then mret (held now s, s)
  else
  '(ok, s) ← exchange now s;
  if (ok : bool) then mret (Ok (source_token s, source_clientID s), s) else mret (held now s, s).
Definition credential (s : source) : prog E (result (string * string) * source) :=
  now ← call SourceNow; credential_at now s.
Definition Token (s : source) : prog E (result string * source) :=
  '(held, s) ← credential s; mret (result_map fst held, s).

Definition Invalidate (token : string) (s : source) : source :=
  if bool_decide (source_token s = token)
  then mkSource "" (source_clientID s) (source_refresh s) (source_expiry s) (source_failures s) (source_until s)
  (source_failed s) (source_streak s)
  else s.

(** [observe]. *)
Definition observe (response : result wireResponse) (s : source) : prog E source :=
  match response with
  | Err _ => mret s
  | Ok response =>
    let status := answer_status response in
    if bool_decide (500 ≤ status) then mret s
    else if bool_decide (status = 401) then
    now ← call SourceNow; mret (with_streak (streak_fail now causeCall errCallRefused) s)
    else mret (with_streak (streak_end causeCall) s)
  end.

(** [Check]. *)
Definition Check_ (s : source) : prog E (result ()) :=
  let since := streak_since (source_streak s) in
  if IsZero since then mret (Ok tt)
  else
  now ← call SourceNow;
  if bool_decide (Sub now since ≤ SustainedFailure) then mret (Ok tt)
  else mret (Err (Wrapf ("every exchange and call under this operator's garam token has failed since " +:+
    FormatRFC3339 since +:+ ": ") (default (Errorf "") (streak_last (source_streak s))) "")).

(** ** transport.go: the header that carries the client_id, where it is named *)
Definition authorized (clientIDHeader : string) (request : wireRequest) (token clientID : string) : wireRequest :=
  let headers := <["Authorization" := "Bearer " +:+ token]> (wire_headers request) in
  mkWireRequest (wire_method request) (wire_url request)
  (if bool_decide (clientIDHeader = "") then headers else <[clientIDHeader := clientID]> headers) (wire_body request).

(** [roundTrip]; [getBody] is the request's GetBody, where it has one. *)
Definition roundTrip (clientIDHeader : string) (request : wireRequest) (getBody : option (result string)) (s : source) :
  prog E (result wireResponse * source) :=
  '(presented, s) ← credential s;
  match presented with
  | Err err => mret (Err err, s)
  | Ok (token, clientID) =>
    response ← call (RoundTrip (authorized clientIDHeader request token clientID));
    match response with
    | Err err => mret (Err err, s)
    | Ok refused =>
      if negb (bool_decide (answer_status refused = 401)) then mret (Ok refused, s)
      else if negb (bool_decide (wire_body request = None)) && bool_decide (getBody = None) then mret (Ok refused, s)
      else
      '(fresh, s) ← credential (Invalidate token s);
      match fresh with
      | Err _ => mret (Ok refused, s)
      | Ok (fresh, freshClientID) =>
        if bool_decide (fresh = token) then mret (Ok refused, s)
        else
        let retry := authorized clientIDHeader request fresh freshClientID in
        match getBody with
        | Some (Err _) => mret (Ok refused, s)
        | Some (Ok body) =>
          again ← call (RoundTrip (mkWireRequest (wire_method retry) (wire_url retry) (wire_headers retry) (Some body)));
          mret (again, s)
        | None => again ← call (RoundTrip retry); mret (again, s)
        end
      end
    end
  end.
(** [Transport.RoundTrip]. *)
Definition Carry clientIDHeader request getBody (s : source) : prog E (result wireResponse * source) :=
  '(response, s) ← roundTrip clientIDHeader request getBody s;
  s ← observe response s;
  mret (response, s).

(** ** health.go: [identify] and [Keep], for [n] turns at most; no ticker of the identity's runs where there is no URL *)
Definition identify (s : source) : prog E source :=
  built ← call (NewRequest "GET" (Config_IdentityURL cfg));
  match built with
  | Err _ => mret s
  | Ok _ => '(_, s) ← Carry "" (mkWireRequest "GET" (Config_IdentityURL cfg) ∅ None) None s; mret s
  end.
Fixpoint keep_on (n : nat) (s : source) : prog E source :=
  match n with
  | O => mret s
  | S n =>
    '(_, s) ← Token s;
    next ← call Select;
    match next with
    | ContextDone => mret s
    | TokenTick => keep_on n s
    | IdentityTick => s ← (if bool_decide (Config_IdentityURL cfg = "") then mret s else identify s); keep_on n s
    end
  end.
Definition Keep (n : nat) (s : source) : prog E source :=
  s ← (if bool_decide (Config_IdentityURL cfg = "") then mret s else identify s);
  keep_on n s.
End source.
End MachineToken.
