(* ===== verification/MachineSpec.v ===== *)
(** What the clients of garam's machine listener promise, whatever it answers: a call is sent a bounded number of
    times, and only what garam decided, under the contract asked, decides anything. *)
From S2P Require Import Prelude GoStd GoTime Json JsonText Errors Types Desired Machine GaramPorts.
Import GoStd Json JsonText Machine.

Module MachineSpec.

Abbreviation history := (list (event httpE)).

(** The attempts made, and an attempt garam left undecided: not answered, not read, or answered 500 or 503. *)
Definition is_sent (ev : event httpE) : bool := match ev with Ev e _ => match e with RoundTrip _ => true | _ => false end end.
Fixpoint sent (h : history) : nat := match h with [] => 0 | ev :: h => (if is_sent ev then 1 else 0) + sent h end.
Definition undecided (response : result wireResponse) : Prop :=
  match response with
  | Err _ => True
  | Ok response => answer_status response = 500 ∨ answer_status response = 503 ∨
                   ∃ err, read_limited maxAnswerBytes response = Err err
  end.
Definition left_undecided (ev : event httpE) : Prop :=
  match ev with Ev e x => match e in httpE X return X → Prop with RoundTrip _ => undecided | _ => λ _, True end x end.

(** The last answer, to a request, and what it decides. *)
Definition last_answer (h : history) (request : wireRequest) (response : wireResponse) : Prop :=
  ∃ h', h = Ev (RoundTrip request) (Ok response) :: h'.
Definition decides (contract : string) (response : wireResponse) (answer : Answer) : Prop :=
  answer_status response = Answer_Status answer ∧ Answer_Status answer ≠ 500 ∧ Answer_Status answer ≠ 503 ∧
  answer_header response contractHeader = contract ∧ read_limited maxAnswerBytes response = Ok (Answer_Body answer).

Section send.
Context (c : Client) (call_ : Call).
Abbreviation payload := (payload_of call_).
Definition attempts : nat := S (Z.to_nat (Client_Attempts c - 1)).
(** The wait after the [n]th attempt, from 0. *)
Definition wait_after (n : nat) : Z := Nat.iter n (λ wait, int64 (2 * wait)) (Client_Backoff c).

(** Each attempt sends the same request, while every one before it was left undecided; a wait is between two. *)
Definition resent (h : history) X (e : httpE X) : Prop :=
  match e with
  | NewRequest _ _ => (sent h < attempts)%nat
  | RoundTrip request => request = request_of c call_ payload ∧ (sent h < attempts)%nat ∧ Forall left_undecided h
  | WaitFor d => (0 < sent h < attempts)%nat ∧ d = wait_after (sent h - 1)
  end.

(** How a call ends. *)
Inductive ending (h : history) : result Answer → Prop :=
| ends_decided answer response :
  last_answer h (request_of c call_ payload) response → decides (Call_Contract call_) response answer → ending h (Ok answer)
| ends_foreign response :
  last_answer h (request_of c call_ payload) response → ¬ undecided (Ok response) →
  answer_header response contractHeader ≠ Call_Contract call_ →
  ending h (Err (ContractError (Call_Path call_) (answer_status response) (answer_header response contractHeader)
    (Call_Contract call_)))
| ends_unbuilt err text h' : h = Ev (NewRequest (Call_Method call_) (Client_baseURL c +:+ Call_Path call_)) (Err err) :: h' →
  ending h (Err (Errorf text))
| ends_undecided text :
  Forall left_undecided h → sent h = attempts ∨ (∃ d err h', h = Ev (WaitFor d) (Some err) :: h') →
  ending h (Err (Wrapf "" ErrMachineUndecided text)).

Lemma sendOnce_spec Q h :
  (sent h < attempts)%nat → Forall left_undecided h →
  (∀ h' answer, ending h' answer → Q h' (Ended answer)) →
  (∀ h' err, sent h' = S (sent h) → Forall left_undecided h' → Q h' (Again err)) →
  safe resent Q h (sendOnce c call_ payload).
Proof.
  intros Hs Hu Hended Hagain. split; [done|]. intros [[]|err].
  2: { apply Hended. by eapply ends_unbuilt. }
  split; [split_and!; [done|done|by constructor]|]. intros [response|err]; cbn.
  2: { apply Hagain; [done|constructor; [exact I|by constructor]]. }
  assert (∀ err, undecided (Ok response) → Q (Ev (RoundTrip (request_of c call_ payload)) (Ok response)
    :: Ev (NewRequest (Call_Method call_) (Client_baseURL c +:+ Call_Path call_)) (Ok tt) :: h) (Again err)) as Hagain'.
  { intros err Hr. apply Hagain; [done|constructor; [exact Hr|by constructor]]. }
  destruct (read_limited maxAnswerBytes response) as [body|err] eqn:Hbody; cbn.
  2: { apply Hagain'. right; right. by eexists. }
  case_bool_decide as H5; cbn; [apply Hagain'; by left|].
  case_bool_decide as H3; cbn; [apply Hagain'; right; by left|].
  case_bool_decide as Hc; cbn; apply Hended.
  - eapply ends_decided; [by eexists|]. by split_and!.
  - eapply (ends_foreign _ response); [by eexists| |done]. intros [?|[?|[err Herr]]]; congruence.
Qed.

Lemma send_from_spec more attempt wait h :
  (sent h + S more)%nat = attempts → wait = wait_after (sent h) → Forall left_undecided h →
  safe resent ending h (send_from c call_ payload more attempt wait).
Proof.
  revert attempt wait h. induction more as [|more IH]; intros attempt wait h Hn Hw Hu; cbn [send_from];
    rewrite safe_bind; (apply sendOnce_spec; [lia|done|by intros|]); intros h' err Hs Hu'.
  { apply ends_undecided; [done|left; lia]. }
  rewrite safe_bind. split; [split; [lia|by rewrite Hs, Nat.sub_1_r]|]. intros [err'|]; cbn.
  - apply ends_undecided; [by constructor|]. right. by eexists _, _, _.
  - apply IH; [cbn; lia| |by constructor]. cbn. by rewrite Hs, Hw.
Qed.

Lemma Send_ends : safe resent ending [] (Send c call_).
Proof. apply send_from_spec; [done..|constructor]. Qed.

(** C18: A call of garam's machine listener is sent at most the attempts the client allows, the same request each time
and only while every answer before it left it undecided, with the doubled wait between two; and it ends with the
answer garam decided under the contract asked, with the contract of an answer under another, or undecided, once the
attempts are spent or the context ended. *)
Theorem machine_call_ends : safe resent ending [] (Send c call_).
Proof. apply Send_ends. Qed.
End send.

(** ** The ports, each a program of calls of the machine client *)

(** What a program promises of its own calls, it promises after any others. *)
Lemma safe_after {E A} (P P' : list (event E) → ∀ X, E X → Prop) (Q Q' : list (event E) → A → Prop) (h0 : list (event E)) (p : prog E A) h :
  (∀ new X (e : E X), P new X e → P' (new ++ h0) X e) → (∀ new a, Q new a → Q' (new ++ h0) a) →
  safe P Q h p → safe P' Q' (h ++ h0) p.
Proof.
  intros HP HQ. revert h. induction p as [a|X e k IH]; intros h; [apply HQ|].
  cbn. intros [He Hk]. split; [by apply HP|]. intros x. apply (IH x (Ev e x :: h)), Hk.
Qed.

Section port.
Context (machine : Client).
(** The calls a port may make after others. *)
Context (allowed : history → Call → Prop).

(** garam decided an answer to a call. *)
Definition garam_answered (h : history) (c : Call) (answer : Answer) : Prop :=
  ∃ response, Ev (RoundTrip (request_of machine c (payload_of c))) (Ok response) ∈ h ∧ decides (Call_Contract c) response answer.
Definition port_call (h : history) X (e : httpE X) : Prop :=
  ∃ h0 new c, h = new ++ h0 ∧ allowed h0 c ∧ resent machine c new X e.
Definition port_answer (c : Call) h (answer : result Answer) : Prop :=
  match answer with Ok answer => garam_answered h c answer | Err _ => True end.

Lemma ending_answer c h0 new answer : ending machine c new answer → port_answer c (new ++ h0) answer.
Proof.
  intros []; cbn; try done. destruct H as [h' ->]. eexists. split; [by left|done].
Qed.

Lemma port_safe {A} (c : Call) (k : result Answer → prog httpE A) Q h0 :
  allowed h0 c → (∀ h answer, h0 `suffix_of` h → port_answer c h answer → safe port_call Q h (k answer)) →
  safe port_call Q h0 (Send machine c ≫= k).
Proof.
  intros Hc Hk. rewrite safe_bind. eapply (safe_after _ _ _ _ h0 _ []), Send_ends.
  - intros new X e He. by exists h0, new, c.
  - intros new answer He. apply Hk; [by eexists|]. by apply ending_answer.
Qed.

Lemma port_try {B} (c : Call) f (k : Answer → prog httpE (result B)) Q h0 :
  allowed h0 c → (∀ h err, h0 `suffix_of` h → Q h (Err err)) →
  (∀ h answer, h0 `suffix_of` h → garam_answered h c answer → safe port_call Q h (k answer)) →
  safe port_call Q h0 (try_wrap f (Send machine c) k).
Proof.
  intros Hc He Hk. unfold try_wrap. apply port_safe; [done|]. intros h [answer|err] Hs Ha; cbn; auto.
Qed.
End port.

(** ** The registration of an agent *)
Section registrar.
Import GaramPorts.RegistrarPort.
Context (machine : Client) (r : Registration).

Definition prepare_call : Call :=
  mkCall "POST" AgentEnrollment "/agent-enrollment-approvals" (Some (enrollment_json
    (mkEnrollment (Key_RequestID (Registration_Request r)) "managed" (Registration_Controller r) (Registration_OperationRef r))))
  None "".
Definition admit_call (approval : string) : Call :=
  mkCall "POST" AgentEnrollment ("/agent-enrollment-approvals/" +:+ Desired.PathEscape approval +:+ "/admission")
  (Call_Body prepare_call) None "".

(** garam answered the stages of the request's enrollment. *)
Definition accepted (answer : Answer) : Prop := Answer_Status answer = 200 ∨ Answer_Status answer = 201.
Definition approved h (approval : string) : Prop :=
  ∃ answer, garam_answered machine h prepare_call answer ∧ accepted answer ∧ approval ≠ "" ∧
  Unmarshal (into_struct false approval_fields) "" (Answer_Body answer) = Some approval.
Definition enrolled h (grn epoch : string) : Prop :=
  ∃ approval answer, approved h approval ∧ garam_answered machine h (admit_call approval) answer ∧ accepted answer ∧
  grn ≠ "" ∧ epoch ≠ "" ∧ Unmarshal (into_struct false admitted_fields) ("", "") (Answer_Body answer) = Some (grn, epoch).

(** An enrollment's calls: its approval's, and the admission of one garam answered it. *)
Definition enrolls h (c : Call) : Prop := c = prepare_call ∨ ∃ approval, c = admit_call approval ∧ approved h approval.

Lemma garam_answered_later c answer h h' : h `suffix_of` h' → garam_answered machine h c answer → garam_answered machine h' c answer.
Proof. intros [l ->] (response & Hin & Hd). exists response. split; [|done]. apply elem_of_app. by right. Qed.

Lemma enroll_spec {T A} stage path (i : into T) zero (k : T → prog httpE (result A)) Q h0 :
  let binding := mkEnrollment (Key_RequestID (Registration_Request r)) "managed" (Registration_Controller r)
  (Registration_OperationRef r) in
  let c := mkCall "POST" AgentEnrollment path (Some (enrollment_json binding)) None "" in
  enrolls h0 c → (∀ h err, Q h (Err err)) →
  (∀ h answer x, h0 `suffix_of` h → garam_answered machine h c answer → accepted answer →
    Unmarshal i zero (Answer_Body answer) = Some x → safe (port_call machine enrolls) Q h (k x)) →
  safe (port_call machine enrolls) Q h0 (x ←? enroll machine stage path binding i zero; k x).
Proof.
  intros binding c Hc He Hk. rewrite safe_try_bind. unfold enroll, Post. apply port_try; [done|by intros; apply He|].
  intros h answer Hs Ha. fold c in Ha.
  destruct (bool_decide (Answer_Status answer = 201) || bool_decide (Answer_Status answer = 200)) eqn:Hst.
  - destruct (Unmarshal i zero (Answer_Body answer)) as [x|] eqn:Hu; cbn; [|by apply He].
    eapply Hk; [done|done| |done].
    apply orb_true_iff in Hst as [?%bool_decide_eq_true|?%bool_decide_eq_true]; [by right|by left].
  - repeat case_bool_decide; cbn; by apply He.
Qed.

(** C19: A registration is answered an agent and an epoch only as garam decided both of its stages, under the enrollment
contract, of this request's binding: an approval, and the admission of that approval; and no stage but those two is
asked for, the second only of an approval garam answered. *)
Theorem registered_by_garam :
  safe (port_call machine enrolls)
  (λ h answer, ∀ registered, answer = Ok registered → enrolled h (Registered_Agent registered) (Registered_Epoch registered))
  [] (Register machine r).
Proof.
  unfold Register. apply enroll_spec; [by left|done|]. intros h answer approval _ Ha Hacc Hu.
  case_bool_decide as Hne; [done|].
  assert (approved h approval) as Happ by (by exists answer).
  apply (enroll_spec "admit agent enrollment"); [right; by exists approval|done|].
  intros h' answer' [grn epoch] Hs Ha' Hacc' Hu'.
  destruct (bool_decide (grn = "") || bool_decide (epoch = "")) eqn:He; cbn; [done|].
  apply orb_false_iff in He as [Hg%bool_decide_eq_false Hep%bool_decide_eq_false].
  intros registered [= <-]. exists approval, answer'. split_and!; try done.
  destruct Happ as (a & Hga & ?). exists a. split; [by eapply garam_answered_later|done].
Qed.
End registrar.
End MachineSpec.
