(* ===== verification/MachineTokenSpec.v ===== *)
(** What the operator's token source promises over any sequence of its uses, whatever garam, the files and the clock
    answer: an exchange is sent only once its backoff allows, and a token is presented only as garam answered it,
    under the identity it was exchanged for, while it lives. *)
From S2P Require Import Prelude GoStd GoTime Json JsonText Errors Types Machine MachineToken.
Import GoStd GoTime Json JsonText Machine MachineToken.

Module MachineTokenSpec.

Section spec.
Context `{SG : Signing} (cfg : Config).
Abbreviation fullE := (sourceE +' httpE).
Abbreviation history := (list (event fullE)).
Implicit Types (h : history).

(** ** Uses of a source *)
Inductive op :=
| UseToken
| UseInvalidate (token : string)
| UseCarry (clientIDHeader : string) (request : wireRequest) (getBody : option (result string))
| UseIdentify.
Definition use_one (o : op) (s : source) : prog fullE source :=
  match o with
  | UseToken => '(_, s) ← Token cfg s; mret s
  | UseInvalidate token => mret (Invalidate token s)
  | UseCarry clientIDHeader request getBody => '(_, s) ← Carry cfg clientIDHeader request getBody s; mret s
  | UseIdentify => identify cfg s
  end.
Fixpoint use (ops : list op) (s : source) : prog fullE source :=
  match ops with [] => mret s | o :: ops => s ← use_one o s; use ops s end.

(** ** What a history says *)

(** The clock last read. *)
Fixpoint last_clock h : option Time :=
  match h with
  | [] => None
  | Ev e x :: h =>
    match e with
    | InL e => match e in sourceE X return X → option Time with SourceNow => Some | _ => λ _, last_clock h end x
    | InR _ => last_clock h
    end
  end.
(** The token an answer of the exchange carries, and its lifetime. *)
Definition token_answer (response : result wireResponse) : option (string * Z) :=
  match response with
  | Ok response =>
    match read_limited tokenAnswerBytes response with
    | Ok body => match answered "" response body with Answered token _ lifetime => Some (token, lifetime) | _ => None end
    | Err _ => None
    end
  | Err _ => None
  end.
(** A request that presents no token is an exchange. *)
Definition is_exchange (request : wireRequest) : bool := bool_decide (wire_headers request !! "Authorization" = None).

(** When the next exchange may be sent, where the last one failed. *)
Fixpoint backed_off h : option Time :=
  match h with
  | [] => None
  | Ev e x :: h =>
    match e with
    | InL (TellFailed (TokenError _ until _)) => Some until
    | InL _ => backed_off h
    | InR e =>
      match e in httpE X return X → option Time with
      | RoundTrip request => λ response, if is_exchange request && bool_decide (is_Some (token_answer response)) then None
        else backed_off h
      | _ => λ _, backed_off h
      end x
    end
  end.

(** A token garam answered an exchange of the client with, when the clock was read [at_], for a lifetime. *)
Definition obtained h (token clientID : string) (at_ lifetime : Z) : Prop :=
  ∃ h1 h2 assertion response,
  h = h1 ++ Ev (InR (RoundTrip (exchange_request cfg clientID assertion))) (Ok response) :: h2 ∧
  token_answer (Ok response) = Some (token, lifetime) ∧ last_clock h2 = Some at_.
(** Such a token, presented while it lives: every lifetime whose double is an int64 is long enough. *)
Definition live h (token clientID : string) : Prop :=
  ∃ at_ lifetime now, obtained h token clientID at_ lifetime ∧ token ≠ "" ∧ last_clock h = Some now ∧
  (0 < lifetime → lifetime * 2 ≤ maxInt64 → now < at_ + lifetime).

Definition may_call h X (e : fullE X) : Prop :=
  match e with
  | InR (RoundTrip request) =>
    (is_exchange request = true ∧ ∃ now, last_clock h = Some now ∧ ∀ until, backed_off h = Some until → until ≤ now) ∨
    (∃ token clientID clientIDHeader sent, live h token clientID ∧
      wire_headers request = wire_headers (authorized clientIDHeader sent token clientID))
  | _ => True
  end.

(** ** The source's invariant *)
Definition failing h (s : source) : Prop :=
  match source_failed s with
  | Some failed => (∃ reason err, failed = TokenError reason (source_until s) err) ∧ backed_off h = Some (source_until s)
  | None => backed_off h = None
  end.
Definition keeps h (s : source) : Prop :=
  failing h s ∧
  (source_token s ≠ "" → ∃ at_ lifetime, obtained h (source_token s) (source_clientID s) at_ lifetime ∧
    source_expiry s = at_ + lifetime ∧ source_refresh s = at_ + Z.quot (int64 (lifetime * 2)) 3).

(** Calls that neither send an exchange nor tell of a failure. *)
Definition quiet X (e : fullE X) : Prop :=
  match e with
  | InL (TellFailed _) => False
  | InR (RoundTrip request) => is_exchange request = false
  | _ => True
  end.
Lemma obtained_later h token clientID at_ lifetime new :
  obtained h token clientID at_ lifetime → obtained (new ++ h) token clientID at_ lifetime.
Proof. intros (h1 & h2 & a & r & -> & ?). exists (new ++ h1), h2, a, r. by rewrite <- app_assoc. Qed.
Lemma backed_off_quiet h X (e : fullE X) x : quiet X e → backed_off (Ev e x :: h) = backed_off h.
Proof. revert x. destruct e as [e|e]; destruct e; cbn; intros x He; try done. by rewrite He. Qed.
Lemma keeps_quiet h s X (e : fullE X) x : quiet X e → keeps h s → keeps (Ev e x :: h) s.
Proof.
  intros He [Hf Ht]. split.
  - unfold failing in *. by rewrite backed_off_quiet.
  - intros Hne. destruct (Ht Hne) as (at_ & l & Ho & ?). exists at_, l. split; [by apply (obtained_later _ _ _ _ _ [_])|done].
Qed.

(** ** One exchange *)
Lemma readValue_safe Q h path name :
  (∀ h' r, last_clock h' = last_clock h → backed_off h' = backed_off h → h `suffix_of` h' → Q h' r) →
  safe may_call Q h (readValue path name : prog fullE _).
Proof.
  intros HQ. split; [done|]. intros [text|err]; cbn; [|by apply HQ; [..|eexists [_]]].
  by case_bool_decide; cbn; (apply HQ; [..|eexists [_]]).
Qed.

Lemma readIdentity_safe Q h files :
  (∀ h' r, last_clock h' = last_clock h → backed_off h' = backed_off h → h `suffix_of` h' → Q h' r) →
  safe may_call Q h (readIdentity files : prog fullE _).
Proof.
  intros HQ. unfold readIdentity. rewrite safe_try_bind. apply readValue_safe. intros h1 [clientID|err] Hc1 Hb1 Hs1; [|by apply HQ].
  rewrite safe_try_bind. apply readValue_safe. intros h2 [tokenURL|err] Hc2 Hb2 Hs2.
  2: { apply HQ; [congruence..|by etrans]. }
  split; [done|]. assert (∀ x, h `suffix_of` Ev (InL (ReadFile (Files_PrivateKey files)) : fullE _) x :: h2) as Hs3.
  { intros x. etrans; [exact Hs1|]. etrans; [exact Hs2|]. by eexists [_]. }
  intros [encoded|err]; cbn; [|apply HQ; [cbn; congruence..|apply Hs3]].
  repeat case_match; cbn; (apply HQ; [cbn; congruence..|apply Hs3]).
Qed.

Lemma sign_safe Q h id now :
  (∀ h' r, last_clock h' = last_clock h → backed_off h' = backed_off h → h `suffix_of` h' → Q h' r) →
  safe may_call Q h (sign id now : prog fullE _).
Proof.
  intros HQ. unfold sign. rewrite safe_try_bind. destruct (thumbprint _) as [kid|err]; cbn; [|by apply HQ].
  split; [done|]. intros [nonce|err]; cbn; (apply HQ; [done..|by eexists [_]]).
Qed.

Lemma exchange_is_exchange clientID assertion : is_exchange (exchange_request cfg clientID assertion) = true.
Proof. by vm_compute. Qed.
Lemma answered_token clientID response body token clientID' lifetime :
  answered clientID response body = Answered token clientID' lifetime →
  clientID' = clientID ∧ token ≠ "" ∧ answered "" response body = Answered token "" lifetime.
Proof.
  unfold answered. destruct (bool_decide (answer_status response = 200)); [|repeat case_match; done].
  destruct (negb _); [done|].
  destruct (Unmarshal (into_struct false oauthToken_fields) (mkOauthToken "" "" 0) body) as [t|]; [|done].
  destruct (_ || _ || _) eqn:Hc; [done|]. intros [= <- <- <-].
  apply orb_false_iff in Hc as [[Ht%bool_decide_eq_false _]%orb_false_iff _]. done.
Qed.

Lemma suffix_step h h' X (e : fullE X) x : h `suffix_of` h' → h `suffix_of` Ev e x :: h'.
Proof. intros [l ->]. by exists (Ev e x :: l). Qed.

Definition may_exchange h (now : Time) : Prop :=
  last_clock h = Some now ∧ ∀ until, backed_off h = Some until → until ≤ now.

Lemma send_safe Q h now :
  may_exchange h now →
  (∀ h' reason retry err, h `suffix_of` h' → last_clock h' = Some now → Q h' (FailedFor reason retry err)) →
  (∀ h' token clientID lifetime, h `suffix_of` h' → last_clock h' = Some now → backed_off h' = None →
    obtained h' token clientID now lifetime → token ≠ "" → Q h' (Answered token clientID lifetime)) →
  safe may_call Q h (send cfg now).
Proof.
  intros [Hnow Hback] Hfailed Hok. unfold send. rewrite safe_bind. apply readIdentity_safe.
  intros h1 [id|err] Hc1 Hb1 Hs1; [|apply Hfailed; congruence]. rewrite safe_bind. apply sign_safe.
  intros h2 [assertion|err] Hc2 Hb2 Hs2; [|apply Hfailed; [by etrans|congruence]].
  assert (h `suffix_of` h2) as Hs by by etrans. split; [done|]. intros [[]|err]; cbn.
  2: { apply Hfailed; [by apply suffix_step|cbn; congruence]. }
  split.
  { left. split; [done|]. exists now. split; [cbn; congruence|]. intros u. rewrite Hb2, Hb1. apply Hback. }
  intros [response|err]; cbn; [|apply Hfailed; [by do 2 apply suffix_step|cbn; congruence]].
  destruct (read_limited tokenAnswerBytes response) as [body|err] eqn:Hbody; cbn.
  2: { apply Hfailed; [by do 2 apply suffix_step|cbn; congruence]. }
  destruct (answered _ response body) as [token clientID lifetime|] eqn:Ha.
  2: { apply Hfailed; [by do 2 apply suffix_step|cbn; congruence]. }
  apply answered_token in Ha as (-> & Hne & Ha).
  assert (token_answer (Ok response) = Some (token, lifetime)) as Hta by (cbn; by rewrite Hbody, Ha).
  apply Hok; [by do 2 apply suffix_step|cbn; congruence| | |done].
  - cbn -[is_exchange token_answer exchange_request]. by rewrite exchange_is_exchange, Hta.
  - eexists [], _, assertion, response. split; [done|]. split; [done|]. cbn. by rewrite Hc2, Hc1.
Qed.

Lemma exchange_safe h now s :
  may_exchange h now → keeps h s →
  safe may_call (λ h' '(ok, s'), keeps h' s' ∧ last_clock h' = Some now ∧
    (ok = true → live h' (source_token s') (source_clientID s'))) h (exchange cfg now s).
Proof.
  intros Hm [Hf Ht]. unfold exchange. rewrite safe_bind. apply send_safe; [done|..].
  - intros h' reason retry err [l ->] Hc. cbn. split; [done|]. intros []. cbn. split_and!; [|done|done]. split; cbn.
    + split; [by eexists _, _|done].
    + intros Hne. destruct (Ht Hne) as (at_ & lt & Ho & ?). exists at_, lt.
      split; [by apply (obtained_later _ _ _ _ _ (_ :: l))|done].
  - intros h' token clientID lifetime _ Hc Hb Ho Hne. cbn. split_and!; [|done|].
    + split; [done|]. intros _. by exists now, lifetime.
    + intros _. exists now, lifetime, now. split_and!; [done..|lia].
Qed.

Lemma keeps_live h s now :
  keeps h s → last_clock h = Some now → source_token s ≠ "" → now < source_refresh s ∨ now < source_expiry s →
  live h (source_token s) (source_clientID s).
Proof.
  intros [_ Ht] Hnow Hne Hlive. destruct (Ht Hne) as (at_ & lifetime & Ho & He & Hr).
  exists at_, lifetime, now. split_and!; [done..|]. intros Hpos Hmax.
  destruct Hlive as [Hlive|Hlive]; [|lia]. rewrite Hr, int64_small in Hlive by (unfold minInt64; lia).
  pose proof (Z.quot_le_upper_bound (lifetime * 2) 3 lifetime). lia.
Qed.

Lemma held_live h s now token clientID :
  keeps h s → last_clock h = Some now → held now s = Ok (token, clientID) → live h token clientID.
Proof.
  intros Hk Hnow. unfold held. destruct (_ && _) eqn:Hc; [|by destruct (source_failed s)].
  apply andb_true_iff in Hc as [Hne%negb_true_iff%bool_decide_eq_false He%bool_decide_eq_true]. intros [= <- <-].
  eapply keeps_live; eauto.
Qed.

(** What is answered to present is live. *)
Definition credited h (answer : result (string * string) * source) : Prop :=
  keeps h answer.2 ∧ ∀ token clientID, answer.1 = Ok (token, clientID) → live h token clientID.

Lemma credential_safe h s : keeps h s → safe may_call credited h (credential cfg s).
Proof.
  intros Hk. split; [done|]. intros now. change (safe may_call credited (Ev (InL SourceNow : fullE _) now :: h) (credential_at cfg now s)).
  assert (keeps (Ev (InL SourceNow : fullE _) now :: h) s) as Hk' by by apply keeps_quiet.
  unfold credential_at. destruct (_ && _) eqn:Hc.
  { apply andb_true_iff in Hc as [Hne%negb_true_iff%bool_decide_eq_false He%bool_decide_eq_true].
    split; [done|]. intros token clientID [= <- <-]. eapply keeps_live; eauto. }
  destruct (bool_decide (now < source_until s)) eqn:Hu; [|apply bool_decide_eq_false in Hu].
  { split; [done|]. intros token clientID. by apply held_live. }
  rewrite safe_bind. eapply safe_mono, exchange_safe; [|split; [done|]|done].
  - intros h' [[] s'] (Hks & Hnow & Hl); cbn; (split; [done|]); cbn; [|intros token clientID; by apply held_live].
    intros token clientID [= <- <-]. auto.
  - cbn. destruct Hk as [Hf _]. unfold failing in Hf. destruct (source_failed s).
    + destruct Hf as [_ ->]. intros u [= <-]. lia.
    + by rewrite Hf.
Qed.
(** ** The transport *)
Lemma headers_presents headers clientIDHeader request token clientID :
  headers = wire_headers (authorized clientIDHeader request token clientID) → headers !! "Authorization" ≠ None.
Proof.
  intros ->. unfold authorized. cbn. case_bool_decide; [by rewrite lookup_insert_eq|].
  destruct (decide (clientIDHeader = "Authorization")) as [->|Hne]; [by rewrite lookup_insert_eq|].
  by rewrite lookup_insert_ne, lookup_insert_eq by done.
Qed.

(** A request that presents a live token is allowed, and changes nothing of the source. *)
Lemma present_safe {A} Q h s clientIDHeader request sent token clientID (k : result wireResponse → prog fullE A) :
  keeps h s → live h token clientID → wire_headers request = wire_headers (authorized clientIDHeader sent token clientID) →
  (∀ h' response, keeps h' s → safe may_call Q h' (k response)) →
  safe may_call Q h (response ← call (RoundTrip request); k response).
Proof.
  intros Hk Hl Hr HQ. split; [right; by exists token, clientID, clientIDHeader, sent|].
  intros response. apply HQ, keeps_quiet; [|done]. cbn. unfold is_exchange. apply bool_decide_eq_false.
  by eapply headers_presents.
Qed.

Lemma Invalidate_keeps h s token : keeps h s → keeps h (Invalidate token s).
Proof. intros [Hf Ht]. unfold Invalidate. case_bool_decide; split; done. Qed.

Lemma roundTrip_safe h s clientIDHeader request getBody :
  keeps h s → safe may_call (λ h' answer, keeps h' answer.2) h (roundTrip cfg clientIDHeader request getBody s).
Proof.
  intros Hk. unfold roundTrip. rewrite safe_bind. eapply safe_mono, credential_safe; [|done].
  intros h1 [presented s1] [Hk1 Hl1]. destruct presented as [[token clientID]|err]; [|done].
  eapply present_safe; [done|by apply Hl1|done|]. intros h2 response Hk2. destruct response as [refused|err]; [|done].
  destruct (negb (bool_decide (answer_status refused = 401))); [done|].
  destruct (_ && _); [done|].
  rewrite safe_bind. eapply safe_mono, credential_safe; [|by apply Invalidate_keeps].
  intros h3 [fresh s3] [Hk3 Hl3]. destruct fresh as [[fresh freshClientID]|err]; [|done].
  destruct (bool_decide (fresh = token)); [done|].
  destruct getBody as [[body|err]|]; [|done|]; (eapply present_safe; [done|by apply Hl3|done|]; by intros h4 again Hk4).
Qed.

Lemma with_streak_keeps h s f : keeps h s → keeps h (with_streak f s).
Proof. intros [Hf Ht]. by split. Qed.

Lemma Carry_safe h s clientIDHeader request getBody :
  keeps h s → safe may_call (λ h' answer, keeps h' answer.2) h (Carry cfg clientIDHeader request getBody s).
Proof.
  intros Hk. unfold Carry. rewrite safe_bind. eapply safe_mono, roundTrip_safe; [|done].
  intros h' [response s'] Hk'. cbn in Hk'. rewrite safe_bind.
  assert (safe may_call (λ h'' s'', keeps h'' s'') h' (observe response s')) as Ho.
  { destruct response as [response|err]; [|done]. unfold observe.
    destruct (bool_decide (500 ≤ _)); [done|]. destruct (bool_decide (_ = 401)); [|by apply with_streak_keeps].
    split; [done|]. intros now. by apply with_streak_keeps, keeps_quiet. }
  eapply safe_mono, Ho. done.
Qed.

Lemma identify_safe h s : keeps h s → safe may_call keeps h (identify cfg s).
Proof.
  intros Hk. split; [done|]. intros [[]|err]; [|by apply keeps_quiet].
  change (safe may_call keeps (Ev (InR (NewRequest "GET" (Config_IdentityURL cfg)) : fullE _) (Ok tt) :: h)
    ('(_, s) ← Carry cfg "" (mkWireRequest "GET" (Config_IdentityURL cfg) ∅ None) None s; mret s)).
  rewrite safe_bind. eapply safe_mono, Carry_safe; [|by apply keeps_quiet]. by intros h' [r s'].
Qed.

Lemma use_safe ops h s : keeps h s → safe may_call keeps h (use ops s).
Proof.
  revert h s. induction ops as [|o ops IH]; intros h s Hk; [done|]. cbn [use]. rewrite safe_bind.
  apply safe_mono with keeps; [by auto|]. destruct o; cbn [use_one].
  - unfold Token. rewrite !safe_bind. eapply safe_mono, credential_safe; [|done]. by intros h' [r s'] [? _].
  - by apply Invalidate_keeps.
  - rewrite safe_bind. eapply safe_mono, Carry_safe; [|done]. by intros h' [r s'].
  - by apply identify_safe.
Qed.

(** C20: Over any uses of a token source, whatever garam, the files and the clock answer, an exchange is sent only once
the time the last failed one named has come, and every other request presents a token garam answered an exchange of
the client identifier beside it, before the end of the lifetime garam gave it. *)
Theorem tokens_presented_live (ops : list op) : safe may_call (λ _ _, True) [] (use ops NewSource).
Proof. eapply safe_mono, use_safe; [done|]. by split. Qed.
End spec.

(** ** A lifetime past the duration's range *)
Section overflow.
Context `{SG : Signing}.

(** A lifetime of more seconds than a duration holds wraps: the token is past its expiry as it is answered. *)
Lemma lifetime_wraps seconds :
  9223372036 < seconds ≤ 18446744073 → int64 (seconds * Second) < 0.
Proof.
  intros H. unfold int64, Second. rewrite <- (Z_mod_plus_full _ (-1)), Z.mod_small; lia.
Qed.
End overflow.
End MachineTokenSpec.
