(* ===== verification/Certificate.v ===== *)
(** The key pair a server serves from two files ([src/internal/certificate/reloader.go]), read again when either
    changes, and what a pair that does not load leaves in service. *)
From S2P Require Import Prelude GoStd Errors Types.

Module Certificate.

(** What is read of the files: a modification time, and the pair [tls.LoadX509KeyPair] loads. *)
Inductive filesE (pair : Type) : Type → Type :=
| Stat (path : string) : filesE pair (result Time)
| LoadX509KeyPair (certFile keyFile : string) : filesE pair (result pair).
Arguments Stat {pair} path.
Arguments LoadX509KeyPair {pair} certFile keyFile.

Section reloader.
Context {pair : Type}.
Context (certFile keyFile : string).

(** [Reloader], [zeroStamp] the stamp before the first load. *)
Record Reloader := mkReloader { current : option pair; stamp : option (Time * Time); lastErr : option error }.
Definition emptyReloader : Reloader := mkReloader None None None.

Section calls.
Context {E : Type → Type} `{!SubEvent (filesE pair) E}.

Definition stamps : prog E (result (Time * Time)) :=
  cert ←? call (Stat certFile : filesE pair _) wrap (λ err, Wrapf "stat certificate file: " err "");
  key ←? call (Stat keyFile : filesE pair _) wrap (λ err, Wrapf "stat certificate file: " err "");
  mret (Ok (cert, key)).

Definition reloadLocked (r : Reloader) : prog E (option error * Reloader) :=
  stamped ← stamps;
  match stamped with
  | Err err => mret (Some err, r)
  | Ok stamp =>
    loaded ← call (LoadX509KeyPair certFile keyFile);
    match loaded with
    | Err err => mret (Some (Wrapf "load certificate: " err ""), r)
    | Ok pair => mret (None, mkReloader (Some pair) (Some stamp) (lastErr r))
    end
  end.

Definition NewReloader : prog E (result Reloader) :=
  '(err, r) ← reloadLocked emptyReloader;
  match err with Some err => mret (Err err) | None => mret (Ok r) end.

Definition GetCertificate (r : Reloader) : prog E (option pair * Reloader) :=
  stamped ← stamps;
  match stamped with
  | Ok stamped =>
    if bool_decide (Some stamped = stamp r) then mret (current r, r)
    else
    '(err, r) ← reloadLocked r;
    mret (current r, mkReloader (current r) (stamp r) err)
  | Err _ => mret (current r, r)
  end.
End calls.

Definition Err_ (r : Reloader) : option error := lastErr r.

(** The reloader used for [n] handshakes: the pairs they were served. *)
Fixpoint serve {E} `{!SubEvent (filesE pair) E} (n : nat) (r : Reloader) : prog E (list (option pair)) :=
  match n with
  | O => mret []
  | S n => '(served, r) ← GetCertificate r; rest ← serve n r; mret (served :: rest)
  end.
Definition run_server (n : nat) : prog (filesE pair) (result (list (option pair))) :=
  r ←? NewReloader; served ← serve n r; mret (Ok served).
End reloader.
End Certificate.
