(* ===== verification/Concurrent.v ===== *)
(** The service under concurrent requests: each request is a thread that runs its handler's program
    over the shared store, one call at a time, interleaved in any way, its calls outside the store
    answered in any way, and an agent's lock held by at most one thread. A thread's proof is made
    once, against what the others may do between its calls ([rely]) and what it must do itself
    ([permitted]); every pool of such threads then keeps the store's invariant and never deadlocks. *)
From S2P Require Import Prelude GoStd Errors Types Validation Repository Memory MemoryInvariant Samples StoreHistory Feed StoreSpec.
Import Validation Memory MemoryInvariant StoreHistory.

Module Concurrent.

Section concurrent.
Context `{K8s : Kubernetes, SE : !SemanticEquality}.
Context {X : Type → Type}.
Abbreviation program := (prog (repoE +' X)).
Implicit Types (held : option GRN) (m : mem).

(** ** The invariant *)

(** The activation garam answered last for an agent, or none. *)
Definition latest_of m (agent : GRN) : string := default "" (latest m !! agent).

(** While a stop holds an agent, its latest activation is the one the stop deactivates: nothing was
activated under the stop. *)
Definition stop_fences m : Prop :=
  ∀ agent s, current_stop_locked agent m = Some s → latest_of m agent = Stop_ActivationID s.

Record inv m : Prop := {
  inv_wf : wf m;
  inv_traced : StoreSpec.traced m;
  inv_fences : stop_fences m;
}.

Lemma NewMemory_inv : inv NewMemory.
Proof. split; [apply NewMemory_wf|apply StoreSpec.NewMemory_traced|done]. Qed.

Lemma inv_no_stops m : wf m → StoreSpec.traced m → stops m = ∅ → inv m.
Proof.
  intros Hwf Ht Hs. split; [done..|]. intros agent s. unfold current_stop_locked. by rewrite Hs.
Qed.

(** ** What the others may do, and what a thread must do *)

(** What a thread that holds [held] may find changed between two of its calls: the history grew,
and nobody activated or stopped the agent whose lock it holds. *)
Record rely held m m' : Prop := {
  rely_extends : extends m m';
  rely_latest agent : held = Some agent → latest m' !! agent = latest m !! agent;
  rely_stop agent :
  held = Some agent → current_stop_locked agent m = None → current_stop_locked agent m' = None;
}.

#[export] Instance rely_pre held : PreOrder (rely held).
Proof.
  split; [by split|]. intros m1 m2 m3 [E1 L1 S1] [E2 L2 S2]. split; [by etrans|..]; intros agent Ha.
  - rewrite L2 by done. by apply L1.
  - intros. apply S2, S1; done.
Qed.

(** What a call must satisfy: it is one the interface takes, an activation is recorded and an agent
stopped only under that agent's lock, the first only while no stop holds the agent and the
second with its latest activation, and a thread holds one lock at a time. *)
Definition permitted held m {A} (e : repoE A) : Prop :=
  legal m e ∧
  match e with
  | RecordActivation agent _ _ => held = Some agent ∧ current_stop_locked agent m = None
  | RecordStop s => held = Some (Stop_Agent s) ∧ Stop_ActivationID s = latest_of m (Stop_Agent s)
  | Lock _ => held = None
  | Unlock agent => held = Some agent
  | _ => True
  end.

Definition held_after held {A} (e : repoE A) : option GRN :=
  match e with Lock agent => Some agent | Unlock _ => None | _ => held end.

(** ** A thread's proof *)
Fixpoint guarded {A} (Φ : option GRN → mem → A → Prop) held (p : program A) m : Prop :=
  match p with
  | Ret a => Φ held m a
  | Vis (InL e) k =>
    ∀ m', inv m' → rely held m m' →
    permitted held m' e ∧
    guarded Φ (held_after held e) (k (handle _ e m').1) (handle _ e m').2
  | Vis (InR e) k => ∀ x, guarded Φ held (k x) m
  end.

(** A claim on a result other threads cannot falsify. *)
Definition stable {A} (Φ : option GRN → mem → A → Prop) : Prop :=
  ∀ held m m' a, rely held m m' → Φ held m a → Φ held m' a.

Lemma guarded_rely {A} Φ held (p : program A) m m' :
  stable Φ → rely held m m' → guarded Φ held p m → guarded Φ held p m'.
Proof.
  intros HΦ. revert m. induction p as [a|Y [e|e] k IH]; intros m Hr; cbn.
  - by apply HΦ.
  - intros Hg m'' Hi Hr'. apply Hg; [done|by etrans].
  - intros Hg x. by eapply IH.
Qed.

Lemma guarded_bind {A B} Φ held (p : program A) (k : A → program B) m :
  guarded (λ held m a, guarded Φ held (k a) m) held p m → guarded Φ held (mbind k p) m.
Proof.
  revert held m. induction p as [a|Y [e|e] k' IH]; intros held m; cbn.
  - done.
  - intros Hg m' Hi Hr. destruct (Hg m' Hi Hr) as [? ?]. split; [done|]. by apply IH.
  - intros Hg x. by apply IH.
Qed.

Lemma guarded_mono {A} (Φ Ψ : option GRN → mem → A → Prop) held (p : program A) m :
  (∀ held m a, Φ held m a → Ψ held m a) → guarded Φ held p m → guarded Ψ held p m.
Proof.
  intros HΦ. revert held m. induction p as [a|Y [e|e] k IH]; intros held m; cbn; [auto|..].
  - intros Hg m' Hi Hr. destruct (Hg m' Hi Hr) as [? ?]. split; [done|]. by apply IH.
  - intros Hg x. by apply IH.
Qed.

(** ** The effect of one call on what the others rely on *)
Lemma current_stop_stable agent m m' :
  stops m' = stops m → current_stop_locked agent m' = current_stop_locked agent m.
Proof. unfold current_stop_locked. by intros ->. Qed.

Lemma current_stop_entry agent m s :
  current_stop_locked agent m = Some s →
  ∃ k, stops m !! k = Some s ∧ Stop_Agent s = agent ∧ Stop_Start s = None.
Proof.
  intros [Hs [k Hk]]%find_value_Some.
  apply andb_true_iff in Hs as [Ha%bool_decide_eq_true Hst%bool_decide_eq_true]. by exists k.
Qed.

Lemma record_start_stop agent agent' end_ m :
  wf m → current_stop_locked agent' m = None →
  current_stop_locked agent' (record_start agent end_ m).2 = None.
Proof.
  intros Hwf Hn. unfold record_start. case_match; [done|].
  destruct (current_stop_locked agent m) as [c|] eqn:Hc; [|done]. cbn.
  apply eq_None_not_Some. intros [s (k & Hk & Ha & Hst)%current_stop_entry]. cbn in Hk.
  apply lookup_insert_cases in Hk as [[<- <-]|[_ Hk]]; [done|].
  exact (current_stop_locked_None _ _ _ _ Hn Hk Ha Hst).
Qed.

Lemma record_deactivation_stop key agent m :
  wf m → current_stop_locked agent m = None → current_stop_locked agent (record_deactivation key m).2 = None.
Proof.
  intros Hwf Hn. unfold record_deactivation. destruct (stops m !! key) as [s|] eqn:Hs; [|done].
  cbn. pose proof (proj1 (wf_stops _ Hwf) _ _ Hs) as Hk.
  pose proof (Feed.current_stop_rewrite m key s
    (mkStop (Stop_Agent s) (Stop_Key s) (Stop_Binding s) (Stop_ActivationID s) true (Stop_Start s))
    agent Hwf Hs Hk eq_refl eq_refl) as Hd.
  rewrite Hn, (bool_decide_false (None ≠ None)) in Hd by (intros Hne; by apply Hne).
  apply bool_decide_eq_false, dec_stable in Hd. exact Hd.
Qed.

(** Only [RecordStop] stops an agent. *)
Definition stops_agent agent {A} (e : repoE A) : Prop :=
  match e with RecordStop s => Stop_Agent s = agent | _ => False end.

Lemma handle_unstopped agent m A (e : repoE A) :
  wf m → ¬ stops_agent agent e → current_stop_locked agent m = None →
  current_stop_locked agent (handle A e m).2 = None.
Proof.
  intros Hwf Hne Hn. destruct e; cbn [handle]; try done;
    try (rewrite <- Hn; apply current_stop_stable;
    unfold publish_profile_version, publish_once, configure, begin_creation, register_creation,
    append, fail_creation, register_placement, insert_activation, record_activation,
    open_recovery, prepare_recovery, finalize_recovery;
    repeat case_match; simplify_eq/=; congruence).
  - unfold record_stop. destruct (stops m !! Stop_Key s); [done|].
    destruct (current_stop_locked (Stop_Agent s) m); [done|]. cbn.
    apply eq_None_not_Some. intros [c (k & Hk & Ha & Hst)%current_stop_entry]. cbn in Hk.
    apply lookup_insert_cases in Hk as [[<- <-]|[_ Hk]]; [by destruct Hne|].
    exact (current_stop_locked_None _ _ _ _ Hn Hk Ha Hst).
  - by apply record_deactivation_stop.
  - by apply record_start_stop.
Qed.

(** Only [RecordActivation] moves an agent's latest activation. *)
Definition activates_agent agent {A} (e : repoE A) : Prop :=
  match e with RecordActivation agent' _ _ => agent' = agent | _ => False end.

Lemma handle_latest agent m A (e : repoE A) :
  ¬ activates_agent agent e → latest (handle A e m).2 !! agent = latest m !! agent.
Proof.
  intros Hne. destruct e; cbn [handle]; try done;
    try (unfold publish_profile_version, publish_once, configure, begin_creation, register_creation,
    append, fail_creation, register_placement, insert_activation, open_recovery,
    prepare_recovery, finalize_recovery, record_stop, record_deactivation, record_start;
    repeat case_match; simplify_eq/=; congruence).
  unfold record_activation. repeat case_match; [done| |done].
  cbn. by rewrite lookup_insert_ne.
Qed.

(** A permitted call does to an agent whose lock the thread does not hold nothing that lock's
holder relies on. *)
Lemma handle_rely held other m A (e : repoE A) :
  inv m → permitted held m e → (∀ agent, held = Some agent → other ≠ Some agent) →
  rely other m (handle A e m).2.
Proof.
  intros [Hwf _ _] [_ Hp] Hne. split; [by apply handle_extends|..]; intros agent ->.
  - apply handle_latest. intros Ha. destruct e; cbn in Ha; try done.
    destruct Hp as [-> _]. subst. by eapply Hne.
  - apply handle_unstopped; [done|]. intros Ha. destruct e; cbn in Ha; try done.
    destruct Hp as [-> _]. subst. by eapply Hne.
Qed.

(** ** The invariant is kept *)
Lemma current_stop_of_entry agent m k s :
  wf m → stops m !! k = Some s → Stop_Agent s = agent → Stop_Start s = None →
  current_stop_locked agent m = Some s.
Proof.
  intros Hwf Hk Ha Hst. apply current_stop_locked_Some; [apply Hwf|].
  by rewrite (proj1 (wf_stops _ Hwf) _ _ Hk).
Qed.

(** The stops and latest activations a call leaves alone fence what they fenced. *)
Lemma stop_fences_same m m' :
  stops m' = stops m → latest m' = latest m → stop_fences m → stop_fences m'.
Proof.
  intros Hs Hl Hf agent s. rewrite (current_stop_stable _ _ _ Hs). unfold latest_of. rewrite Hl.
  apply Hf.
Qed.

Lemma handle_fences held m A (e : repoE A) :
  inv m → permitted held m e → stop_fences (handle A e m).2.
Proof.
  intros [Hwf _ Hf] [_ Hp]. destruct e; cbn [handle]; try exact Hf;
    try (apply (stop_fences_same m); [| |done];
    unfold publish_profile_version, publish_once, configure, begin_creation, register_creation,
    append, fail_creation, register_placement, insert_activation, open_recovery,
    prepare_recovery, finalize_recovery;
    repeat case_match; simplify_eq/=; congruence).
  - destruct Hp as [_ Hn]. unfold record_activation. destruct (agent_activations agent m !! _); [|done].
    case_match; [done|]. intros agent' s. rewrite (current_stop_stable _ m) by done.
    intros Hs. unfold latest_of. cbn. rewrite lookup_insert_ne; [by apply Hf|]. congruence.
  - destruct Hp as [_ Hl]. unfold record_stop. destruct (stops m !! Stop_Key s); [done|].
    destruct (current_stop_locked (Stop_Agent s) m); [done|]. intros agent c (k & Hk & Ha & Hst)%current_stop_entry.
    unfold latest_of. cbn in *. apply lookup_insert_cases in Hk as [[<- <-]|[_ Hk]].
    + cbn in *. subst agent. by rewrite Hl.
    + apply Hf. by eapply current_stop_of_entry.
  - unfold record_deactivation. destruct (stops m !! key) as [s|] eqn:Hs; [|done].
    intros agent c (k & Hk & Ha & Hst)%current_stop_entry. unfold latest_of. cbn in *.
    apply lookup_insert_cases in Hk as [[<- <-]|[_ Hk]]; cbn in *;
      apply Hf; by eapply current_stop_of_entry.
  - unfold record_start. destruct (stopEnds m !! _); [done|].
    destruct (current_stop_locked agent m) as [cur|]; [|done].
    intros agent' c (k & Hk & Ha & Hst)%current_stop_entry. unfold latest_of. cbn in *.
    apply lookup_insert_cases in Hk as [[<- <-]|[_ Hk]]; [done|].
    apply Hf. by eapply current_stop_of_entry.
Qed.

Lemma handle_inv held m A (e : repoE A) : inv m → permitted held m e → inv (handle A e m).2.
Proof.
  intros Hi Hp. pose proof Hi as [Hwf Ht _]. pose proof Hp as [Hl _]. split.
  - by apply handle_keeps.
  - by apply StoreSpec.traced_keeps.
  - by eapply handle_fences.
Qed.

(** A thread that runs alone makes only legal calls, keeps the invariant and ends as claimed. *)
Lemma guarded_run {A} Φ held (p : program A) m (outside_ : ∀ Y, X Y → Y) :
  let r := run (sum_handler handle (λ Y e m, (outside_ Y e, m))) p m in
  inv m → guarded Φ held p m → StoreSpec.calls m r.2 ∧ inv r.2 ∧ ∃ held', Φ held' r.2 r.1.
Proof.
  cbn zeta. revert held m. induction p as [a|Y [e|e] k IH]; intros held m Hi Hg; cbn in *.
  - split_and!; [constructor|done|by exists held].
  - destruct (Hg m Hi) as [Hp Hk]; [done|]. assert (inv (handle Y e m).2) as Hi' by (by eapply handle_inv).
    pose proof (StoreSpec.calls_step m m Y e (StoreSpec.calls_refl m) (proj1 Hp)) as Hs.
    destruct (handle Y e m) as [x m']. cbn in *.
    destruct (IH x (held_after held e) m') as (Hc & ? & ?); [done..|]. split_and!; [|done..].
    by eapply StoreSpec.calls_trans.
  - by eapply IH.
Qed.

(** ** Pools of requests *)
Record thread := Thread { held_of : option GRN; result_of : Type; program_of : program result_of }.
Abbreviation pool := (list thread * mem)%type.

(** [sync.Mutex]: a lock is taken only while nobody holds it. *)
Definition free (ts : list thread) {A} (e : repoE A) : Prop :=
  match e with
  | Lock agent => ∀ i t, ts !! i = Some t → held_of t ≠ Some agent
  | _ => True
  end.

(** [request] are the programs a request may run: one arrives, or one that is running makes its
next call, of the store or outside it. *)
Inductive step (request : ∀ A, program A → Prop) : pool → pool → Prop :=
| step_arrive ts m A (p : program A) :
  request A p → step request (ts, m) (ts ++ [Thread None A p], m)
| step_store ts m i held A Y (e : repoE Y) (k : Y → program A) :
  ts !! i = Some (Thread held A (Vis (InL e) k)) → free ts e →
  step request (ts, m)
  (<[i := Thread (held_after held e) A (k (handle Y e m).1)]> ts, (handle Y e m).2)
| step_outside ts m i held A Y (e : X Y) (k : Y → program A) x :
  ts !! i = Some (Thread held A (Vis (InR e) k)) →
  step request (ts, m) (<[i := Thread held A (k x)]> ts, m).

(** What is asked of a request: whatever store it arrives at, every call it makes is permitted, and
it ends holding no lock. *)
Definition well_behaved {A} (p : program A) : Prop :=
  ∀ m, guarded (λ held _ _, held = None) None p m.

(** A pool whose store is sound, whose threads go on as permitted and whose locks are each held
once. *)
Record sound (c : pool) : Prop := {
  sound_inv : inv c.2;
  sound_threads i t : c.1 !! i = Some t → guarded (λ held _ _, held = None) (held_of t) (program_of t) c.2;
  sound_locks i j t u agent :
  c.1 !! i = Some t → c.1 !! j = Some u → held_of t = Some agent → held_of u = Some agent → i = j;
}.

Lemma ends_unlocked_stable {A} : @stable A (λ held _ _, held = None).
Proof. by intros ????. Qed.

Lemma sound_empty : sound ([], NewMemory).
Proof. split; [apply NewMemory_inv|done..]. Qed.

Lemma sound_store ts m i held A Y (e : repoE Y) (k : Y → program A) :
  sound (ts, m) → ts !! i = Some (Thread held A (Vis (InL e) k)) → free ts e →
  sound (<[i := Thread (held_after held e) A (k (handle Y e m).1)]> ts, (handle Y e m).2).
Proof.
  intros [Hi Ht Hl] Hth Hfree. cbn in *.
  destruct (Ht _ _ Hth m Hi) as [Hp Hg]; [done|]. cbn in Hp, Hg. split; cbn.
  - by eapply handle_inv.
  - intros j t [(<- & <- & _)|[Hne Hj]]%list_lookup_insert_Some; [exact Hg|].
    eapply guarded_rely; [apply ends_unlocked_stable| |by apply (Ht j)].
    eapply handle_rely; [done..|]. intros agent Ha Hu. apply Hne. by eapply Hl.
  - assert (∀ j t agent, j ≠ i → ts !! j = Some t → held_of t = Some agent →
      held_after held e ≠ Some agent) as Hothers.
    { intros j t agent Hne Hj Hta Hea. destruct Hp as [_ Hp].
    destruct e; cbn in *; try (apply Hne; by eapply Hl).
    simplify_eq. by eapply Hfree. }
    intros j j' t u agent [(<- & <- & _)|[Hne Hj]]%list_lookup_insert_Some
      [(<- & <- & _)|[Hne' Hj']]%list_lookup_insert_Some Hta Hua; cbn in *; [done| | |by eapply Hl].
    + by edestruct (Hothers j' u).
    + by edestruct (Hothers j t).
Qed.

Lemma sound_step request c c' :
  (∀ A p, request A p → well_behaved p) → sound c → step request c c' → sound c'.
Proof.
  intros Hreq Hs Hstep. destruct Hstep as [ts m A p Hp|ts m i held A Y e k Hth Hfree|
    ts m i held A Y e k x Hth]; [| by apply sound_store|].
  - destruct Hs as [Hi Ht Hl]. split; cbn in *; [done| |].
    + intros i t [Hj|[_ ->]]%lookup_snoc_Some; [by eapply Ht|]. by apply (Hreq A).
    + intros i j t u agent [Hj|[_ ->]]%lookup_snoc_Some [Hj'|[_ ->]]%lookup_snoc_Some ??;
        [by eapply Hl|done..].
  - destruct Hs as [Hi Ht Hl]. split; cbn in *; [done| |].
    + intros j t [(<- & <- & _)|[Hne Hj]]%list_lookup_insert_Some; [|by eapply Ht].
      exact (Ht _ _ Hth x).
    + intros j j' t u agent [(<- & <- & _)|[Hne Hj]]%list_lookup_insert_Some
        [(<- & <- & _)|[Hne' Hj']]%list_lookup_insert_Some ??; cbn in *;
        [done|by eapply (Hl i _ _ _ agent Hth)|by eapply (Hl _ i _ _ agent)|by eapply Hl].
Qed.

Lemma sound_reachable request c :
  (∀ A p, request A p → well_behaved p) → rtc (step request) ([], NewMemory) c → sound c.
Proof.
  intros Hreq. generalize sound_empty. intros Hs Hr. revert Hs.
  induction Hr as [|c c1 c2 Hstep Hr IH]; [done|]. intros Hs. by eapply IH, sound_step.
Qed.

(** ** No deadlock *)

(** A thread's next call goes to the store and can be made, or goes outside it. *)
Definition able ts (t : thread) : Prop :=
  match program_of t with
  | Vis (InL e) _ => free ts e
  | _ => False
  end.
Definition outside (t : thread) : Prop :=
  match program_of t with Vis (InR _) _ => True | _ => False end.
Definition ended (t : thread) : Prop :=
  match program_of t with Ret _ => True | _ => False end.

(** A thread that holds a lock waits for none, so whatever one waits for is not another's wait. *)
Lemma sound_progress ts m i t :
  sound (ts, m) → ts !! i = Some t → ¬ ended t →
  ∃ j u, ts !! j = Some u ∧ (able ts u ∨ outside u).
Proof.
  intros [Hi Ht _] Hth Hend. cbn in *. unfold able, outside, ended in *.
  destruct (program_of t) as [a|Y [e|e] k] eqn:Hp; [by destruct Hend| |].
  2: { exists i, t. rewrite Hp. auto. }
  assert (free ts e ∨ ∃ agent j u, ts !! j = Some u ∧ held_of u = Some agent) as [Hfree|Hheld].
  { destruct e; try (by left). destruct (decide (Exists (λ t, held_of t = Some agent) ts)) as [Hex|Hfree].
    - apply Exists_exists in Hex as (u & [j Hj]%list_elem_of_lookup & Hheld). right. by eauto.
    - left. intros j u Hj Hheld. apply Hfree, Exists_exists. exists u.
      split; [by eapply list_elem_of_lookup_2|done]. }
  { exists i, t. rewrite Hp. auto. }
  destruct Hheld as (agent & j & u & Hj & Hheld). exists j, u. split; [done|].
  specialize (Ht _ _ Hj). destruct u as [h B p]. cbn in *. subst h.
  destruct p as [b|Z [e'|e'] k']; cbn in Ht; [done| |by right]. left.
  destruct (Ht m Hi) as [[_ Hperm] _]; [done|]. by destruct e'.
Qed.
End concurrent.
End Concurrent.
