(* ===== verification/Requests.v ===== *)
(** Every request the service takes, and every route of the agents, the controllers and the console, run
    concurrently with any others: each makes only permitted
    calls, so in every interleaving the store stays well formed, its history is only appended to,
    every revision is authorized, nothing is activated under a stop, and nobody deadlocks. *)
From S2P Require Import Prelude GoStd Errors Types Validation Repository Memory MemoryInvariant Samples StoreHistory Feed StoreSpec Service Execution Distribution Console Concurrent.
Import Validation Memory MemoryInvariant StoreHistory Concurrent.

Module Requests.

Section requests.
Context `{K8s : Kubernetes, SE : !SemanticEquality}.
Context `{RJ : !Distribution.ResourcesJSON}.
Context {X : Type → Type} `{!SubEvent registrarE X, !SubEvent Execution.garamE X, !SubEvent Execution.serverE X,
    !SubEvent Distribution.proverE X, !SubEvent Distribution.distE X, !SubEvent Console.consoleE X}.
Abbreviation program := (prog (repoE +' X)).
Implicit Types (held : option GRN) (m : mem).

(** ** The rules of a thread's proof *)
Lemma guarded_ret {A} Φ held (a : A) m : Φ held m a → @guarded _ _ X A Φ held (mret a) m.
Proof. done. Qed.

Lemma guarded_call {A} Φ held (e : repoE A) m :
  (∀ m', inv m' → rely held m m' →
    permitted held m' e ∧ Φ (held_after held e) (handle A e m').2 (handle A e m').1) →
  @guarded _ _ X A Φ held (call e) m.
Proof. done. Qed.

Lemma guarded_outside {F A} `{!SubEvent F X} Φ held (e : F A) m :
  (∀ x, Φ held m x) → @guarded _ _ X A Φ held (call e) m.
Proof. done. Qed.

Lemma guarded_try {A B} Φ held (p : program (result A)) (k : A → program (result B)) m :
  guarded (λ held m r, match r with
  | Ok a => guarded Φ held (k a) m
  | Err e => Φ held m (Err e)
  end) held p m →
  guarded Φ held (try_bind p k) m.
Proof.
  intros Hg. apply guarded_bind. eapply guarded_mono; [|exact Hg]. by intros ?? [].
Qed.

Lemma guarded_try_wrap {A B} f Φ held (p : program (result A)) (k : A → program (result B)) m :
  guarded (λ held m r, match r with
  | Ok a => guarded Φ held (k a) m
  | Err e => Φ held m (Err (f e))
  end) held p m →
  guarded Φ held (try_wrap f p k) m.
Proof.
  intros Hg. apply guarded_bind. eapply guarded_mono; [|exact Hg]. by intros ?? [].
Qed.

(** The lock's holder finds it held; once it is given back, the thread holds none. *)
Lemma guarded_lock {A} Φ agent (p : program (result A)) m :
  (∀ m', inv m' → rely None m m' →
    guarded (λ held m r, held = Some agent ∧
      ∀ m', inv m' → rely (Some agent) m m' → Φ None m' r) (Some agent) p m') →
  guarded Φ None (Service.WithAgentLock agent p) m.
Proof.
  intros Hp. unfold Service.WithAgentLock. apply guarded_try, guarded_call. intros m1 Hi1 Hr1.
  split; [done|]. change (handle _ (Lock agent) m1) with (@Ok () tt, m1). cbn [held_after fst snd].
  apply guarded_bind. eapply guarded_mono; [|by apply Hp]. intros held m2 r [-> HΦ].
  apply guarded_bind, guarded_call. intros m3 Hi3 Hr3. split; [done|].
  change (handle _ (Unlock agent) m3).2 with m3. cbn [held_after]. apply guarded_ret. by apply HΦ.
Qed.

(** ** Facts other threads keep *)
Lemma published_rely held m m' org ref :
  published (profiles m) org ref → rely held m m' → published (profiles m') org ref.
Proof.
  intros [p [Hge Hp]%index_Some] [Hext _ _]. exists p. apply index_Some. split; [done|].
  by apply (ext_profiles _ _ Hext).
Qed.

Lemma published_handle A (e : repoE A) m org ref :
  inv m → published (profiles m) org ref → published (profiles (handle A e m).2) org ref.
Proof.
  intros [Hwf _ _] [p [Hge Hp]%index_Some]. exists p. apply index_Some. split; [done|].
  by apply (ext_profiles _ _ (handle_extends _ _ e Hwf)).
Qed.

Lemma profile_answered_published org ref m p :
  (handle _ (GetProfile org ref) m).1 = Ok p → published (profiles m) org ref.
Proof. intros Hp. eapply StoreSpec.get_profile_published. rewrite <- Hp. apply surjective_pairing. Qed.

Lemma current_stop_None agent m e :
  (handle _ (CurrentStop agent) m).1 = Err e → current_stop_locked agent m = None.
Proof. cbn. by destruct (current_stop_locked agent m). Qed.

Lemma latest_activation_of agent m :
  (handle _ (LatestActivation agent) m).1 =
  match latest m !! agent with Some id => Ok id | None => Err ErrNotFound end.
Proof. done. Qed.
End requests.

(** Takes one step of a request's program, its next call answered by the store as it then is. *)
Ltac guard_step :=
  lazymatch goal with
  | |- guarded _ _ (try_bind _ _) _ => apply guarded_try
  | |- guarded _ _ (try_wrap _ _ _) _ => apply guarded_try_wrap
  | |- guarded _ _ (mbind _ _) _ => apply guarded_bind
  | |- guarded _ _ (lift _) _ => apply guarded_ret
  | |- guarded _ _ (mret _) _ => apply guarded_ret
  | |- guarded _ _ (call (F:=repoE) _) _ =>
      apply guarded_call;
      let m := fresh "m" in let Hi := fresh "Hi" in let Hr := fresh "Hr" in
      intros m Hi Hr; cbn beta; split; [try (by split)|cbn [held_after]]
  | |- guarded _ _ (call _) _ => apply guarded_outside; intros ?
  | |- guarded _ _ (match ?x with _ => _ end) _ => destruct x eqn:?
  | |- match ?x with _ => _ end => destruct x eqn:?
  | |- let '(_, _) := ?x in _ => destruct x eqn:?
  end; cbn beta iota.
Ltac proceed := repeat (first [reflexivity | guard_step]).

Section well_behaved.
Context `{K8s : Kubernetes, SE : !SemanticEquality} {TJ : Execution.TimeJSON}.
Context `{RJ : !Distribution.ResourcesJSON}.
Context {X : Type → Type} `{!SubEvent registrarE X, !SubEvent Execution.garamE X, !SubEvent Execution.serverE X,
    !SubEvent Distribution.proverE X, !SubEvent Distribution.distE X, !SubEvent Console.consoleE X}.
Abbreviation well p := (@well_behaved _ _ X _ p).

Lemma PublishProfile_well org name s : well (Service.PublishProfile org name s).
Proof. intros m. unfold Service.PublishProfile. proceed. Qed.

Lemma PublishProfileVersion_well org p : well (Service.PublishProfileVersion org p).
Proof. intros m. unfold Service.PublishProfileVersion. proceed. Qed.

Lemma Publish_well input : well (Service.Publish input).
Proof. intros m. unfold Service.Publish. proceed. Qed.

Lemma PublishTemplate_well org t : well (Service.PublishTemplate org t).
Proof. intros m. unfold Service.PublishTemplate. proceed. Qed.

Lemma RecordStatus_well agent observed rendered : well (Service.RecordStatus agent observed rendered).
Proof. intros m. unfold Service.RecordStatus. proceed. Qed.

Lemma Execution_well org agent : well (Service.Execution org agent).
Proof. intros m. unfold Service.Execution. proceed. Qed.

(** What is read of the latest activation is what the store then holds. *)
Lemma latest_or_none_guarded agent held m :
  guarded (X:=X) (λ held' m' r, held' = held ∧ rely held m m' ∧
    ∀ id, r = Ok id → id = latest_of m' agent) held
  (Service.latest_or_none agent) m.
Proof.
  unfold Service.latest_or_none. apply guarded_bind, guarded_call. intros m1 Hi Hr.
  split; [by split|]. change (handle _ (LatestActivation _) m1).2 with m1.
  rewrite latest_activation_of. unfold latest_of.
  destruct (latest m1 !! agent) as [id|] eqn:Hl; cbn;
    (split; [done|]); (split; [done|]); intros ? [= <-]; by rewrite Hl.
Qed.

Lemma Stop_well input : well (Service.Stop input).
Proof.
  intros m. unfold Service.Stop, Service.inOrganization. proceed.
  apply guarded_lock. intros m1 Hi1 Hr1. apply guarded_try.
  eapply guarded_mono; [|apply latest_or_none_guarded]. intros held m2 [id|e] (-> & _ & Hid).
  - apply guarded_call. intros m3 Hi3 Hr3. split.
    + split; [done|]. split; [done|]. cbn. rewrite (Hid id) by done. unfold latest_of.
      by rewrite (rely_latest _ _ _ Hr3).
    + split; [done|]. intros. proceed.
  - split; [done|]. intros. proceed.
Qed.

Lemma Start_well input : well (Service.Start input).
Proof. intros m. unfold Service.Start, Service.inOrganization. proceed. Qed.

Lemma RecordRuntimeStatus_well agent report : well (Service.RecordRuntimeStatus agent report).
Proof. intros m. unfold Service.RecordRuntimeStatus. proceed. Qed.

Lemma OpenRecovery_well input : well (Service.OpenRecovery input).
Proof. intros m. unfold Service.OpenRecovery. proceed. Qed.

Lemma RecoveryOf_well org agent : well (Service.RecoveryOf org agent).
Proof. intros m. unfold Service.RecoveryOf. proceed. Qed.

Lemma ReportOperatorImages_well orgGRN operator images at_ :
  well (Service.ReportOperatorImages orgGRN operator images at_).
Proof. intros m. unfold Service.ReportOperatorImages. proceed. Qed.

(** A request that is one call the interface takes whatever it names. *)
Lemma call_well {A} (e : repoE A) :
  (∀ m, permitted None m e) → held_after None e = None → well (call e).
Proof. intros Hp Hh m. apply guarded_call. intros m' _ _. by split. Qed.

(** ** The requests whose calls depend on an earlier answer *)
Lemma embeddingKept_guarded input m (Φ : option GRN → mem → result () → Prop) held :
  (∀ m' r, inv m' → rely held m m' → Φ held m' r) →
  guarded (X:=X) Φ held (Service.embeddingKept input) m.
Proof.
  intros HΦ. unfold Service.embeddingKept. apply guarded_bind, guarded_call. intros m1 Hi Hr.
  split; [by split|]. change (handle _ (GetDefinition _) m1).2 with m1. cbn [held_after].
  repeat case_match; apply guarded_ret; auto.
Qed.

Lemma Configure_well input : well (Service.Configure input).
Proof.
  intros m. unfold Service.Configure. proceed.
  apply embeddingKept_guarded. intros m1 r Hi1 Hr1. destruct r; [|done]. proceed.
  split; [|done]. split; [|done]. cbn.
  eauto 10 using published_rely, published_handle, profile_answered_published.
Qed.

Lemma CreateAgent_well input : well (Service.CreateAgent input).
Proof.
  intros m. unfold Service.CreateAgent. proceed.
  split; [|done]. split_and!; [cbn|done|done|done].
  eauto 10 using published_rely, published_handle, profile_answered_published.
Qed.

(** ** The activation of a generation *)

(** Under its lock an agent found not stopped stays so. *)
Lemma unstopped_rely agent m m' :
  current_stop_locked agent m = None → rely (Some agent) m m' → current_stop_locked agent m' = None.
Proof. intros Hn Hr. by eapply rely_stop. Qed.

Lemma unstopped_handle agent m A (e : repoE A) :
  inv m → ¬ stops_agent agent e → current_stop_locked agent m = None →
  current_stop_locked agent (handle A e m).2 = None.
Proof. intros [Hwf _ _]. by apply handle_unstopped. Qed.

Lemma stopped_guarded agent held m :
  guarded (X:=X) (λ held' m r, held' = held ∧ ∀ u, r = Ok u → current_stop_locked agent m = None) held
  (Service.stopped agent) m.
Proof.
  unfold Service.stopped. apply guarded_bind, guarded_call. intros m1 Hi Hr. split; [by split|].
  change (handle _ (CurrentStop agent) m1).2 with m1. cbn [held_after].
  destruct (handle _ (CurrentStop agent) m1).1 as [s|e] eqn:Hs; [by apply guarded_ret|].
  apply current_stop_None in Hs. case_match; by apply guarded_ret.
Qed.

Lemma operationReference_guarded agent revision anchor m (Φ : option GRN → mem → result string → Prop) held :
  (∀ m' r, inv m' → rely held m m' → Φ held m' r) →
  guarded (X:=X) Φ held (Service.operationReference agent revision anchor) m.
Proof.
  intros HΦ. unfold Service.operationReference.
  proceed; (apply HΦ; [done|]; cbn; by repeat (etrans; [eassumption|])).
Qed.

(** A prepared activation finds its agent not stopped. *)
Lemma PrepareActivation_guarded agent req m :
  guarded (X:=X) (λ held' m r, held' = Some agent ∧
    ∀ a, r = Ok a → current_stop_locked agent m = None) (Some agent)
  (Service.PrepareActivation agent req) m.
Proof.
  unfold Service.PrepareActivation. apply guarded_try.
  eapply guarded_mono; [|apply stopped_guarded]. intros held m1 [u|e] [-> Hn]; [|done].
  specialize (Hn u eq_refl). proceed; try done.
  all: try (split; [done|]; intros ? _; eauto using unstopped_rely, unstopped_handle).
  eapply guarded_mono; [|apply latest_or_none_guarded].
  intros held m4 [anchor|e'] (-> & Hr4 & _); [|done]. apply guarded_try.
  apply operationReference_guarded. intros m5 [ref|e'] Hi5 Hr5; [|done].
  apply guarded_call. intros m6 Hi6 Hr6. split; [by split|]. split; [done|]. intros ? _.
  eauto 10 using unstopped_rely, unstopped_handle.
Qed.

Lemma admit_guarded agent token epoch placement held m :
  guarded (X:=X) (λ held' m' _, held' = held ∧ m' = m) held
  (Execution.server_admit agent token epoch placement) m.
Proof. unfold Execution.server_admit. proceed; done. Qed.

Lemma callActivate_guarded agent stored token held m :
  guarded (X:=X) (λ held' m' _, held' = held ∧ m' = m) held
  (Execution.callActivate agent stored token) m.
Proof. unfold Execution.callActivate. proceed; done. Qed.

(** An answer of garam's is recorded under the lock, and only while no stop holds the agent. *)
Lemma activation_attempt_guarded agent token req placement m :
  guarded (X:=X) (λ held _ _, held = Some agent) (Some agent)
  (Execution.activation_attempt agent token req placement) m.
Proof.
  unfold Execution.activation_attempt. apply guarded_try.
  eapply guarded_mono; [|apply PrepareActivation_guarded].
  intros held m1 [stored|e] [-> Hn]; [|done]. specialize (Hn stored eq_refl). apply guarded_try.
  eapply guarded_mono; [|apply admit_guarded]. intros held m' [[]|e] [-> ->]; [|done].
  apply guarded_try. eapply guarded_mono; [|apply callActivate_guarded].
  intros held m' [[answer created]|e] [-> ->]; [|done]. apply guarded_try, guarded_call.
  intros m2 Hi2 Hr2. split.
  - split; [done|]. split; [done|]. by eapply unstopped_rely.
  - cbn [held_after]. by case_match.
Qed.

Lemma respondError_guarded e held m :
  guarded (X:=X) (λ held' _ _, held' = held) held (Execution.respondError e) m.
Proof. unfold Execution.respondError. proceed; done. Qed.

Lemma respond_well p :
  @well_behaved _ _ X _ p → well (Execution.respond p).
Proof.
  intros Hp m. apply guarded_bind. eapply guarded_mono; [|apply Hp].
  intros held m' [answer|e] ->; [by apply guarded_ret|].
  eapply guarded_mono; [|apply respondError_guarded]. done.
Qed.

Lemma activate_well r : well (Execution.activate r).
Proof.
  apply respond_well. intros m. unfold Execution.currentPlacement, Service.CurrentPlacement.
  destruct (Execution.read_body r); [|by apply guarded_ret]; proceed.
  all: apply guarded_lock; intros m1 Hi1 Hr1;
    eapply guarded_mono; [|apply activation_attempt_guarded]; intros held m2 x ->.
  all: split; [done|]; intros; by case_match; proceed.
Qed.

Lemma reportStatus_well r : well (Execution.reportStatus r).
Proof.
  apply respond_well. intros m. unfold Execution.admitReport, Service.CurrentPlacement,
    Service.ActivationOfGeneration, Service.RecordRuntimeStatus.
  destruct (Execution.read_body r); [|by apply guarded_ret]; proceed.
Qed.

(** ** The routes of the controllers and of the console *)
Lemma well_ret {A} (a : A) : well (mret a).
Proof. done. Qed.
Lemma well_outside {F A} `{!SubEvent F X} (e : F A) : well (call e).
Proof. done. Qed.
Lemma well_bind {A B} (p : prog (repoE +' X) A) (k : A → prog (repoE +' X) B) :
  well p → (∀ a, well (k a)) → well (mbind k p).
Proof.
  intros Hp Hk m. apply guarded_bind. eapply guarded_mono; [|apply Hp]. intros held m' a ->. apply Hk.
Qed.
Lemma well_try {A B} (p : prog (repoE +' X) (result A)) (k : A → prog (repoE +' X) (result B)) :
  well p → (∀ a, well (k a)) → well (try_bind p k).
Proof. intros Hp Hk. apply well_bind; [done|]. by intros []. Qed.

Hint Resolve PublishProfile_well PublishProfileVersion_well Publish_well PublishTemplate_well RecordStatus_well
  Execution_well Stop_well Start_well OpenRecovery_well RecoveryOf_well ReportOperatorImages_well Configure_well
  CreateAgent_well : well.

(** One step into a program made of requests of the service and of calls outside the store. *)
Ltac well_step :=
  lazymatch goal with
  | |- well_behaved (try_bind _ _) => apply well_try; [|intros ?]
  | |- well_behaved (mbind _ _) => apply well_bind; [|intros ?]
  | |- well_behaved (lift _) => apply well_ret
  | |- well_behaved (mret _) => apply well_ret
  | |- well_behaved (call (F:=repoE) _) => by apply call_well
  | |- well_behaved (call _) => apply well_outside
  | |- well_behaved (match ?x with _ => _ end) => destruct x
  | |- well_behaved (let '(_, _) := ?x in _) => destruct x
  | |- well_behaved _ => first [by auto with well nocore|by apply call_well]
  end; cbn beta iota zeta.
Ltac well := intros; repeat well_step.

Section distribution.
Context (pollInterval maxAgents : Z).
Lemma distribution_error e : well (Distribution.respondError e).
Proof. unfold Distribution.respondError. well. Qed.
Lemma distribution_respond p : well p → well (Distribution.respond p).
Proof. intros Hp. apply well_bind; [done|]. intros []; [well|apply distribution_error]. Qed.
Lemma authenticate_well r : well (Distribution.authenticate r).
Proof. unfold Distribution.authenticate, Distribution.contacts_record. well. Qed.
Lemma placed_well c agent epoch : well (Distribution.placed c agent epoch).
Proof. unfold Distribution.placed, Distribution.provedEpoch. well. Qed.
Hint Resolve distribution_error authenticate_well placed_well : well.
Lemma waitPast_well n after wait : well (Distribution.waitPast pollInterval n after wait).
Proof.
  assert (∀ after deadline, well (Distribution.poll pollInterval n after deadline)) as Hpoll.
  { induction n; cbn [Distribution.poll]; well. }
  unfold Distribution.waitPast. well.
Qed.
Lemma released_well c revisions : well (Distribution.released c revisions).
Proof. induction revisions; cbn [Distribution.released]; well. Qed.
Lemma provePlacedAt_well c agent epoch : well (Distribution.provePlacedAt c agent epoch).
Proof. unfold Distribution.provePlacedAt, Distribution.provedEpoch. well. Qed.
Hint Resolve waitPast_well released_well provePlacedAt_well : well.
Lemma distribution_well n route r : well (Distribution.serve pollInterval maxAgents n route r).
Proof.
  destruct route; unfold Distribution.serve, Distribution.desired, Distribution.answer_feed, Distribution.reportImages,
    Distribution.status, Distribution.registerPlacement, Distribution.prepareRecovery;
    repeat (first [apply distribution_respond|progress well]).
Qed.
End distribution.

Section console.
Context (audience : string) (origins : list string) (time_json : Time → Json.Json.json).
Lemma console_respond p : well p → well (Console.respond p).
Proof. intros Hp. apply well_bind; [done|]. unfold Console.respondError. well. Qed.
Lemma authorized_body_well r operation grn request : well (Console.authorized_body audience r operation grn request).
Proof. unfold Console.authorized_body, Console.authorize, Console.authorizeHeader. well. Qed.
Hint Resolve authorized_body_well : well.
Lemma stopInput_well r : well (Console.stopInput audience r).
Proof. unfold Console.stopInput. well. Qed.
Hint Resolve stopInput_well : well.
Lemma console_well route r : well (Console.handler audience origins time_json route r).
Proof.
  unfold Console.handler, Console.cors. well. destruct route; apply console_respond; unfold Console.authorized; well.
Qed.
End console.

(** ** Every request *)
Inductive request : ∀ A, prog (repoE +' X) A → Prop :=
| req_PublishProfile org name s : request _ (Service.PublishProfile org name s)
| req_PublishProfileVersion org p : request _ (Service.PublishProfileVersion org p)
| req_Publish input : request _ (Service.Publish input)
| req_PublishTemplate org t : request _ (Service.PublishTemplate org t)
| req_ListTemplates org : request _ (Service.ListTemplates org)
| req_GetTemplate org ref : request _ (Service.GetTemplate org ref)
| req_ListProfiles org : request _ (Service.ListProfiles org)
| req_GetProfile org ref : request _ (Service.GetProfile org ref)
| req_GetDefinition agent : request _ (Service.GetDefinition agent)
| req_Position : request _ Service.Position
| req_Desired operator limit : request _ (Service.Desired operator limit)
| req_Execution org agent : request _ (Service.Execution org agent)
| req_RecordStatus agent observed rendered : request _ (Service.RecordStatus agent observed rendered)
| req_CreateAgent input : request _ (Service.CreateAgent input)
| req_Configure input : request _ (Service.Configure input)
| req_RegisterPlacement input : request _ (Service.RegisterPlacement input)
| req_CurrentPlacement agent : request _ (Service.CurrentPlacement agent)
| req_Stop input : request _ (Service.Stop input)
| req_RecordDeactivation key : request _ (Service.RecordDeactivation key)
| req_Start input : request _ (Service.Start input)
| req_OpenRecovery input : request _ (Service.OpenRecovery input)
| req_RecoveryOf org agent : request _ (Service.RecoveryOf org agent)
| req_PrepareRecovery agent r : request _ (Service.PrepareRecovery agent r)
| req_FinalizeRecovery agent requestID c : request _ (Service.FinalizeRecovery agent requestID c)
| req_RecordOperatorContact orgGRN operator at_ :
  request _ (Service.RecordOperatorContact orgGRN operator at_)
| req_ReportOperatorImages orgGRN operator images at_ :
  request _ (Service.ReportOperatorImages orgGRN operator images at_)
| req_ListOperators orgGRN : request _ (Service.ListOperators orgGRN)
| req_activate r : request _ (Execution.underContract Execution.activate r)
| req_reportStatus r : request _ (Execution.underContract Execution.reportStatus r)
| req_distribution pollInterval maxAgents n route r :
  request _ (Distribution.serve pollInterval maxAgents n route r)
| req_console audience origins time_json route r :
  request _ (Console.handler audience origins time_json route r).

Lemma underContract_well (next : Execution.httpRequest → prog (repoE +' X) Execution.response) r :
  well (next r) → well (Execution.underContract next r).
Proof. intros Hn m. unfold Execution.underContract. case_match; [done|]. apply Hn. Qed.

Lemma request_well A p : request A p → well_behaved p.
Proof.
  destruct 1; try (by apply call_well);
    auto using PublishProfile_well, PublishProfileVersion_well, Publish_well, PublishTemplate_well,
    RecordStatus_well, Execution_well, Stop_well, Start_well, OpenRecovery_well, RecoveryOf_well,
    ReportOperatorImages_well, Configure_well, CreateAgent_well, underContract_well, activate_well,
    reportStatus_well, distribution_well, console_well.
Qed.

(** The pools that requests, in any number and interleaving, lead to from the empty store. *)
Definition reachable (c : list (@thread _ X) * mem) : Prop := rtc (step request) ([], NewMemory) c.

Lemma reachable_sound c : reachable c → sound c.
Proof. apply sound_reachable, request_well. Qed.

(** ** A request run alone *)

(** The store answers its calls, and [outside_] the others. *)
Definition alone (outside_ : ∀ Y, X Y → Y) : handler (repoE +' X) mem :=
  sum_handler handle (λ Y e m, (outside_ Y e, m)).

Lemma run_alone outside_ ts m held A (p : prog (repoE +' X) A) :
  sound (ts ++ [Thread held A p], m) → Forall (λ t, held_of t = None) ts →
  rtc (step request) (ts ++ [Thread held A p], m)
  (ts ++ [Thread None A (Ret (run (alone outside_) p m).1)], (run (alone outside_) p m).2).
Proof.
  intros Hs Hts. revert held m Hs. induction p as [a|Y [e|e] k IH]; intros held m Hs.
  - cbn. pose proof (sound_threads _ Hs (length ts) _ (lookup_snoc _ _)) as Hg. cbn in Hg.
    by rewrite Hg.
  - pose proof (sound_threads _ Hs (length ts) _ (lookup_snoc _ _)) as Hg. cbn in Hg.
    destruct (Hg m (sound_inv _ Hs)) as [[_ Hperm] _]; [done|].
    assert (step request (ts ++ [Thread held A (Vis (InL e) k)], m)
      (ts ++ [Thread (held_after held e) A (k (handle Y e m).1)], (handle Y e m).2)) as Hstep.
    { rewrite <- (list_insert_snoc ts (Thread held A (Vis (InL e) k))
      (Thread (held_after held e) A (k (handle Y e m).1))).
    apply step_store; [apply lookup_snoc|]. destruct e; try done. cbn in Hperm.
    intros i t [Hi|[_ ->]]%lookup_snoc_Some; [|by rewrite Hperm].
    by rewrite (Forall_lookup_1 _ _ _ _ Hts Hi). }
    cbn. destruct (handle Y e m) as [x m'] eqn:Hh. cbn in *.
    eapply rtc_l; [exact Hstep|]. apply IH. by eapply sound_step; [apply request_well|..].
  - assert (step request (ts ++ [Thread held A (Vis (InR e) k)], m)
      (ts ++ [Thread held A (k (outside_ Y e))], m)) as Hstep.
    { rewrite <- (list_insert_snoc ts (Thread held A (Vis (InR e) k))
      (Thread held A (k (outside_ Y e)))).
    eapply step_outside, lookup_snoc. }
    eapply rtc_l; [exact Hstep|]. cbn. apply IH. by eapply sound_step; [apply request_well|..].
Qed.

(** A request that arrives while the others hold no lock can run to its end. *)
Lemma arrive_alone outside_ ts m A (p : prog (repoE +' X) A) :
  request A p → reachable (ts, m) → Forall (λ t, held_of t = None) ts →
  rtc (step request) (ts, m)
  (ts ++ [Thread None A (Ret (run (alone outside_) p m).1)], (run (alone outside_) p m).2).
Proof.
  intros Hp Hr Hts. eapply rtc_l; [by apply step_arrive|]. apply run_alone; [|done].
  apply reachable_sound. eapply rtc_r; [exact Hr|by apply step_arrive].
Qed.

Lemma step_extends (c c' : list (@thread _ X) * mem) :
  sound c → step request c c' → extends c.2 c'.2.
Proof. intros [[Hwf _ _] _ _]. destruct 1; [done| |done]. by apply handle_extends. Qed.

Lemma step_latest (c c' : list (@thread _ X) * mem) agent s :
  sound c → step request c c' → current_stop_locked agent c.2 = Some s →
  latest_of c'.2 agent = latest_of c.2 agent.
Proof.
  intros [Hi Ht _] Hstep Hs. destruct Hstep as [| ts m i held A Y e k Hth Hfree |]; [done| |done].
  cbn in *. unfold latest_of. f_equal. apply handle_latest. intros Ha.
  destruct (Ht _ _ Hth m Hi) as [[_ Hp] _]; [done|]. destruct e; try done. cbn in Ha. subst.
  destruct Hp as [_ Hp]. congruence.
Qed.
End well_behaved.

(** ** The theorems *)
Section theorems.
Context `{K8s : Kubernetes, SE : !SemanticEquality} {TJ : Execution.TimeJSON}.
Context `{RJ : !Distribution.ResourcesJSON}.
Context {X : Type → Type} `{!SubEvent registrarE X, !SubEvent Execution.garamE X, !SubEvent Execution.serverE X,
    !SubEvent Distribution.proverE X, !SubEvent Distribution.distE X, !SubEvent Console.consoleE X}.
Abbreviation pool := (list (@thread _ X) * mem)%type.

(** C2: whatever requests arrive and however their calls interleave, garam answering anything, the
store stays well formed and every revision it holds stays authorized by a recorded request. *)
Theorem requests_keep_store (c : pool) : reachable c → wf c.2 ∧ StoreSpec.traced c.2.
Proof. by intros [[]]%reachable_sound. Qed.

(** No interleaving of requests takes anything back that the store once held. *)
Theorem requests_append_only (c c' : pool) :
  reachable c → rtc (step request) c c' → extends c.2 c'.2.
Proof.
  intros Hc%reachable_sound Hr. induction Hr as [|c1 c2 c3 Hstep Hr IH]; [done|].
  etrans; [by apply step_extends|]. apply IH. by eapply sound_step; [apply request_well|..].
Qed.

(** C3: nothing is activated under a stop: in every interleaving, while a stop holds an agent its
latest activation is the one the stop names, and no step records another. *)
Theorem stop_fences_activation (c c' : pool) agent s :
  reachable c → step request c c' → current_stop_locked agent c.2 = Some s →
  latest_of c.2 agent = Stop_ActivationID s ∧ latest_of c'.2 agent = Stop_ActivationID s.
Proof.
  intros Hc%reachable_sound Hstep Hs. assert (latest_of c.2 agent = Stop_ActivationID s) as Hl.
  { by apply (inv_fences _ (sound_inv _ Hc)). }
  split; [done|]. by rewrite (step_latest c c' agent s).
Qed.

(** C28: the agents' locks never deadlock: while some request has not ended, some request can make
its next call of the store, or waits only for an answer from outside it. *)
Theorem requests_never_deadlock (c : pool) i t :
  reachable c → c.1 !! i = Some t → ¬ ended t →
  ∃ j u, c.1 !! j = Some u ∧ (able c.1 u ∨ outside u).
Proof. destruct c as [ts m]. intros Hc%reachable_sound. by apply (sound_progress ts m). Qed.
End theorems.

(** ** Witnesses *)
Section witnesses.
#[local] Existing Instances Samples.K8s Samples.SE.
#[local] Instance no_times : Execution.TimeJSON := λ _, None.
#[local] Instance no_resources : Distribution.ResourcesJSON :=
  {| Distribution.resources_json := λ _, Json.Json.JNull; Distribution.into_resources := λ _ _, None |}.
Definition X : Type → Type := (registrarE +' Execution.garamE +' Execution.serverE +'
    (Distribution.proverE +' Distribution.distE +' Console.consoleE))%type.
#[local] Instance X_registrar : SubEvent registrarE X := λ Y e, InL (InL (InL e)).
#[local] Instance X_garam : SubEvent Execution.garamE X := λ Y e, InL (InL (InR e)).
#[local] Instance X_server : SubEvent Execution.serverE X := λ Y e, InL (InR e).
#[local] Instance X_prover : SubEvent Distribution.proverE X := λ Y e, InR (InL (InL e)).
#[local] Instance X_feed : SubEvent Distribution.distE X := λ Y e, InR (InL (InR e)).
#[local] Instance X_console : SubEvent Console.consoleE X := λ Y e, InR (InR e).

(** garam registers the agent asked for, and refuses everything else. *)
Definition registrar_answers Y (e : registrarE Y) : Y :=
  match e in registrarE Y return Y with Register _ => Ok (mkRegistered Samples.agent "epoch-1") end.
Definition machine_answers Y (e : Execution.garamE Y) : Y :=
  match e in Execution.garamE Y return Y with
  | Execution.Introspect _ _ _ => Err ErrUndecided
  | Execution.Activate _ _ => Err ErrUndecided
  end.
Definition server_answers Y (e : Execution.serverE Y) : Y :=
  match e in Execution.serverE Y return Y with
  | Execution.LoadOrStore _ => true
  | Execution.LogError _ _ => tt
  end.
Definition prover_answers Y (e : Distribution.proverE Y) : Y :=
  match e in Distribution.proverE Y return Y with Distribution.Prove _ _ _ => Err ErrNotProved end.
Definition feed_answers Y (e : Distribution.distE Y) : Y :=
  match e in Distribution.distE Y return Y with
  | Distribution.Now => 0
  | Distribution.WallClock => 0
  | Distribution.WaitFor _ => true
  | Distribution.ContactDue _ _ => false
  | Distribution.ForgetContact _ _ => tt
  | Distribution.LogFailure _ _ => tt
  end.
Definition console_answers Y (e : Console.consoleE Y) : Y :=
  match e in Console.consoleE Y return Y with
  | Console.Introspect _ => Err ErrAuthorityUndecided
  | Console.Recover _ _ _ => Err ErrLifecycleUndecided
  | Console.Deactivate _ _ => Err ErrLifecycleUndecided
  | Console.Now => 0
  | Console.LogFailure _ _ => tt
  end.
Definition sum_answers {F G : Type → Type} (f : ∀ Y, F Y → Y) (g : ∀ Y, G Y → Y) Y (e : (F +' G) Y) : Y :=
  match e with InL e => f Y e | InR e => g Y e end.
Definition garam_answers Y (e : X Y) : Y :=
  sum_answers (sum_answers (sum_answers registrar_answers machine_answers) server_answers)
  (sum_answers (sum_answers prover_answers feed_answers) console_answers) Y e.

(** Requests run one after another. *)
Fixpoint one_by_one (ps : list {A & prog (repoE +' X) A}) (c : list (@thread _ X) * mem) : list (@thread _ X) * mem :=
  match ps with
  | [] => c
  | p :: ps =>
    let r := run (alone garam_answers) (projT2 p) c.2 in
    one_by_one ps (c.1 ++ [Thread None (projT1 p) (Ret r.1)], r.2)
  end.

Lemma one_by_one_reachable ps c :
  Forall (λ p : {A & prog (repoE +' X) A}, request (projT1 p) (projT2 p)) ps →
  Forall (λ t, held_of t = None) c.1 → reachable c →
  rtc (step request) c (one_by_one ps c) ∧ Forall (λ t, held_of t = None) (one_by_one ps c).1.
Proof.
  intros Hps. revert c. induction Hps as [|[A p] ps Hp Hps IH]; intros [ts m] Hts Hr; [done|].
  cbn in *. pose proof (arrive_alone garam_answers ts m A p Hp Hr Hts) as Hrun.
  edestruct IH as [Hrest ?]; [| |split; [etrans; [exact Hrun|exact Hrest]|done]]; cbn.
  - apply Forall_app. auto.
  - unfold reachable in *. by etrans.
Qed.

(** An agent created, then stopped. *)
Definition created : list {A & prog (repoE +' X) A} :=
  [existT _ (Service.PublishProfile "org" "small" Samples.settings);
    existT _ (Service.PublishTemplate "org" (mkTemplate "base" 1 Samples.profile Samples.config));
    existT _ (Service.CreateAgent (mkCreateInput (Samples.key "create") (Samples.binding "ref-1")
      Samples.controller Samples.template Samples.profile))].
Definition stop_input : StopInput :=
  mkStopInput (Samples.key "stop") (Samples.binding "ref-2") Samples.agent.
Definition created_pool := one_by_one created ([], NewMemory).
Definition stopped_pool := one_by_one [existT _ (Service.Stop stop_input)] created_pool.

Lemma created_reachable :
  reachable created_pool ∧ Forall (λ t, held_of t = None) created_pool.1.
Proof. apply one_by_one_reachable; [|done|apply rtc_refl]. repeat constructor. Qed.

Lemma stopped_later : rtc (step request) created_pool stopped_pool.
Proof. apply one_by_one_reachable; [|apply created_reachable..]. repeat constructor. Qed.

Lemma stopped_reachable : reachable stopped_pool.
Proof. unfold reachable. etrans; [apply created_reachable|apply stopped_later]. Qed.

Lemma requests_keep_store_witness :
  wf created_pool.2 ∧ StoreSpec.traced created_pool.2.
Proof. exact (requests_keep_store created_pool (proj1 created_reachable)). Defined.

Lemma requests_append_only_witness :
  extends created_pool.2 stopped_pool.2 ∧ position stopped_pool.2 = position created_pool.2 + 1.
Proof.
  split; [|by vm_compute].
  exact (requests_append_only created_pool stopped_pool (proj1 created_reachable) stopped_later).
Defined.

(** A start arriving while the stop holds the agent. *)
Definition start_input : StopInput :=
  mkStopInput (Samples.key "start") (Samples.binding "ref-3") Samples.agent.
Definition sample_stop : Types.Stop :=
  mkStop Samples.agent (Samples.key "stop") (Samples.binding "ref-2") "" false None.

Lemma start_arrives (c : list (@thread _ X) * mem) :
  step request c (c.1 ++ [Thread None _ (Service.Start (E:=repoE +' X) start_input)], c.2).
Proof. destruct c. apply step_arrive. constructor. Qed.

Lemma stop_fences_activation_witness :
  current_stop_locked Samples.agent stopped_pool.2 = Some sample_stop ∧
  latest_of stopped_pool.2 Samples.agent = "".
Proof.
  assert (current_stop_locked Samples.agent stopped_pool.2 = Some sample_stop) as Hs
    by by vm_compute.
  split; [exact Hs|].
  exact (proj1 (stop_fences_activation stopped_pool _ Samples.agent sample_stop
    stopped_reachable
    (start_arrives stopped_pool) Hs)).
Defined.

(** The same start, arrived and not yet run. *)
Definition waiting_pool : list (@thread _ X) * mem :=
  (stopped_pool.1 ++ [Thread None _ (Service.Start (E:=repoE +' X) start_input)], stopped_pool.2).

Lemma requests_never_deadlock_witness :
  ∃ j u, waiting_pool.1 !! j = Some u ∧ (able waiting_pool.1 u ∨ outside u).
Proof.
  apply (requests_never_deadlock waiting_pool (length stopped_pool.1) (Thread None _ (Service.Start start_input))).
  - eapply rtc_r; [exact stopped_reachable|]. apply start_arrives.
  - exact (lookup_snoc stopped_pool.1 _).
  - intros [].
Defined.
End witnesses.
End Requests.
