(* ===== verification/AgentLifecycle.v ===== *)
(** An agent's lifecycle, as the control service promises it, and that the service under concurrent requests
    refines it: of every agent its store takes only the steps the lifecycle has. *)
From S2P Require Import Prelude GoStd Errors Types Validation Repository Memory MemoryInvariant Samples StoreHistory Feed StoreSpec Service Execution Distribution Console Concurrent Requests.
Import Validation Memory MemoryInvariant Concurrent.

Module AgentLifecycle.

(** ** The specification *)

(** What the service keeps of an agent: how many revisions it has, the placement that is its current one, the stop
    that holds it, the activation garam answered last, and its recovery that is not finalized. *)
Record life := mkLife {
  revisions : nat;
  placed : option Placement;
  stopped : option Types.Stop;
  activated : string;
  recovering : option Recovery;
}.
Definition unborn : life := mkLife 0 None None "" None.

(** A placement follows none only as the first, and another only by naming its Pod and the evidence that its writers
    stopped. *)
Definition follows (q : Placement) (p : option Placement) : Prop :=
  let previous := PlacementRequest_Previous (Placement_Request q) in
  match p with
  | None => previous = zeroPrevious
  | Some p => Previous_PodUID previous = PlacementRequest_PodUID (Placement_Request p) ∧
              Previous_WriterStoppedSHA256 previous ≠ ""
  end.

Inductive evolves : life → life → Prop :=
| Revises n p s a r : evolves (mkLife n p s a r) (mkLife (S n) p s a r)
| Places n p q s a r : follows q p → evolves (mkLife n p s a r) (mkLife n (Some q) s a r)
| Activates n p a a' r : evolves (mkLife n p None a r) (mkLife n p None a' r)
| Stops n p s a r :
  Stop_ActivationID s = a → Stop_Deactivated s = false → Stop_Start s = None →
  evolves (mkLife n p None a r) (mkLife n p (Some s) a r)
| Deactivates n p s s' a r :
  Stop_Key s' = Stop_Key s → Stop_ActivationID s' = Stop_ActivationID s → Stop_Deactivated s' = true →
  evolves (mkLife n p (Some s) a r) (mkLife n p (Some s') a r)
| Starts n p s a r : evolves (mkLife n p (Some s) a r) (mkLife n p None a r)
| OpensRecovery n p s a r :
  Recovery_Stage r = RecoveryRequested → evolves (mkLife n p s a None) (mkLife n p s a (Some r))
| PreparesRecovery n p s a r body :
  Recovery_Stage r = RecoveryRequested →
  evolves (mkLife n p s a (Some r)) (mkLife n p s a (Some (prepared r body)))
| FinalizesRecovery n p s a r :
  Recovery_Stage r = RecoveryPrepared → evolves (mkLife n p s a (Some r)) (mkLife n p s a None).

Section refinement.
Context `{K8s : Kubernetes, SE : !SemanticEquality}.
Implicit Types (m : mem) (agent : GRN).

(** ** The store's agents *)
Definition is_open (r : Recovery) : bool := negb (bool_decide (Recovery_Stage r = RecoveryFinalized)).
Definition open_of agent m : option Recovery := List.find is_open (slice (recoveries m) agent).
Definition life_of m agent : life :=
  mkLife (length (slice (definitions m) agent)) (current_of agent m) (current_stop_locked agent m) (latest_of m agent)
  (open_of agent m).

Definition with_stop (s : option Types.Stop) (x : life) : life :=
  mkLife (revisions x) (placed x) s (activated x) (recovering x).

(** Nothing of the agent changed, or one step of its lifecycle. *)
Definition stays_or_evolves m m' agent : Prop :=
  life_of m' agent = life_of m agent ∨ evolves (life_of m agent) (life_of m' agent).

Lemma life_same m m' agent :
  definitions m' = definitions m → placements m' = placements m → stops m' = stops m → latest m' = latest m →
  recoveries m' = recoveries m → life_of m' agent = life_of m agent.
Proof.
  intros Hd Hp Hs Hl Hr. unfold life_of, current_of, agent_placements, current_stop_locked, latest_of, open_of.
  by rewrite Hd, Hp, Hs, Hl, Hr.
Qed.

(** ** Each step *)
Lemma append_evolves d m agent : stays_or_evolves m (append d m).2 agent.
Proof.
  destruct (append_spec d m) as [[-> _]|[-> _]]; [by left|]. cbn [snd].
  unfold stays_or_evolves, life_of. cbn [definitions set_positions set_definitions]. rewrite pushed_length.
  case_decide; [right|left]; [rewrite Nat.add_1_r; apply Revises|by rewrite Nat.add_0_r].
Qed.

Lemma stays_or_evolves_same m m1 m2 agent :
  definitions m2 = definitions m1 → placements m2 = placements m1 → stops m2 = stops m1 → latest m2 = latest m1 →
  recoveries m2 = recoveries m1 → stays_or_evolves m m1 agent → stays_or_evolves m m2 agent.
Proof. intros. unfold stays_or_evolves. by rewrite (life_same m1 m2 agent). Qed.

Lemma placement_evolves input m agent : wf m → stays_or_evolves m (register_placement input m).2 agent.
Proof.
  intros Hwf. pose proof (register_placement_wf input m Hwf) as Hwf'.
  destruct (register_placement input m) as [r m'] eqn:Hreg. cbn [snd] in *.
  assert (m' = m ∨ ∃ p, r = Ok (p, true)) as [->|[p ->]]; [|by left|].
  { unfold register_placement in Hreg. repeat case_match; simplify_eq/=; eauto. }
  pose proof Hreg as (-> & _ & Hmap & Hprev)%StoreSpec.register_placement_first.
  assert (definitions m' = definitions m ∧ stops m' = stops m ∧ latest m' = latest m ∧ recoveries m' = recoveries m ∧
    ∀ a, a ≠ PlacementInput_Agent input → placements m' !! a = placements m !! a) as (Hd & Hs & Hl & Hr & Hp).
  { unfold register_placement in Hreg. repeat case_match; simplify_eq/=; split_and!; try done;
      intros; by rewrite lookup_insert_ne. }
  unfold stays_or_evolves, life_of, current_stop_locked, latest_of, open_of. rewrite Hd, Hs, Hl, Hr.
  destruct (decide (agent = PlacementInput_Agent input)) as [->|Hne]; [right|left].
  - replace (current_of _ m') with (Some (StoreSpec.registered_as input)); [by apply Places|].
    symmetry. apply current_of_Some; [apply Hwf'|]. exists (PlacementRequest_PodUID (PlacementInput_Request input)).
    rewrite Hmap. split; [|done]. unfold registered_map. by rewrite lookup_insert_eq.
  - unfold current_of, agent_placements. by rewrite Hp.
Qed.

Lemma activation_evolves agent' requestID id m agent :
  current_stop_locked agent' m = None → stays_or_evolves m (record_activation agent' requestID id m).2 agent.
Proof.
  intros Hn. unfold record_activation. destruct (agent_activations agent' m !! requestID) as [x|]; [|by left].
  destruct (negb _ && negb _); [by left|]. cbn [snd].
  destruct (decide (agent = agent')) as [->|Hne]; [right|left]; unfold life_of, latest_of; cbn.
  - rewrite lookup_insert_eq. unfold current_stop_locked in *. cbn. rewrite Hn. apply Activates.
  - by rewrite lookup_insert_ne.
Qed.

(** The stop of an agent depends only on its own stops. *)
Lemma current_stop_own m m' agent :
  wf m → wf m' →
  (∀ s, Stop_Agent s = agent → Stop_Start s = None → stops m' !! Stop_Key s = Some s ↔ stops m !! Stop_Key s = Some s) →
  current_stop_locked agent m' = current_stop_locked agent m.
Proof.
  intros Hwf Hwf' Hs. apply option_eq. intros s. rewrite !current_stop_locked_Some by (apply Hwf || apply Hwf').
  naive_solver.
Qed.

Lemma stop_evolves s m agent :
  wf m → Stop_ActivationID s = latest_of m (Stop_Agent s) → stays_or_evolves m (record_stop s m).2 agent.
Proof.
  intros Hwf Hl. pose proof (record_stop_wf s m Hwf) as Hwf'. unfold record_stop in *.
  destruct (stops m !! Stop_Key s) eqn:Hk; [by left|].
  destruct (current_stop_locked (Stop_Agent s) m) eqn:Hn; [by left|]. cbn [snd] in *.
  set (s' := mkStop _ _ _ _ _ _) in *. set (m' := bump _) in *.
  destruct (decide (agent = Stop_Agent s)) as [->|Hne].
  - right. replace (life_of m' (Stop_Agent s)) with (with_stop (Some s') (life_of m (Stop_Agent s))).
    + unfold with_stop, life_of. cbn. rewrite Hn. by apply Stops.
    + unfold with_stop, life_of. cbn. do 2 f_equal. symmetry. apply current_stop_locked_Some; [apply Hwf'|]. cbn.
      by rewrite lookup_insert_eq.
  - left. unfold life_of. rewrite (current_stop_own m m' agent Hwf Hwf'); [done|]. intros t Ha Ht. cbn.
    destruct (decide (Stop_Key s = Stop_Key t)) as [E|E]; [|by rewrite lookup_insert_ne].
    rewrite E, lookup_insert_eq, <- E, Hk. split; [intros [= <-]; by destruct Hne|done].
Qed.

(** A stop rewritten: of another agent, nothing changes. *)
Lemma stop_rewritten_other m m' k s s' agent :
  wf m → wf m' → stops m !! k = Some s → Stop_Key s = k → Stop_Key s' = k → Stop_Agent s' = Stop_Agent s →
  stops m' = <[k := s']> (stops m) → agent ≠ Stop_Agent s →
  current_stop_locked agent m' = current_stop_locked agent m.
Proof.
  intros Hwf Hwf' Hk Hs Hs' Ha Hst Hne. apply current_stop_own; [done..|]. intros t Hta Htn. rewrite Hst.
  destruct (decide (k = Stop_Key t)) as [E|E]; [|by rewrite lookup_insert_ne].
  rewrite <- E, lookup_insert_eq, Hk. split; intros [= <-]; congruence.
Qed.

Lemma deactivation_evolves key m agent : wf m → stays_or_evolves m (record_deactivation key m).2 agent.
Proof.
  intros Hwf. pose proof (record_deactivation_wf key m Hwf) as Hwf'. unfold record_deactivation in *.
  destruct (stops m !! key) as [s|] eqn:Hk; [|by left]. cbn [snd] in *. set (s' := mkStop _ _ _ _ _ _) in *.
  set (m' := set_stops _ m) in *. pose proof (proj1 (wf_stops _ Hwf) _ _ Hk) as Hkey.
  destruct (decide (agent = Stop_Agent s)) as [->|Hne]; last first.
  { left. unfold life_of. by rewrite (stop_rewritten_other m m' key s s'). }
  destruct (decide (Stop_Start s = None)) as [Hst|Hst].
  - right. unfold life_of.
    replace (current_stop_locked (Stop_Agent s) m) with (Some s) by by symmetry; eapply current_stop_of_entry.
    replace (current_stop_locked (Stop_Agent s) m') with (Some s'); [by apply Deactivates|].
    symmetry. eapply (current_stop_of_entry _ _ key); [done| |done..]. cbn. by rewrite lookup_insert_eq.
  - left. unfold life_of. rewrite (current_stop_own m m' _ Hwf Hwf'); [done|]. intros t Ha Ht. cbn.
    destruct (decide (key = Stop_Key t)) as [E|E]; [|by rewrite lookup_insert_ne].
    rewrite <- E, lookup_insert_eq, Hk. split; intros [= <-]; [subst s'; cbn in Ht|]; congruence.
Qed.

Lemma start_evolves agent' end_ m agent : wf m → stays_or_evolves m (record_start agent' end_ m).2 agent.
Proof.
  intros Hwf. pose proof (record_start_wf agent' end_ m Hwf) as Hwf'. unfold record_start in *.
  destruct (stopEnds m !! _); [by left|].
  destruct (current_stop_locked agent' m) as [c|] eqn:Hc; [|by left]. cbn [snd] in *.
  set (s' := mkStop _ _ _ _ _ _) in *. set (m' := bump _) in *.
  pose proof Hc as (Hk & Ha & Hst)%current_stop_locked_Some; [|apply Hwf].
  destruct (decide (agent = Stop_Agent c)) as [->|Hne]; last first.
  { left. unfold life_of. by rewrite (stop_rewritten_other m m' (Stop_Key c) c s'). }
  right. unfold life_of. rewrite Ha, Hc. replace (current_stop_locked agent' m') with (@None Types.Stop); [apply Starts|].
  symmetry. apply eq_None_not_Some. intros [t (Ht & Hta & Htn)%current_stop_locked_Some]; [|apply Hwf'].
  cbn in Ht. apply lookup_insert_cases in Ht as [[_ <-]|[Hne Ht]]; [done|]. apply Hne.
  eapply (wf_stops _ Hwf); [exact Hk|exact Ht|done..|congruence].
Qed.

(** *** Recoveries *)
Lemma find_snoc {A} (f : A → bool) l x :
  (∀ y, y ∈ l → f y = false) → List.find f (l ++ [x]) = if f x then Some x else None.
Proof.
  intros Hl. induction l as [|y l IH]; [done|]. cbn. rewrite (Hl y) by by left. apply IH. intros. apply Hl. by right.
Qed.

Lemma open_of_last m agent :
  recoveries_ok (recoveries m) → open_of agent m = (r ← last (slice (recoveries m) agent); if is_open r then Some r else None).
Proof.
  intros (Hr & _). unfold open_of.
  assert (∀ i r, slice (recoveries m) agent !! i = Some r → is_open r = true → S i = length (slice (recoveries m) agent)) as Hlast.
  { intros i r Hi Ho. apply (Hr agent i r Hi). unfold is_open in Ho. intros E. by rewrite bool_decide_true in Ho. }
  clear Hr. destruct (slice (recoveries m) agent) as [|r0 l0] using rev_ind; [done|]. clear IHl0.
  rewrite last_snoc. cbn. apply find_snoc. intros r [i Hi]%list_elem_of_lookup. destruct (is_open r) eqn:Ho; [|done].
  pose proof (lookup_lt_Some _ _ _ Hi). apply (lookup_app_l_Some _ [r0]) in Hi. specialize (Hlast _ _ Hi Ho).
  rewrite length_app in Hlast. cbn in Hlast. lia.
Qed.

Lemma open_recovery_evolves r m agent :
  wf m → Recovery_Stage r = RecoveryRequested → wf (open_recovery r m).2 → stays_or_evolves m (open_recovery r m).2 agent.
Proof.
  intros Hwf Hstage Hwf'. unfold open_recovery in *. destruct (List.find _ (concat _)); [by left|].
  destruct (recovery_locked _ _ m); [by left|]. destruct (open_recovery_locked _ m) eqn:Hopen; [by left|].
  cbn [snd] in *. set (m' := bump _) in *. destruct (decide (agent = Recovery_Agent r)) as [->|Hne]; [right|left].
  - unfold life_of. rewrite (open_of_last m') by apply Hwf'. cbn. rewrite slice_insert_eq, last_snoc. cbn.
    replace (is_open r) with true by (unfold is_open; by rewrite Hstage).
    replace (open_of (Recovery_Agent r) m) with (@None Recovery); [by apply OpensRecovery|].
    unfold open_recovery_locked in Hopen. unfold open_of, is_open. by destruct (List.find _ _).
  - unfold life_of, open_of. cbn. by rewrite slice_insert_ne.
Qed.

(** A recovery that is not finalized is its agent's open one, and rewritten is so or ended. *)
Lemma write_recovery_life agent' i r r' m agent :
  recoveries_ok (recoveries m) → recoveries_ok (recoveries (write_recovery agent' i r' m)) → slice (recoveries m) agent' !! i = Some r →
  Recovery_Stage r ≠ RecoveryFinalized →
  (agent ≠ agent' → life_of (write_recovery agent' i r' m) agent = life_of m agent) ∧
  open_of agent' m = Some r ∧ open_of agent' (write_recovery agent' i r' m) = if is_open r' then Some r' else None.
Proof.
  intros Hwf Hwf' Hi Hst. split.
  { intros Hne. unfold life_of, open_of. cbn. by rewrite slice_insert_ne. }
  assert (S i = length (slice (recoveries m) agent')) as Hlen by 
    by (destruct (proj1 Hwf agent' i r Hi) as (_ & _ & Hlen); by apply Hlen).
  rewrite !open_of_last by done. cbn. rewrite slice_insert_eq, !last_lookup, length_insert, <- Hlen. cbn.
  rewrite Hi. rewrite list_lookup_insert_eq by lia. cbn. split; [|done].
  unfold is_open. by rewrite bool_decide_false.
Qed.

Lemma prepare_evolves agent' requestID epoch body m agent :
  wf m → stays_or_evolves m (prepare_recovery agent' requestID epoch body m).2 agent.
Proof.
  intros Hwf. pose proof (prepare_recovery_wf agent' requestID epoch body m Hwf) as Hwf'. unfold prepare_recovery in *.
  destruct (recovery_locked agent' requestID m) as [i|]; [|by left].
  destruct (slice (recoveries m) agent' !! i) as [r|] eqn:Hi; [|by left]. destruct (negb _); [by left|].
  case_bool_decide as Hst; [|by repeat case_match; left]. cbn [snd] in *.
  destruct (write_recovery_life agent' i r (prepared r body) m agent) as (Hother & Hopen & Hopen');
    [apply Hwf|apply Hwf'|done|by rewrite Hst|].
  destruct (decide (agent = agent')) as [->|Hne]; [right|left; by apply Hother].
  unfold life_of. rewrite Hopen, Hopen'. by apply PreparesRecovery.
Qed.

Lemma finalize_evolves agent' requestID c m agent :
  wf m → stays_or_evolves m (finalize_recovery agent' requestID c m).2 agent.
Proof.
  intros Hwf. pose proof (finalize_recovery_wf agent' requestID c m Hwf) as Hwf'. unfold finalize_recovery in *.
  destruct (recovery_locked agent' requestID m) as [i|]; [|by left].
  destruct (slice (recoveries m) agent' !! i) as [r|] eqn:Hi; [|by left].
  destruct (Recovery_Stage r) eqn:Hst; [by left| |by left]. cbn [snd] in *.
  destruct (write_recovery_life agent' i r (finalized r c) m agent) as (Hother & Hopen & Hopen');
    [apply Hwf|apply Hwf'|done|by rewrite Hst|].
  destruct (decide (agent = agent')) as [->|Hne]; [right|left; by apply Hother].
  assert (open_of agent' (bump (write_recovery agent' i (finalized r c) m)) = None) as E by exact Hopen'.
  unfold life_of. rewrite Hopen, E. by apply FinalizesRecovery.
Qed.

(** ** Every call *)
Lemma handle_evolves held m A (e : repoE A) agent :
  inv m → permitted held m e → stays_or_evolves m (handle A e m).2 agent.
Proof.
  intros Hi Hp. pose proof (inv_wf _ Hi) as Hwf. pose proof (inv_wf _ (handle_inv _ _ _ _ Hi Hp)) as Hwf'.
  destruct Hp as [Hl Hp].
  assert (∀ m', definitions m' = definitions m ∧ placements m' = placements m ∧ stops m' = stops m ∧ latest m' = latest m ∧
    recoveries m' = recoveries m → stays_or_evolves m m' agent) as Hsame.
  { intros m' (? & ? & ? & ? & ?). left. by apply life_same. }
  destruct e; cbn [handle] in *; try (by left);
    try (apply Hsame; unfold publish_profile_version, publish_once, begin_creation, fail_creation, insert_activation;
    repeat case_match; simplify_eq/=; split_and!; done).
  - unfold configure. destruct (requests m !! _); [by left|]. case_match; [by left|]. case_match; [by left|].
    pose proof (append_evolves d m agent) as Ha. destruct (append d m) as [appended m1]. by eapply stays_or_evolves_same, Ha.
  - unfold register_creation. destruct (creations m !! key); [|by left]. case_match; [by left|].
    pose proof (append_evolves d m agent) as Ha. destruct (append d m) as [[u|err] m1]; [|done].
    destruct (Definition_Assignment d); by eapply stays_or_evolves_same, Ha.
  - by apply placement_evolves.
  - destruct Hp as [_ Hn]. by apply activation_evolves.
  - destruct Hl as (Hst & _). by apply open_recovery_evolves.
  - by apply prepare_evolves.
  - by apply finalize_evolves.
  - destruct Hp as [_ Hid]. by apply stop_evolves.
  - by apply deactivation_evolves.
  - by apply start_evolves.
Qed.
End refinement.

(** ** The refinement *)
Section theorems.
Context `{K8s : Kubernetes, SE : !SemanticEquality} {TJ : Execution.TimeJSON}.
Context `{RJ : !Distribution.ResourcesJSON}.
Context {X : Type → Type} `{!SubEvent registrarE X, !SubEvent Execution.garamE X, !SubEvent Execution.serverE X,
    !SubEvent Distribution.proverE X, !SubEvent Distribution.distE X, !SubEvent Console.consoleE X}.
Abbreviation pool := (list (@thread _ X) * mem)%type.
Implicit Types (c : pool) (agent : GRN).

Lemma step_evolves c c' agent : sound c → step Requests.request c c' → stays_or_evolves c.2 c'.2 agent.
Proof.
  intros [Hi Ht _] Hstep. destruct Hstep as [| ts m i held A Y e k Hth Hfree |]; [by left| |by left].
  cbn in *. destruct (Ht _ _ Hth m Hi) as [Hp _]; [done|]. by eapply handle_evolves.
Qed.

Lemma steps_evolve c c' agent :
  sound c → rtc (step Requests.request) c c' → rtc evolves (life_of c.2 agent) (life_of c'.2 agent).
Proof.
  intros Hs Hr. induction Hr as [|c c1 c2 Hstep Hr IH]; [done|].
  assert (rtc evolves (life_of c1.2 agent) (life_of c2.2 agent)) as Hrest.
  { apply IH. by eapply sound_step; [apply Requests.request_well|..]. }
  destruct (step_evolves _ _ agent Hs Hstep) as [<-|?]; [done|by eapply rtc_l].
Qed.

(** C4: The service refines the lifecycle: whatever requests of it and of its routes arrive and however their calls
interleave, garam answering anything, what the store holds of an agent is what a run of the lifecycle from an
agent not there leads to, and each step of the service is one step of it or none. *)
Theorem lifecycle_refined c agent :
  Requests.reachable c →
  rtc evolves unborn (life_of c.2 agent) ∧
  ∀ c', step Requests.request c c' → stays_or_evolves c.2 c'.2 agent.
Proof.
  intros Hc. split; [|intros c'; apply step_evolves, Requests.reachable_sound, Hc].
  change unborn with (life_of (snd (@nil (@thread _ X), NewMemory)) agent). apply steps_evolve; [apply sound_empty|done].
Qed.
End theorems.

(** ** A witness *)
Section witness.
#[local] Existing Instances Samples.K8s Samples.SE Requests.no_times Requests.no_resources.
#[local] Existing Instances Requests.X_registrar Requests.X_garam Requests.X_server Requests.X_prover Requests.X_feed
  Requests.X_console.

(** An agent created and then stopped, its revision one and its stop the request's. *)
Lemma lifecycle_refined_witness :
  rtc evolves unborn (mkLife 1 None (Some Requests.sample_stop) "" None).
Proof.
  replace (mkLife 1 None (Some Requests.sample_stop) "" None) with (life_of Requests.stopped_pool.2 Samples.agent)
    by by vm_compute.
  exact (proj1 (lifecycle_refined Requests.stopped_pool Samples.agent Requests.stopped_reachable)).
Defined.
End witness.
End AgentLifecycle.
