(* ===== verification/ServiceSpec.v ===== *)
(** What each request of the service does, run over the in-process store: its outcome on every branch,
    what it stores, and what a repeat of it answers. *)
From S2P Require Import Prelude GoStd Errors Types Validation Repository Memory MemoryInvariant Samples StoreHistory Feed StoreSpec Service Concurrent Requests.
Import GoStd Validation Memory MemoryInvariant StoreHistory StoreSpec.

Module ServiceSpec.

Section spec.
Context `{K8s : Kubernetes, SE : !SemanticEquality}.
Implicit Types (m : mem) (agent : GRN).

(** A program of store calls, run over the store. *)
Abbreviation on_store p m := (run (E:=repoE) handle p m).

Lemma run_store {A} (e : repoE A) m : on_store (call e) m = handle A e m.
Proof. rewrite run_call. done. Qed.

(** ** Configuring an agent *)

(** The revision a request's outcome left stored under its key. *)
Definition configured_as (input : ConfigureInput) (o : RequestOutcome) : Request :=
  mkRequest (Configure_Request input) (Configure_Binding input) (Configure_Agent input) o.

Definition configured_revision (input : ConfigureInput) : Definition_ :=
  mkDefinition (Configure_Agent input) (Key_Organization (Configure_Request input))
  (int64 (Configure_ExpectedRevision input + 1)) (Configure_Profile input) (Configure_Config input)
  (Some (Binding_Assignment (Configure_Binding input))).

(** The checks made before the store is asked pass: the configuration is renderable and the
organization published the profile. *)
Definition configurable m (input : ConfigureInput) : Prop :=
  Configuration_check (Configure_Config input) = Ok tt ∧
  published (profiles m) (Key_Organization (Configure_Request input)) (Configure_Profile input).

(** The request keeps the embedding of the revision it is based on, if that has one. *)
Definition keeps_embedding (latest : Definition_) (input : ConfigureInput) : bool :=
  match Model_Embedding (Configuration_Model (Definition_Config latest)) with
  | Some was => sameEndpoint (Model_Embedding (Configuration_Model (Configure_Config input))) was
  | None => true
  end.

Lemma get_definition_last m agent :
  get_definition agent m = (match last (slice (definitions m) agent) with
  | Some d => Ok d | None => Err ErrNotFound end, m).
Proof. done. Qed.

Lemma embeddingKept_run m input :
  on_store (Service.embeddingKept input) m =
  (match last (slice (definitions m) (Configure_Agent input)) with
  | None => Ok tt
  | Some latest =>
    if bool_decide (Definition_Organization latest = Key_Organization (Configure_Request input)) &&
    bool_decide (Definition_Revision latest = Configure_ExpectedRevision input) &&
    negb (keeps_embedding latest input)
    then Err ErrEmbeddingImmutable else Ok tt
  end, m).
Proof.
  unfold Service.embeddingKept, keeps_embedding. rewrite run_bind, run_store. cbn [handle].
  rewrite get_definition_last. destruct (last _) as [latest|]; [|done].
  destruct (Model_Embedding _) as [was|]; [|by rewrite andb_false_r].
  do 2 (case_bool_decide; [|done]). cbn. by destruct (sameEndpoint _ was).
Qed.

(** The latest revision of an agent: its number is how many there are, and every one is of the same
organization. *)
Lemma last_revision m agent latest :
  wf m → last (slice (definitions m) agent) = Some latest →
  Definition_Revision latest = Z.of_nat (length (slice (definitions m) agent)) ∧
  Definition_Agent latest = agent ∧
  ∃ first rest, slice (definitions m) agent = first :: rest ∧
  Definition_Organization latest = Definition_Organization first.
Proof.
  intros Hwf Hl. apply last_lookup_Some in Hl.
  destruct (proj2 (wf_definitions _ Hwf) _ _ _ Hl) as (Ha & Hr & _ & Horg).
  destruct (slice (definitions m) agent) as [|first rest]; [done|].
  split_and!; [rewrite Hr; cbn [length]; lia|done|]. exists first, rest. split; [done|]. by apply Horg.
Qed.

(** What a fresh request stores. *)
Definition store_request input (o : RequestOutcome) m : mem :=
  set_requests (<[Configure_Request input := configured_as input o]> (requests m)) m.

Lemma configure_fresh m input o :
  wf m → requests m !! Configure_Request input = None →
  configure (configured_as input o) (configured_revision input) m =
  match last (slice (definitions m) (Configure_Agent input)) with
  | None => (Err ErrNotFound, m)
  | Some latest =>
    if bool_decide (Definition_Organization latest ≠ Key_Organization (Configure_Request input))
    then (Err ErrNotFound, m)
    else if bool_decide (Definition_Revision latest + 1 ≠ int64 (Configure_ExpectedRevision input + 1))
    then (Ok (configured_as input Stale), store_request input Stale m)
    else (Ok (configured_as input (Applied (Definition_Revision latest + 1))),
      store_request input (Applied (Definition_Revision latest + 1))
      (append (configured_revision input) m).2)
  end.
Proof.
  intros Hwf Hnew. unfold configure. cbn. rewrite Hnew.
  destruct (last (slice (definitions m) (Configure_Agent input))) as [latest|] eqn:Hl; last first.
  { by apply last_None in Hl as ->. }
  destruct (last_revision _ _ _ Hwf Hl) as (Hrev & _ & first & rest & Hs & Horg).
  rewrite Hs, Horg. rewrite Hs in Hrev. fold (configured_revision input).
  destruct (decide (Definition_Organization first = Key_Organization (Configure_Request input))) as [H1|H1].
  2: { by rewrite bool_decide_false, bool_decide_true. }
  rewrite bool_decide_true, (bool_decide_false (_ ≠ Key_Organization _)) by auto. cbn [negb].
  destruct (append_spec (configured_revision input) m) as [[-> Hne]|[-> Heq]];
    cbn [Definition_Agent Definition_Revision configured_revision] in *; rewrite Hs in *.
  - rewrite bool_decide_true by lia. done.
  - rewrite bool_decide_false by lia. cbn. replace (int64 _) with (Definition_Revision latest + 1) by lia. done.
Qed.

Lemma configure_stored m input stored d :
  requests m !! Configure_Request input = Some stored →
  configure (configured_as input Stale) d m = (Ok stored, m).
Proof. unfold configure. cbn. by intros ->. Qed.

(** What the caller is answered of the request stored under its key. *)
Definition configure_answer input (stored : Request) : result Revision :=
  if bool_decide (Request_Binding stored = Configure_Binding input) &&
  bool_decide (Request_Agent stored = Configure_Agent input)
  then match Request_Outcome stored with Applied r => Ok r | Stale => Err ErrStaleRevision end
  else Err ErrRequestReused.

(** The request step by step: both checks, the embedding's, then the store's own step. *)
Lemma Configure_steps m input :
  on_store (Service.Configure input) m =
  match Configuration_check (Configure_Config input) with
  | Err err => (Err err, m)
  | Ok _ =>
    match (get_profile (Key_Organization (Configure_Request input)) (Configure_Profile input) m).1 with
    | Err err => (Err (Service.profile_error (Configure_Profile input) err), m)
    | Ok _ =>
      match on_store (Service.embeddingKept input) m with
      | (Err e, m) => (Err e, m)
      | (Ok _, m) =>
        match configure (configured_as input Stale) (configured_revision input) m with
        | (Err e, m) => (Err e, m)
        | (Ok stored, m) => (configure_answer input stored, m)
        end
      end
    end
  end.
Proof.
  unfold Service.Configure. rewrite run_try_bind, run_lift.
  destruct (Configuration_check (Configure_Config input)) as [[]|err]; [|done].
  rewrite run_try_wrap, run_store. cbn [handle]. unfold get_profile.
  destruct (get_version _ _) as [p|err]; [|done]. cbn [fst].
  rewrite run_try_bind. destruct (on_store (Service.embeddingKept input) m) as [[u|e] m'] eqn:He; [|done].
  rewrite run_try_bind, run_store. cbn [handle]. fold (configured_as input Stale).
  fold (configured_revision input). destruct (configure _ _ m') as [[stored|e] m'']; [|done]. unfold configure_answer.
  destruct (bool_decide (Request_Binding stored = _)), (bool_decide (Request_Agent stored = _)); cbn [negb orb andb]; try done.
  by destruct (Request_Outcome stored).
Qed.

Lemma Configure_run m input :
  configurable m input →
  on_store (Service.Configure input) m =
  match on_store (Service.embeddingKept input) m with
  | (Err e, m) => (Err e, m)
  | (Ok _, m) =>
    match configure (configured_as input Stale) (configured_revision input) m with
    | (Err e, m) => (Err e, m)
    | (Ok stored, m) => (configure_answer input stored, m)
    end
  end.
Proof. intros [Hc [p Hp]%published_get_profile]. by rewrite Configure_steps, Hc, Hp. Qed.

(** A request whose applied outcome is stored passes the embedding's check: the revision it was
based on is no longer the latest. *)
Lemma embeddingKept_applied m input r :
  wf m → requests m !! Configure_Request input = Some (configured_as input (Applied r)) →
  r = Configure_ExpectedRevision input + 1 → on_store (Service.embeddingKept input) m = (Ok tt, m).
Proof.
  intros Hwf Hstored ->. rewrite embeddingKept_run.
  destruct (last _) as [latest|] eqn:Hl; [|done].
  destruct (last_revision _ _ _ Hwf Hl) as (Hrev & _).
  pose proof (proj1 (proj2 (wf_requests _ Hwf)) _ _ _ Hstored eq_refl) as Hle. cbn in Hle.
  rewrite (bool_decide_false (Definition_Revision latest = _)) by lia. by rewrite andb_false_r.
Qed.

Lemma Configure_configurable m input r m1 :
  on_store (Service.Configure input) m = (Ok r, m1) → configurable m input.
Proof.
  unfold Service.Configure. rewrite run_try_bind, run_lift.
  destruct (Configuration_check (Configure_Config input)) as [[]|] eqn:Hc; [|done].
  rewrite run_try_wrap, run_store. cbn [handle].
  destruct (get_profile _ _ m) as [[p|e] m'] eqn:Hp; [|done].
  apply get_profile_published in Hp as [Hp _]. by intros _.
Qed.

(** What a fresh request that was answered a revision stored. *)
Lemma Configure_fresh_ok m input r m1 :
  wf m → requests m !! Configure_Request input = None →
  minInt64 ≤ Configure_ExpectedRevision input ≤ maxInt64 →
  on_store (Service.Configure input) m = (Ok r, m1) →
  requests m1 !! Configure_Request input = Some (configured_as input (Applied r)) ∧
  r = Configure_ExpectedRevision input + 1 ∧ m1 = (configure (configured_as input Stale) (configured_revision input) m).2.
Proof.
  intros Hwf Hnew Hrange Hrun. pose proof (Configure_configurable _ _ _ _ Hrun) as Hc.
  rewrite Configure_run, embeddingKept_run in Hrun by done.
  destruct (match last _ with Some _ => _ | None => _ end) as [u|e] in Hrun; [|done].
  destruct (configure _ _ m) as [[stored|e] m'] eqn:Hcf; [|done]. injection Hrun as Hr ->.
  unfold configure in Hcf. cbn in Hcf. rewrite Hnew in Hcf.
  destruct (slice (definitions m) (Configure_Agent input)) as [|first rest] eqn:Hs; [done|].
  destruct (bool_decide (Definition_Organization first = _)); cbn in Hcf; [|done].
  destruct (append_spec (configured_revision input) m) as [[Happ _]|[Happ Hrev]];
    unfold configured_revision in *; rewrite Happ in Hcf; cbn in *; injection Hcf as <- <-; cbn in Hr;
    unfold configure_answer in Hr; cbn in Hr; rewrite !bool_decide_true in Hr by done; cbn in Hr; [done|]. simplify_eq. cbn.
  rewrite lookup_insert_eq. split_and!; [done| |done]. rewrite Hs in Hrev. cbn in Hrev.
  destruct (decide (Configure_ExpectedRevision input = maxInt64)) as [Hmax|].
  - exfalso. rewrite Hmax in Hrev. assert (int64 (maxInt64 + 1) = - 2 ^ 63) by by vm_compute. lia.
  - apply int64_small. unfold minInt64 in *. lia.
Qed.

(** ** Creating an agent *)

(** The store, and garam answering registrations as [register] does. *)
Definition with_garam (register : Registration → result Registered) : handler (repoE +' registrarE) mem :=
  sum_handler handle (λ Y e m, (match e in registrarE Y return Y with Register r => register r end, m)).
Abbreviation create register input m := (run (with_garam register) (Service.CreateAgent input) m).

Lemma run_with_store register {A} (e : repoE A) m :
  run (with_garam register) (call e) m = handle A e m.
Proof. rewrite run_call. done. Qed.
Lemma run_with_garam register r m :
  run (with_garam register) (call (Register r)) m = (register r, m).
Proof. rewrite run_call. done. Qed.

(** What [CreateAgent] reads before it stores anything: the template version, renderable, and the
profile version, both the organization's. *)
Definition creatable m (input : CreateInput) (t : Template) : Prop :=
  get_template (Key_Organization (Create_Request input)) (Create_Template input) m = (Ok t, m) ∧
  Configuration_check (Template_Config t) = Ok tt ∧
  published (profiles m) (Key_Organization (Create_Request input)) (Create_Profile input).

Definition creation_as (input : CreateInput) (o : Outcome) : Creation :=
  mkCreation (Create_Request input) (Create_Binding input) (Create_Controller input)
  (Create_Template input) (Create_Profile input) o.
Definition registration (input : CreateInput) : Registration :=
  mkRegistration (Create_Request input) (Create_Controller input)
  (Binding_OperationRef (Create_Binding input)).
Definition first_revision (input : CreateInput) (t : Template) (answer : Registered) : Definition_ :=
  mkDefinition (Registered_Agent answer) (Key_Organization (Create_Request input)) 1
  (Create_Profile input) (Template_Config t)
  (Some (mkAssignment (Create_Controller input) (Registered_Epoch answer))).
Definition store_creation input (o : Outcome) m : mem :=
  set_creations (<[Create_Request input := creation_as input o]> (creations m)) m.

(** Why a registration is refused for good. *)
Definition refused_for_good (e : error) : bool :=
  errors_is e ErrRegistrationRefused || errors_is e ErrRegistrationConflict.

Lemma CreateAgent_resumed register input t m :
  creatable m input t → creations m !! Create_Request input = Some (creation_as input Pending) →
  create register input m =
  match register (registration input) with
  | Ok answer =>
    match slice (definitions m) (Registered_Agent answer) with
    | [] => (Ok (creation_as input (RegisteredAs answer), true),
        store_creation input (RegisteredAs answer) (append (first_revision input t answer) m).2)
    | _ :: _ => (Err ErrStaleRevision, m)
    end
  | Err err =>
    if refused_for_good err
    then (Ok (creation_as input (Failed (error_text err) (errors_is err ErrRegistrationConflict)), false),
      store_creation input (Failed (error_text err) (errors_is err ErrRegistrationConflict)) m)
    else (Err (Wrapf "register agent: " err ""), m)
  end.
Proof.
  intros (Ht & Hcheck & [p Hp]%published_get_profile) Hc. unfold Service.CreateAgent.
  rewrite run_try_wrap, run_with_store. cbn [handle]. rewrite Ht.
  rewrite run_try_wrap, run_lift, Hcheck, run_try_wrap, run_with_store. cbn [handle]. rewrite Hp.
  rewrite run_try_bind, run_with_store. cbn [handle]. unfold begin_creation. cbn [Creation_Key].
  rewrite Hc. cbn iota. rewrite !bool_decide_true by done.
  cbn [negb orb Creation_Outcome creation_as]. rewrite run_bind.
  fold (registration input). rewrite run_with_garam. destruct (register (registration input)) as [answer|err].
  - rewrite run_with_store. cbn [handle]. unfold register_creation. rewrite Hc. cbn.
    fold (first_revision input t answer). rewrite (bool_decide_true (Pending = Pending)) by done.
    destruct (append_spec (first_revision input t answer) m) as [[-> Hne]|[-> Heq]]; cbn in *;
      destruct (slice (definitions m) (Registered_Agent answer)) as [|d rest];
      cbn in *; first [done|lia|by destruct answer].
  - fold (refused_for_good err). destruct (refused_for_good err); [|done].
    rewrite run_try_bind, run_with_store. cbn [handle]. unfold fail_creation. by rewrite Hc.
Qed.

(** The reads and the creation begun, before garam is asked. *)
Lemma CreateAgent_begun register input t m :
  wf m → creatable m input t →
  create register input m =
  match creations m !! Create_Request input with
  | None => create register input (store_creation input Pending m)
  | Some c =>
    if bool_decide (c = creation_as input (Creation_Outcome c)) then
    match Creation_Outcome c with
    | Pending => create register input m
    | Failed _ _ => (Ok (c, false), m)
    | RegisteredAs stored =>
      (match register (registration input) with
      | Ok answer => if bool_decide (answer = stored) then Ok (c, false) else Err ErrAssignmentMoved
      | Err err => if errors_is err ErrRegistrationConflict then Err ErrAssignmentMoved else Err err
      end, m)
    end
    else (Err ErrRequestReused, m)
  end.
Proof.
  intros Hwf (Ht & Hcheck & [p Hp]%published_get_profile).
  destruct (creations m !! Create_Request input) as [c|] eqn:Hc; last first.
  { unfold Service.CreateAgent.
    rewrite !run_try_wrap, !run_with_store. cbn [handle]. rewrite Ht.
    change (get_template ?o ?r (store_creation input Pending m)) with
      ((get_template o r m).1, store_creation input Pending m). rewrite Ht. cbn [fst].
    rewrite !run_try_wrap, !run_lift, Hcheck, !run_try_wrap, !run_with_store. cbn [handle]. rewrite Hp.
    change (get_profile ?o ?r (store_creation input Pending m)) with
      ((get_profile o r m).1, store_creation input Pending m). rewrite Hp. cbn [fst].
    rewrite !run_try_bind, !run_with_store. cbn [handle]. unfold begin_creation. cbn [Creation_Key].
    rewrite Hc. cbn [store_creation creations set_creations]. by rewrite lookup_insert_eq. }
  destruct (decide (Creation_Outcome c = Pending ∧ c = creation_as input (Creation_Outcome c))) as [[Ho Heq]|Hnot].
  { by rewrite bool_decide_true, Ho. }
  unfold Service.CreateAgent.
  rewrite run_try_wrap, run_with_store. cbn [handle]. rewrite Ht.
  rewrite run_try_wrap, run_lift, Hcheck, run_try_wrap, run_with_store. cbn [handle]. rewrite Hp.
  rewrite run_try_bind, run_with_store. cbn [handle]. unfold begin_creation. cbn [Creation_Key].
  rewrite Hc. cbn iota.
  pose proof (proj1 (wf_creations _ Hwf) _ _ Hc) as Hkey. destruct c as [k bd ctl tm pr o].
  cbn [Creation_Key Creation_Outcome Creation_Binding Creation_Controller Creation_Template
    Creation_Profile] in *. subst k.
  destruct (decide (bd = Create_Binding input ∧ ctl = Create_Controller input ∧
    tm = Create_Template input ∧ pr = Create_Profile input)) as [(-> & -> & -> & ->)|Hne].
  - fold (creation_as input o). rewrite !bool_decide_true by done. cbn [negb orb].
    destruct o as [|stored|reason conflict]; [by destruct Hnot| |done].
    rewrite run_bind. fold (registration input). rewrite run_with_garam.
    destruct (register (registration input)) as [answer|err].
    + case_bool_decide; done.
    + by destruct (errors_is err ErrRegistrationConflict).
  - rewrite (bool_decide_false (_ = creation_as input o)).
    2: { unfold creation_as. intros [= -> -> -> ->]. by apply Hne. }
    repeat (case_bool_decide; cbn [negb orb]; [|done]). subst. by destruct Hne.
Qed.

(** What a pending creation comes to, by garam's answer. *)
Definition outcome_of register input t m : result (Creation * bool) * mem :=
  match register (registration input) with
  | Ok answer =>
    match slice (definitions m) (Registered_Agent answer) with
    | [] => (Ok (creation_as input (RegisteredAs answer), true),
        store_creation input (RegisteredAs answer) (append (first_revision input t answer) m).2)
    | _ :: _ => (Err ErrStaleRevision, m)
    end
  | Err err =>
    if refused_for_good err
    then let o := Failed (error_text err) (errors_is err ErrRegistrationConflict) in
    (Ok (creation_as input o, false), store_creation input o m)
    else (Err (Wrapf "register agent: " err ""), m)
  end.

Lemma CreateAgent_fresh register input t m :
  wf m → creatable m input t → creations m !! Create_Request input = None →
  create register input m = outcome_of register input t (store_creation input Pending m).
Proof.
  intros Hwf Hc Hnew. rewrite (CreateAgent_begun _ _ t), Hnew by done.
  apply CreateAgent_resumed; [|cbn; by rewrite lookup_insert_eq].
  destruct Hc as ([= Ht] & ? & ?). split; [|done]. unfold get_template. cbn. by rewrite Ht.
Qed.

(** Versions and profiles stay as read. *)
Lemma get_template_later m m' org ref t :
  extends m m' → get_template org ref m = (Ok t, m) → get_template org ref m' = (Ok t, m').
Proof.
  intros Hext [= Ht]. unfold get_template. f_equal. unfold get_version in *.
  case_bool_decide; [done|]. case_bool_decide; [done|]. cbn in Ht.
  destruct (index _ _) as [t'|] eqn:Hi; [|done]. injection Ht as ->.
  apply index_Some in Hi as [Hge Hi]. apply (ext_templates _ _ Hext) in Hi.
  pose proof (lookup_lt_Some _ _ _ Hi). rewrite !bool_decide_false by lia. cbn.
  by rewrite (proj2 (index_Some _ _ t)).
Qed.

Lemma published_later m m' org ref :
  extends m m' → published (profiles m) org ref → published (profiles m') org ref.
Proof.
  intros Hext [p [Hge Hp]%index_Some]. exists p. apply index_Some. split; [done|].
  by apply (ext_profiles _ _ Hext).
Qed.

Lemma creatable_later m m' input t : extends m m' → creatable m input t → creatable m' input t.
Proof.
  intros Hext (Ht & Hc & Hp). split_and!; [by eapply get_template_later|done|by eapply published_later].
Qed.

(** A creation run alone makes legal calls only. *)
Lemma create_calls register input m :
  Concurrent.inv m → calls m (create register input m).2 ∧ Concurrent.inv (create register input m).2.
Proof.
  intros Hi. by edestruct (Concurrent.guarded_run (λ held _ _, held = None) None
    (Service.CreateAgent input) m
    (λ Y e, match e in registrarE Y return Y with Register r => register r end)) as (? & ? & _);
    [|apply Requests.CreateAgent_well|].
Qed.
End spec.

(** ** The theorems *)
Section theorems.
Context `{K8s : Kubernetes, SE : !SemanticEquality}.
Implicit Types (m : mem) (agent : GRN).
Abbreviation on_store p m := (run (E:=repoE) handle p m).
Abbreviation create register input m := (run (with_garam register) (Service.CreateAgent input) m).

(** Whether the request is based on the latest revision and does not keep its embedding. *)
Definition changes_embedding (latest : option Definition_) (input : ConfigureInput) : bool :=
  match latest with
  | Some latest =>
    bool_decide (Definition_Organization latest = Key_Organization (Configure_Request input)) &&
    bool_decide (Definition_Revision latest = Configure_ExpectedRevision input) && negb (keeps_embedding latest input)
  | None => false
  end.

(** C37: what any configure request comes to, whatever it holds. Its configuration does not pass its check, or its profile
is not published, and it is answered why; it is based on the latest revision and changes or removes its embedding, and is
refused: in each, nothing is stored. Where its key was used before, it is answered what that request was, or refused
where that request was another, and nothing is stored. Under a fresh key, the agent is not the organization's, and nothing
is stored; or it is based on another revision than the latest, and is stored as stale, as it is where the next revision's
number would overflow; or its configuration becomes the next revision and the request is stored as applied. *)
Theorem Configure_outcomes m input :
  wf m →
  let latest := last (slice (definitions m) (Configure_Agent input)) in
  on_store (Service.Configure input) m =
  match Configuration_check (Configure_Config input),
    (get_profile (Key_Organization (Configure_Request input)) (Configure_Profile input) m).1 with
  | Err err, _ => (Err err, m)
  | Ok _, Err err => (Err (Service.profile_error (Configure_Profile input) err), m)
  | Ok _, Ok _ =>
    if changes_embedding latest input then (Err ErrEmbeddingImmutable, m)
    else match requests m !! Configure_Request input, latest with
    | Some stored, _ => (configure_answer input stored, m)
    | None, None => (Err ErrNotFound, m)
    | None, Some latest =>
      if bool_decide (Definition_Organization latest ≠ Key_Organization (Configure_Request input))
      then (Err ErrNotFound, m)
      else if bool_decide (Definition_Revision latest + 1 ≠ int64 (Configure_ExpectedRevision input + 1))
      then (Err ErrStaleRevision, store_request input Stale m)
      else (Ok (Definition_Revision latest + 1),
        store_request input (Applied (Definition_Revision latest + 1))
        (append (configured_revision input) m).2)
    end
  end.
Proof.
  intros Hwf latest. rewrite Configure_steps. destruct (Configuration_check _); [|done].
  destruct (get_profile _ _ _).1; [|done]. rewrite embeddingKept_run. fold latest.
  assert (∀ o, configure_answer input (configured_as input o) = match o with Applied r => Ok r | Stale => Err ErrStaleRevision end)
    as Hanswer by (intros o; unfold configure_answer; by rewrite !bool_decide_true).
  assert (match configure (configured_as input Stale) (configured_revision input) m with
    | (Err e, m) => (Err e, m) | (Ok stored, m) => (configure_answer input stored, m) end =
    match requests m !! Configure_Request input, latest with
    | Some stored, _ => (configure_answer input stored, m)
    | None, None => (Err ErrNotFound, m)
    | None, Some latest =>
    if bool_decide (Definition_Organization latest ≠ Key_Organization (Configure_Request input))
    then (Err ErrNotFound, m)
    else if bool_decide (Definition_Revision latest + 1 ≠ int64 (Configure_ExpectedRevision input + 1))
    then (Err ErrStaleRevision, store_request input Stale m)
    else (Ok (Definition_Revision latest + 1),
    store_request input (Applied (Definition_Revision latest + 1))
    (append (configured_revision input) m).2)
    end) as Hstore.
  { destruct (requests m !! Configure_Request input) as [stored|] eqn:Hs; [by rewrite (configure_stored _ _ _ _ Hs)|].
    rewrite configure_fresh by done. fold latest. destruct latest as [latest|]; [|done].
    case_bool_decide; [done|]. by case_bool_decide; rewrite Hanswer. }
  unfold changes_embedding. destruct latest as [latest|]; [|exact Hstore].
  by destruct (bool_decide (Definition_Organization latest = _) && _ && _).
Qed.

(** A configure request first made under a fresh key and answered a revision is answered the
same revision ever after, whatever was called in between, and its repeats store nothing. *)
Theorem Configure_repeated m input r m1 m2 :
  wf m → requests m !! Configure_Request input = None →
  minInt64 ≤ Configure_ExpectedRevision input ≤ maxInt64 →
  on_store (Service.Configure input) m = (Ok r, m1) → calls m1 m2 →
  on_store (Service.Configure input) m2 = (Ok r, m2).
Proof.
  intros Hwf Hnew Hrange Hrun Hcalls.
  pose proof (Configure_configurable _ _ _ _ Hrun) as [Hcheck Hpub].
  destruct (Configure_fresh_ok _ _ _ _ Hwf Hnew Hrange Hrun) as (Hstored & Hr & Hm1).
  assert (calls m m2) as Hall.
  { eapply calls_trans; [|exact Hcalls]. rewrite Hm1.
    apply (calls_step m m _ (Configure (configured_as input Stale) (configured_revision input)));
      [apply calls_refl|]. by split. }
  assert (wf m2) as Hwf2 by (by eapply calls_wf).
  assert (wf m1) as Hwf1.
  { rewrite Hm1. apply (handle_keeps m _ (Configure (configured_as input Stale) (configured_revision input)));
      [done|by split]. }
  assert (requests m2 !! Configure_Request input = Some (configured_as input (Applied r))) as Hs2.
  { eapply lookup_weaken; [exact Hstored|]. apply ext_requests. by apply calls_extends. }
  assert (configurable m2 input) as Hc2.
  { split; [done|]. eapply published_later; [by apply calls_extends|done]. }
  rewrite Configure_run, (embeddingKept_applied _ _ r) by done.
  rewrite (configure_stored _ _ _ _ Hs2). unfold configure_answer. cbn. by rewrite !bool_decide_true.
Qed.

(** A creation under a fresh key is begun before garam is asked. garam's agent, where the store
holds none of its revisions, gets revision 1 from the template and the creation is registered;
garam's refusal or conflict is stored as the creation's failure; after any other answer the
creation stays pending, to be resumed. *)
Theorem CreateAgent_outcomes register input t m :
  wf m → creatable m input t → creations m !! Create_Request input = None →
  create register input m = outcome_of register input t (store_creation input Pending m).
Proof. apply CreateAgent_fresh. Qed.

(** A creation's outcome is final. Once registered, every repeat, whatever was called in
between, asks garam again and is answered the same creation exactly where garam still answers
the same agent and epoch, and refused otherwise; once failed, every repeat is answered that
failure, whatever garam would say. No repeat stores anything. *)
Theorem CreateAgent_repeated register input t m c first m1 m2 again :
  Concurrent.inv m → creatable m input t → creations m !! Create_Request input = None →
  create register input m = (Ok (c, first), m1) → calls m1 m2 →
  create again input m2 =
  (match Creation_Outcome c with
  | RegisteredAs stored =>
    match again (registration input) with
    | Ok answer => if bool_decide (answer = stored) then Ok (c, false) else Err ErrAssignmentMoved
    | Err err => if errors_is err ErrRegistrationConflict then Err ErrAssignmentMoved else Err err
    end
  | _ => Ok (c, false)
  end, m2).
Proof.
  intros Hi Hc Hnew Hrun Hcalls. pose proof (create_calls register input m Hi) as [Hc1 Hi1].
  rewrite Hrun in Hc1, Hi1. cbn in Hc1, Hi1. pose proof Hi as [Hwf _ _]. pose proof Hi1 as [Hwf1 _ _].
  assert (creations m1 !! Create_Request input = Some c ∧ c = creation_as input (Creation_Outcome c) ∧
    Creation_Outcome c ≠ Pending) as (Hstored & Hc' & Hdone).
  { rewrite (CreateAgent_fresh _ _ t) in Hrun by done. unfold outcome_of in Hrun.
    destruct (register (registration input)) as [answer|err].
    - destruct (slice _ (Registered_Agent answer)); [|done]. injection Hrun as <- <- <-. cbn.
      by rewrite lookup_insert_eq.
    - destruct (refused_for_good err); [|done]. injection Hrun as <- <- <-. cbn.
      by rewrite lookup_insert_eq. }
  destruct (ext_creations _ _ (calls_extends _ _ Hcalls Hwf1) _ _ Hstored) as (c2 & Hc2 & _ & Hkeep).
  rewrite (Hkeep Hdone) in Hc2. rewrite (CreateAgent_begun _ _ t); [|by eapply calls_wf| ]; last first.
  { eapply creatable_later; [|exact Hc]. apply calls_extends; [by eapply calls_trans|done]. }
  rewrite Hc2, bool_decide_true by done. by destruct (Creation_Outcome c).
Qed.
End theorems.

(** ** Witnesses *)
Section witnesses.
#[local] Existing Instances Samples.K8s Samples.SE.
Import Samples.

Lemma base_inv : Concurrent.inv base.
Proof.
  apply Concurrent.inv_no_stops; [|eapply calls_traced; [apply base_calls|..]|done].
  - eapply calls_wf; [apply base_calls|apply NewMemory_wf].
  - apply NewMemory_wf.
  - apply NewMemory_traced.
Qed.

Lemma store_inv : Concurrent.inv store.
Proof.
  apply Concurrent.inv_no_stops; [apply store_wf|eapply calls_traced; [apply store_calls|..]|done].
  - apply NewMemory_wf.
  - apply NewMemory_traced.
Qed.

Lemma store_configurable input :
  Configuration_check (Configure_Config input) = Ok tt → Configure_Request input = key "configure" →
  Configure_Profile input = profile → configurable store input.
Proof. intros Hc Hk Hp. split; [done|]. rewrite Hk, Hp. by eexists. Qed.

Definition sample_input : ConfigureInput := configure_input "configure" 1 other_config.

(** Applied; refused for its configuration, its profile and its key; and one of no agent. *)
Definition unpublished_input : ConfigureInput :=
  mkConfigureInput (key "configure") (Configure_Binding sample_input) agent 1 (mkProfileRef "none" 1) other_config.
Lemma Configure_outcomes_witness :
  (run (E:=repoE) handle (Service.Configure sample_input) store).1 = Ok 2 ∧
  (run (E:=repoE) handle (Service.Configure unpublished_input) store).1 =
  Err (Service.profile_error (mkProfileRef "none" 1) ErrNotFound) ∧
  (run (E:=repoE) handle (Service.Configure (configure_input "configure" maxInt64 other_config)) store).1 = Err ErrStaleRevision.
Proof.
  split_and!; rewrite (Configure_outcomes store _ store_wf); by vm_compute.
Defined.

(** Between the request and its repeat another one is applied on top. *)
Definition applied_store : mem := (run (E:=repoE) handle (Service.Configure sample_input) store).2.
Definition configured_again : mem :=
  (handle _ (Configure (mkRequest (key "another") (binding "ref-3") agent Stale)
    (revision 3 config)) applied_store).2.

Lemma Configure_repeated_witness :
  run (E:=repoE) handle (Service.Configure sample_input) configured_again = (Ok 2, configured_again) ∧
  length (slice (definitions configured_again) agent) = 3%nat.
Proof.
  split; [|by vm_compute].
  apply (Configure_repeated store sample_input 2 applied_store).
  - exact store_wf.
  - done.
  - by vm_compute.
  - apply pair_by_fst. by vm_compute.
  - apply calls_step; [apply calls_refl|]. split; [by eexists|done].
Defined.

Definition base_template : Template := mkTemplate "base" 1 profile config.

Lemma base_creatable : creatable base create_input base_template.
Proof. split_and!; [done|by vm_compute|by eexists]. Qed.

Definition registers (r : Registration) : result Registered := Ok (mkRegistered agent "epoch-1").
Definition undecided (r : Registration) : result Registered := Err ErrRegistrationUndecided.

Lemma CreateAgent_outcomes_witness :
  (run (with_garam registers) (Service.CreateAgent create_input) base).1 =
  Ok (creation_as create_input (RegisteredAs (mkRegistered agent "epoch-1")), true) ∧
  (run (with_garam undecided) (Service.CreateAgent create_input) base).1 =
  Err (Wrapf "register agent: " ErrRegistrationUndecided "").
Proof.
  split; rewrite (CreateAgent_outcomes _ create_input base_template base (Concurrent.inv_wf _ base_inv) base_creatable)
    by done; by vm_compute.
Defined.

(** After the agent is registered and configured again, a repeat garam answers otherwise is refused. *)
Definition registered_store : mem := (run (with_garam registers) (Service.CreateAgent create_input) base).2.
Definition moved (r : Registration) : result Registered := Ok (mkRegistered agent "epoch-2").

Lemma CreateAgent_repeated_witness :
  (run (with_garam registers) (Service.CreateAgent create_input) registered_store).1 =
  Ok (creation_as create_input (RegisteredAs (mkRegistered agent "epoch-1")), false) ∧
  (run (with_garam moved) (Service.CreateAgent create_input) registered_store).1 = Err ErrAssignmentMoved.
Proof.
  assert (run (with_garam registers) (Service.CreateAgent create_input) base =
    (Ok (creation_as create_input (RegisteredAs (mkRegistered agent "epoch-1")), true), registered_store)) as Hrun.
  { apply pair_by_fst. by vm_compute. }
  split; rewrite (CreateAgent_repeated registers create_input base_template base _ true registered_store
    registered_store _ base_inv base_creatable eq_refl Hrun (calls_refl _)); by vm_compute.
Defined.
End witnesses.
End ServiceSpec.
