(* ===== verification/ActivationSpec.v ===== *)
(** The activation of a runtime generation and the report of its status: what is stored and sent for
    an activation, what an answered activation proves, and what a status report may change. *)
From S2P Require Import Prelude GoStd Json JsonText Errors Types Validation Repository Memory MemoryInvariant Samples StoreHistory Feed StoreSpec Service Execution Concurrent Requests ServiceSpec.
Import GoStd Json JsonText Validation Memory MemoryInvariant StoreSpec Execution Concurrent ServiceSpec.

Module ActivationSpec.

Section spec.
Context `{K8s : Kubernetes, SE : !SemanticEquality}.
Implicit Types (m : mem) (agent : GRN).

(** Any handler that answers the store's calls from the store. *)
Context {E : Type → Type} `{!SubEvent repoE E} (h : handler E mem).
Context (h_store : ∀ Y (e : repoE Y) m, h Y (inject e) m = handle Y e m).
Abbreviation on_store p m := (run h p m).

Lemma run_h {A} (e : repoE A) m : on_store (call e) m = handle A e m.
Proof. by rewrite run_call, h_store. Qed.

(** ** Preparing an activation *)

(** What an activation of [revision] is sent under as its operation reference: none where the runtime
reported that revision under the anchor, else the reference of the recorded request the revision
came from. *)
Definition authorizes m agent (revision : Revision) (ref : string) : Prop :=
  (∃ a, applied m !! agent = Some a ∧ latest_of m agent ≠ "" ∧
    RuntimeApplied_ActivationID a = latest_of m agent ∧ RuntimeApplied_Revision a = revision ∧ ref = "") ∨
  (revision = 1 ∧ ∃ k c r, creations m !! k = Some c ∧ Creation_Outcome c = RegisteredAs r ∧
    Registered_Agent r = agent ∧ ref = Binding_OperationRef (Creation_Binding c)) ∨
  (revision ≠ 1 ∧ ∃ k q, requests m !! k = Some q ∧ Request_Agent q = agent ∧
    Request_Outcome q = Applied revision ∧ ref = Binding_OperationRef (Request_Binding q)).

Lemma latest_or_none_run m agent :
  on_store (Service.latest_or_none agent) m = (Ok (latest_of m agent), m).
Proof.
  unfold Service.latest_or_none. rewrite run_bind, run_h. cbn [handle]. unfold latest_activation, latest_of.
  by destruct (latest m !! agent).
Qed.

Lemma stopped_run m agent :
  on_store (Service.stopped agent) m =
  (match current_stop_locked agent m with Some _ => Err ErrAgentStopped | None => Ok tt end, m).
Proof.
  unfold Service.stopped. rewrite run_bind, run_h. cbn [handle]. unfold current_stop.
  by destruct (current_stop_locked agent m).
Qed.

(** In a store whose revisions are authorized, one of them always has a reference. *)
Lemma creation_of_traced m agent d :
  traced m → slice (definitions m) agent !! 0%nat = Some d →
  ∃ k c r, creations m !! k = Some c ∧ Creation_Outcome c = RegisteredAs r ∧ Registered_Agent r = agent ∧
  creation_of agent m = (Ok c, m).
Proof.
  intros Ht Hd. destruct (Ht _ _ _ Hd) as (k & c & r & Hc & Ho & Hr). unfold creation_of.
  assert (registered_agent agent c = true) as Hreg.
  { unfold registered_agent. rewrite Ho. by apply bool_decide_eq_true. }
  destruct (find_value (registered_agent agent) (creations m)) as [c'|] eqn:Hf.
  - apply find_value_Some in Hf as [Hf [k' Hk']]. unfold registered_agent in Hf.
    destruct (Creation_Outcome c') as [|r'|] eqn:Ho'; [done| |done].
    apply bool_decide_eq_true in Hf. by exists k', c', r'.
  - rewrite (find_value_None _ _ _ _ Hf Hc) in Hreg. done.
Qed.

Lemma configure_reference_traced m agent i d :
  traced m → slice (definitions m) agent !! S i = Some d →
  ∃ k q, requests m !! k = Some q ∧ Request_Agent q = agent ∧
  Request_Outcome q = Applied (Z.of_nat (S i) + 1) ∧
  configure_reference agent (Z.of_nat (S i) + 1) m = (Ok (Binding_OperationRef (Request_Binding q)), m).
Proof.
  intros Ht Hd. destruct (Ht _ _ _ Hd) as (k & q & Hq & Ha & Ho). unfold configure_reference.
  assert (applied_revision agent (Z.of_nat (S i) + 1) q = true) as Happ.
  { unfold applied_revision. rewrite Ho. apply andb_true_iff. split; by apply bool_decide_eq_true. }
  destruct (find_value _ (requests m)) as [q'|] eqn:Hf.
  - apply find_value_Some in Hf as [Hf [k' Hk']]. unfold applied_revision in Hf.
    destruct (Request_Outcome q') as [r'|] eqn:Ho'; [|done].
    apply andb_true_iff in Hf as [Ha'%bool_decide_eq_true Hr'%bool_decide_eq_true].
    exists k', q'. rewrite Ho'. split_and!; congruence.
  - rewrite (find_value_None _ _ _ _ Hf Hq) in Happ. done.
Qed.

Lemma operationReference_run m agent revision :
  wf m → traced m → 1 ≤ revision ≤ Z.of_nat (length (slice (definitions m) agent)) →
  ∃ ref, on_store (Service.operationReference agent revision (latest_of m agent)) m = (Ok ref, m) ∧
  authorizes m agent revision ref.
Proof.
  intros Hwf Ht Hrev.
  assert (∃ ref,
    on_store (if bool_decide (revision = 1) then
    creation ←? call (CreationOf agent);
    mret (Ok (Binding_OperationRef (Creation_Binding creation)))
    else call (ConfigureReference agent revision)) m = (Ok ref, m) ∧
    authorizes m agent revision ref) as (ref & Hrun & Hauth).
  { destruct (lookup_lt_is_Some_2 (slice (definitions m) agent) (Z.to_nat (revision - 1))) as [d Hd]; [lia|].
    case_bool_decide as Hone.
    - subst revision. destruct (creation_of_traced _ _ _ Ht Hd) as (k & c & r & Hc & Ho & Hr & Hof).
      exists (Binding_OperationRef (Creation_Binding c)). rewrite run_try_bind, run_h. cbn [handle].
      rewrite Hof. split; [done|]. right; left. split; [done|]. by exists k, c, r.
    - destruct (Z.to_nat (revision - 1)) as [|i] eqn:Hi; [lia|].
      destruct (configure_reference_traced _ _ _ _ Ht Hd) as (k & q & Hq & Ha & Ho & Hof).
      replace (Z.of_nat (S i) + 1) with revision in * by lia.
      exists (Binding_OperationRef (Request_Binding q)). rewrite run_h. cbn [handle].
      split; [done|]. right; right. split; [done|]. by exists k, q. }
  unfold Service.operationReference. rewrite run_bind, run_h. cbn [handle].
  unfold get_runtime_applied. destruct (applied m !! agent) as [a|] eqn:Ha; [|by exists ref].
  destruct (decide (latest_of m agent ≠ "" ∧ RuntimeApplied_ActivationID a = latest_of m agent ∧
    RuntimeApplied_Revision a = revision)) as [(Hl & Hi & Hr)|Hne].
  - rewrite (bool_decide_false (_ = "")) by done. rewrite !bool_decide_true by done.
    exists "". split; [done|]. left. by exists a.
  - exists ref. split; [|done]. rewrite <- Hrun.
    destruct (negb (bool_decide (latest_of m agent = "")) && _ && _) eqn:Hb; [|done].
    apply andb_true_iff in Hb as [[Hl%negb_true_iff%bool_decide_eq_false Hi%bool_decide_eq_true]%andb_true_iff
      Hr%bool_decide_eq_true]. by destruct Hne.
Qed.
(** A new request of a revision the agent has is stored under the latest activation, authorized. *)
Lemma PrepareActivation_run m agent req :
  Concurrent.inv m →
  let id := ActivationRequest_RequestID req in
  let r := on_store (Service.PrepareActivation agent req) m in
  match current_stop_locked agent m, agent_activations agent m !! id,
    last (slice (definitions m) agent) with
  | Some _, _, _ => r = (Err ErrAgentStopped, m)
  | None, Some stored, _ =>
    r = (if bool_decide (Activation_Request stored = req) then Ok stored else Err ErrRequestReused, m)
  | None, None, None => r = (Err ErrNotFound, m)
  | None, None, Some latest =>
    if bool_decide (1 ≤ ActivationRequest_ConfigRevision req ≤ Definition_Revision latest)
    then ∃ ref, authorizes m agent (ActivationRequest_ConfigRevision req) ref ∧
    let a := mkActivation agent req (latest_of m agent) ref "" in
    r = (Ok a, (insert_activation a m).2) ∧
    agent_activations agent r.2 !! id = Some a
    else r = (Err ErrInvalidStatus, m)
  end.
Proof.
  intros [Hwf Ht _]. cbn zeta. unfold Service.PrepareActivation.
  rewrite run_try_bind, stopped_run. destruct (current_stop_locked agent m) as [s|]; [done|].
  rewrite run_bind, run_h. cbn [handle]. unfold get_activation.
  destruct (agent_activations agent m !! _) as [stored|] eqn:Hstored.
  { case_bool_decide; done. }
  cbn [errors_is]. rewrite (bool_decide_true (ErrNotFound = ErrNotFound)) by done. cbn [negb].
  rewrite run_try_bind, run_h. cbn [handle]. rewrite get_definition_last.
  destruct (last (slice (definitions m) agent)) as [latest|] eqn:Hl; [|done].
  destruct (last_revision _ _ _ Hwf Hl) as (Hrev & _).
  case_bool_decide as Hrange; last first.
  { case_bool_decide; [done|]. case_bool_decide; [done|]. lia. }
  rewrite !bool_decide_false by lia. cbn [orb]. rewrite run_try_bind, latest_or_none_run, run_try_bind.
  destruct (operationReference_run m agent (ActivationRequest_ConfigRevision req)) as (ref & -> & Hauth);
    [done|done|lia|].
  exists ref. split; [done|]. rewrite run_h. cbn [handle]. unfold insert_activation. cbn.
  rewrite Hstored. cbn. split; [done|]. unfold agent_activations. cbn.
  rewrite lookup_insert_eq. cbn. by rewrite lookup_insert_eq.
Qed.
End spec.

(** ** The routes *)
Section routes.
Context `{K8s : Kubernetes, SE : !SemanticEquality}.
Implicit Types (m : mem) (agent : GRN).
Context (introspect : string → AgentToken → string → result Introspection).
Context (activates : string → ActivationCall → result (GaramActivation * bool)).
Context (seen : string → bool).

(** The store, garam's machine listener answering as given, and the server's own set and log. *)
Definition machine Y (e : garamE Y) : Y :=
  match e in garamE Y return Y with
  | Introspect agent token generation => introspect agent token generation
  | Activate agent c => activates agent c
  end.
Definition server Y (e : serverE Y) : Y :=
  match e in serverE Y return Y with LoadOrStore contract => seen contract | LogError _ _ => tt end.
Definition outside Y (e : (garamE +' serverE) Y) : Y :=
  match e with InL e => machine Y e | InR e => server Y e end.
Definition routes : handler (repoE +' (garamE +' serverE)) mem :=
  sum_handler handle (λ Y e m, (outside Y e, m)).
Abbreviation route p m := (run routes p m).

Lemma routes_store Y (e : repoE Y) m : routes Y (inject e) m = handle Y e m.
Proof. done. Qed.
Lemma run_introspect agent token generation m :
  route (call (Introspect agent token generation)) m = (introspect agent token generation, m).
Proof. by rewrite run_call. Qed.
Lemma run_activate agent c m : route (call (Activate agent c)) m = (activates agent c, m).
Proof. by rewrite run_call. Qed.

(** An error is answered as a refusal, and changes nothing in the store. *)
Lemma respondError_refuses e m : ∃ status kind message,
  route (respondError e) m = (Refused status kind message, m).
Proof.
  unfold respondError. destruct (as_foreign e) as [[c contract]|].
  { rewrite run_bind, run_call. cbn. destruct (seen contract); cbn; by do 3 eexists. }
  destruct (as_refusal e) as [[[status kind] message]|]; [by do 3 eexists|].
  repeat (case_match; [by do 3 eexists|]). cbn. by do 3 eexists.
Qed.

Lemma respond_run p m answer m' :
  route (respond p) m = (answer, m') →
  (∃ e status kind message, route p m = (Err e, m') ∧ answer = Refused status kind message) ∨
  route p m = (Ok answer, m').
Proof.
  unfold respond. rewrite run_bind. destruct (route p m) as [[a|e] m1].
  - rewrite run_ret. intros [= -> ->]. by right.
  - destruct (respondError_refuses e m1) as (status & kind & message & ->). intros [= <- <-].
    left. by exists e, status, kind, message.
Qed.

(** The placement an activation is made on: the agent's current one, under its own token and epoch. *)
Lemma currentPlacement_run agent token epoch m p m' :
  route (currentPlacement agent token epoch) m = (Ok p, m') →
  m' = m ∧ current_placement agent m = (Ok p, m) ∧
  EncodeToString (Sum256 (bytes_of token)) = PlacementRequest_TokenSHA256 (Placement_Request p) ∧
  epoch = PlacementRequest_Epoch (Placement_Request p).
Proof.
  unfold currentPlacement, Service.CurrentPlacement. rewrite run_bind.
  rewrite (run_h routes routes_store). cbn [handle].
  destruct (current_placement agent m) as [[q|e] m1] eqn:Hp.
  - assert (m1 = m) as -> by (by injection Hp). do 2 (case_bool_decide; [|done]). cbn.
    by intros [= <- <-].
  - by case_match.
Qed.

Lemma admit_run agent token epoch p m u m' :
  route (server_admit agent token epoch p) m = (Ok u, m') →
  m' = m ∧ ∃ x, introspect agent token "" = Ok x ∧
  Introspection_Credential x = credentialCurrent ∧ Introspection_GRN x = agent ∧
  Introspection_Assignee x = Placement_Controller p ∧ Introspection_Epoch x = epoch.
Proof.
  unfold server_admit. rewrite run_bind, run_introspect. destruct (introspect agent token "") as [x|e]; [|done].
  repeat (case_bool_decide; cbn; [|done]). intros [= <- <-]. split; [done|]. by exists x.
Qed.

(** garam's answer to the stored request: of the binding it was asked for. *)
Definition answers agent (stored : Activation) token (answer : GaramActivation) created : Prop :=
  let req := Activation_Request stored in
  activates agent (mkActivationCall (ActivationRequest_RequestID req) (ActivationRequest_Epoch req)
    (ActivationRequest_Generation req) (Activation_ReplacesActivationID stored)
    (Activation_OperationRef stored) token) = Ok (answer, created) ∧
  Garam_GRN answer = agent ∧ Garam_Epoch answer = ActivationRequest_Epoch req ∧
  Garam_Generation answer = ActivationRequest_Generation req ∧
  Garam_ActivationID answer ≠ "" ∧ Garam_Token answer ≠ "" ∧ 1 ≤ Garam_TokenVersion answer.

Lemma callActivate_run agent stored token m answer created m' :
  route (callActivate agent stored token) m = (Ok (answer, created), m') →
  m' = m ∧ answers agent stored token answer created.
Proof.
  unfold callActivate, answers. rewrite run_bind, run_activate.
  destruct (activates _ _) as [[a c]|e]; [|done].
  destruct (_ || _) eqn:Hb; [done|]. rewrite run_ret. intros [= -> -> <-].
  rewrite !orb_false_iff, !negb_false_iff, !bool_decide_eq_true, !bool_decide_eq_false in Hb.
  destruct Hb as (((((? & ?) & ?) & ?) & ?) & ?). split_and!; try done. lia.
Qed.

(** What an answered attempt did, under the lock. *)
Lemma activation_attempt_run agent token req p m answer created m' :
  Concurrent.inv m →
  route (activation_attempt agent token req p) m = (Ok (answer, created), m') →
  current_stop_locked agent m = None ∧
  ∃ stored x, Activation_Request stored = req ∧
  introspect agent token "" = Ok x ∧
  Introspection_Credential x = credentialCurrent ∧ Introspection_GRN x = agent ∧
  Introspection_Assignee x = Placement_Controller p ∧
  Introspection_Epoch x = ActivationRequest_Epoch req ∧
  answers agent stored token answer created ∧
  latest m' !! agent = Some (Garam_ActivationID answer) ∧
  agent_activations agent m' !! ActivationRequest_RequestID req =
  Some (with_activation stored (Garam_ActivationID answer)).
Proof.
  intros Hinv. unfold activation_attempt. rewrite run_try_bind.
  pose proof (PrepareActivation_run routes routes_store m agent req Hinv) as Hprep. cbn zeta in Hprep.
  destruct (route (Service.PrepareActivation agent req) m) as [[stored|e] m1] eqn:Hr1; [|done].
  destruct (current_stop_locked agent m) as [s|]; [done|].
  assert (Activation_Request stored = req ∧
    agent_activations agent m1 !! ActivationRequest_RequestID req = Some stored) as [Hreq Hstored].
  { destruct (agent_activations agent m !! _) as [a|] eqn:Ha.
    - case_bool_decide; [|done]. by injection Hprep as -> ->.
    - destruct (last _) as [latest|]; [|done]. case_bool_decide; [|done].
      destruct Hprep as (ref & _ & [= -> ->] & ?). done. }
  rewrite run_try_bind. destruct (route (server_admit _ _ _ _) m1) as [[[]|e] m2] eqn:Hr2; [|done].
  apply admit_run in Hr2 as [-> (x & Hx & ? & ? & ? & ?)].
  rewrite run_try_bind. destruct (route (callActivate _ _ _) m1) as [[[a c]|e] m2] eqn:Hr3; [|done].
  apply callActivate_run in Hr3 as [-> Hans]. unfold Service.RecordActivation.
  rewrite run_try_bind, (run_h routes routes_store). cbn [handle]. unfold record_activation.
  rewrite Hstored. destruct (negb _ && negb _); [done|]. rewrite run_ret. intros [= <- <- <-]. split; [done|].
  exists stored, x. split_and!; try done; cbn.
  - by rewrite lookup_insert_eq.
  - unfold agent_activations. cbn. rewrite lookup_insert_eq. cbn. by rewrite lookup_insert_eq.
Qed.

Lemma read_body_Some r body : read_body r = Some body → http_body r = Some body.
Proof. unfold read_body. destruct (http_body r); [|done]. cbn. by case_bool_decide. Qed.

(** garam's answer admits the report: the token and the generation are current together, for the
assignment, epoch and activation reported. *)
Definition admits agent token (i : statusReport) (p : Placement) : Prop :=
  ∃ x, introspect agent token (report_Generation i) = Ok x ∧
  Introspection_Credential x = credentialCurrent ∧ Introspection_Generation x = generationCurrent ∧
  Introspection_GRN x = agent ∧ Introspection_Epoch x = report_Epoch i ∧
  Introspection_ActivationID x = report_ActivationID i ∧
  Introspection_Assignee x = Placement_Controller p.

Lemma admitReport_run agent token i m u m' :
  route (admitReport agent token i) m = (Ok u, m') →
  m' = m ∧ ∃ p, current_placement agent m = (Ok p, m) ∧ admits agent token i p ∧
  activation_of_generation agent (report_Generation i) m = (Ok (report_ActivationID i), m).
Proof.
  unfold admitReport, Service.CurrentPlacement, Service.ActivationOfGeneration.
  rewrite run_bind, run_introspect. destruct (introspect agent token _) as [x|e] eqn:Hx; [|done].
  case_bool_decide; cbn [negb]; [|done]. destruct (_ || _) eqn:Hb; [done|].
  rewrite !orb_false_iff, !negb_false_iff, !bool_decide_eq_true in Hb.
  rewrite run_bind, (run_h routes routes_store). cbn [handle].
  destruct (current_placement agent m) as [[p|e] m1] eqn:Hp; [|by case_match].
  assert (m1 = m) as -> by (by injection Hp).
  case_bool_decide; cbn [negb]; [|done]. rewrite run_bind, (run_h routes routes_store). cbn [handle].
  destruct (activation_of_generation agent _ m) as [[id|e] m1] eqn:Hid; [|by case_match].
  assert (m1 = m) as -> by (by injection Hid). case_bool_decide; cbn [negb]; [|done]. subst id.
  intros [= _ <-]. split; [done|]. exists p. split; [done|]. split; [|done].
  exists x. naive_solver.
Qed.

(** What recording a runtime's status does: nothing, or the revision it serves, of those the agent has. *)
Lemma RecordRuntimeStatus_run agent (rep : RuntimeReport) m u m' :
  route (Service.RecordRuntimeStatus agent rep) m = (Ok u, m') →
  m' = m ∨
  ∃ revision latest,
  RuntimeReport_Serving rep = true ∧ ParseRevision (RuntimeReport_ConfigRevision rep) = Ok revision ∧
  last (slice (definitions m) agent) = Some latest ∧ revision ≤ Definition_Revision latest ∧
  m' = (record_runtime_applied agent (mkRuntimeApplied revision (RuntimeReport_ActivationID rep)
    (RuntimeReport_Generation rep) (RuntimeReport_ObservedAt rep)) m).2.
Proof.
  unfold Service.RecordRuntimeStatus. destruct (ParseRevision _) as [revision|e] eqn:Hrev;
    [|intros [= _ <-]; by left].
  destruct (RuntimeReport_Serving rep); cbn [negb]; [|intros [= _ <-]; by left].
  rewrite run_try_bind, (run_h routes routes_store). cbn [handle]. rewrite get_definition_last.
  destruct (last _) as [latest|] eqn:Hl; [|done]. case_bool_decide; [intros [= _ <-]; by left|].
  rewrite (run_h routes routes_store). intros [= _ <-]. right. exists revision, latest.
  split_and!; [done..|lia|done].
Qed.
End routes.


(** ** The theorems *)
Section theorems.
Context `{K8s : Kubernetes, SE : !SemanticEquality} {TJ : TimeJSON}.
Abbreviation on_store p m := (run (E:=repoE) handle p m).

(** A request to activate is refused while a stop holds the agent, a repeat included. Otherwise a
stored request is answered again where it is the same and refused where it is another; and a new
one for a revision the agent has is always stored, under the agent's latest activation and with
the reference of the recorded request that revision came from. *)
Theorem PrepareActivation_outcomes m agent req :
  Concurrent.inv m →
  let id := ActivationRequest_RequestID req in
  let r := on_store (Service.PrepareActivation agent req) m in
  match current_stop_locked agent m, agent_activations agent m !! id,
    last (slice (definitions m) agent) with
  | Some _, _, _ => r = (Err ErrAgentStopped, m)
  | None, Some stored, _ =>
    r = (if bool_decide (Activation_Request stored = req) then Ok stored else Err ErrRequestReused, m)
  | None, None, None => r = (Err ErrNotFound, m)
  | None, None, Some latest =>
    if bool_decide (1 ≤ ActivationRequest_ConfigRevision req ≤ Definition_Revision latest)
    then ∃ ref, authorizes m agent (ActivationRequest_ConfigRevision req) ref ∧
    let a := mkActivation agent req (latest_of m agent) ref "" in
    r = (Ok a, (insert_activation a m).2) ∧
    agent_activations agent r.2 !! id = Some a
    else r = (Err ErrInvalidStatus, m)
  end.
Proof. by apply (PrepareActivation_run handle). Qed.

(** C38: an activation is answered only where the adapter's token has garam's form, the placement token
is the current placement's under its epoch, no stop holds the agent, garam called the agent's token
current for that placement's controller and epoch, and garam answered the very request stored
under the identifier, on that placement's Pod. It is then recorded as the agent's latest, and the
answer is garam's own. *)
Theorem activate_activated introspect activates seen r m status b m' :
  Concurrent.inv m →
  run (routes introspect activates seen) (activate r) m = (Activated status b, m') →
  ∃ token body req p x stored answer created,
  agentToken r = Ok token ∧ http_body r = Some body ∧ parseActivation body = Ok req ∧
  current_placement (http_agent r) m = (Ok p, m) ∧
  EncodeToString (Sum256 (bytes_of (http_placement r))) =
  PlacementRequest_TokenSHA256 (Placement_Request p) ∧
  ActivationRequest_Epoch req = PlacementRequest_Epoch (Placement_Request p) ∧
  current_stop_locked (http_agent r) m = None ∧
  introspect (http_agent r) token "" = Ok x ∧ Introspection_Credential x = credentialCurrent ∧
  Introspection_GRN x = http_agent r ∧ Introspection_Assignee x = Placement_Controller p ∧
  Introspection_Epoch x = ActivationRequest_Epoch req ∧
  Activation_Request stored = on_pod req (PlacementRequest_PodUID (Placement_Request p)) ∧
  answers activates (http_agent r) stored token answer created ∧
  latest m' !! http_agent r = Some (response_ActivationID b) ∧
  agent_activations (http_agent r) m' !! ActivationRequest_RequestID req =
  Some (with_activation stored (response_ActivationID b)) ∧
  response_Token b = Garam_Token answer ∧ response_TokenVersion b = Garam_TokenVersion answer ∧
  response_ActivationID b = Garam_ActivationID answer ∧
  status = (if (created : bool) then 201 else 200).
Proof.
  intros Hinv [(e & st & kd & msg & _ & ?)|Hrun]%respond_run; [done|].
  destruct (read_body r) as [body|] eqn:Hbody; [|done]. apply read_body_Some in Hbody.
  rewrite run_try_bind, run_lift in Hrun. destruct (agentToken r) as [token|e] eqn:Htoken; [|done].
  destruct (bool_decide (http_placement r = "")); [done|]. rewrite run_try_bind, run_lift in Hrun.
  destruct (parseActivation body) as [req|e] eqn:Hreq; [|done].
  rewrite run_try_bind in Hrun.
  destruct (run _ (currentPlacement _ _ _) m) as [[p|e] m1] eqn:Hp; [|done].
  apply currentPlacement_run in Hp as (-> & Hp & Hsha & Hepoch).
  rewrite run_try_bind in Hrun. unfold Service.WithActivationLock, Service.WithAgentLock in Hrun.
  rewrite run_try_bind, (run_h _ (routes_store _ _ _)) in Hrun. cbn [handle] in Hrun. rewrite run_bind in Hrun.
  destruct (run _ (activation_attempt _ _ _ _) m) as [[[answer created]|e] m2] eqn:Ha;
    rewrite run_bind, (run_h _ (routes_store _ _ _)) in Hrun; cbn [handle] in Hrun; [|done].
  rewrite !run_ret in Hrun. injection Hrun as <- <- <-.
  apply activation_attempt_run in Ha as (Hstop & stored & x & Hst & Hx & ? & ? & ? & ? & ? & ? & ?); [|done].
  exists token, body, req, p, x, stored, answer, created. split_and!; done.
Qed.

(** A runtime's report is taken only where garam calls the token and the generation current
together for the reported epoch and activation, the current placement's controller is garam's
assignee, and the generation was activated here as that activation. It then changes nothing but
what the agent is known to run: the revision reported, where the runtime serves it and the agent
has it. *)
Theorem reportStatus_accepted introspect activates seen r m m' :
  run (routes introspect activates seen) (reportStatus r) m = (NoContent, m') →
  ∃ token body i observed p,
  agentToken r = Ok token ∧ http_body r = Some body ∧ parseStatus body (http_agent r) = Ok (i, observed) ∧
  current_placement (http_agent r) m = (Ok p, m) ∧ admits introspect (http_agent r) token i p ∧
  activation_of_generation (http_agent r) (report_Generation i) m = (Ok (report_ActivationID i), m) ∧
  (m' = m ∨
    ∃ revision latest,
    report_State i = stateServing ∧ ParseRevision (report_ConfigRevision i) = Ok revision ∧
    last (slice (definitions m) (http_agent r)) = Some latest ∧
    revision ≤ Definition_Revision latest ∧
    m' = (record_runtime_applied (http_agent r) (mkRuntimeApplied revision (report_ActivationID i)
      (report_Generation i) observed) m).2).
Proof.
  intros [(e & st & kd & msg & _ & ?)|Hrun]%respond_run; [done|].
  destruct (read_body r) as [body|] eqn:Hbody; [|done]. apply read_body_Some in Hbody.
  rewrite run_try_bind, run_lift in Hrun. destruct (agentToken r) as [token|e] eqn:Htoken; [|done].
  rewrite run_try_bind, run_lift in Hrun.
  destruct (parseStatus body (http_agent r)) as [[i observed]|e] eqn:Hparse; [|done].
  rewrite run_try_bind in Hrun. destruct (run _ (admitReport _ _ _) m) as [[u|e] m1] eqn:Had; [|done].
  apply admitReport_run in Had as (-> & p & Hp & Had & Hgen).
  rewrite run_try_bind in Hrun.
  destruct (run _ (Service.RecordRuntimeStatus _ _) m) as [[u'|e] m1] eqn:Hrec; [|done].
  rewrite run_ret in Hrun. injection Hrun as <-.
  apply RecordRuntimeStatus_run in Hrec as [->|(revision & latest & Hs & ?)];
    exists token, body, i, observed, p; (do 6 (split; [done|])); [by left|right].
  exists revision, latest. split; [by apply bool_decide_eq_true in Hs|done].
Qed.

(** The revision shown as effective is one the runtime reported under the agent's latest activation:
after another activation nothing is effective until its runtime reports. *)
Theorem Execution_effective_latest m org agent e m' :
  on_store (Service.Execution org agent) m = (Ok e, m') →
  m' = m ∧ (∃ d, last (slice (definitions m) agent) = Some d ∧ Definition_Organization d = org ∧
    Execution_Desired e = Definition_Revision d) ∧
  ∀ eff, Execution_Effective e = Some eff ↔
  ∃ a, applied m !! agent = Some a ∧ latest m !! agent = Some (RuntimeApplied_ActivationID a) ∧
  RuntimeApplied_ActivationID a ≠ "" ∧
  eff = mkEffective (RuntimeApplied_Revision a) (RuntimeApplied_Generation a) (RuntimeApplied_ObservedAt a).
Proof.
  unfold Service.Execution. rewrite run_try_bind, run_store. cbn [handle]. rewrite get_definition_last.
  destruct (last _) as [d|]; [|done]. case_bool_decide as Horg; cbn [negb]; [|done].
  rewrite run_try_bind, run_store. cbn [handle get_status]. rewrite run_bind, run_store. cbn [handle].
  unfold get_runtime_applied. destruct (applied m !! agent) as [a|]; last first.
  { intros [= <- <-]. split; [done|]. split; [by exists d|]. intros eff.
    split; [done|by intros (? & ? & _)]. }
  rewrite run_bind, run_store. cbn [handle]. unfold latest_activation.
  destruct (latest m !! agent) as [id|]; last first.
  { intros [= <- <-]. split; [done|]. split; [by exists d|]. intros eff.
    split; [done|by intros (? & _ & ? & _)]. }
  destruct (negb (bool_decide (id = "")) && bool_decide (RuntimeApplied_ActivationID a = id)) eqn:Hb;
    rewrite run_ret; intros [= <- <-]; (split; [done|]); (split; [by exists d|]); intros eff; cbn.
  - apply andb_true_iff in Hb as [Hne%negb_true_iff%bool_decide_eq_false Hid%bool_decide_eq_true]. subst id.
    split; [intros [= <-]; by exists a|]. by intros (? & [= <-] & _ & _ & ->).
  - split; [done|]. intros (? & [= <-] & [= ->] & Hne & _).
    by rewrite (bool_decide_false (_ = "")), bool_decide_true in Hb.
Qed.
End theorems.

(** ** Witnesses *)
Section witnesses.
#[local] Existing Instances Samples.K8s Samples.SE.
Import Samples.

Definition sample_request : ActivationRequest :=
  mkActivationRequest "request-1" "epoch-1" "0123456789abcdef0123456789abcdef" 1 "".

(** Activating revision 1 is sent under the creation's reference. *)
Lemma PrepareActivation_outcomes_witness :
  ∃ ref, authorizes store agent 1 ref ∧
  (run (E:=repoE) handle (Service.PrepareActivation agent sample_request) store).1 =
  Ok (mkActivation agent sample_request "" ref "").
Proof.
  pose proof (PrepareActivation_outcomes store agent sample_request store_inv) as Hp. cbn zeta in Hp.
  replace (current_stop_locked agent store) with (@None Types.Stop) in Hp by by vm_compute.
  replace (agent_activations agent store !! ActivationRequest_RequestID sample_request)
    with (@None Activation) in Hp by by vm_compute.
  replace (last (slice (definitions store) agent)) with (Some (revision 1 config)) in Hp by by vm_compute.
  rewrite bool_decide_true in Hp by by vm_compute.
  destruct Hp as (ref & Hauth & Hrun & _). exists ref. split; [exact Hauth|].
  rewrite Hrun. by vm_compute.
Defined.

(** The agent placed on one Pod, under a token of its own. *)
Definition placement_token : string := "placement-token".
Definition token_sha : string := Eval vm_compute in EncodeToString (Sum256 (bytes_of placement_token)).
Definition tokened : mem :=
  (handle _ (RegisterPlacement (mkPlacementInput agent controller
    (mkPlacementRequest "pod-1" "pvc" "epoch-1" token_sha zeroPrevious))) store).2.

Lemma tokened_inv : Concurrent.inv tokened.
Proof. apply (Concurrent.handle_inv None); [apply store_inv|by split]. Qed.

Definition agent_token : string :=
  "garam_at_0123456789abcdef0123456789abcdef0123456789abcdef0123456789abcdef".
Definition sample_http : httpRequest :=
  mkRequest agent Contract ("Garam-Token " +:+ agent_token) placement_token
  (Some (Marshal (JObject [("requestId", JString "request-1"); ("epoch", JString "epoch-1");
    ("generation", JString "0123456789abcdef0123456789abcdef"); ("configRevision", JString "1")]))).

(** garam calls the token and the generation current, and activates. *)
Definition current (a : string) (token : AgentToken) (generation : string) : result Introspection :=
  Ok (mkIntrospection a "org" controller "epoch-1" "token" "current" "current" "activation-1").
Definition activating (a : string) (c : ActivationCall) : result (GaramActivation * bool) :=
  Ok (mkGaramActivation "activation-1" "execution-token" 1 a (Call_Epoch c) (Call_Generation c), true).
Definition unseen (contract : string) : bool := false.
Abbreviation sample_run := (run (routes current activating unseen) (activate sample_http) tokened).
Definition sample_response : activationResponse :=
  mkActivationResponse "activation-1" 1 "execution-token" agent "epoch-1"
  "0123456789abcdef0123456789abcdef" "1".

Lemma sample_run_activates : sample_run = (Activated 201 sample_response, sample_run.2).
Proof. apply pair_by_fst. by vm_compute. Qed.

Lemma activate_activated_witness :
  latest sample_run.2 !! http_agent sample_http = Some (response_ActivationID sample_response) ∧
  current_stop_locked (http_agent sample_http) tokened = None.
Proof.
  destruct (activate_activated current activating unseen sample_http tokened 201 sample_response sample_run.2
    tokened_inv sample_run_activates) as (token & body & req & p & x & stored & answer & created & H).
  destruct H as (_ & _ & _ & _ & _ & _ & Hstop & _ & _ & _ & _ & _ & _ & _ & Hlatest & _).
  split; [exact Hlatest|exact Hstop].
Defined.

(** The runtime then reports that it serves revision 1. *)
#[local] Instance sample_times : TimeJSON := λ j,
  match j with
  | JString t =>
    if bool_decide (t = "2026-01-01T00:00:00Z") then Some (Some 1)
    else if bool_decide (t = "2026-01-01T00:00:01Z") then Some (Some 2) else None
  | _ => None
  end.
Definition sample_report : httpRequest :=
  mkRequest agent Contract ("Garam-Token " +:+ agent_token) ""
  (Some (Marshal (JObject [("activationId", JString "activation-1"); ("grn", JString agent); ("epoch", JString "epoch-1");
    ("generation", JString "0123456789abcdef0123456789abcdef"); ("configRevision", JString "1");
    ("state", JString "serving"); ("startedAt", JString "2026-01-01T00:00:00Z");
    ("observedAt", JString "2026-01-01T00:00:01Z")]))).
Abbreviation reported := (run (routes current activating unseen) (reportStatus sample_report) sample_run.2).

Lemma sample_report_taken : reported = (NoContent, reported.2).
Proof. apply pair_by_fst. by vm_compute. Qed.

Lemma reportStatus_accepted_witness :
  (∃ i, activation_of_generation (http_agent sample_report) (report_Generation i) sample_run.2 =
    (Ok (report_ActivationID i), sample_run.2)) ∧
  Status_Applied (status_of agent reported.2) = Some 1.
Proof.
  split; [|by vm_compute].
  destruct (reportStatus_accepted current activating unseen sample_report sample_run.2 reported.2
    sample_report_taken) as (token & body & i & observed & p & _ & _ & _ & _ & _ & Hgen & _).
  exists i. exact Hgen.
Defined.

(** A store where the agent's one activation was answered and its runtime reported revision 1. *)
Definition sample_applied : RuntimeApplied :=
  mkRuntimeApplied 1 "activation-1" "0123456789abcdef0123456789abcdef" 2.
Definition effective_store : mem :=
  set_applied (<[agent := sample_applied]> ∅) (set_latest (<[agent := "activation-1"]> ∅) store).
Definition sample_execution : Execution_ :=
  mkExecution 1 0 (Some (mkEffective 1 "0123456789abcdef0123456789abcdef" 2)).

Lemma Execution_effective_latest_witness :
  (run (E:=repoE) handle (Service.Execution "org" agent) effective_store).1 = Ok sample_execution ∧
  ∃ a, applied effective_store !! agent = Some a ∧
  latest effective_store !! agent = Some (RuntimeApplied_ActivationID a).
Proof.
  assert ((run (E:=repoE) handle (Service.Execution "org" agent) effective_store).1 = Ok sample_execution)
    as Hrun by by vm_compute.
  split; [exact Hrun|].
  destruct (Execution_effective_latest effective_store "org" agent sample_execution
    (run (E:=repoE) handle (Service.Execution "org" agent) effective_store).2) as (_ & _ & Heff).
  { by apply pair_by_fst. }
  destruct (proj1 (Heff _) eq_refl) as (a & Ha & Hl & _). by exists a.
Defined.
End witnesses.
End ActivationSpec.
