(* ===== verification/LifecycleSpec.v ===== *)
(** Publishing under a request, stopping and starting an agent, and recovering its credential: the
    outcome of each on every branch, and what their repeats answer later. *)
From S2P Require Import Prelude GoStd Errors Types Validation Repository Memory MemoryInvariant Samples StoreHistory Feed StoreSpec Service Concurrent ServiceSpec ActivationSpec.
Import GoStd Validation Memory MemoryInvariant StoreHistory StoreSpec ServiceSpec ActivationSpec.

Module LifecycleSpec.

Section spec.
Context `{K8s : Kubernetes, SE : !SemanticEquality}.
Implicit Types (m : mem) (agent : GRN).
Abbreviation on_store p m := (run (E:=repoE) handle p m).

(** ** Publishing a template under a request *)

(** The checks made before the store is asked pass. *)
Definition publishable m (input : PublishInput) : Prop :=
  Configuration_check (Template_Config (Publish_Template input)) = Ok tt ∧
  published (profiles m) (Key_Organization (Publish_Request input)) (Template_Profile (Publish_Template input)).

Definition template_key (input : PublishInput) : string * string :=
  (Key_Organization (Publish_Request input), Template_Name (Publish_Template input)).

(** The next version of the template a fresh request publishes, and what is kept of the request. *)
Definition next_version m (input : PublishInput) : Version :=
  Z.of_nat (length (slice (templates m) (template_key input))) + 1.
Definition publication m (input : PublishInput) : Publication :=
  mkPublication (Publish_Request input) (Publish_Binding input)
  (mkTemplateRef (Template_Name (Publish_Template input)) (next_version m input)).

Lemma Publish_run m input :
  publishable m input →
  on_store (Service.Publish input) m =
  match publications m !! Publish_Request input with
  | Some stored =>
    (if bool_decide (Publication_Binding stored = Publish_Binding input) &&
      bool_decide (TemplateRef_Name (Publication_Template stored) = Template_Name (Publish_Template input))
      then Ok (stored, false) else Err ErrRequestReused, m)
  | None =>
    (Ok (publication m input, true),
      set_publications (<[Publish_Request input := publication m input]> (publications m))
      (set_templates (<[template_key input := slice (templates m) (template_key input) ++
        [with_version (Publish_Template input) (next_version m input)]]>
        (templates m)) m))
  end.
Proof.
  intros [Hc [p Hp]%published_get_profile]. unfold Service.Publish.
  rewrite run_try_bind, run_lift, Hc, run_try_wrap, run_store. cbn [handle]. rewrite Hp.
  rewrite run_try_bind, run_store. cbn [handle]. unfold publish_once. cbn [Publication_Key].
  destruct (publications m !! Publish_Request input) as [stored|].
  - by destruct (bool_decide (Publication_Binding stored = _)), (bool_decide (TemplateRef_Name _ = _)).
  - cbn [Publication_Binding Publication_Template TemplateRef_Name]. by rewrite !bool_decide_true.
Qed.

(** ** Stops *)
Definition owned m agent org : Prop :=
  ∃ d, last (slice (definitions m) agent) = Some d ∧ Definition_Organization d = org.

Lemma inOrganization_run m agent org :
  on_store (Service.inOrganization agent org) m =
  (match last (slice (definitions m) agent) with
  | Some d => if bool_decide (Definition_Organization d = org) then Ok tt else Err ErrNotFound
  | None => Err ErrNotFound
  end, m).
Proof.
  unfold Service.inOrganization. rewrite run_try_bind, run_store. cbn [handle].
  rewrite get_definition_last. destruct (last _) as [d|]; [|done]. by case_bool_decide.
Qed.

Lemma inOrganization_owned m agent org :
  owned m agent org → on_store (Service.inOrganization agent org) m = (Ok tt, m).
Proof. intros (d & Hd & Ho). rewrite inOrganization_run, Hd. by rewrite bool_decide_true. Qed.

(** The stop a request asks for, of the agent's latest activation. *)
Definition stop_of m (input : StopInput) : Types.Stop :=
  mkStop (StopInput_Agent input) (StopInput_Key input) (StopInput_Binding input)
  (Concurrent.latest_of m (StopInput_Agent input)) false None.

Lemma record_stop_current m s :
  wf m → stops m !! Stop_Key s = None → current_stop_locked (Stop_Agent s) m = None →
  Stop_Deactivated s = false → Stop_Start s = None →
  (record_stop s m).1 = Ok (s, true) ∧ current_stop_locked (Stop_Agent s) (record_stop s m).2 = Some s.
Proof.
  intros Hwf Hk Hn Hd Hst. pose proof (record_stop_wf s m Hwf) as Hwf'.
  assert (mkStop (Stop_Agent s) (Stop_Key s) (Stop_Binding s) (Stop_ActivationID s) false None = s) as Heq.
  { destruct s. cbn in *. congruence. }
  unfold record_stop in *. rewrite Hk, Hn in *. cbn in *. rewrite Heq in *. split; [done|].
  apply current_stop_locked_Some; [apply Hwf'|]. cbn. by rewrite lookup_insert_eq.
Qed.

(** ** Recoveries *)
Lemma recovery_locked_intro m agent i r :
  wf m → slice (recoveries m) agent !! i = Some r →
  recovery_locked agent (Recovery_RequestID r) m = Some i.
Proof.
  intros Hwf Hi. unfold recovery_locked. destruct (list_find _ _) as [[j r']|] eqn:Hf; cbn.
  - apply list_find_Some in Hf as (Hj & Hid & _). f_equal.
    by apply (proj1 (proj2 (wf_recoveries _ Hwf)) agent j i r' r).
  - apply list_find_None in Hf. rewrite Forall_lookup in Hf. by destruct (Hf _ _ Hi).
Qed.

(** The recovery one call left at [i] is found there later, at the same stage or further. *)
Lemma recovery_later_found m m' agent i r :
  wf m → calls m m' → slice (recoveries m) agent !! i = Some r →
  ∃ r', slice (recoveries m') agent !! i = Some r' ∧ recovery_later r r' ∧
  recovery_locked agent (Recovery_RequestID r) m' = Some i.
Proof.
  intros Hwf Hc Hi. destruct (ext_recoveries _ _ (calls_extends _ _ Hc Hwf) _ _ _ Hi) as (r' & Hr' & Hl).
  exists r'. split_and!; [done..|]. destruct Hl as (_ & Hid & _). rewrite <- Hid.
  apply recovery_locked_intro; [by eapply calls_wf|done].
Qed.

(** Where a prepared recovery is stored, and as what. *)
Lemma prepare_recovery_stored m agent requestID epoch body rec m1 :
  prepare_recovery agent requestID epoch body m = (Ok rec, m1) →
  ∃ i, slice (recoveries m1) agent !! i = Some rec ∧ Recovery_RequestID rec = requestID ∧
  Recovery_Epoch rec = epoch ∧ Recovery_Body rec = body ∧ Recovery_Stage rec ≠ RecoveryRequested.
Proof.
  unfold prepare_recovery. destruct (recovery_locked agent requestID m) as [i|] eqn:Hl; [|done].
  apply recovery_locked_Some in Hl as (r & Hi & Hid). rewrite Hi.
  case_bool_decide as He; cbn [negb]; [|done]. case_bool_decide as Hs.
  - intros [= <- <-]. exists i. cbn. rewrite slice_insert_eq, list_lookup_insert_eq by (by eapply lookup_lt_Some).
    done.
  - destruct (decide (Recovery_Body r = body)) as [Hb|Hb].
    + rewrite (bool_decide_true (Recovery_Body r = body)) by done. intros [= <- <-]. by exists i.
    + rewrite (bool_decide_false (Recovery_Body r = body)) by done. cbn. by case_bool_decide.
Qed.

Lemma finalize_recovery_stored m agent requestID c rec m1 :
  finalize_recovery agent requestID c m = (Ok rec, m1) →
  ∃ i, slice (recoveries m1) agent !! i = Some rec ∧ Recovery_RequestID rec = requestID ∧
  Recovery_Stage rec = RecoveryFinalized.
Proof.
  unfold finalize_recovery. destruct (recovery_locked agent requestID m) as [i|] eqn:Hl; [|done].
  apply recovery_locked_Some in Hl as (r & Hi & Hid). rewrite Hi.
  destruct (Recovery_Stage r) eqn:Hs; [done| |]; intros [= <- <-]; exists i; [|done]. cbn.
  by rewrite slice_insert_eq, list_lookup_insert_eq by (by eapply lookup_lt_Some).
Qed.

(** What a start makes of the stop it ends. *)
Definition ended_by (s : Types.Stop) (input : StopInput) : Types.Stop :=
  mkStop (Stop_Agent s) (Stop_Key s) (Stop_Binding s) (Stop_ActivationID s) (Stop_Deactivated s)
  (Some (mkStopEnd (StopInput_Key input) (StopInput_Binding input))).

Lemma owned_later m m' agent org : wf m → calls m m' → owned m agent org → owned m' agent org.
Proof.
  intros Hwf Hc (d & Hd & Ho). pose proof (calls_extends _ _ Hc Hwf) as Hext.
  destruct (last_revision _ _ _ Hwf Hd) as (_ & _ & d0 & rest & Hs & Hd0).
  assert (slice (definitions m') agent !! 0%nat = Some d0) as H0.
  { apply (ext_definitions _ _ Hext). by rewrite Hs. }
  destruct (last (slice (definitions m') agent)) as [d'|] eqn:Hl; last first.
  { apply last_None in Hl. by rewrite Hl in H0. }
  exists d'. split; [done|]. destruct (last_revision _ _ _ (calls_wf _ _ Hc Hwf) Hl) as (_ & _ & d1 & ? & Hs' & ->).
  rewrite Hs' in H0. cbn in H0. congruence.
Qed.

Lemma record_start_ends m agent input s :
  wf m → current_stop_locked agent m = Some s → stopEnds m !! StopInput_Key input = None →
  let r := record_start agent (mkStopEnd (StopInput_Key input) (StopInput_Binding input)) m in
  r.1 = Ok (ended_by s input) ∧ current_stop_locked agent r.2 = None ∧
  stops r.2 !! Stop_Key s = Some (ended_by s input) ∧ stopEnds r.2 !! StopInput_Key input = Some (Stop_Key s).
Proof.
  intros Hwf Hs He. cbn zeta. unfold record_start. cbn. rewrite He, Hs. cbn.
  rewrite !lookup_insert_eq. split_and!; [done| |done..].
  apply eq_None_not_Some. intros [c (k & Hk & Ha & Hst)%Concurrent.current_stop_entry]. cbn in Hk.
  apply lookup_insert_cases in Hk as [[<- <-]|[Hne Hk]]; [done|]. apply Hne.
  pose proof Hs as (Hsk & Hsa & Hss)%current_stop_locked_Some; [|apply Hwf].
  destruct (wf_stops _ Hwf) as (_ & Hu & _). eapply Hu; [exact Hsk|exact Hk|done..|congruence].
Qed.
End spec.

(** ** The theorems *)
Section theorems.
Context `{K8s : Kubernetes, SE : !SemanticEquality}.
Implicit Types (m : mem) (agent : GRN).
Abbreviation on_store p m := (run (E:=repoE) handle p m).

(** A request publishes one template version, the next of its name. Whatever is called after,
a request under its key with the same binding and template name is answered that version again,
any other is refused as reused, and neither publishes anything. *)
Theorem Publish_once m input m1 p :
  wf m → on_store (Service.Publish input) m = (Ok (p, true), m1) → publishable m input →
  p = publication m input ∧
  slice (templates m1) (template_key input) =
  slice (templates m) (template_key input) ++ [with_version (Publish_Template input) (next_version m input)] ∧
  ∀ m2 again, calls m1 m2 → publishable m2 again → Publish_Request again = Publish_Request input →
  on_store (Service.Publish again) m2 =
  (if bool_decide (Publish_Binding again = Publish_Binding input) &&
    bool_decide (Template_Name (Publish_Template again) = Template_Name (Publish_Template input))
    then Ok (p, false) else Err ErrRequestReused, m2).
Proof.
  intros Hwf Hrun Hp. assert (wf m1) as Hwf1.
  { rewrite Publish_run in Hrun by done. destruct (publications m !! _) eqn:Hs; [by case_match|].
    pose proof (publish_once_wf (publication m input) (Publish_Template input) m Hwf) as Hw.
    unfold publish_once in Hw. cbn in Hw. rewrite Hs in Hw. by injection Hrun as <- <-. }
  rewrite Publish_run in Hrun by done. destruct (publications m !! _) as [stored|]; [by case_match|].
  injection Hrun as <- <-. split; [done|]. cbn [templates set_publications set_templates].
  split; [by rewrite slice_insert_eq|]. intros m2 again Hcalls Hp2 Hkey.
  assert (publications m2 !! Publish_Request again = Some (publication m input)) as Hs2.
  { rewrite Hkey. eapply lookup_weaken; [|apply ext_publications, (calls_extends _ _ Hcalls Hwf1)].
    cbn. by rewrite lookup_insert_eq. }
  rewrite Publish_run, Hs2 by done. cbn [Publication_Binding Publication_Template publication TemplateRef_Name].
  rewrite (bool_decide_ext (Publish_Binding input = _) (Publish_Binding again = Publish_Binding input))
    by (split; congruence).
  by rewrite (bool_decide_ext (Template_Name (Publish_Template input) = _)
    (Template_Name (Publish_Template again) = Template_Name (Publish_Template input))) by (split; congruence).
Qed.

(** A stop of an agent of the organization is recorded once, with the agent's latest activation,
and holds the agent; a repeat of it is answered as recorded, another request under its key is
refused as reused, and another stop while one holds the agent is refused, nothing stored. *)
Theorem Stop_outcomes m input :
  wf m → owned m (StopInput_Agent input) (Key_Organization (StopInput_Key input)) →
  let r := on_store (Service.Stop input) m in
  match stops m !! StopInput_Key input, current_stop_locked (StopInput_Agent input) m with
  | Some stored, _ =>
    r = (if bool_decide (Stop_Agent stored = StopInput_Agent input) &&
      bool_decide (Stop_Binding stored = StopInput_Binding input)
      then Ok (stored, false) else Err ErrRequestReused, m)
  | None, Some _ => r = (Err ErrAgentStopped, m)
  | None, None =>
    r.1 = Ok (stop_of m input, true) ∧
    current_stop_locked (StopInput_Agent input) r.2 = Some (stop_of m input)
  end.
Proof.
  intros Hwf Howned. cbn zeta. unfold Service.Stop, Service.WithAgentLock.
  rewrite run_try_bind, inOrganization_owned by done. rewrite run_try_bind, run_try_bind, run_store.
  cbn [handle]. rewrite run_bind, run_try_bind.
  rewrite (latest_or_none_run handle (λ _ _ _, eq_refl)). rewrite run_store. cbn [handle].
  fold (stop_of m input). destruct (stops m !! StopInput_Key input) as [stored|] eqn:Hs.
  { unfold record_stop. cbn [Stop_Key stop_of]. rewrite Hs. rewrite run_bind, run_store. cbn [handle].
    rewrite run_ret. by destruct (bool_decide (Stop_Agent stored = _)), (bool_decide (Stop_Binding stored = _)). }
  destruct (current_stop_locked (StopInput_Agent input) m) as [c|] eqn:Hc.
  { unfold record_stop. cbn [Stop_Key Stop_Agent stop_of]. rewrite Hs, Hc. done. }
  destruct (record_stop_current m (stop_of m input) Hwf Hs Hc eq_refl eq_refl) as [H1 H2].
  destruct (record_stop (stop_of m input) m) as [r m']. cbn in H1, H2. subst r.
  rewrite run_bind, run_store. cbn [handle]. rewrite run_ret. cbn [Stop_Agent Stop_Binding stop_of].
  by rewrite !bool_decide_true.
Qed.

(** A start ends the stop that holds the agent and is kept with it, so the agent is held no
longer; a repeat of the start is answered the stop it ended, whatever was called after, and
stores nothing. *)
Theorem Start_ends_stop m input s :
  wf m → owned m (StopInput_Agent input) (Key_Organization (StopInput_Key input)) →
  current_stop_locked (StopInput_Agent input) m = Some s →
  stopEnds m !! StopInput_Key input = None →
  ∃ m1, on_store (Service.Start input) m = (Ok (ended_by s input), m1) ∧
  current_stop_locked (StopInput_Agent input) m1 = None ∧
  ∀ m2, calls m1 m2 → ∃ again,
  on_store (Service.Start input) m2 = (Ok again, m2) ∧ stop_later (ended_by s input) again.
Proof.
  intros Hwf Howned Hs He.
  pose proof Hs as (Hsk & Hsa & _)%current_stop_locked_Some; [|apply Hwf].
  destruct (record_start_ends m (StopInput_Agent input) input s Hwf Hs He) as (H1 & H2 & H3 & H4).
  pose proof (record_start_wf (StopInput_Agent input)
    (mkStopEnd (StopInput_Key input) (StopInput_Binding input)) m Hwf) as Hwf1.
  assert (calls m (record_start (StopInput_Agent input)
    (mkStopEnd (StopInput_Key input) (StopInput_Binding input)) m).2) as Hcalls1.
  { apply (calls_step m m _ (RecordStart (StopInput_Agent input)
      (mkStopEnd (StopInput_Key input) (StopInput_Binding input)))); [apply calls_refl|done]. }
  destruct (record_start _ _ m) as [r m1] eqn:Hrec. cbn [fst snd] in *. subst r. exists m1. split_and!; [|done|].
  - unfold Service.Start. rewrite run_try_bind, inOrganization_owned by done.
    rewrite run_try_bind, run_store. cbn [handle]. rewrite Hrec. cbn [Stop_Agent Stop_Start ended_by fmap option_fmap option_map StopEnd_Binding].
    by rewrite !bool_decide_true.
  - intros m2 Hcalls. pose proof (calls_extends _ _ Hcalls Hwf1) as Hext.
    destruct (ext_stops _ _ Hext _ _ H3) as (s2 & Hs2 & Hlater). exists s2. split; [|done].
    assert (owned m2 (StopInput_Agent input) (Key_Organization (StopInput_Key input))) as Howned2.
    { eapply owned_later; [exact Hwf1|exact Hcalls|].
    eapply owned_later; [exact Hwf|exact Hcalls1|exact Howned]. }
    unfold Service.Start. rewrite run_try_bind, inOrganization_owned by done.
    rewrite run_try_bind, run_store. cbn [handle]. unfold record_start. cbn.
    rewrite (lookup_weaken _ _ _ _ H4 (ext_stopEnds _ _ Hext)). cbn. rewrite Hs2. cbn.
    destruct Hlater as (Ha & _ & _ & _ & _ & Hend). rewrite Ha, (Hend _ eq_refl). cbn.
    by rewrite !bool_decide_true.
Qed.

(** A recovery's request is fixed once prepared: whatever is called after, it is prepared again
only with the same bytes and epoch, storing nothing; and once finalized, every later finalization
is answered the first one's credential, whatever it carries. *)
Theorem recovery_settled m agent r rec m1 m2 :
  wf m → on_store (Service.PrepareRecovery agent r) m = (Ok rec, m1) → calls m1 m2 →
  (∀ again rec' m3, RecoveryRequest_RequestID again = RecoveryRequest_RequestID r →
    on_store (Service.PrepareRecovery agent again) m2 = (Ok rec', m3) →
    m3 = m2 ∧ Service.RecoveryBody again = Service.RecoveryBody r ∧
    RecoveryRequest_Epoch again = RecoveryRequest_Epoch r ∧ recovery_later rec rec') ∧
  (∀ c final m3 m4 c', on_store (Service.FinalizeRecovery agent (RecoveryRequest_RequestID r) c) m2 = (Ok final, m3) →
    calls m3 m4 →
    on_store (Service.FinalizeRecovery agent (RecoveryRequest_RequestID r) c') m4 = (Ok final, m4)).
Proof.
  intros Hwf. unfold Service.PrepareRecovery, Service.FinalizeRecovery.
  rewrite run_store. cbn [handle]. intros Hprep Hcalls.
  pose proof (prepare_recovery_wf agent (RecoveryRequest_RequestID r) (RecoveryRequest_Epoch r)
    (Service.RecoveryBody r) m Hwf) as Hwf1. rewrite Hprep in Hwf1. cbn in Hwf1.
  apply prepare_recovery_stored in Hprep as (i & Hi & Hid & He & Hb & Hst).
  destruct (recovery_later_found _ _ _ _ _ Hwf1 Hcalls Hi) as (r2 & Hr2 & Hlater & Hl). rewrite Hid in Hl.
  split.
  - intros again rec' m3 Hsame. rewrite run_store. cbn [handle]. unfold prepare_recovery.
    rewrite Hsame, Hl, Hr2. pose proof Hlater as (_ & _ & _ & _ & He2 & Hrank & Hbody & _).
    case_bool_decide as Hep; cbn [negb]; [|done]. case_bool_decide as Hs2.
    { rewrite Hs2 in Hrank. destruct (Recovery_Stage rec); cbn in Hrank; [done|lia..]. }
    specialize (Hbody Hst). destruct (decide (Recovery_Body r2 = Service.RecoveryBody again)) as [Hbb|Hbb].
    + rewrite (bool_decide_true (Recovery_Body r2 = _)) by done. cbn. intros [= <- <-].
      split_and!; [done|congruence..|done].
    + rewrite (bool_decide_false (Recovery_Body r2 = _)) by done. cbn. by case_bool_decide.
  - intros c final m3 m4 c'. rewrite !run_store. cbn [handle]. intros Hfin Hcalls4.
    pose proof (finalize_recovery_wf agent (RecoveryRequest_RequestID r) c m2 (calls_wf _ _ Hcalls Hwf1)) as Hwf3.
    rewrite Hfin in Hwf3. cbn in Hwf3. apply finalize_recovery_stored in Hfin as (j & Hj & Hjid & Hjst).
    destruct (recovery_later_found _ _ _ _ _ Hwf3 Hcalls4 Hj) as (r4 & Hr4 & Hl4 & Hlock).
    destruct Hl4 as (_ & _ & _ & _ & _ & _ & _ & Hsame). rewrite (Hsame Hjst) in Hr4.
    unfold finalize_recovery. rewrite <- Hjid, Hlock, Hr4. by rewrite Hjst.
Qed.
End theorems.

(** ** Witnesses *)
Section witnesses.
#[local] Existing Instances Samples.K8s Samples.SE.
Import Samples.
Abbreviation on_store p m := (run (E:=repoE) handle p m).

(** A second template version, published under a request. *)
Definition publish_input (ref : string) : PublishInput :=
  mkPublishInput (key "publish") (binding ref) (mkTemplate "base" 0 profile other_config).
Definition published_store : mem := (on_store (Service.Publish (publish_input "ref-2")) store).2.

Lemma publish_publishable m ref :
  extends store m → publishable m (publish_input ref).
Proof.
  intros Hext. split; [by vm_compute|]. eapply published_later; [exact Hext|]. by eexists.
Qed.

Lemma published_wf : wf published_store.
Proof.
  apply (handle_keeps store _ (PublishOnce (mkPublication (key "publish") (binding "ref-2")
    (mkTemplateRef "base" 0)) (mkTemplate "base" 0 profile other_config))); [apply store_wf|done].
Qed.

Lemma published_calls : calls store published_store.
Proof.
  apply (calls_step store store _ (PublishOnce (mkPublication (key "publish") (binding "ref-2")
    (mkTemplateRef "base" 0)) (mkTemplate "base" 0 profile other_config))); [apply calls_refl|done].
Qed.

Lemma Publish_once_witness :
  on_store (Service.Publish (publish_input "ref-2")) published_store =
  (Ok (publication store (publish_input "ref-2"), false), published_store) ∧
  on_store (Service.Publish (publish_input "ref-3")) published_store =
  (Err ErrRequestReused, published_store).
Proof.
  pose proof (calls_extends _ _ published_calls store_wf) as Hext.
  destruct (Publish_once store (publish_input "ref-2") published_store
    (publication store (publish_input "ref-2")) store_wf) as (_ & _ & Hagain).
  - apply pair_by_fst. by vm_compute.
  - by apply publish_publishable.
  - split; (rewrite Hagain; [|apply calls_refl|by apply publish_publishable|done]).
    + by rewrite !bool_decide_true.
    + by rewrite bool_decide_false.
Defined.

(** The agent stopped, then started. *)
Definition stop_input : StopInput := mkStopInput (key "stop") (binding "ref-2") agent.
Definition start_input : StopInput := mkStopInput (key "start") (binding "ref-3") agent.
Definition stopped_store : mem := (on_store (Service.Stop stop_input) store).2.

Lemma store_owned : owned store agent "org".
Proof. exists (revision 1 config). by split; vm_compute. Qed.

Lemma Stop_outcomes_witness :
  (on_store (Service.Stop stop_input) store).1 = Ok (stop_of store stop_input, true) ∧
  current_stop_locked agent stopped_store = Some (stop_of store stop_input).
Proof.
  pose proof (Stop_outcomes store stop_input store_wf store_owned) as Hs. cbn zeta in Hs.
  replace (stops store !! StopInput_Key stop_input) with (@None Types.Stop) in Hs by by vm_compute.
  replace (current_stop_locked (StopInput_Agent stop_input) store) with (@None Types.Stop) in Hs
    by by vm_compute.
  destruct Hs as [H1 H2]. split; [exact H1|exact H2].
Defined.

Lemma stopped_wf : wf stopped_store.
Proof. apply (handle_keeps store _ (RecordStop (stop_of store stop_input))); [apply store_wf|done]. Qed.

Lemma Start_ends_stop_witness :
  ∃ m1, on_store (Service.Start start_input) stopped_store =
  (Ok (ended_by (stop_of store stop_input) start_input), m1) ∧
  current_stop_locked agent m1 = None.
Proof.
  destruct (Start_ends_stop stopped_store start_input (stop_of store stop_input) stopped_wf)
    as (m1 & Hrun & Hnone & _).
  - exists (revision 1 config). by split; vm_compute.
  - by vm_compute.
  - by vm_compute.
  - exists m1. split; [exact Hrun|exact Hnone].
Defined.

(** A recovery opened and prepared. *)
Definition recovery_request : RecoveryRequest := mkRecoveryRequest "recovery-1" "epoch-1".
Definition opened_recovery : Recovery :=
  mkRecovery agent "recovery-1" (key "recover") (binding "ref-4") "epoch-1" RecoveryRequested "" None.
Definition opened_store : mem := (handle _ (OpenRecovery_ opened_recovery) store).2.
Definition prepared_recovery : Recovery := prepared opened_recovery (Service.RecoveryBody recovery_request).
Definition prepared_store : mem := (on_store (Service.PrepareRecovery agent recovery_request) opened_store).2.
Definition final_store : mem :=
  (on_store (Service.FinalizeRecovery agent "recovery-1" (mkRecovered "lineage-1")) prepared_store).2.

Lemma opened_wf : wf opened_store.
Proof. apply handle_keeps; [apply store_wf|done]. Qed.

Lemma recovery_settled_witness :
  on_store (Service.FinalizeRecovery agent "recovery-1" (mkRecovered "lineage-2")) final_store =
  (Ok (finalized prepared_recovery (mkRecovered "lineage-1")), final_store).
Proof.
  destruct (recovery_settled opened_store agent recovery_request prepared_recovery prepared_store
    prepared_store opened_wf) as [_ Hfinal].
  - apply pair_by_fst. by vm_compute.
  - apply calls_refl.
  - apply (Hfinal (mkRecovered "lineage-1") _ final_store final_store); [|apply calls_refl].
    apply pair_by_fst. by vm_compute.
Defined.
End witnesses.
End LifecycleSpec.
