(* ===== verification/Findings.v ===== *)
(** Two places where the service does less than its documentation says, each shown on a run of it: an
    agent's embedding can be removed by two concurrent requests, and a repeated stale request can be
    refused for its embedding instead of answered as stale. *)
From S2P Require Import Prelude GoStd Errors Types Validation Repository Memory MemoryInvariant Samples StoreHistory Feed StoreSpec Service Execution Distribution Console Concurrent Requests ServiceSpec.
Import GoStd Validation Memory MemoryInvariant StoreSpec Concurrent Requests ServiceSpec.

Module Findings.

#[local] Existing Instances Samples.K8s Samples.SE.
#[local] Existing Instances no_times no_resources X_registrar X_garam X_server X_prover X_feed X_console.

(** ** Threads scheduled one call at a time *)
Definition is_lock {A} (e : repoE A) : bool := match e with Lock _ => true | _ => false end.

Definition advance (t : @thread _ X) (m : mem) : @thread _ X * mem :=
  match program_of t with
  | Vis (InL e) k =>
      if is_lock e then (t, m)
      else (Thread (held_after (held_of t) e) (result_of t) (k (handle _ e m).1), (handle _ e m).2)
  | _ => (t, m)
  end.

Fixpoint schedule (order : list nat) (c : list (@thread _ X) * mem) : list (@thread _ X) * mem :=
  match order with
  | [] => c
  | i :: order =>
      schedule order
        match c.1 !! i with
        | Some t => let '(t', m') := advance t c.2 in (<[i := t']> c.1, m')
        | None => c
        end
  end.

Lemma schedule_steps order c : rtc (step request) c (schedule order c).
Proof.
  revert c. induction order as [|i order IH]; intros [ts m]; cbn [schedule]; [apply rtc_refl|].
  etrans; [|apply IH]. cbn [fst snd].
  destruct (ts !! i) as [[held A p]|] eqn:Hi; [|apply rtc_refl]. unfold advance. cbn.
  destruct p as [a|Y [e|e] k]; [by rewrite list_insert_id| |by rewrite list_insert_id].
  destruct (is_lock e) eqn:Hl; [by rewrite list_insert_id|]. cbn.
  apply rtc_once. eapply step_store; [exact Hi|]. by destruct e.
Qed.

(** ** The embedding *)

(** A configuration with no embedding, which the mock provider may have. *)
Definition no_embedding : Configuration :=
  mkConfiguration (mkModel "mock" "" "mock" "keys/model" None) "ego" ∅.

(** One request is based on revision 1 and keeps its embedding; the other, made as early, on a
    revision 2 not stored yet, and has none. *)
Definition early : ConfigureInput := Samples.configure_input "early" 2 no_embedding.
Definition keeping : ConfigureInput := Samples.configure_input "keeping" 1 Samples.other_config.

Definition arrive (input : ConfigureInput) (c : list (@thread _ X) * mem) : list (@thread _ X) * mem :=
  (c.1 ++ [Thread None _ (Service.Configure (E:=repoE +' X) input)], c.2).
Definition both : list (@thread _ X) * mem := arrive keeping (arrive early created_pool).

Lemma arrive_step input c : step request c (arrive input c).
Proof. destruct c. apply step_arrive. apply req_Configure. Qed.

Lemma both_reachable : reachable both.
Proof.
  unfold reachable, both. eapply rtc_r; [|apply arrive_step]. eapply rtc_r; [|apply arrive_step].
  exact (proj1 created_reachable).
Qed.

(** The early request's checks run first, then the whole of the other, then the early one's store. *)
Definition raced : list (@thread _ X) * mem := schedule [3%nat; 3%nat; 4%nat; 4%nat; 4%nat; 3%nat] both.

(** Requests running concurrently can remove an agent's embedding: a store is reachable where a
    revision has one and the next has none, though each request checked that it keeps the latest
    revision's. The check is made before the store is changed, and only against the revision then
    latest. *)
Theorem embedding_can_be_removed :
  ∃ (c : list (@thread _ X) * mem) agent i d d',
    reachable c ∧ slice (definitions c.2) agent !! i = Some d ∧
    slice (definitions c.2) agent !! S i = Some d' ∧
    is_Some (Model_Embedding (Configuration_Model (Definition_Config d))) ∧
    Model_Embedding (Configuration_Model (Definition_Config d')) = None.
Proof.
  exists raced, Samples.agent, 1%nat,
    (Samples.revision 2 Samples.other_config), (Samples.revision 3 no_embedding).
  split; [|split_and!; [by vm_compute|by vm_compute|by eexists|done]].
  unfold reachable. etrans; [apply both_reachable|apply schedule_steps].
Qed.

(** A repeat of a request stored as stale is not always answered as stale: once the revision it was
    based on is the latest, it can be refused for the embedding it would remove. *)
Theorem stale_repeat_refused :
  let stale := (run (E:=repoE) handle (Service.Configure early) Samples.store).2 in
  let later := (run (E:=repoE) handle (Service.Configure keeping) stale).2 in
  (run (E:=repoE) handle (Service.Configure early) Samples.store).1 = Err ErrStaleRevision ∧
  requests later !! Configure_Request early = Some (configured_as early Stale) ∧
  (run (E:=repoE) handle (Service.Configure early) later).1 = Err ErrEmbeddingImmutable.
Proof. split_and!; by vm_compute. Qed.
End Findings.
