(* ===== verification/Kube.v ===== *)
(** What the controller reads and writes of Kubernetes: the fields it uses of each object, and its calls
    on the API server, each answered by the server. An object's UID, phase and condition are strings, a
    timestamp a number that orders instants, a nil annotation or label map the empty map. A patch is the
    object as it was read and as it is wanted, and is answered by the object the server then holds. *)
From S2P Require Import Prelude GoStd Errors Types.

Module Kube.

(** ** Pods *)
Record Terminated := mkTerminated {
  Terminated_ExitCode : Z;
  Terminated_Message : string;
  Terminated_FinishedAt : Time;
  Terminated_ContainerID : string;
}.
#[global] Instance Terminated_eq_dec : EqDecision Terminated.
Proof. solve_decision. Defined.

(** [corev1.ContainerState]: of the running and the waiting state only whether they are set is read. *)
Record ContainerState := mkState {
  State_Running : bool;
  State_Waiting : bool;
  State_Terminated : option Terminated;
}.
#[global] Instance ContainerState_eq_dec : EqDecision ContainerState.
Proof. solve_decision. Defined.
Definition zeroState : ContainerState := mkState false false None.

Record ContainerStatus := mkContainerStatus {
  ContainerStatus_Name : string;
  ContainerStatus_State : ContainerState;
  ContainerStatus_LastTerminationState : ContainerState;
  ContainerStatus_Ready : bool;
  ContainerStatus_RestartCount : Z;
  ContainerStatus_ContainerID : string;
}.

Record Container := mkContainer {
  Container_Name : string;
  Container_RestartPolicy : option string;
}.

Record Volume := mkVolume {
  Volume_Name : string;
  (** The claim it mounts, where it mounts one. *)
  Volume_ClaimName : option string;
}.

Record Condition := mkCondition {
  Condition_Type : string;
  Condition_Status : string;
  Condition_Reason : string;
  Condition_Message : string;
}.

Record Pod := mkPod {
  Pod_Name : string;
  Pod_Namespace : string;
  Pod_UID : string;
  Pod_CreationTimestamp : Time;
  Pod_DeletionTimestamp : option Time;
  Pod_Finalizers : list string;
  Pod_Annotations : gmap string string;
  Pod_NodeName : string;
  Pod_InitContainers : list Container;
  Pod_Containers : list Container;
  Pod_Volumes : list Volume;
  Pod_Phase : string;
  Pod_Conditions : list Condition;
  Pod_InitContainerStatuses : list ContainerStatus;
  Pod_ContainerStatuses : list ContainerStatus;
}.

Definition with_finalizers (p : Pod) fs : Pod :=
  mkPod (Pod_Name p) (Pod_Namespace p) (Pod_UID p) (Pod_CreationTimestamp p) (Pod_DeletionTimestamp p) fs
    (Pod_Annotations p) (Pod_NodeName p) (Pod_InitContainers p) (Pod_Containers p) (Pod_Volumes p)
    (Pod_Phase p) (Pod_Conditions p) (Pod_InitContainerStatuses p) (Pod_ContainerStatuses p).
Definition annotated_pod (p : Pod) k v : Pod :=
  mkPod (Pod_Name p) (Pod_Namespace p) (Pod_UID p) (Pod_CreationTimestamp p) (Pod_DeletionTimestamp p)
    (Pod_Finalizers p) (<[k := v]> (Pod_Annotations p)) (Pod_NodeName p) (Pod_InitContainers p)
    (Pod_Containers p) (Pod_Volumes p) (Pod_Phase p) (Pod_Conditions p) (Pod_InitContainerStatuses p)
    (Pod_ContainerStatuses p).

(** [controllerutil.ContainsFinalizer] and [RemoveFinalizer]. *)
Definition ContainsFinalizer (p : Pod) (f : string) : bool := bool_decide (f ∈ Pod_Finalizers p).
Definition RemoveFinalizer (p : Pod) (f : string) : Pod :=
  with_finalizers p (filter (λ g, g ≠ f) (Pod_Finalizers p)).

(** ** Nodes, claims and jobs *)
Record Node := mkNode {
  Node_Name : string;
  Node_Conditions : list Condition;
  (** The keys of its taints. *)
  Node_Taints : list string;
}.

Section claims.
Context `{K8s : Kubernetes}.

(** [metav1.Duration]-free part of a claim's spec: its class and the storage it asks for. *)
Record Claim := mkClaim {
  Claim_Name : string;
  Claim_Namespace : string;
  Claim_UID : string;
  Claim_CreationTimestamp : Time;
  Claim_Labels : gmap string string;
  Claim_Annotations : gmap string string;
  Claim_StorageClassName : option string;
  Claim_Storage : Quantity;
}.

Definition with_annotations (c : Claim) a : Claim :=
  mkClaim (Claim_Name c) (Claim_Namespace c) (Claim_UID c) (Claim_CreationTimestamp c)
  (Claim_Labels c) a (Claim_StorageClassName c) (Claim_Storage c).
Definition annotated (c : Claim) k v : Claim := with_annotations c (<[k := v]> (Claim_Annotations c)).

Record MemoryMove := mkMemoryMove {
  Move_ID : string;
  Move_StorageClassName : option string;
  Move_StorageSize : Quantity;
}.

(** What is read of the Agent: its name, what it asks for, and whether it has an identity. *)
Record Agent := mkAgent {
  Agent_Name : string;
  Agent_Namespace : string;
  Agent_MemoryMove : option MemoryMove;
  Agent_Identity : bool;
}.
End claims.

(** [m[k]] of a Go map of strings: the empty string where [k] is missing. *)
Definition annotation (m : gmap string string) (k : string) : string := default "" (m !! k).

Record Job := mkJob {
  Job_Name : string;
  Job_Namespace : string;
  Job_Conditions : list Condition;
}.

(** ** The status of the Agent *)
Record TerminatedContainer := mkTerminatedContainer {
  TerminatedContainer_Name : string;
  TerminatedContainer_ContainerID : string;
  TerminatedContainer_ExitCode : Z;
  TerminatedContainer_FinishedAt : Time;
}.

Record WriterStoppedEvidence := mkEvidence {
  Evidence_PodUID : string;
  Evidence_PVCUID : string;
  Evidence_Containers : list TerminatedContainer;
  Evidence_NeverCreated : list string;
  Evidence_PodPhase : string;
  Evidence_ObservedAt : Time;
}.

Inductive condition_status := ConditionTrue | ConditionFalse | ConditionUnknown.

(** A Job the controller creates, by what it depends on. *)
Record JobSpec := mkJobSpec {
  JobSpec_Name : string;
  JobSpec_Namespace : string;
  JobSpec_Agent : string;
  JobSpec_Image : string;
  JobSpec_Step : string;
  JobSpec_MemoryFile : string;
  JobSpec_Source : string;
  JobSpec_Target : string;
  JobSpec_TargetReadOnly : bool;
}.

Section calls.
Context `{K8s : Kubernetes}.

(** The controller's calls on the API server. [GetPod], [GetSecret], [GetStatefulSet], [GetJob] and the
lists go through its cache, the others to the server itself. A StatefulSet is read for whether it
claims a workspace volume. *)
Inductive kubeE : Type → Type :=
| GetPod (namespace name : string) : kubeE (result Pod)
| GetNode (name : string) : kubeE (result Node)
| GetClaim (namespace name : string) : kubeE (result Claim)
| GetSecret (namespace name : string) : kubeE (result ())
| GetStatefulSet (namespace name : string) : kubeE (result bool)
| GetJob (namespace name : string) : kubeE (result Job)
| ListJobs (namespace agent : string) : kubeE (result (list Job))
| ListPodsOfJob (namespace job : string) : kubeE (result (list Pod))
| PatchWriterStopped (agent : Agent) (e : WriterStoppedEvidence) : kubeE (result ())
| PatchPod (read wanted : Pod) : kubeE (result Pod)
| PatchClaim (read wanted : Claim) : kubeE (result Claim)
| PatchSecret (namespace name token : string) (annotations : gmap string string) : kubeE (result ())
| CreateSecret (namespace name token : string) (annotations : gmap string string) : kubeE (result ())
| CreateClaim (c : Claim) : kubeE (result ())
| CreateJob (j : JobSpec) : kubeE (result ()).
End calls.

(** What the controller sets on the Agent it holds, for the status written at the end, its clock, the
    randomness it reads, the owner it sets on what it creates, and its log. *)
Inductive controllerE : Type → Type :=
| SetWriterFence (status : condition_status) (reason message : string) : controllerE ()
| SetMemoryMove (status : condition_status) (reason message : string) : controllerE ()
| SetPlacement (podUID pvcUID : string) : controllerE ()
| Now : controllerE Time
| RandRead (n : Z) : controllerE (result (list Z))
| SetControllerReference (kind name : string) : controllerE (result ())
| LogInfo (message : string) (attributes : list (string * string)) : controllerE ().

(** ** Reasons and condition types of the API ([src/api/v1alpha1/agent_types.go]) *)
Definition ReasonWriterStopped := "WriterStopped".
Definition ReasonContainerRunning := "ContainerRunning".
Definition ReasonContainerWaiting := "ContainerWaiting".
Definition ReasonNoContainerStatus := "NoContainerStatus".
Definition ReasonNodeUnknown := "NodeUnknown".
Definition ReasonPVCChanged := "PVCChanged".
Definition ReasonNoMove := "NoMove".
Definition ReasonMoveStopping := "Stopping".
Definition ReasonMoveCopying := "Copying".
Definition ReasonMoveVerifying := "Verifying".
Definition ReasonMoveStarting := "Starting".
Definition ReasonMoveAccepted := "Accepted".
Definition ReasonCopyImageUnset := "CopyImageUnset".
Definition ReasonMoveSharedClaim := "SharedClaim".
Definition ReasonWriterNotDrained := "WriterNotDrained".
Definition ReasonTargetForeign := "TargetForeign".
Definition ReasonSourceChanged := "SourceChanged".
Definition ReasonCopyFailed := "CopyFailed".
Definition ReasonVerificationFailed := "VerificationFailed".
Definition ReasonAgentRefusedStore := "AgentRefusedStore".
End Kube.
