(* ===== verification/AgentApi.v ===== *)
(** The Agent of the cluster's API ([src/api/v1alpha1/agent_types.go]): what its spec asks for and what its
    status reports, with the conditions on it. *)
From S2P Require Import Prelude GoStd Errors Types Kube.
Import Kube.

Module AgentApi.

(** ** The spec *)
Record SecretKeyReference := mkSecretKey {
  SecretKey_Name : string;
  SecretKey_Key : string;
}.

Record EmbeddingSpec := mkEmbeddingSpec {
  EmbeddingSpec_BaseURL : string;
  EmbeddingSpec_Name : string;
  EmbeddingSpec_APIKeySecretRef : option SecretKeyReference;
}.

Record ModelSpec := mkModelSpec {
  ModelSpec_Provider : string;
  ModelSpec_BaseURL : string;
  ModelSpec_Name : string;
  ModelSpec_APIKeySecretRef : SecretKeyReference;
  ModelSpec_Embedding : option EmbeddingSpec;
}.

Record AgentIdentity := mkIdentity {
  Identity_GRN : string;
  Identity_AssignmentEpoch : string;
}.

Section spec.
Context `{K8s : Kubernetes}.

Record AgentSpec := mkAgentSpec {
  Spec_Type : string;
  Spec_Image : string;
  Spec_CredentialsSecretName : string;
  Spec_StorageSize : Quantity;
  Spec_WorkspaceStorageSize : option Quantity;
  Spec_Suspended : bool;
  Spec_MemoryMove : option MemoryMove;
  Spec_Stopped : bool;
  Spec_StorageClassName : option string;
  Spec_Resources : ResourceRequirements;
(** [Tools.Pins]. *)
Spec_Pins : gmap string string;
Spec_Model : option ModelSpec;
Spec_Ego : string;
Spec_Identity : option AgentIdentity;
Spec_Revision : string;
}.
End spec.

(** ** Conditions *)

(** [metav1.Condition]. *)
Record StatusCondition := mkStatusCondition {
  SC_Type : string;
  SC_Status : condition_status;
  SC_Reason : string;
  SC_Message : string;
  SC_ObservedGeneration : Z;
  SC_LastTransitionTime : Time;
}.

Definition ConditionSynced := "Synced".
Definition ReasonWorkloadReconciled := "WorkloadReconciled".
Definition ReasonCredentialsSecretMissing := "CredentialsSecretMissing".
Definition ReasonModelKeySecretMissing := "ModelKeySecretMissing".
Definition ReasonEmbeddingKeySecretMissing := "EmbeddingKeySecretMissing".
Definition ReasonWorkloadReplacing := "WorkloadReplacing".
Definition ReasonWorkloadRolling := "WorkloadRolling".
Definition ReasonRolloutNotObserved := "RolloutNotObserved".
Definition ReasonStorageSizeImmutable := "StorageSizeImmutable".
Definition ReasonStorageClassImmutable := "StorageClassImmutable".
Definition ReasonTypeUnimplemented := "TypeUnimplemented".

Definition ConditionAvailable := "Available".
Definition ReasonReplicaReady := "ReplicaReady".
Definition ReasonReplicaNotReady := "ReplicaNotReady".
Definition ReasonReplicaOutdated := "ReplicaOutdated".
Definition ReasonWorkloadNotObserved := "WorkloadNotObserved".
Definition ReasonSuspended := "Suspended".

Definition ConditionRecovery := "Recovery".
Definition ReasonRecovering := "Recovering".
Definition ReasonNotRecovering := "NotRecovering".

Definition ConditionSuspended := "Suspended".
Definition ReasonSuspending := "Suspending".
Definition ReasonNotSuspended := "NotSuspended".

Definition ConditionWriterFence := "WriterFence".
Definition ConditionMemoryMove := "MemoryMove".

(** ** The object *)
Record Placement := mkPlacement {
  Placement_PodUID : string;
  Placement_PVCUID : string;
}.

Record AgentStatus := mkAgentStatus {
  Status_Conditions : list StatusCondition;
  Status_ObservedGeneration : Z;
  Status_Placement : option Placement;
  Status_WriterStopped : option WriterStoppedEvidence;
}.
Definition with_conditions cs (s : AgentStatus) : AgentStatus :=
  mkAgentStatus cs (Status_ObservedGeneration s) (Status_Placement s) (Status_WriterStopped s).

Section agent.
Context `{K8s : Kubernetes}.

Record Agent := mkAgent {
  Agent_Name : string;
  Agent_Namespace : string;
  Agent_Generation : Z;
  Agent_DeletionTimestamp : option Time;
  Agent_Finalizers : list string;
  Agent_Spec : AgentSpec;
  Agent_Status : AgentStatus;
}.
Implicit Types (a : Agent).

Definition agent_with_finalizers a fs : Agent :=
  mkAgent (Agent_Name a) (Agent_Namespace a) (Agent_Generation a) (Agent_DeletionTimestamp a) fs
  (Agent_Spec a) (Agent_Status a).
Definition with_status a s : Agent :=
  mkAgent (Agent_Name a) (Agent_Namespace a) (Agent_Generation a) (Agent_DeletionTimestamp a)
  (Agent_Finalizers a) (Agent_Spec a) s.

(** [controllerutil.ContainsFinalizer], [AddFinalizer] and [RemoveFinalizer], of an Agent. *)
Definition agent_fenced a (f : string) : bool := bool_decide (f ∈ Agent_Finalizers a).
Definition AddFinalizer a f : Agent :=
  if agent_fenced a f then a else agent_with_finalizers a (Agent_Finalizers a ++ [f]).
Definition DropFinalizer a f : Agent :=
  agent_with_finalizers a (filter (λ g, g ≠ f) (Agent_Finalizers a)).

(** What the writer fence and the memory move read of an Agent. *)
Definition view a : Kube.Agent :=
  Kube.mkAgent (Agent_Name a) (Agent_Namespace a) (Spec_MemoryMove (Agent_Spec a))
  (bool_decide (is_Some (Spec_Identity (Agent_Spec a)))).
End agent.

(** What the code uses of [k8s.io/apimachinery/pkg/api/meta] on an Agent's conditions, and of
    [equality.Semantic] on its status: [SetStatusCondition] is given the instant it runs at. *)
Class StatusMachinery := {
  SetStatusCondition : Time → list StatusCondition → StatusCondition → list StatusCondition;
  RemoveStatusCondition : list StatusCondition → string → list StatusCondition;
  StatusDeepEqual : AgentStatus → AgentStatus → bool;
}.

(** [meta.FindStatusCondition]: the condition of a type, the first where there are several. *)
Definition FindStatusCondition (cs : list StatusCondition) (t : string) : option StatusCondition :=
  List.find (λ c, bool_decide (SC_Type c = t)) cs.

(** What [c] says, apart from when it last changed. *)
Definition says (c : StatusCondition) : string * condition_status * string * string * Z :=
  (SC_Type c, SC_Status c, SC_Reason c, SC_Message c, SC_ObservedGeneration c).

(** Their documented behaviour: a condition set is found as it was set, one removed is not found, and
    those of other types stay as they were. *)
Class StatusMachineryLaws (SM : StatusMachinery) : Prop := {
  find_set : ∀ now cs c, says <$> FindStatusCondition (SetStatusCondition now cs c) (SC_Type c) = Some (says c);
  find_set_other : ∀ now cs c t, t ≠ SC_Type c →
  FindStatusCondition (SetStatusCondition now cs c) t = FindStatusCondition cs t;
  find_removed : ∀ cs t, FindStatusCondition (RemoveStatusCondition cs t) t = None;
  find_removed_other : ∀ cs t t', t' ≠ t →
  FindStatusCondition (RemoveStatusCondition cs t) t' = FindStatusCondition cs t';
  StatusDeepEqual_refl : ∀ s, StatusDeepEqual s s = true;
}.
End AgentApi.
