(* ===== verification/Names.v ===== *)
(** The names of the objects built for an agent ([src/internal/agentname/agentname.go]) and of what the
    controller makes for its Pod ([src/internal/controller/agent_fence.go]). *)
From S2P Require Import Prelude GoStd Errors Types Kube.
Import GoStd Kube.

Module Names.
Definition credentialsSecretSuffix := "-credentials".
Definition recoveryRequestSecretSuffix := "-recovery-request".
Definition PVCUIDAnnotation := "agent.garam.sh/pvc-uid".
Definition PreviousPodUIDAnnotation := "agent.garam.sh/previous-pod-uid".
Definition PreviousWriterStoppedAnnotation := "agent.garam.sh/previous-writer-stopped-sha256".
Definition PlacementTokenKey := "token".
Definition AdapterContainer := "adapter".
Definition TokensRefreshAnnotation := "agent.garam.sh/tokens-refresh-at".
Definition placementSecretSuffix := "-placement".

Definition Agent (grn : string) : string :=
  "agent-" +:+ EncodeToString (take 8 (Sum256 (bytes_of grn))).
Definition CredentialsSecret (grn : string) : string := Agent grn +:+ credentialsSecretSuffix.
Definition RecoveryRequestSecret (grn : string) : string := Agent grn +:+ recoveryRequestSecretSuffix.
Definition PlacementSecret (agent : string) : string := agent +:+ placementSecretSuffix.

Definition stateVolumeName := "state".
Definition agentContainerName := "agent".

Section names.
Context `{K8s : Kubernetes}.
Implicit Types (agent : Kube.Agent).

Definition agentPodName agent : string := Agent_Name agent +:+ "-0".
Definition stateClaimName agent : string := stateVolumeName +:+ "-" +:+ agentPodName agent.

(** [podStateClaim]: the claim the first state volume that mounts one mounts. *)
Definition podStateClaim (pod : Pod) : string :=
  default "" (
    v ← List.find (λ v, bool_decide (Volume_Name v = stateVolumeName) &&
      bool_decide (is_Some (Volume_ClaimName v))) (Pod_Volumes pod);
    Volume_ClaimName v).

Definition claimOfPod agent (pod : Pod) : string :=
  let claim := podStateClaim pod in
  if negb (bool_decide (claim = "")) then claim else stateClaimName agent.

Definition placementSecretName agent : string := PlacementSecret (Agent_Name agent).
End names.
End Names.
