(* ===== verification/Fence.v ===== *)
(** The writer fence ([src/internal/controller/agent_fence.go]): a deleting agent Pod is held by its
    finalizer until every container that could write the agent's state is positively seen stopped. *)
From S2P Require Import Prelude GoStd Errors Types Kube Names.
Import GoStd Kube Names.

Module Fence.

Definition writerStoppedFinalizer := "agent.garam.sh/writer-stopped".
Definition pvcUIDAnnotation := PVCUIDAnnotation.
Definition lastWriterAnnotation := "agent.garam.sh/last-writer".
Definition placementTokenBytes : Z := 32.
Definition placementTokenKey := PlacementTokenKey.

(** Names of the API ([k8s.io/api/core/v1]). *)
Definition NodeReady := "Ready".
Definition PodFailed := "Failed".
Definition PodSucceeded := "Succeeded".
Definition TaintNodeOutOfService := "node.kubernetes.io/out-of-service".
Definition DisruptionTarget := "DisruptionTarget".
Definition PodReasonTerminationByKubelet := "TerminationByKubelet".
Definition ContainerRestartPolicyAlways := "Always".

Record fenceVerdict := mkVerdict {
  verdict_evidence : option WriterStoppedEvidence;
  verdict_reason : string;
  verdict_message : string;
}.
Definition unverified (reason message : string) : fenceVerdict := mkVerdict None reason message.

(** [lastWriter], and the JSON it is recorded as. *)
Record lastWriter := mkLastWriter {
  writer_PodUID : string;
  writer_State : string;
  writer_ExitCode : option Z;
}.
Definition writerRunning := "running".
Definition writerStopped := "stopped".

Definition lastWriter_json (w : lastWriter) : string :=
  "{" +:+ json_string "podUID" +:+ ":" +:+ json_string (writer_PodUID w) +:+ "," +:+
  json_string "state" +:+ ":" +:+ json_string (writer_State w) +:+
  match writer_ExitCode w with
  | Some code => "," +:+ json_string "exitCode" +:+ ":" +:+ FormatInt code
  | None => ""
  end +:+ "}".

(** ** Reading the containers *)

Definition wasNeverCreated (s : ContainerStatus) : bool :=
  bool_decide (ContainerStatus_ContainerID s = "") && bool_decide (ContainerStatus_RestartCount s = 0) &&
  bool_decide (ContainerStatus_LastTerminationState s = zeroState) &&
  negb (State_Running (ContainerStatus_State s)) &&
  bool_decide (State_Terminated (ContainerStatus_State s) = None).

Definition node_ready (n : Node) : bool :=
  existsb (λ c, bool_decide (Condition_Type c = NodeReady) && bool_decide (Condition_Status c = "True"))
    (Node_Conditions n).

Definition neverCreatedRefusal (pod : Pod) (node : Node) : string :=
  if negb (bool_decide (Pod_Phase pod = PodFailed)) && negb (bool_decide (Pod_Phase pod = PodSucceeded))
  then "the Pod's phase is " +:+ quote (Pod_Phase pod)
  else if negb (node_ready node) then "node " +:+ quote (Node_Name node) +:+ " is not Ready"
  else if bool_decide (TaintNodeOutOfService ∈ Node_Taints node)
  then "node " +:+ quote (Node_Name node) +:+ " carries the " +:+ TaintNodeOutOfService +:+ " taint"
  else match List.find (λ c, bool_decide (Condition_Type c = DisruptionTarget) &&
                             negb (bool_decide (Condition_Reason c = PodReasonTerminationByKubelet)))
               (Pod_Conditions pod) with
  | Some c => "the Pod carries " +:+ DisruptionTarget +:+ " with reason " +:+ quote (Condition_Reason c) +:+
              ", which the kubelet did not set"
  | None => ""
  end.

(** The statuses by name: of two under one name, the later. *)
Definition statuses_of (pod : Pod) : gmap string ContainerStatus :=
  foldl (λ m s, <[ContainerStatus_Name s := s]> m) ∅
    (Pod_InitContainerStatuses pod ++ Pod_ContainerStatuses pod).

(** The containers that could write the agent's state: the init containers that keep running, and every
    regular one. *)
Definition writers_of (pod : Pod) : list string :=
  (Container_Name <$> filter (λ c, Container_RestartPolicy c = Some ContainerRestartPolicyAlways)
                        (Pod_InitContainers pod)) ++
  (Container_Name <$> Pod_Containers pod).

(** What one writer's status comes to: stopped, never created, or why it counts as neither. *)
Inductive writer_verdict :=
| WriterTerminated (c : TerminatedContainer)
| WriterNeverCreated
| WriterUnproven (reason message : string).

Definition writer_status (pod : Pod) (node : Node) (name : string) : writer_verdict :=
  let unproven reason text := WriterUnproven reason ("Container " +:+ quote name +:+ text) in
  match statuses_of pod !! name with
  | None => unproven ReasonNoContainerStatus " reports no status"
  | Some status =>
      let state := ContainerStatus_State status in
      if wasNeverCreated status then
        let refusal := neverCreatedRefusal pod node in
        if bool_decide (refusal = "") then WriterNeverCreated
        else unproven (if State_Waiting state then ReasonContainerWaiting else ReasonNoContainerStatus)
               (" reports no container ever created, which counts only " +:+
                "in a Pod the kubelet made terminal, and " +:+ refusal)
      else if State_Running state then unproven ReasonContainerRunning " is running"
      else if State_Waiting state then unproven ReasonContainerWaiting " is waiting"
      else match State_Terminated state with
      | None => unproven ReasonNoContainerStatus " reports no terminated instance"
      | Some t =>
          if bool_decide (Terminated_ContainerID t = "")
          then unproven ReasonNoContainerStatus
                 (" reports a terminated instance with no container ID, which the kubelet " +:+
                  "writes for a container it could not locate, whether or not one ever ran")
          else WriterTerminated (mkTerminatedContainer name (Terminated_ContainerID t)
                 (Terminated_ExitCode t) (Terminated_FinishedAt t))
      end
  end.

(** The loop over the writers: what it found terminated and never created, or the first it could not
    prove stopped. *)
Fixpoint collect_writers (pod : Pod) (node : Node) (names : list string) :
    list TerminatedContainer * list string * string * string :=
  match names with
  | [] => ([], [], "", "")
  | name :: rest =>
      match writer_status pod node name with
      | WriterUnproven reason message => ([], [], reason, message)
      | v =>
          let '(terminated, never, reason, message) := collect_writers pod node rest in
          if negb (bool_decide (reason = "")) then ([], [], reason, message)
          else match v with
          | WriterTerminated c => (c :: terminated, never, "", "")
          | _ => (terminated, name :: never, "", "")
          end
      end
  end.

Definition terminatedWriters (pod : Pod) (node : Node) : list TerminatedContainer * list string * string * string :=
  collect_writers pod node (writers_of pod).

Section fence.
Context `{K8s : Kubernetes}.
(** The bytes [writerStoppedDigest] hashes: [encoding/json]'s form of the evidence, made canonical by
[github.com/gowebpki/jcs]. *)
Context (canonical_json : WriterStoppedEvidence → result string).
Context {E : Type → Type} `{!SubEvent kubeE E, !SubEvent controllerE E}.

(** The reconciler's settings. *)
Record AgentReconciler := mkReconciler {
  CopyImage : string;
  WorkspaceImage : string;
  AdapterImage : string;
  GaramAddress : string;
  GaramIssuer : string;
  ControlAddress : string;
  ControlRootFile : string;
}.
Context (r : AgentReconciler).
Implicit Types (agent : Kube.Agent) (pod : Pod).

Definition adapterBuilt agent : bool :=
  negb (bool_decide (AdapterImage r = "")) && negb (bool_decide (GaramAddress r = "")) &&
  negb (bool_decide (ControlAddress r = "")) && Agent_Identity agent.

Definition writerStoppedDigest (e : WriterStoppedEvidence) : result string :=
  match canonical_json e with
  | Ok canonical => Ok (EncodeToString (Sum256 (bytes_of canonical)))
  | Err err => Err err
  end.

(** [readNode] and [readClaim]: what was read, or a reason and a message. *)
Definition readNode name : prog E (result (Node + string * string)) :=
  node ← call (GetNode name);
  match node with
  | Err err =>
    if IsNotFound err
    then mret (Ok (inr (ReasonNodeUnknown, "Node " +:+ quote name +:+ " no longer exists")))
    else mret (Err (Wrapf ("get node " +:+ quote name +:+ ": ") err ""))
  | Ok node =>
    match List.find (λ c, bool_decide (Condition_Type c = NodeReady)) (Node_Conditions node) with
    | Some c =>
      if bool_decide (Condition_Status c = "Unknown")
      then mret (Ok (inr (ReasonNodeUnknown,
        "Node " +:+ quote name +:+ "'s Ready condition is Unknown, so the container states it reported may be stale")))
      else mret (Ok (inl node))
    | None =>
      mret (Ok (inr (ReasonNodeUnknown, "Node " +:+ quote name +:+ " reports no Ready condition")))
    end
  end.

Definition readClaim agent pod : prog E (result (string + string * string)) :=
  let name := claimOfPod agent pod in
  claim ← call (GetClaim (Agent_Namespace agent) name);
  match claim with
  | Err err =>
    if IsNotFound err
    then mret (Ok (inr (ReasonPVCChanged, "Claim " +:+ quote name +:+ " no longer exists")))
    else mret (Err (Wrapf ("get claim " +:+ quote name +:+ ": ") err ""))
  | Ok claim =>
    let recorded := annotation (Pod_Annotations pod) pvcUIDAnnotation in
    if negb (bool_decide (recorded = Claim_UID claim))
    then mret (Ok (inr (ReasonPVCChanged,
      "Claim " +:+ quote (Claim_Name claim) +:+ " is " +:+ Claim_UID claim +:+
      ", and the Pod recorded " +:+ quote recorded)))
    else if bool_decide (Claim_CreationTimestamp claim > Pod_CreationTimestamp pod)
    then mret (Ok (inr (ReasonPVCChanged,
      "Claim " +:+ quote (Claim_Name claim) +:+ " was created after the Pod")))
    else mret (Ok (inl (Claim_UID claim)))
  end.

Definition readFence agent pod : prog E (result fenceVerdict) :=
  now ← call Now;
  if bool_decide (Pod_NodeName pod = "")
  then mret (Ok (mkVerdict (Some (mkEvidence (Pod_UID pod) "" [] [] "" now)) "" ""))
  else
  node ←? readNode (Pod_NodeName pod);
  match node with
  | inr (reason, message) => mret (Ok (unverified reason message))
  | inl node =>
    claim ←? readClaim agent pod;
    match claim with
    | inr (reason, message) => mret (Ok (unverified reason message))
    | inl pvcUID =>
      let '(containers, neverCreated, reason, message) := terminatedWriters pod node in
      if negb (bool_decide (reason = "")) then mret (Ok (unverified reason message))
      else mret (Ok (mkVerdict (Some (mkEvidence (Pod_UID pod) pvcUID containers neverCreated
        (if bool_decide (neverCreated = []) then "" else Pod_Phase pod) now)) "" ""))
    end
  end.

(** ** The placement token *)
Definition newPlacementToken : prog E (result string) :=
  raw ← call (RandRead placementTokenBytes);
  match raw with
  | Ok raw => mret (Ok (EncodeToString raw))
  | Err err => mret (Err (Wrapf "read randomness for a placement token: " err ""))
  end.

Definition createPlacementToken agent (previous : gmap string string) : prog E (result ()) :=
  existing ← call (GetSecret (Agent_Namespace agent) (placementSecretName agent));
  match existing with
  | Ok _ => mret (Ok tt)
  | Err err =>
    if negb (IsNotFound err) then mret (Err (Wrapf "get the placement token secret: " err ""))
    else
    token ←? newPlacementToken;
    _ ←? call (SetControllerReference "Secret" (placementSecretName agent))
    wrap (λ e, Wrapf "own the placement token secret: " e "");
    created ← call (CreateSecret (Agent_Namespace agent) (placementSecretName agent) token previous);
    match created with
    | Err err =>
      if IsAlreadyExists err then mret (Ok tt)
      else mret (Err (Wrapf "create the placement token secret: " err ""))
    | Ok _ => mret (Ok tt)
    end
  end.

Definition ensurePlacementToken agent : prog E (result ()) := createPlacementToken agent ∅.

Definition mintPlacementToken agent (previous : gmap string string) : prog E (result ()) :=
  token ←? newPlacementToken;
  patched ← call (PatchSecret (Agent_Namespace agent) (placementSecretName agent) token previous);
  match patched with
  | Ok _ => mret (Ok tt)
  | Err err =>
    if IsNotFound err then createPlacementToken agent previous
    else mret (Err (Wrapf "mint the placement token: " err ""))
  end.

(** ** The record of a claim's last writer *)
Definition recordLastWriter (claim : Claim) (w : lastWriter) : prog E (result ()) :=
  let value := lastWriter_json w in
  if bool_decide (annotation (Claim_Annotations claim) lastWriterAnnotation = value) then mret (Ok tt)
  else
  _ ←? call (PatchClaim claim (annotated claim lastWriterAnnotation value))
  wrap (λ e, Wrapf ("record the last writer of claim " +:+ quote (Claim_Name claim) +:+ ": ") e "");
  mret (Ok tt).

Definition agent_exit (containers : list TerminatedContainer) : option Z :=
  foldl (λ code c, if bool_decide (TerminatedContainer_Name c = agentContainerName)
    then Some (TerminatedContainer_ExitCode c) else code) None containers.

Definition recordStoppedWriter agent pod (e : WriterStoppedEvidence) : prog E (result ()) :=
  let writer := mkLastWriter (Pod_UID pod) writerStopped (agent_exit (Evidence_Containers e)) in
  let name := claimOfPod agent pod in
  claim ← call (GetClaim (Agent_Namespace agent) name);
  match claim with
  | Err err =>
    if IsNotFound err then mret (Ok tt)
    else mret (Err (Wrapf ("get claim " +:+ quote name +:+ ": ") err ""))
  | Ok claim => recordLastWriter claim writer
  end.

Definition recordPlacement agent pod : prog E (result ()) :=
  match Pod_Annotations pod !! pvcUIDAnnotation with
  | Some recorded => _ ← call (SetPlacement (Pod_UID pod) recorded); mret (Ok tt)
  | None =>
    let name := claimOfPod agent pod in
    claim ← call (GetClaim (Agent_Namespace agent) name);
    match claim with
    | Err err =>
      if IsNotFound err then mret (Ok tt)
      else mret (Err (Wrapf ("get claim " +:+ quote name +:+ ": ") err ""))
    | Ok claim =>
      _ ←? recordLastWriter claim (mkLastWriter (Pod_UID pod) writerRunning None);
      _ ←? call (PatchPod pod (annotated_pod pod pvcUIDAnnotation (Claim_UID claim)))
      wrap (λ e, Wrapf ("record the claim on pod " +:+ quote (Pod_Name pod) +:+ ": ") e "");
      _ ← call (SetPlacement (Pod_UID pod) (Claim_UID claim));
      mret (Ok tt)
    end
  end.

(** ** Releasing the Pod *)
Definition releaseFence agent pod (e : WriterStoppedEvidence) : prog E (result ()) :=
  _ ←? call (PatchWriterStopped agent e) wrap (λ err, Wrapf "record the writer-stopped evidence: " err "");
  _ ←? (if adapterBuilt agent then
    digest ←? lift (writerStoppedDigest e);
    mintPlacementToken agent
    (<[PreviousPodUIDAnnotation := Pod_UID pod]>
      (<[PreviousWriterStoppedAnnotation := digest]> ∅))
    else mret (Ok tt));
  _ ←? recordStoppedWriter agent pod e;
  released ← call (PatchPod pod (RemoveFinalizer pod writerStoppedFinalizer));
  let failed := match released with
  | Err err => if IsNotFound err then None else Some err
  | Ok _ => None
  end in
  match failed with
  | Some err =>
    mret (Err (Wrapf ("release the writer fence on pod " +:+ quote (Pod_Name pod) +:+ ": ") err ""))
  | None =>
    _ ← call (SetWriterFence ConditionTrue ReasonWriterStopped
      ("Pod " +:+ quote (Pod_Name pod) +:+ " (" +:+ Pod_UID pod +:+
        ") was released on the evidence recorded in status.writerStopped"));
    _ ← call (LogInfo "Released the writer fence on evidence"
      [("pod", Pod_Name pod); ("podUID", Pod_UID pod)]);
    mret (Ok tt)
  end.

(** Whether the Pod is gone, and whether its fence is unverified. *)
Definition reconcileFence agent : prog E (result (bool * bool)) :=
  pod ← call (GetPod (Agent_Namespace agent) (agentPodName agent));
  match pod with
  | Err err =>
    if IsNotFound err then mret (Ok (true, false))
    else mret (Err (Wrapf "get the agent's pod: " err ""))
  | Ok pod =>
    if bool_decide (Pod_DeletionTimestamp pod = None)
    then _ ←? recordPlacement agent pod; mret (Ok (false, false))
    else if negb (ContainsFinalizer pod writerStoppedFinalizer) then mret (Ok (false, false))
    else
    verdict ←? readFence agent pod;
    match verdict_evidence verdict with
    | None =>
      _ ← call (SetWriterFence ConditionUnknown (verdict_reason verdict)
        ("Unverified: Pod " +:+ quote (Pod_Name pod) +:+ " (" +:+ Pod_UID pod +:+ ") is held. " +:+
          verdict_message verdict +:+ ". It is released when every writing container is seen " +:+
          "terminated, or by a person; never on a timeout"));
      mret (Ok (false, true))
    | Some e => _ ←? releaseFence agent pod e; mret (Ok (false, false))
    end
  end.
End fence.
End Fence.
