(* ===== verification/Workload.v ===== *)
(** The workload an Agent describes, as the controller builds it
    ([src/internal/controller/agent_statefulset.go]): the containers, volumes and claims of the StatefulSet,
    written onto the object found. A nil map or slice is the empty one. *)
From S2P Require Import Prelude GoStd Errors Types Kube Names AgentApi AgentTypes Fence.
Import GoStd Kube AgentApi AgentTypes.

Module Workload.

Definition configContainerName := "config".
Definition workspaceContainerName := "workspace".
Definition adapterContainerName := "adapter".
Definition adapterCredentialsMountPath := "/run/garam/credentials".
Definition placementMountPath := "/run/garam/placement".
Definition credentialsVolumeName := "credentials".
Definition serverRootVolumeName := "server-root".
Definition controlRootMountPath := "/run/garam/control".
Definition controlRootFile := "root.pem".
Definition outboxMountPath := "/run/garam/outbox".
Definition controlRootVolumeName := "control-root".
Definition controlRootContentVariable := "AGENT_CONTROL_ROOT_CONTENT".
Definition outboxContainerName := "outbox".
Definition outboxStateMountPath := "/run/garam/state".
Definition outboxDirMode := "0770".
Definition placementVolumeName := "placement".
Definition configVolumeName := "config".
Definition workspaceVolumeName := "workspace".
Definition configContentVariable := "AGENT_CONFIG_CONTENT".
Definition egoContentVariable := "AGENT_EGO_CONTENT".
Definition instructionsContentVariable := "AGENT_INSTRUCTIONS_CONTENT".
Definition configFileMask := "077".
Definition workspaceDirName := "workspace".
(** 0o440. *)
Definition credentialsFileMode : Z := 288.
Definition agentFSGroup : Z := 65532.
Definition agentRunAsUser : Z := 65532.

Definition adapterAgentSetting := "GARAM_ADAPTER_AGENT".
Definition adapterMachineURLSetting := "GARAM_ADAPTER_MACHINE_URL".
Definition adapterGatewayURLSetting := "GARAM_ADAPTER_GATEWAY_URL".
Definition adapterTokenFileSetting := "GARAM_ADAPTER_TOKEN_FILE".
Definition adapterServerRootSetting := "GARAM_ADAPTER_SERVER_ROOT_FILE".
Definition adapterControlURLSetting := "GARAM_ADAPTER_CONTROL_URL".
Definition adapterControlRootSetting := "GARAM_ADAPTER_CONTROL_ROOT_FILE".
Definition adapterControlTokenSetting := "GARAM_ADAPTER_CONTROL_TOKEN_FILE".
Definition adapterPlacementTokenSetting := "GARAM_ADAPTER_PLACEMENT_TOKEN_FILE".
Definition adapterOutboxDirSetting := "GARAM_ADAPTER_OUTBOX_DIR".
Definition messageSigningKeysPath := "/message-signing-keys".

(** The keys of a credential Secret ([src/internal/garam/garam.go]). *)
Definition TokenKey := "token".
Definition ControlTokenKey := "control-token".
Definition ServerRootKey := "server-root.pem".
Definition CredentialLineageAnnotation := "agent.garam.sh/credential-lineage".

(** ** The objects of the workload *)
Record SecurityContext := mkSecurityContext {
  AllowPrivilegeEscalation : option bool;
  Capabilities_Drop : list string;
}.

(** A variable's value, or the Secret key it is read from. *)
Inductive EnvValue :=
| EnvText (value : string)
| EnvSecret (key : SecretKeyReference).
Record EnvVar := mkEnv { Env_Name : string; Env_Value : EnvValue }.

Record VolumeMount := mkMount {
  Mount_Name : string;
  Mount_Path : string;
  Mount_SubPath : string;
  Mount_ReadOnly : bool;
}.

Inductive VolumeSource :=
| ClaimSource (claim : string) (readOnly : bool)
| SecretSource (secret : string) (items : list (string * string)) (mode : Z)
| EmptyDir.
Record PodVolume := mkPodVolume { PodVolume_Name : string; PodVolume_Source : VolumeSource }.

Definition PullAlways := "Always".

Section workload.
Context `{K8s : Kubernetes}.

(** A container of the Pod's template. [C_Other] holds, by name, the fields this controller never
writes, as the API server defaulted them. *)
Record PodContainer := mkPodContainer {
  C_Name : string;
  C_Image : string;
  C_ImagePullPolicy : string;
  C_Command : list string;
  C_Args : list string;
  C_Env : list EnvVar;
  C_Resources : ResourceRequirements;
  C_SecurityContext : option SecurityContext;
  C_RestartPolicy : option string;
  C_VolumeMounts : list VolumeMount;
  C_Other : gmap string string;
}.
Definition noResources : ResourceRequirements := mkResourceRequirements ∅ ∅ [].
Definition emptyContainer name : PodContainer :=
  mkPodContainer name "" "" [] [] [] noResources None None [] ∅.

Record PodSecurityContext := mkPodSecurity {
  PodSecurity_FSGroup : option Z;
  PodSecurity_RunAsUser : option Z;
  PodSecurity_RunAsNonRoot : option bool;
  PodSecurity_SeccompProfile : option string;
  PodSecurity_Other : gmap string string;
}.

Record PodTemplate := mkTemplate {
  T_Labels : gmap string string;
  T_Annotations : gmap string string;
  T_Finalizers : list string;
  T_TerminationGracePeriodSeconds : option Z;
  T_SecurityContext : option PodSecurityContext;
  T_Volumes : list PodVolume;
  T_InitContainers : list PodContainer;
  T_Containers : list PodContainer;
}.
Definition emptyTemplate : PodTemplate := mkTemplate ∅ ∅ [] None None [] [] [].

(** A claim template: [Storage] is the zero quantity where it requests none. *)
Record ClaimTemplate := mkClaimTemplate {
  CT_Name : string;
  CT_AccessModes : list string;
  CT_Storage : Quantity;
  CT_StorageClassName : option string;
}.

Record StatefulSet := mkStatefulSet {
  S_Name : string;
  S_Namespace : string;
  S_UID : string;
  S_Generation : Z;
(** [None] where the API server has not created it. *)
S_CreationTimestamp : option Time;
S_Labels : gmap string string;
S_Replicas : option Z;
S_Selector : option (gmap string string);
S_VolumeClaimTemplates : list ClaimTemplate;
S_Template : PodTemplate;
S_ReadyReplicas : Z;
S_UpdateRevision : string;
S_ObservedGeneration : Z;
}.
(** A StatefulSet of a name and nothing else. *)
Definition newStatefulSet name namespace : StatefulSet :=
  mkStatefulSet name namespace "" 0 None ∅ None None [] emptyTemplate 0 "" 0.

Definition with_template (s : StatefulSet) t : StatefulSet :=
  mkStatefulSet (S_Name s) (S_Namespace s) (S_UID s) (S_Generation s) (S_CreationTimestamp s) (S_Labels s)
  (S_Replicas s) (S_Selector s) (S_VolumeClaimTemplates s) t (S_ReadyReplicas s) (S_UpdateRevision s)
  (S_ObservedGeneration s).
Definition with_replicas (s : StatefulSet) n : StatefulSet :=
  mkStatefulSet (S_Name s) (S_Namespace s) (S_UID s) (S_Generation s) (S_CreationTimestamp s) (S_Labels s)
  (Some n) (S_Selector s) (S_VolumeClaimTemplates s) (S_Template s) (S_ReadyReplicas s) (S_UpdateRevision s)
  (S_ObservedGeneration s).

(** ** Parts of the Pod *)
Definition containerSecurityContext : SecurityContext := mkSecurityContext (Some false) ["ALL"].

Definition shellCommand (script : string) : list string := ["/bin/sh"; "-ec"; script].

Definition writeFileCommand (file variable : string) : string :=
  "mkdir -p " +:+ Dir file +:+ " && printf '%s' " +:+ dquote +:+ "$" +:+ variable +:+ dquote +:+ " > " +:+ file.

Definition writeConfigCommand (dir : string) d (ego instructions controlRoot : bool) : list string :=
  shellCommand (
    "umask " +:+ configFileMask +:+ " && " +:+ writeFileCommand (configFileIn d dir) configContentVariable +:+
    (if ego then " && " +:+ writeFileCommand (egoFileIn d dir) egoContentVariable else "") +:+
    (if instructions
      then " && " +:+ writeFileCommand (instructionsFileIn d dir) instructionsContentVariable else "") +:+
    (if controlRoot
      then " && " +:+ writeFileCommand (controlRootMountPath +:+ "/" +:+ controlRootFile) controlRootContentVariable
      else "")).

Definition makeOutboxCommand (dir : string) : list string :=
  shellCommand ("if [ ! -d " +:+ dir +:+ " ]; then mkdir -p " +:+ Dir dir +:+ " && mkdir -m " +:+ outboxDirMode +:+
    " " +:+ dir +:+ "; fi").

Definition secretVolume (name secretName : string) : PodVolume :=
  mkPodVolume name (SecretSource secretName [] credentialsFileMode).
Definition claimVolume (name claim : string) (readOnly : bool) : PodVolume :=
  mkPodVolume name (ClaimSource claim readOnly).

(** [containerNamed] and the writes through the pointer it answers: [f] of the first container called
[name], which is added at the end where there is none. *)
Fixpoint containerNamed (name : string) (f : PodContainer → PodContainer) (l : list PodContainer) :
  list PodContainer :=
  match l with
  | [] => [f (emptyContainer name)]
  | c :: l => if bool_decide (C_Name c = name) then f c :: l else c :: containerNamed name f l
  end.
(** [slices.DeleteFunc] of the containers called [name]. *)
Definition deleteNamed (name : string) (l : list PodContainer) : list PodContainer :=
  filter (λ c, C_Name c ≠ name) l.

Definition claim (name : string) (size : Quantity) (agent : Agent) : ClaimTemplate :=
  mkClaimTemplate name ["ReadWriteOnce"] size (Spec_StorageClassName (Agent_Spec agent)).

Definition workloadLabels (agent : Agent) : gmap string string :=
  <["app.kubernetes.io/name" := Names.agentContainerName]>
  {["app.kubernetes.io/instance" := Agent_Name agent]}.

(** ** Reading a StatefulSet's claims *)
Definition claimTemplate (s : StatefulSet) (name : string) : option ClaimTemplate :=
  List.find (λ c, bool_decide (CT_Name c = name)) (S_VolumeClaimTemplates s).
Definition hasWorkspaceClaim (s : StatefulSet) : bool :=
  match claimTemplate s workspaceVolumeName with Some _ => true | None => false end.
Definition claimedStorageSize (s : StatefulSet) (name : string) : Quantity :=
  match claimTemplate s name with Some c => CT_Storage c | None => Quantity_zero end.
Definition workspaceStorageSize (agent : Agent) : Quantity :=
  default (Spec_StorageSize (Agent_Spec agent)) (Spec_WorkspaceStorageSize (Agent_Spec agent)).
Definition claimedStorageClass (s : StatefulSet) : option string :=
  c ← claimTemplate s Names.stateVolumeName; CT_StorageClassName c.
Definition describeStorageClass (class : option string) : string :=
  match class with None => "the cluster's default" | Some c => quote c end.
End workload.
End Workload.
