(* ===== verification/Renderer.v ===== *)
(** The renderer ([src/internal/desired/renderer/agent.go]): an agent's desired state written into the Agent the
    manager builds for it. *)
From S2P Require Import Prelude GoStd Errors Types Validation Kube Names AgentApi Desired.
Import GoStd Validation AgentApi.

Module Renderer.

(** What the renderer uses of Kubernetes beside quantities' sign and text: reading a quantity, and the semantic
    equality of two specs. *)
Class RendererMachinery `{K8s : Kubernetes} := {
  ParseQuantity : string → result Quantity;
  SpecDeepEqual : AgentSpec → AgentSpec → bool;
}.

(** The API server's calls of the renderer, made as its own field owner. *)
Inductive rendererE `{K8s : Kubernetes} : Type → Type :=
| GetAgent (namespace name : string) : rendererE (result Agent)
| CreateAgent (namespace name : string) (spec : AgentSpec) : rendererE (result ())
| PatchAgentSpec (existing : Agent) (spec : AgentSpec) : rendererE (result ()).

Definition malformed (text : string) : error := Wrapf "" ErrMalformed (": " +:+ text).

Section renderer.
Context `{K8s : Kubernetes, RM : !RendererMachinery}.
(** The namespace rendered into, and the image every agent is given. *)
Context (namespace image : string).
Implicit Types (agent : Desired.Agent).

Definition mockProvider := "mock".

Definition secretKeyOf (ref : string) : result SecretKeyReference :=
  match secretref_Parse ref with
  | Ok (secret, key) => Ok (mkSecretKey secret key)
  | Err _ => Err (malformed ("API key reference " +:+ quote ref +:+ " is not <secret-name>/<key>"))
  end.

Definition modelOf (model : Desired.Model) : result (option ModelSpec) :=
  if bool_decide (model = Desired.zeroModel) then Ok None
  else if bool_decide (Desired.Model_Provider model = "") || bool_decide (Desired.Model_BaseURL model = "") ||
  bool_decide (Desired.Model_Name model = "")
  then Err (malformed "a model missing its provider, base URL or name")
  else
  keyRef ← secretKeyOf (Desired.Model_APIKeyRef model);
  let spec embedding := mkModelSpec (Desired.Model_Provider model) (Desired.Model_BaseURL model)
  (Desired.Model_Name model) keyRef embedding in
  match Desired.Model_Embedding model with
  | None =>
    if negb (bool_decide (Desired.Model_Provider model = mockProvider))
    then Err (malformed "a model other than mock with no embedding")
    else Ok (Some (spec None))
  | Some e =>
    if bool_decide (Desired.Embedding_BaseURL e = "") || bool_decide (Desired.Embedding_Name e = "")
    then Err (malformed "an embedding missing its base URL or name")
    else
    key ← (if negb (bool_decide (Desired.Embedding_APIKeyRef e = ""))
      then result_map Some (secretKeyOf (Desired.Embedding_APIKeyRef e)) else Ok None);
    Ok (Some (spec (Some (mkEmbeddingSpec (Desired.Embedding_BaseURL e) (Desired.Embedding_Name e) key))))
  end.

Definition workspaceStorageSizeOf (size : option string) : result (option Quantity) :=
  match size with
  | None => Ok None
  | Some size =>
    match ParseQuantity size with
    | Err err => Err (malformed ("workspace storage size " +:+ quote size +:+ ": " +:+ error_text err))
    | Ok quantity =>
      if bool_decide (Quantity_Sign quantity ≤ 0)
      then Err (malformed ("workspace storage size " +:+ quote size +:+ " is not above zero"))
      else Ok (Some quantity)
    end
  end.

Definition specOf agent : result AgentSpec :=
  let profile := Desired.Agent_Profile agent in
  let configuration := Desired.Agent_Configuration agent in
  if bool_decide (Desired.Agent_GRN agent = "") then Err (malformed "an agent with no GRN") else
  storageSize ← match ParseQuantity (Desired.Profile_StorageSize profile) with
  | Ok q => Ok q
  | Err err => Err (malformed ("storage size " +:+ quote (Desired.Profile_StorageSize profile) +:+ ": " +:+
      error_text err))
  end;
  workspaceSize ← workspaceStorageSizeOf (Desired.Profile_WorkspaceStorageSize profile);
  model ← modelOf (Desired.Configuration_Model configuration);
  Ok {| Spec_Type := "";
    Spec_Image := image;
    Spec_CredentialsSecretName := Names.CredentialsSecret (Desired.Agent_GRN agent);
    Spec_StorageSize := storageSize;
    Spec_WorkspaceStorageSize := workspaceSize;
    Spec_Suspended := false;
    Spec_MemoryMove := None;
    Spec_Stopped := Desired.Agent_Stopped agent;
    Spec_StorageClassName := Desired.Profile_StorageClassName profile;
    Spec_Resources := Desired.Profile_Resources profile;
    Spec_Pins := Desired.Configuration_Tools configuration;
    Spec_Model := model;
    Spec_Ego := Desired.Configuration_Ego configuration;
    Spec_Identity := Some (mkIdentity (Desired.Agent_GRN agent) (Desired.Agent_Epoch agent));
    Spec_Revision := Desired.Agent_Revision agent |}.

(** The fields a revision decides, written onto the spec found; [identity] is the one found. *)
Definition rendered (existing spec : AgentSpec) (identity : AgentIdentity) : AgentSpec :=
  {| Spec_Type := Spec_Type existing;
    Spec_Image := Spec_Image spec;
    Spec_CredentialsSecretName := Spec_CredentialsSecretName existing;
    Spec_StorageSize := Spec_StorageSize spec;
    Spec_WorkspaceStorageSize := Spec_WorkspaceStorageSize spec;
    Spec_Suspended := Spec_Suspended existing;
    Spec_MemoryMove := Spec_MemoryMove existing;
    Spec_Stopped := Spec_Stopped spec;
    Spec_StorageClassName := Spec_StorageClassName spec;
    Spec_Resources := Spec_Resources spec;
    Spec_Pins := Spec_Pins spec;
    Spec_Model := Spec_Model spec;
    Spec_Ego := Spec_Ego spec;
    Spec_Identity := Some (mkIdentity (Identity_GRN identity) (from_option Identity_AssignmentEpoch "" (Spec_Identity spec)));
    Spec_Revision := Spec_Revision spec |}.

Definition Render {E} `{!SubEvent rendererE E} agent : prog E (result ()) :=
  let grn := Desired.Agent_GRN agent in
  spec ←? lift (specOf agent);
  existing ← call (GetAgent namespace (Names.Agent grn));
  match existing with
  | Err err =>
    if IsNotFound err then
    _ ←? call (CreateAgent namespace (Names.Agent grn) spec)
    wrap (λ err, Wrapf ("create the agent for " +:+ grn +:+ ": ") err "");
    mret (Ok tt)
    else mret (Err (Wrapf ("get the agent for " +:+ grn +:+ ": ") err ""))
  | Ok existing =>
    match Spec_Identity (Agent_Spec existing) with
    | None => mret (Err ErrNotControlSource)
    | Some identity =>
      if negb (bool_decide (Identity_GRN identity = grn)) then mret (Err ErrNotControlSource)
      else
      let wanted := rendered (Agent_Spec existing) spec identity in
      if SpecDeepEqual (Agent_Spec existing) wanted then mret (Ok tt)
      else
      _ ←? call (PatchAgentSpec existing wanted) wrap
      (λ err, Wrapf ("render revision " +:+ Desired.Agent_Revision agent +:+ " into the agent for " +:+ grn +:+ ": ")
        err "");
      mret (Ok tt)
    end
  end.
End renderer.
End Renderer.
