(* ===== verification/RendererSpec.v ===== *)
(** What the renderer writes: the spec a released revision becomes, which revisions the control service accepts
    but the manager cannot render, and the Agents the renderer may write. *)
From S2P Require Import Prelude GoStd Errors Types Validation Kube Names AgentApi JsonText Distribution Desired FeedWire Renderer.
Import GoStd Validation AgentApi Renderer.

Module RendererSpec.
#[local] Arguments try_bind : simpl never.
#[local] Arguments try_wrap : simpl never.

Section spec.
Context `{K8s : Kubernetes, RM : !RendererMachinery, RJ : !Distribution.ResourcesJSON, WL : !FeedWire.WireLaws}.

(** Kubernetes' documented behaviour of quantities: one printed reads back as an equal one. *)
Class QuantityLaws := {
  parse_printed q : ∃ q', ParseQuantity (Quantity_String q) = Ok q' ∧ Quantity_Cmp q' q = 0 ∧
  Quantity_Sign q' = Quantity_Sign q;
}.
Context {QL : QuantityLaws} (namespace image : string).

(** A model the renderer takes: none at all, or one with its provider, base URL and name. *)
Definition named (m : Model) : Prop :=
  m = zeroModel ∨ Model_Provider m ≠ "" ∧ Model_BaseURL m ≠ "" ∧ Model_Name m ≠ "".

(** The Secret key a reference names. *)
Definition key_of (ref : string) (key : SecretKeyReference) : Prop :=
  secretref_Parse ref = Ok (SecretKey_Name key, SecretKey_Key key).

(** What a configuration's model is in the spec. *)
Definition model_rendered (m : Model) (spec : option ModelSpec) : Prop :=
  match spec with
  | None => m = zeroModel
  | Some s =>
    ModelSpec_Provider s = Model_Provider m ∧ ModelSpec_BaseURL s = Model_BaseURL m ∧
    ModelSpec_Name s = Model_Name m ∧ key_of (Model_APIKey m) (ModelSpec_APIKeySecretRef s) ∧
    match Model_Embedding m, ModelSpec_Embedding s with
    | None, None => True
    | Some e, Some es =>
      EmbeddingSpec_BaseURL es = Embedding_BaseURL e ∧ EmbeddingSpec_Name es = Embedding_Name e ∧
      match EmbeddingSpec_APIKeySecretRef es with
      | None => Embedding_APIKey e = ""
      | Some key => key_of (Embedding_APIKey e) key
      end
    | _, _ => False
    end
  end.

(** The spec says what the revision does: its settings, its configuration, its epoch and its stop. *)
Definition renders (d : DesiredRevision) (assignment : Assignment) (spec : AgentSpec) : Prop :=
  let def := Desired_Definition d in
  Spec_Image spec = image ∧
  Spec_CredentialsSecretName spec = Names.CredentialsSecret (Definition_Agent def) ∧
  Quantity_Cmp (Spec_StorageSize spec) (Settings_StorageSize (Desired_Settings d)) = 0 ∧
  option_Forall2 (λ q q', Quantity_Cmp q q' = 0) (Spec_WorkspaceStorageSize spec)
  (Settings_WorkspaceStorageSize (Desired_Settings d)) ∧
  Spec_StorageClassName spec = Settings_StorageClassName (Desired_Settings d) ∧
  Spec_Resources spec = FeedWire.resources_received (Settings_Resources (Desired_Settings d)) ∧
  Spec_Pins spec = Configuration_Tools (Definition_Config def) ∧
  model_rendered (Configuration_Model (Definition_Config def)) (Spec_Model spec) ∧
  Spec_Ego spec = Configuration_Ego (Definition_Config def) ∧
  Spec_Identity spec = Some (mkIdentity (Definition_Agent def) (Assignment_Epoch assignment)) ∧
  Spec_Revision spec = Revision_String (Definition_Revision def) ∧
  Spec_Stopped spec = Desired_Stopped d.

(** ** The model *)
Lemma Parts_key ref : (∃ p, SecretRef_Parts ref = Ok p) → ∃ key, secretKeyOf ref = Ok key ∧ key_of ref key.
Proof.
  unfold SecretRef_Parts, secretKeyOf, key_of. destruct (secretref_Parse ref) as [[n k]|e]; [|by intros [? ?]].
  intros _. by exists (mkSecretKey n k).
Qed.

Lemma modelOf_accepted c :
  Configuration_check c = Ok tt →
  let m := Configuration_Model c in
  match modelOf (FeedWire.received_model m) with
  | Ok spec => named m ∧ model_rendered m spec
  | Err err => ¬ named m ∧ errors_is err ErrMalformed = true
  end.
Proof.
  unfold Configuration_check, modelOf, named. destruct (Configuration_Model c) as [p b n k e]. cbn [FeedWire.received_model
    Model_Provider Model_BaseURL Model_Name Model_APIKey Model_Embedding Desired.Model_Provider Desired.Model_BaseURL
    Desired.Model_Name Desired.Model_APIKeyRef Desired.Model_Embedding].
  destruct (decide (mkModel p b n k e = zeroModel)) as [[= -> -> -> -> ->]|Hz]; [intros _; split; [by left|done]|].
  rewrite bool_decide_false by done.
  assert (FeedWire.received_model (mkModel p b n k e) ≠ Desired.zeroModel) as Hz'.
  { intros Heq. apply Hz. unfold FeedWire.received_model, Desired.zeroModel, zeroModel in *. cbn in Heq.
    destruct e; simplify_eq/=; done. }
  rewrite (bool_decide_false (FeedWire.received_model _ = _)) by done. intros Hc.
  destruct (_ || _ || _) eqn:Hnamed.
  { split; [|done]. intros [?|(? & ? & ?)]; [done|]. by rewrite !bool_decide_false in Hnamed. }
  apply orb_false_iff in Hnamed as [[?%bool_decide_eq_false ?%bool_decide_eq_false]%orb_false_iff ?%bool_decide_eq_false].
  destruct (SecretRef_Parts k) as [parts|?] eqn:Hk; [|done].
  destruct (Parts_key k) as (key & -> & Hkey); [by exists parts|]. cbn.
  assert (∀ P : Prop, P ∨ (p ≠ "" ∧ b ≠ "" ∧ n ≠ "")) as Hn by (by right).
  destruct e as [[eb en ek]|]; cbn in Hc |- *.
  - destruct (bool_decide (eb = "") || bool_decide (en = "")); [done|].
    destruct (decide (ek = "")) as [->|He]; [by split|]. rewrite bool_decide_false in Hc |- * by done. cbn in Hc |- *.
    destruct (SecretRef_Parts ek) as [parts'|] eqn:Hek; [|done].
    destruct (Parts_key ek) as (key' & -> & Hkey'); [by exists parts'|]. by split.
  - change mockProvider with Types.mockProvider. by destruct (bool_decide (p = Types.mockProvider)).
Qed.

(** ** Accepted revisions *)

(** C27: Of the revisions the control service accepts, the manager renders exactly those of a named agent whose model
names its provider, base URL and name, or that have no model: what the feed carries of one becomes a spec
that says what the revision does. The others the service accepts, though its check is to refuse what the
manager cannot render, and the manager refuses them as malformed. *)
Theorem accepted_renders (d : DesiredRevision) (assignment : Assignment)
  (Hconfiguration : Configuration_check (Definition_Config (Desired_Definition d)) = Ok tt)
  (Hsettings : Settings_check (Desired_Settings d) = Ok tt) :
  match specOf image (FeedWire.received d assignment) with
  | Ok spec => renders d assignment spec ∧ Definition_Agent (Desired_Definition d) ≠ "" ∧
    named (Configuration_Model (Definition_Config (Desired_Definition d)))
  | Err err => errors_is err ErrMalformed = true ∧
    ¬ (Definition_Agent (Desired_Definition d) ≠ "" ∧
      named (Configuration_Model (Definition_Config (Desired_Definition d))))
  end.
Proof.
  unfold specOf. cbn [FeedWire.received Desired.Agent_GRN Desired.Agent_Profile Desired.Agent_Configuration
    FeedWire.received_profile FeedWire.received_configuration Desired.Profile_StorageSize
    Desired.Profile_WorkspaceStorageSize Desired.Configuration_Model].
  case_bool_decide as Hg; [split; [done|]; by intros [? ?]|].
  destruct (parse_printed (Settings_StorageSize (Desired_Settings d))) as (q & -> & Hq & _).
  assert (∃ ws, workspaceStorageSizeOf (Quantity_String <$> Settings_WorkspaceStorageSize (Desired_Settings d)) = Ok ws ∧
    option_Forall2 (λ q q', Quantity_Cmp q q' = 0) ws (Settings_WorkspaceStorageSize (Desired_Settings d)))
    as (ws & Hws & Hws').
  { unfold Settings_check in Hsettings. revert Hsettings. case_bool_decide; [done|].
    destruct (Settings_WorkspaceStorageSize (Desired_Settings d)) as [w|]; [|by exists None; split; [|constructor]].
    cbn. case_bool_decide as Hw; [done|]. intros _. destruct (parse_printed w) as (w' & -> & Hc & Hs).
    exists (Some w'). rewrite bool_decide_false by lia. by split; [|constructor]. }
  unfold mbind, result_bind. rewrite Hws. pose proof (modelOf_accepted _ Hconfiguration) as Hm.
  cbn zeta in Hm. destruct (modelOf _) as [spec|err]; [|naive_solver].
  destruct Hm as [Hn Hm]. split; [|done]. by split_and!.
Qed.

(** ** The Agents it writes *)
Abbreviation history := (list (event rendererE)).
Definition called {X} (h : history) (e : rendererE X) (x : X) : Prop := Ev e x ∈ h.

(** The fields a revision never decides stay as they were. *)
Definition keeps (existing wanted : AgentSpec) : Prop :=
  Spec_Type wanted = Spec_Type existing ∧ Spec_CredentialsSecretName wanted = Spec_CredentialsSecretName existing ∧
  Spec_Suspended wanted = Spec_Suspended existing ∧ Spec_MemoryMove wanted = Spec_MemoryMove existing ∧
  Identity_GRN <$> Spec_Identity wanted = Identity_GRN <$> Spec_Identity existing.

(** The fields it does are the revision's. *)
Definition takes (spec wanted : AgentSpec) : Prop :=
  Spec_Image wanted = Spec_Image spec ∧ Spec_StorageSize wanted = Spec_StorageSize spec ∧
  Spec_WorkspaceStorageSize wanted = Spec_WorkspaceStorageSize spec ∧
  Spec_StorageClassName wanted = Spec_StorageClassName spec ∧ Spec_Resources wanted = Spec_Resources spec ∧
  Spec_Pins wanted = Spec_Pins spec ∧ Spec_Model wanted = Spec_Model spec ∧ Spec_Ego wanted = Spec_Ego spec ∧
  Spec_Revision wanted = Spec_Revision spec ∧ Spec_Stopped wanted = Spec_Stopped spec ∧
  Identity_AssignmentEpoch <$> Spec_Identity wanted = Identity_AssignmentEpoch <$> Spec_Identity spec.

(** The Agent of a GRN as it was read: one the control service's feed may write. *)
Definition own h grn (existing : Agent) : Prop :=
  called h (GetAgent namespace (Names.Agent grn)) (Ok existing) ∧
  Identity_GRN <$> Spec_Identity (Agent_Spec existing) = Some grn.

Definition render_call (agent : Desired.Agent) h X (e : rendererE X) : Prop :=
  match e with
  | GetAgent ns name => ns = namespace ∧ name = Names.Agent (Desired.Agent_GRN agent)
  | CreateAgent ns name spec =>
    ns = namespace ∧ name = Names.Agent (Desired.Agent_GRN agent) ∧ specOf image agent = Ok spec ∧
    ∃ err, called h (GetAgent ns name) (Err err) ∧ IsNotFound err = true
  | PatchAgentSpec existing wanted =>
    own h (Desired.Agent_GRN agent) existing ∧ keeps (Agent_Spec existing) wanted ∧
    ∃ spec, specOf image agent = Ok spec ∧ takes spec wanted
  end.

(** What holds where the renderer reports no error: an Agent was created of the revision, or the one of its GRN
says what the revision does, as patched or as it was found. *)
Definition rendered_in h (agent : Desired.Agent) : Prop :=
  ∃ spec, specOf image agent = Ok spec ∧
  (called h (CreateAgent namespace (Names.Agent (Desired.Agent_GRN agent)) spec) (Ok tt) ∨
    ∃ existing wanted, own h (Desired.Agent_GRN agent) existing ∧ keeps (Agent_Spec existing) wanted ∧ takes spec wanted ∧
    (called h (PatchAgentSpec existing wanted) (Ok tt) ∨ SpecDeepEqual (Agent_Spec existing) wanted = true)).

Lemma specOf_identity agent spec :
  specOf image agent = Ok spec → Spec_Identity spec = Some (mkIdentity (Desired.Agent_GRN agent) (Desired.Agent_Epoch agent)).
Proof.
  unfold specOf. case_bool_decide; [done|]. destruct (match ParseQuantity _ with Ok _ => _ | Err _ => _ end); [|done].
  cbn. destruct (workspaceStorageSizeOf _); [|done]. cbn. destruct (modelOf _); [|done]. by intros [= <-].
Qed.

Lemma rendered_keeps_takes existing spec identity i :
  Spec_Identity existing = Some identity → Spec_Identity spec = Some i →
  keeps existing (rendered existing spec identity) ∧ takes spec (rendered existing spec identity).
Proof. intros He Hs. unfold keeps, takes. cbn. rewrite He, Hs. cbn. by split_and!. Qed.

(** Whatever the API server answers, rendering an agent's revision creates an Agent only under the GRN's name where
none was read, and patches only the Agent read there whose identity is that GRN, one no person wrote: with
every field the revision decides and no other, so the suspension, the move, the type and the credential stay as
they were. Where it reports no error, that Agent says what the revision does. *)
Theorem render_writes (agent : Desired.Agent) :
  safe (render_call agent) (λ h x, x = Ok tt → rendered_in h agent) [] (Render namespace image agent).
Proof.
  unfold Render. rewrite safe_try_bind. cbn. destruct (specOf image agent) as [spec|err] eqn:Hspec; [|done].
  pose proof (specOf_identity _ _ Hspec) as Hid. cbn. split; [done|]. intros [existing|err].
  - destruct (Spec_Identity (Agent_Spec existing)) as [identity|] eqn:Hi; [|done].
    case_bool_decide as Hg; [|done]. cbn [negb].
    destruct (rendered_keeps_takes (Agent_Spec existing) spec identity _ Hi Hid) as [Hk Ht].
    set (h := [_]). assert (own h (Desired.Agent_GRN agent) existing) as Hown.
    { split; [by left|]. rewrite Hi. cbn. by f_equal. }
    destruct (SpecDeepEqual _ _) eqn:Heq; cbn.
    + intros _. exists spec. split; [done|]. right. eexists _, _. by split_and!; [..|right].
    + rewrite safe_try_wrap. cbn. split; [by split_and!; [done..|exists spec]|]. intros [[]|err]; [|done]. intros _.
      exists spec. split; [done|]. right. exists existing, (rendered (Agent_Spec existing) spec identity).
      split; [split; [by right; left|apply Hown]|]. split_and!; [done|done|left; by left].
  - destruct (IsNotFound err) eqn:Hn; [|done]. rewrite safe_try_wrap. cbn.
    split; [split_and!; [done..|]; exists err; split; [by left|done]|]. intros [[]|err']; [|done]. intros _.
    exists spec. split; [done|]. left. by left.
Qed.
End spec.
End RendererSpec.
