(* ===== verification/FeedSamples.v ===== *)
(** The desired feed on concrete processes: a store, a prover and a clock that answer every call, and quantities and
    resources that print and read back. *)
From S2P Require Import Prelude GoStd Json JsonText JsonRound Errors Types Validation Repository Memory Samples Distribution DistributionSpec Desired FeedWire AgentApi Renderer RendererSpec.
From Stdlib Require Import Ascii DecimalString.
Import GoStd Json JsonText JsonRound Validation Memory Samples Distribution DistributionSpec FeedWire Renderer RendererSpec.

Module FeedSamples.
#[local] Existing Instance Samples.K8s.

(** ** A clock, garam and the store *)
Definition world : Type := Time * mem.

(** Garam proves every controller its own, and the sample agent placed on it under its first epoch. *)
Definition proof_of (controller agent : string) : Proof :=
  mkProof controller "org" (if bool_decide (agent = "") then None else Some (mkProvenAgent agent "epoch-1")).

Definition answering_store : handler repoE world := λ X e w, let '(x, m) := handle X e w.2 in (x, (w.1, m)).
Definition answering_garam : handler proverE world := λ X e w,
  (match e in proverE X return X with Prove controller _ agent => Ok (proof_of controller agent) end, w).
Definition answering_server : handler distE world := λ X e w,
  match e in distE X return X * world with
  | Now => (w.1, w)
  | WallClock => (w.1, w)
  | WaitFor d => (false, (w.1 + d `max` 0, w.2))
  | ContactDue _ _ => (true, w)
  | ForgetContact _ _ => (tt, w)
  | LogFailure _ _ => (tt, w)
  end.
Definition answering : handler (repoE +' proverE +' distE) world :=
  sum_handler (sum_handler answering_store answering_garam) answering_server.

Lemma answering_steady : steady answering fst.
Proof.
  split; [done|intros d [t m]; cbn; lia|]. intros X e [t m].
  destruct e as [e|e]; [destruct e as [e|e]|]; cbn.
  - unfold answering_store. cbn. by destruct (handle X e m).
  - done.
  - destruct e; cbn; lia.
Qed.

(** Resources that print as an empty object, and quantities that print as whole numbers. *)
#[export] Instance RJ : ResourcesJSON := {|
    resources_json _ := JObject [];
    into_resources _ r := Some r;
  |}.

#[export] Instance WL : WireLaws := {|
    resources_received _ := mkResourceRequirements ∅ ∅ [];
    quantity_text := FormatInt_utf8;
    resources_printable _ := proj2 (printable_JObject 8 []) (ex_intro _ 7%nat (conj eq_refl (Forall_nil_2 _)));
    resources_read _ := eq_refl;
  |}.

Definition request (after wait : string) : httpRequest :=
  mkHttp ("Bearer garam_ot_" +:+ "0123456789abcdef0123456789abcdef0123456789abcdef0123456789abcdef") Samples.controller after wait
    "" None.

(** Asked for what is past the store's own position, and to wait half a minute, polling every second. *)
Lemma feed_answers_witness : is_Some (run answering (desired Second 10 31 (request "1" "30")) (0, store)).1.
Proof. apply (feed_answers answering fst Second 10 (request "1" "30") 30 (0, store)); [apply answering_steady|done|done]. Defined.

(** Nine billion seconds are accepted, and are no wait at all. *)
Lemma feed_wait_bounds_witness :
  let wait := -9223372036709551616 in
  parseFeedQuery (request "" "9223372037") = Ok (None, wait) ∧ wait ≤ maxWait ∧
  ∃ seconds, ParseInt "9223372037" = Some seconds ∧ 0 ≤ seconds ∧ wait = int64 (seconds * Second) ∧
    (seconds ≤ 30 ∨ maxInt64 < seconds * Second).
Proof.
  split; [vm_compute; reflexivity|].
  apply (feed_wait_bounds (request "" "9223372037") None); [vm_compute; reflexivity|done].
Defined.

(** The sample agent's revision, as the store's feed holds it. *)
Definition desired_revision : DesiredRevision :=
  mkDesiredRevision (revision 1 config) settings false (Some (mkOpenRecovery "request-1" "epoch-1")).

Lemma feed_read_witness :
  ∃ j, desiredAgentOf desired_revision = Ok j ∧
  Desired.decode_answer (response_body (writeJSON 200 (desiredResponse 1 [j]))) =
  Some (Desired.mkAnswer "1" [received desired_revision assignment]).
Proof.
  eexists. split; [reflexivity|]. apply (feed_read 1 [(desired_revision, assignment)]); [done|].
  constructor; [|constructor]. split; [|reflexivity]. split_and!; try reflexivity; try done.
  - split_and!; try reflexivity; [by intros e [= <-]|apply map_Forall_empty].
  - by intros r [= <-].
Defined.

(** ** The renderer *)
Definition parse_whole (s : string) : option Z :=
  match s with
  | String "-" r => (λ d, - Z.of_N (N.of_uint d)) <$> NilEmpty.uint_of_string r
  | _ => (λ d, Z.of_N (N.of_uint d)) <$> NilEmpty.uint_of_string s
  end.

#[export] Instance RM : RendererMachinery := {|
    ParseQuantity s := from_option Ok (Err (Errorf "quantities must match the regular expression")) (parse_whole s);
    SpecDeepEqual _ _ := false;
  |}.

Lemma uint_of_digit_first d c s :
  NilEmpty.string_of_uint d = String c s → c ≠ "-"%char.
Proof. by destruct d; intros [= <- _]. Qed.

Lemma parse_whole_FormatInt z : parse_whole (FormatInt z) = Some z.
Proof.
  destruct (FormatInt_cases z) as [->|(neg & d & Hn & _ & -> & ->)]; [done|]. destruct neg; cbn -[Z.mul].
  - change (((λ d, - Z.of_N (N.of_uint d)) <$> NilEmpty.uint_of_string (NilEmpty.string_of_uint d)) = Some (-1 * Z.of_N (N.of_uint d))).
    rewrite NilEmpty.usu. done.
  - pose proof (uint_of_digit_first d) as Hd.
    destruct (NilEmpty.string_of_uint d) as [|c s] eqn:Hs; [by destruct d|].
    assert (NilEmpty.uint_of_string (String c s) = Some d) as Hu by (rewrite <- Hs; apply NilEmpty.usu).
    specialize (Hd c s eq_refl).
    assert (parse_whole (String c s) = (λ d, Z.of_N (N.of_uint d)) <$> NilEmpty.uint_of_string (String c s)) as Hp
      by by destruct c as [[] [] [] [] [] [] [] []].
    rewrite Z.mul_1_l. change ("" +:+ String c s) with (String c s). by rewrite Hp, Hu.
Qed.

#[export] Instance QL : QuantityLaws.
Proof.
  split. intros q. exists q. cbn. rewrite parse_whole_FormatInt. split; [done|]. split; [|done].
  by rewrite Z.sub_diag.
Defined.

(** The sample revision becomes a spec that says what it does. *)
Lemma accepted_renders_witness :
  ∃ spec, specOf "agent:1" (received desired_revision assignment) = Ok spec ∧ renders "agent:1" desired_revision assignment spec.
Proof.
  pose proof (accepted_renders "agent:1" desired_revision assignment eq_refl eq_refl) as H.
  destruct (specOf "agent:1" (received desired_revision assignment)) as [spec|err] eqn:Hs.
  - exists spec. split; [reflexivity|apply H].
  - vm_compute in Hs. discriminate.
Defined.
End FeedSamples.
