(* ===== verification/PostgresColumns.v ===== *)
(** What the repository over PostgreSQL keeps of a value in a column of [jsonb], it reads back: a configuration, the
    settings of a profile and an operator's images, whatever order the database gives a document's members in. *)
From S2P Require Import Prelude GoStd Json JsonText JsonRound Errors Types Validation Repository Distribution FeedWire Sql Postgres SqlSpec PostgresSpec.
Import GoStd Json JsonText JsonRound Distribution FeedWire Sql Postgres SqlSpec PostgresSpec.

Module PostgresColumns.

(** ** Documents alike but for the order of their members *)
Inductive same_document : json → json → Prop :=
| same_value j : same_document j j
| same_array l l' : Forall2 same_document l l' → same_document (JArray l) (JArray l')
| same_object ms ms1 ms' : ms ≡ₚ ms1 → Forall2 (λ m m', m.1 = m'.1 ∧ same_document m.2 m'.2) ms1 ms' →
  same_document (JObject ms) (JObject ms').

(** No object with two members of one name. *)
Fixpoint distinct (j : json) : Prop :=
  match j with
  | JArray l => (fix all l := match l with [] => True | j :: l => distinct j ∧ all l end) l
  | JObject ms => NoDup ms.*1 ∧ (fix all ms := match ms with [] => True | (_, j) :: ms => distinct j ∧ all ms end) ms
  | _ => True
  end.
Lemma distinct_JObject ms : distinct (JObject ms) ↔ NoDup ms.*1 ∧ Forall (λ m, distinct m.2) ms.
Proof.
  cbn [distinct]. apply and_iff_compat_l. induction ms as [|[k j] ms IH]; [done|]. by rewrite Forall_cons, <- IH.
Qed.
Lemma distinct_JArray l : distinct (JArray l) ↔ Forall distinct l.
Proof. cbn [distinct]. induction l as [|j l IH]; [done|]. by rewrite Forall_cons, <- IH. Qed.

#[local] Arguments distinct : simpl never.

(** What PostgreSQL documents of [jsonb]: a document of text and integers whose members have distinct names is given back
    the same, its members in an order of the database's. *)
Class JsonbLaws `{DB : Database} : Prop :=
  jsonb_document v j : printed v → distinct v → jsonb_in (Marshal v) = Some j →
  ∃ v', parse (jsonb_out j) = Some v' ∧ same_document v v'.

(** An object's members in their own order again. *)
Lemma same_members ms v : same_document (JObject ms) v → ∃ ms' ms1, v = JObject ms' ∧ ms1 ≡ₚ ms' ∧
  Forall2 (λ m m', m.1 = m'.1 ∧ same_document m.2 m'.2) ms ms1.
Proof.
  intros Hs. inversion Hs as [|?|? ms1 ms' Hp Hall]; subst.
  - exists ms, ms. split_and!; [done|done|]. apply Forall_Forall2_diag, Forall_forall. intros m _. split; [done|constructor].
  - destruct (Permutation_Forall2 (Permutation_sym Hp) Hall) as (ms2 & Hp2 & Hall2). by exists ms', ms2.
Qed.
Lemma same_string s v : same_document (JString s) v → v = JString s.
Proof. intros Hs. by inversion Hs. Qed.
Lemma same_elements l v : same_document (JArray l) v → ∃ l', v = JArray l' ∧ Forall2 same_document l l'.
Proof.
  intros Hs. inversion Hs; subst; [|by eauto]. exists l. split; [done|].
  apply Forall_Forall2_diag, Forall_forall. intros j _. constructor.
Qed.
Lemma same_keys ms ms1 : Forall2 (λ m m' : string * json, m.1 = m'.1 ∧ same_document m.2 m'.2) ms ms1 → ms1.*1 = ms.*1.
Proof. induction 1 as [|[k j] [k' j'] ms ms1 [Hk _] _ IH]; [done|]. cbn in *. by subst; f_equal. Qed.

(** ** A struct read from its members in any order *)
Section order.
Context {T} (strict : bool) (fields : list (field T)).

(** Members of two names, read in either order. *)
Definition commute (keys : list string) : Prop := ∀ a b, a.1 ∈ keys → b.1 ∈ keys → a.1 ≠ b.1 → ∀ t,
  member strict fields (member strict fields (Some t) a) b = member strict fields (member strict fields (Some t) b) a.

Lemma members_order keys ms ms' t : commute keys → NoDup ms.*1 → (∀ m, m ∈ ms → m.1 ∈ keys) → ms ≡ₚ ms' →
  foldl (member strict fields) t ms = foldl (member strict fields) t ms'.
Proof.
  intros Hc Hn Hk Hp. revert t Hn Hk. induction Hp as [|a ms ms' Hp IH|a b ms|ms1 ms2 ms3 H1 IH1 H2 IH2]; intros t Hn Hk; [done| | |].
  - cbn in *. apply NoDup_cons in Hn as [_ Hn]. apply IH; [done|]. intros m Hm. apply Hk. by right.
  - cbn. f_equal. destruct t as [t|]; [|done]. cbn in Hn. apply NoDup_cons in Hn as [Hne _]. apply Hc; [apply Hk; by left|apply Hk; right; by left|].
    intros He. apply Hne. rewrite He. by left.
  - rewrite IH1 by done. apply IH2; [by rewrite <- H1|]. intros m Hm. apply Hk. by rewrite H1.
Qed.
End order.

(** The same of a struct's document. *)
Lemma into_struct_same {T} strict (fields : list (field T)) keys ms v t :
  same_document (JObject ms) v → commute strict fields keys → NoDup ms.*1 → (∀ m, m ∈ ms → m.1 ∈ keys) →
  ∃ ms1, Forall2 (λ m m', m.1 = m'.1 ∧ same_document m.2 m'.2) ms ms1 ∧
    into_struct strict fields v t = into_struct strict fields (JObject ms1) t.
Proof.
  intros (ms' & ms1 & -> & Hp & Hall)%same_members Hc Hn Hk. exists ms1. split; [done|]. cbn [into_struct].
  pose proof (same_keys _ _ Hall) as He. symmetry. apply (members_order _ _ keys); [done|by rewrite He| |done].
  intros m Hm. assert (m.1 ∈ ms.*1) as [m' [-> Hm']]%list_elem_of_fmap by (rewrite <- He; by apply list_elem_of_fmap_2). by apply Hk.
Qed.

(** Decides the fields two names are, and reads the two members in both orders. *)
Ltac commutes :=
  intros [a ja] [b jb]; cbn [fst]; intros Ha Hb Hab t; set_unfold; destruct_or?; subst; try done; clear Hab;
  destruct t; unfold member; eval_names;
  match goal with |- (_ <$> ?x) ≫= _ = (_ <$> ?y) ≫= _ =>
    destruct x eqn:Hx, y eqn:Hy; cbn; rewrite ?Hx, ?Hy; done
  end.

Lemma embedding_commutes : commute false embeddingColumn_fields ["baseURL"; "name"; "apiKeyRef"].
Proof. commutes. Qed.
Lemma config_commutes :
  commute false configColumn_fields ["provider"; "baseURL"; "modelName"; "apiKeyRef"; "ego"; "tools"; "embedding"].
Proof. commutes. Qed.
Lemma image_commutes : commute false imageColumn_fields ["name"; "ref"; "digest"].
Proof. commutes. Qed.

(** ** The columns *)
Lemma same_map m v : same_document (string_map_json m) v → into_map v ∅ = Some m.
Proof.
  intros (ms' & ms1 & -> & Hp & Hall)%same_members.
  assert (ms1 = (λ kv : string * string, (kv.1, JString kv.2)) <$>
    merge_sort (λ a b : string * string, Is_true (String.leb a.1 b.1)) (map_to_list m)) as ->.
  { clear Hp. induction (merge_sort _ _) as [|kv l IH] in ms1, Hall |- *; inversion Hall as [|? [k j] ? l' [Hk Hj] Hl]; subst; [done|].
    cbn in *. apply same_string in Hj. subst. f_equal. by apply IH. }
  apply Permutation_sym, Permutation_map_inv in Hp as (l & -> & Hp). apply into_map_members.
  rewrite <- Hp. apply merge_sort_Permutation.
Qed.

(** A struct's members one by one, each the one written. *)
Ltac same_members Hall :=
  repeat match type of Hall with
  | Forall2 _ (_ :: _) _ => let k := fresh "k" in let j := fresh "j" in let Hk := fresh "Hk" in let Hj := fresh "Hj" in
      let Hl := fresh "Hl" in
      inversion Hall as [|? [k j] ? ? [Hk Hj] Hl]; clear Hall; rename Hl into Hall; cbn [fst snd] in Hk, Hj; subst;
      try (apply same_string in Hj; subst j)
  | Forall2 _ [] _ => inversion Hall; clear Hall; subst
  end.
(** A struct's document read as the one written, its members in their order. *)
Ltac same_struct keys commutes_ t Hall :=
  match goal with Hs : same_document (JObject ?ms) ?v |- context [into_struct ?strict ?fields ?v _] =>
    destruct (into_struct_same strict fields keys ms v t Hs commutes_) as (?ms1 & Hall & ->);
    [cbn; repeat (apply NoDup_cons; split; [set_solver|]); apply NoDup_nil_2|intros m Hm; set_unfold; naive_solver|]
  end.

Lemma embedding_kept e v t : same_document (embeddingColumn_json e) v →
  into_struct false embeddingColumn_fields v t = Some e.
Proof.
  intros Hs. unfold embeddingColumn_json in Hs. same_struct ["baseURL"; "name"; "apiKeyRef"] embedding_commutes t Hall.
  same_members Hall. destruct e. by repeat read_member.
Qed.

Lemma config_read c v : same_document (configColumn_json c) v →
  into_struct false configColumn_fields v zeroConfigColumn = Some c.
Proof.
  intros Hs. unfold configColumn_json in Hs. destruct c as [p b n k ego tools e]. cbn [configColumn_Provider configColumn_BaseURL
    configColumn_ModelName configColumn_APIKeyRef configColumn_Ego configColumn_Tools configColumn_Embedding] in Hs.
  destruct e as [e|]; cbn [fmap option_fmap option_map optional app] in Hs;
    same_struct ["provider"; "baseURL"; "modelName"; "apiKeyRef"; "ego"; "tools"; "embedding"] config_commutes zeroConfigColumn Hall;
    same_members Hall; repeat read_member; erewrite same_map by eassumption; cbn [fmap option_fmap option_map]; repeat read_member; [|done].
  match goal with H : same_document (embeddingColumn_json _) ?j |- _ =>
    rewrite (into_pointer_Some _ _ j _ e); [done|intros ->; inversion H|by apply embedding_kept] end.
Qed.

Lemma image_kept i v t : OperatorImage_Digest t = None → same_document (imageColumn_json i) v →
  into_struct false imageColumn_fields v t = Some i.
Proof.
  intros Ht Hs. unfold imageColumn_json in Hs. destruct i as [n r d]. cbn in Hs. destruct d as [d|]; cbn [fmap option_fmap option_map optional app] in Hs;
    same_struct ["name"; "ref"; "digest"] image_commutes t Hall; same_members Hall; repeat read_member; [done|].
  cbn. by rewrite Ht.
Qed.

Section kept.
Context `{K8s : Kubernetes, RJ : !ResourcesJSON, QJ : !QuantityJSON, WL : !WireLaws, DB : Database, JL : !JsonbLaws}.

Lemma distinct_map m : distinct (string_map_json m).
Proof.
  apply distinct_JObject. split.
  - assert (∀ l : list (string * string), ((λ kv, (kv.1, JString kv.2)) <$> l).*1 = l.*1) as -> by
      (intros l; induction l as [|kv l IH]; [done|cbn in *; by f_equal]).
    rewrite merge_sort_Permutation. apply NoDup_fst_map_to_list.
  - by apply Forall_fmap, Forall_forall.
Qed.

(** An object's members of distinct names, one by one. *)
Ltac distinct_members := apply distinct_JObject; split;
  [cbn; repeat (apply NoDup_cons; split; [set_solver|]); apply NoDup_nil_2|cbn [app]; repeat first [apply Forall_nil_2|apply Forall_cons_2; [cbn [snd]; try done|]]].

Lemma config_document c : text_configuration c →
  printed (configColumn_json (column_of c)) ∧ distinct (configColumn_json (column_of c)).
Proof.
  intros (? & ? & ? & ? & He & ? & ?). unfold column_of, configColumn_json. cbn. destruct (Model_Embedding (Configuration_Model c)) as [e|];
    cbn [fmap option_fmap option_map optional].
  - destruct (He e eq_refl) as (? & ? & ?). split.
    + exists 3%nat. split; [|done]. print_members; first [done|by apply string_map_printable|unfold embeddingColumn_json; by print_members].
    + distinct_members; first [apply distinct_map|unfold embeddingColumn_json; by distinct_members].
  - split; [exists 3%nat; split; [|done]; print_members; first [done|by apply string_map_printable]|].
    distinct_members. apply distinct_map.
Qed.
Lemma configuration_kept malformed c : text_configuration c → config_kept malformed c.
Proof.
  intros [Hp Hd]%config_document j Hj. destruct (jsonb_document _ _ Hp Hd Hj) as (v & Hv & Hs).
  unfold config_is, decodeConfig, Unmarshal. rewrite Hv. cbn [mbind option_bind]. rewrite (config_read _ _ Hs).
  by destruct c as [[? ? ? ? [[]|]] ? ?].
Qed.

(** Texts of an operator's image, and the images of a report. *)
Definition text_image (i : OperatorImage) : Prop :=
  text (OperatorImage_Name i) ∧ text (OperatorImage_Ref i) ∧ ∀ d, OperatorImage_Digest i = Some d → text d.
Lemma image_document i : text_image i → printable 1 (imageColumn_json i) ∧ distinct (imageColumn_json i).
Proof.
  intros (? & ? & Hd). unfold imageColumn_json. destruct (OperatorImage_Digest i) as [d|]; cbn [fmap option_fmap option_map optional];
    (split; [print_members; try done; by apply Hd|by distinct_members]).
Qed.
Lemma images_same images l : Forall2 same_document (imageColumn_json <$> images) l →
  into_elements (mkOperatorImage "" "" None) (into_struct false imageColumn_fields) l [] = Some images.
Proof.
  revert l. induction images as [|i images IH]; intros l Hl; inversion Hl as [|? j ? l' Hj Hl']; subst; [done|].
  cbn [into_elements head tail default]. rewrite (image_kept i) by done. cbn [mbind option_bind]. by rewrite IH.
Qed.
Lemma operator_images_kept images : Forall text_image images → images_kept images.
Proof.
  intros Hi j Hj.
  assert (Forall (λ i, printable 1 (imageColumn_json i) ∧ distinct (imageColumn_json i)) images) as Hd
    by (eapply Forall_impl; [exact Hi|apply image_document]).
  destruct (jsonb_document (JArray (imageColumn_json <$> images)) j) as (v & Hv & Hs).
  - exists 2%nat. split; [|done]. apply printable_JArray. exists 1%nat. split; [done|]. apply Forall_fmap. by eapply Forall_impl; [exact Hd|intros ? []].
  - apply distinct_JArray, Forall_fmap. by eapply Forall_impl; [exact Hd|intros ? []].
  - done.
  - unfold images_is, Unmarshal. rewrite Hv. cbn [mbind option_bind]. apply same_elements in Hs as (l & -> & Hl). by apply images_same.
Qed.

(** Settings of which Kubernetes reads back each part as it prints it: a quantity in its canonical form, and resource
requirements of such. *)
Definition quantity_kept (q : Quantity) : Prop := ∀ q0, into_quantity (JString (Quantity_String q)) q0 = Some q.
Definition resources_kept (r : ResourceRequirements) : Prop :=
  distinct (resources_json r) ∧ ∀ j, same_document (resources_json r) j → into_resources j (mkResourceRequirements ∅ ∅ []) = Some r.
Definition canonical (s : ExecutionSettings) : Prop :=
  resources_kept (Settings_Resources s) ∧ quantity_kept (Settings_StorageSize s) ∧
  (∀ class, Settings_StorageClassName s = Some class → text class) ∧
  ∀ q, Settings_WorkspaceStorageSize s = Some q → quantity_kept q.

Lemma into_pointer_string str t : into_pointer "" into_string (JString str) t = Some (Some str).
Proof. done. Qed.
Lemma settings_commutes :
  commute false settingsColumn_fields ["resources"; "storageSize"; "storageClassName"; "workspaceStorageSize"].
Proof. commutes. Qed.
Lemma settings_document s : canonical s → printed (settingsColumn_json s) ∧ distinct (settingsColumn_json s).
Proof.
  intros ([Hr _] & _ & Hc & _). unfold settingsColumn_json.
  destruct (Settings_StorageClassName s) as [class|], (Settings_WorkspaceStorageSize s) as [q|]; cbn [fmap option_fmap option_map optional app];
    (split; [exists 9%nat; split; [|done]; print_members; first [apply resources_printable|apply quantity_text|by apply Hc]|by distinct_members]).
Qed.
Lemma settings_read s v : canonical s → same_document (settingsColumn_json s) v →
  into_struct false settingsColumn_fields v zeroSettings = Some s.
Proof.
  intros ([_ Hr] & Hq & _ & Hw) Hs. destruct s as [r q class w]. unfold settingsColumn_json in Hs.
  cbn [Settings_Resources Settings_StorageSize Settings_StorageClassName Settings_WorkspaceStorageSize] in *.
  destruct class as [class|], w as [w|]; cbn [fmap option_fmap option_map optional app] in Hs;
    same_struct ["resources"; "storageSize"; "storageClassName"; "workspaceStorageSize"] settings_commutes zeroSettings Hall;
    same_members Hall; read_member; rewrite Hr by done; cbn [fmap option_fmap option_map]; read_member; rewrite Hq;
    cbn [fmap option_fmap option_map]; try done;
    repeat (read_member; first [rewrite into_pointer_string|rewrite (into_pointer_Some _ _ _ _ w); [|done|by apply Hw]];
    cbn [fmap option_fmap option_map]); by read_member.
Qed.
Lemma canonical_kept s : canonical s → settings_kept s.
Proof.
  intros Hs j Hj. destruct (settings_document s Hs) as [Hp Hd]. destruct (jsonb_document _ _ Hp Hd Hj) as (v & Hv & Hv').
  unfold settings_is, decodeSettings, Unmarshal. rewrite Hv. cbn [mbind option_bind]. by apply settings_read.
Qed.

(** C7: what a column of [jsonb] is written from, it reads back, whatever order the database keeps a document's members in: a
configuration whose strings are well-formed text, with its tools and its embedding; an operator's images of such text, in
their order; and a profile's settings whose storage class is such text, and whose quantities and resource requirements
are ones Kubernetes itself reads back as it prints them. *)
Theorem columns_read_back :
  (∀ malformed c, text_configuration c → config_kept malformed c) ∧
  (∀ images, Forall text_image images → images_kept images) ∧
  (∀ s, canonical s → settings_kept s).
Proof.
  split; [exact configuration_kept|]. split; [exact operator_images_kept|exact canonical_kept].
Qed.
End kept.
End PostgresColumns.
