(* ===== verification/PostgresStore.v ===== *)
(** The repository over PostgreSQL refines the store in memory, call by call and over every client of it whose calls are
    ones the service may make, whatever of its calls the driver fails, with the agents' locks held on its server; first, that the page of a controller's feed is the one of the store in memory; then the
    theorems on a concrete database; last, two registrations of placements that race. *)
From S2P Require Import Prelude GoStd Json JsonText Errors Types Validation Repository Memory MemoryInvariant Feed Service Distribution Sql Postgres SqlSpec PostgresSpec PostgresRefine PostgresRecords PostgresDefinitions PostgresLifecycle Samples FeedSamples JsonRound FeedWire PostgresColumns.

Import Validation MemoryInvariant Feed Distribution Sql Postgres SqlSpec PostgresSpec PostgresRefine PostgresLists PostgresRecords PostgresDefinitions PostgresStops PostgresRecoveries.

Module PostgresFeed.

Section feed.
Context `{K8s : Kubernetes, RJ : !ResourcesJSON, QJ : !QuantityJSON, SE : !SemanticEquality, DB : Database, DL : !DatabaseLaws}.
Context (malformed : string → string).
Implicit Types (t b : tables) (m : Memory.mem).
Abbreviation holds := (holds malformed).
Abbreviation called := (called malformed).
Abbreviation revisions m agent := (Memory.slice (Memory.definitions m) agent).

(** A latest revision's one row of the feed. *)
Definition feed_row m t (agent : string) revision (d : definitionRow) (p : profileRow) : desiredRow :=
  mkDesiredRow agent revision d (jsonb_out (definition_config d)) (definition_assignment_epoch d) (jsonb_out (profile_settings p))
  (agent_stopped t agent) ((λ o, (OpenRecovery_RequestID o, OpenRecovery_Epoch o)) <$> Memory.open_recovery_locked agent m).
Lemma joined_one t m n (agent : string) revision d p : wf m → holds t m n →
  profiles t !! (definition_organization d, definition_profile_name d, definition_profile_version d) = Some p →
  desired_joined t ((agent, revision), d) = [feed_row m t agent revision d p].
Proof.
  intros Hwf Ht Hp. unfold desired_joined. rewrite Hp. pose proof (open_rows malformed t m n agent Hwf Ht) as Ho.
  destruct (open_recoveries t agent) as [|kr rest]; destruct (Memory.open_recovery_locked agent m) as [o|] eqn:Hopen; cbn in Ho; try done;
    unfold feed_row; rewrite Hopen; [done|]. injection Ho as Hid Hep Hnil. apply fmap_nil_inv in Hnil as ->. cbn. by rewrite Hid, Hep.
Qed.

(** A row of the feed and what is owed, of one agent. *)
Definition feed_read m t operator (row : desiredRow) (o : Memory.owed) : Prop :=
  owed_by m operator (desired_agent row) o ∧ scanDesired malformed operator row = Ok (Memory.owed_revision o) ∧
  definitions t !! (desired_agent row, desired_revision row) = Some (desired_definition row) ∧
  version_of (Memory.slice (Memory.positions m) (desired_agent row)) (desired_revision row) = Some (Memory.owed_position o).
Definition feed_rows t operator : list desiredRow :=
  rows (λ k d, bool_decide (definition_assignment_operator d = Some operator) &&
    bool_decide (latest_revision t k.1 = Some k.2)) (definitions t) ≫= desired_joined t.

(** The rows of what is owed to an agent. *)
Lemma feed_row_of t m n operator (agent : string) revision d : wf m → holds t m n → definitions t !! (agent, revision) = Some d →
  definition_assignment_operator d = Some operator → latest_revision t agent = Some revision →
  ∃ p o, desired_joined t ((agent, revision), d) = [feed_row m t agent revision d p] ∧ feed_read m t operator (feed_row m t agent revision d p) o.
Proof.
  intros Hwf Ht Hd Hop Hlatest. destruct (definition_of _ _ _ _ _ _ _ Ht Hd) as (def & Hdef & Horg & Hpn & Hpv & Hcfg & Has).
  rewrite (revision_latest _ _ _ _ _ Ht) in Hlatest.
  assert (revision = Z.of_nat (length (revisions m agent))) as Hrev by (destruct (revisions m agent); [done|]; by injection Hlatest as <-).
  pose proof Hdef as [? Hi]%version_of_Some. destruct (proj2 (wf_definitions _ Hwf) _ _ _ Hi) as (Hag & Hnum & [profile Hprofile] & _).
  pose proof (h_profiles _ _ _ _ Ht (Definition_Organization def) (ProfileRef_Name (Definition_Profile def)) (ProfileRef_Version (Definition_Profile def))) as Hp.
  unfold version_of in Hp. rewrite Hprofile in Hp. destruct (option_Forall2_Some_r _ _ _ Hp) as (p & Hrow & Hset).
  rewrite <- Horg, <- Hpn, <- Hpv in Hrow. rewrite Hop in Has.
  destruct (Definition_Assignment def) as [a|] eqn:Hass; [|done]. cbn in Has. injection Has as -> Hep.
  destruct (wf_positions _ Hwf) as (_ & Hlen & _). specialize (Hlen agent). unfold GRN in *.
  destruct (lookup_lt_is_Some_2 (Memory.slice (Memory.positions m) agent) (length (revisions m agent) - 1)) as [pos Hpos].
  { unfold GRN in *. rewrite Hlen. lia. }
  destruct (slice_lookup _ _ _ _ Hi) as (l & Hl & _). pose proof (slice_Some _ _ _ Hl) as Hsl. unfold GRN in *.
  assert (Z.to_nat (revision - 1) = (length l - 1)%nat) as Hidx by (rewrite Hrev, Hsl; lia).
  rewrite Hidx, Hsl in Hi. rewrite Hsl in Hpos.
  exists p, (Memory.mkOwed (mkDesiredRevision def (Profile_Settings profile)
    (bool_decide (Memory.current_stop_locked agent m ≠ None)) (Memory.open_recovery_locked agent m)) pos).
  split; [by eapply joined_one|]. split_and!.
  - exists l, def, a, profile, pos. split_and!; try done. rewrite last_lookup. by replace (pred (length l)) with (length l - 1)%nat by lia.
  - unfold scanDesired. cbn [desired_config desired_settings desired_definition desired_agent desired_revision desired_epoch
      desired_stopped desired_recovery feed_row]. unfold config_is in Hcfg. rewrite Hcfg. cbn [mbind result_bind].
    unfold profile_row, settings_is in Hset. rewrite Hset. cbn [mbind result_bind Memory.owed_revision].
    rewrite (stopped_row malformed _ _ _ _ Hwf Ht), Hep, Horg, Hpn, Hpv. cbn [default].
    do 2 f_equal; [|by destruct (Memory.open_recovery_locked agent m) as [[]|]].
    destruct def as [? ? ? [] ? ?]. cbn in *. subst. f_equal; [lia|by destruct a].
  - exact Hd.
  - cbn. apply version_of_Some. split; [lia|]. unfold GRN in *. by rewrite Hidx.
Qed.

Lemma bind_keys {A B K} (f : A → list B) (key : B → K) (h : A → K) l :
  (∀ x, x ∈ l → key <$> f x = [h x]) → key <$> (l ≫= f) = h <$> l.
Proof.
  induction l as [|x l IH]; [done|]. intros Hf. cbn. rewrite fmap_app, Hf by by left. cbn. f_equal. apply IH. intros y Hy. apply Hf. by right.
Qed.
Lemma elem_of_feed_rows t operator row : row ∈ feed_rows t operator ↔ ∃ (agent : string) revision d,
  definitions t !! (agent, revision) = Some d ∧ definition_assignment_operator d = Some operator ∧
  latest_revision t agent = Some revision ∧ row ∈ desired_joined t ((agent, revision), d).
Proof.
  unfold feed_rows. rewrite list_elem_of_bind. split.
  - intros ([[agent revision] d] & Hrow & [Hp Hd]%elem_of_rows). apply andb_prop in Hp as [Hop%bool_decide_eq_true Hl%bool_decide_eq_true]. eauto 8.
  - intros (agent & revision & d & Hd & Hop & Hl & Hrow). exists ((agent, revision), d). split; [done|]. apply elem_of_rows. cbn.
    by rewrite !bool_decide_true.
Qed.

Lemma owed_definition m operator agent o : wf m → owed_by m operator agent o →
  Definition_Agent (Desired_Definition (Memory.owed_revision o)) = agent.
Proof.
  intros Hwf (revs & d & a & profile & pos & Hrevs & Hlast & _ & _ & _ & _ & ->). cbn.
  pose proof (last_lookup_Some _ _ Hlast) as Hd. rewrite <- (slice_Some _ _ _ Hrevs) in Hd. by apply (proj2 (wf_definitions _ Hwf) _ _ _ Hd).
Qed.
Lemma owed_unique m operator agent o o' : owed_by m operator agent o → owed_by m operator agent o' → o = o'.
Proof.
  intros (revs & d & a & profile & pos & Hrevs & Hlast & Ha & _ & Hp & Hpos & ->) (revs' & d' & a' & profile' & pos' & Hrevs' & Hlast' & Ha' & _ & Hp' & Hpos' & ->).
  rewrite Hrevs in Hrevs'. injection Hrevs' as <-. rewrite Hlast in Hlast'. injection Hlast' as <-. rewrite Hpos in Hpos'. injection Hpos' as <-.
  rewrite Hp in Hp'. by injection Hp' as <-.
Qed.
Lemma feed_row_at t m n operator (agent : string) o : wf m → holds t m n → owed_by m operator agent o →
  ∃ row, row ∈ feed_rows t operator ∧ desired_agent row = agent.
Proof.
  intros Hwf Ht (revs & d & a & profile & pos & Hrevs & Hlast & Ha & Hop & _).
  pose proof (last_lookup_Some _ _ Hlast) as Hd. pose proof (slice_Some _ _ _ Hrevs) as Hsl.
  assert (length revs ≠ 0%nat) as Hne by (by destruct revs).
  destruct (definition_at malformed t m n agent (Z.of_nat (length revs)) d Ht) as (r & Hr & Horg & Hpn & Hpv & Hcfg & Has).
  { apply version_of_Some. split; [lia|]. rewrite_at Hsl. by replace (Z.to_nat (Z.of_nat (length revs) - 1)) with (length revs - 1)%nat by lia. }
  assert (definition_assignment_operator r = Some operator) as Hopr by (rewrite Ha in Has; cbn in Has; injection Has as Ho1 _; by rewrite Ho1, Hop).
  assert (latest_revision t agent = Some (Z.of_nat (length revs))) as Hl.
  { rewrite (revision_latest _ _ _ _ _ Ht). rewrite_at Hsl. by destruct revs. }
  destruct (feed_row_of t m n operator agent _ r Hwf Ht Hr Hopr Hl) as (p & o' & Hj & _).
  eexists. split; [apply elem_of_feed_rows; exists agent, (Z.of_nat (length revs)), r; split_and!; try done; rewrite Hj; by left|done].
Qed.

#[local] Instance position_trans : Transitive (λ x y, Is_true (bool_decide (desired_position x ≤ desired_position y))).
Proof. intros a b c. rewrite !bool_decide_spec. lia. Qed.
#[local] Instance position_total : Total (λ x y, Is_true (bool_decide (desired_position x ≤ desired_position y))).
Proof. intros a b. rewrite !bool_decide_spec. lia. Qed.
#[local] Instance owed_trans : Transitive Memory.owed_le.
Proof. intros a b c. unfold Memory.owed_le. lia. Qed.
#[local] Instance owed_total : Total Memory.owed_le.
Proof. intros a b. unfold Memory.owed_le. lia. Qed.

Lemma feed_matched t m n operator found : wf m → holds t m n →
  (∀ o, o ∈ found ↔ ∃ agent, owed_by m operator agent o) → NoDup (Memory.owed_position <$> found) →
  Forall2 (feed_read m t operator) (merge_sort (λ x y, Is_true (bool_decide (desired_position x ≤ desired_position y))) (feed_rows t operator))
  (merge_sort Memory.owed_le found).
Proof.
  intros Hwf Ht Hfound Hnd.
  apply (keyed_matched _ _ _ desired_agent (λ o, Definition_Agent (Desired_Definition (Memory.owed_revision o)))).
  - intros row o (Hby & _). symmetry. by eapply owed_definition.
  - intros row o row' o' (_ & _ & Hd & Hp) (_ & _ & Hd' & Hp') Hle%bool_decide_spec. unfold Memory.owed_le.
    destruct (decide (Memory.owed_position o ≤ Memory.owed_position o')) as [|Hgt]; [done|].
    pose proof (h_order _ _ _ _ Ht _ _ _ _ _ _ _ _ Hp' Hp Hd' Hd). unfold desired_position in Hle. lia.
  - intros o o' Ho Ho' Hle Hge. unfold Memory.owed_le in *.
    by rewrite (NoDup_key Memory.owed_position found o o' Hnd Ho Ho') by lia.
  - unfold feed_rows. rewrite (bind_keys _ _ (λ kr, kr.1.1)).
    + apply NoDup_rows_key. intros [a v] r [a' v'] r' _ _ [_ Hl]%andb_prop [_ Hl']%andb_prop Heq. apply bool_decide_eq_true in Hl, Hl'. cbn in *. subst. congruence.
    + intros [[agent revision] d] [[Hop Hl]%andb_prop Hd]%elem_of_rows. apply bool_decide_eq_true in Hop, Hl. cbn in Hl.
      by destruct (feed_row_of t m n operator agent revision d Hwf Ht Hd Hop Hl) as (p & o & -> & _).
  - apply NoDup_fmap_2_strong; [|by eapply NoDup_fmap_1]. intros o o' [a Ho]%Hfound [a' Ho']%Hfound Heq.
    rewrite (owed_definition _ _ _ _ Hwf Ho), (owed_definition _ _ _ _ Hwf Ho') in Heq. subst. by eapply owed_unique.
  - intros row (agent & revision & d & Hd & Hop & Hl & Hrow)%elem_of_feed_rows.
    destruct (feed_row_of t m n operator agent revision d Hwf Ht Hd Hop Hl) as (p & o & Hj & Hread). rewrite Hj in Hrow.
    apply list_elem_of_singleton in Hrow as ->. exists o. split; [|done]. apply Hfound. eexists. apply Hread.
  - intros o [agent Ho]%Hfound. destruct (feed_row_at _ _ _ _ _ _ Hwf Ht Ho) as (row & Hrow & Hag). exists row. split; [done|].
    by rewrite (owed_definition _ _ _ _ Hwf Ho).
Qed.

Lemma scanRevisions_read m t operator rows os : Forall2 (feed_read m t operator) rows os →
  scanRevisions malformed operator rows = Ok (Memory.owed_revision <$> os).
Proof. induction 1 as [|row o rows os (_ & Hs & _) _ IH]; [done|]. cbn [scanRevisions]. rewrite Hs. cbn [mbind result_bind]. by rewrite IH. Qed.
Lemma call_Desired operator limit b m n : wf m → holds b m n → 0 ≤ limit →
  wp (Desired malformed operator limit) (called (Repository.Desired operator limit) (mkDatabase b [] n) m) (mkDatabase b [] n).
Proof.
  intros Hwf Hb Hlimit. unfold Desired. set (e := Repository.Desired operator limit).
  apply (call_transaction malformed e b m n Hb (storeError "desired") (λ x, x)); [auto with opaque|].
  destruct (desired_found operator limit m Hwf Hlimit) as (found & Hpage & Hfound & Hnd).
  unfold body_error, PostgresRefine.commits. cbn [Memory.handle e]. rewrite Hpage.
  apply body_query_row; [by left|]. cbn beta iota delta [getPosition select].
  apply body_exec; [by left|]. unfold desired. rewrite bool_decide_false by lia. fold (feed_rows b operator).
  apply body_lift. pose proof (feed_matched b m n operator found Hwf Hb Hfound Hnd) as Hm.
  rewrite (scanRevisions_read m b operator _ (take (Z.to_nat limit) (merge_sort Memory.owed_le found))) by by apply Forall2_take.
  apply body_ok. split; [constructor|]. by split; [apply holds_next|].
Qed.
End feed.
End PostgresFeed.

Import Json JsonText Validation MemoryInvariant Distribution Sql Postgres SqlSpec PostgresSpec PostgresRefine PostgresLists PostgresRecords PostgresDefinitions PostgresPlacements PostgresStops PostgresRecoveries PostgresFeed.

Module PostgresStore.

Section store.
Context `{K8s : Kubernetes, RJ : !ResourcesJSON, QJ : !QuantityJSON, SE : !SemanticEquality, DB : Database, DL : !DatabaseLaws}.
Context (malformed : string → string) (hashtextextended : string → Z).
Implicit Types (s : server) (m : Memory.mem).

(** The schema as migrated holds the new store. *)
Lemma holds_schema n : holds malformed schema Memory.NewMemory n.
Proof.
  assert (∀ A v, version_of (@nil A) v = None) as Hnil.
  { intros A v. unfold version_of, Memory.index. by case_bool_decide. }
  split; cbn; try done; unfold Memory.slice, Memory.agent_placements, Memory.agent_activations; cbn.
  all: intros; rewrite ?lookup_empty in *; cbn in *; rewrite ?lookup_empty, ?Hnil in *; try done; try constructor.
  all: by rewrite ?fmap_empty.
Qed.

(** ** The agents' locks *)

(** What a call leaves of the advisory locks held: [Lock] takes the agent's, which nobody held, where it answers well;
[Unlock] gives it back, or fails to where a call may fail; and no other call takes or gives one back. *)
Definition locked {X} (e : repoE X) (held : gset Z) : X → gset Z → Prop :=
  match e in repoE X return X → gset Z → Prop with
  | Repository.Lock agent => λ x held',
    match x with
    | Ok _ => agentKey hashtextextended agent ∉ held ∧ held' = {[agentKey hashtextextended agent]} ∪ held
    | Err _ => held' = held
    end
  | Repository.Unlock agent => λ _ held', held' = held ∖ {[agentKey hashtextextended agent]} ∨ may_fail ∧ held' = held
  | _ => λ _ held', held' = held
  end.
(** A call's end on the server: of the tables as [called] says, and of the locks as [locked]. *)
Definition answered {X} (e : repoE X) (s : server) m (x : X) (s' : server) : Prop :=
  called malformed e (data s) m x (data s') ∧ locked e (advisory s) x (advisory s').

Lemma call_same X (e : repoE X) x (d : database) m :
  Memory.handle _ e m = (x, m) → related malformed d m → called malformed e d m x d.
Proof. intros He Hr. unfold called. rewrite He. split; [done|]. left. by split; [apply agree_same|]. Qed.
Lemma call_failed X (e : repoE (result X)) text x (d : database) m : Fallible e → may_fail →
  Memory.handle _ e m = (x, m) → related malformed d m → called malformed e d m (Err (Errorf text)) d.
Proof.
  intros Hf Hmay He Hr. unfold called. rewrite He. split; [done|]. right. split; [|by left].
  by exists (mkFailed text Hmay).
Qed.

Lemma call_Lock agent s m : related malformed (data s) m →
  wps (takeAgentLock hashtextextended agent) (answered (Repository.Lock agent) s m) s.
Proof.
  intros Hr. destruct s as [d l]. unfold takeAgentLock. apply wps_try_wrap. intros x s1 (d1 & -> & Hx)%sql_answers.
  destruct Hx as [[= -> ->]|(err & Herr & -> & ->)]; cbn [wps call].
  - rewrite wps_bind. intros x [d2 l2] [(-> & Hl & [= -> ->])|(err & Herr & -> & [= -> ->])]; cbn [wps mret prog_mret].
    + split; [by apply call_same|done].
    + intros [] s3 ->%release_answers. split; [|done].
      destruct (storeError_opaque "take the agent's activation lock" err Herr) as [text ->].
      by apply (call_failed _ _ _ (Ok tt)); [|apply (failed_may text)|..].
  - split; [|done]. destruct (storeError_opaque "acquire the activation lock's connection" err Herr) as [text ->].
    by apply (call_failed _ _ _ (Ok tt)); [|apply (failed_may text)|..].
Qed.
Lemma call_Unlock agent s m : related malformed (data s) m →
  wps (releaseAgentLock hashtextextended agent) (answered (Repository.Unlock agent) s m) s.
Proof.
  intros Hr. destruct s as [d l]. unfold releaseAgentLock. rewrite wps_bind.
  intros x [d1 l1] [[_ [= -> ->]]|(err & Herr & _ & [[= -> ->]|[= -> ->]])]; intros [] s2 ->%release_answers;
    (split; [by apply call_same|]); cbn; [by left|right; split; [apply Herr|done]|by left].
Qed.

Create HintDb called.
#[local] Hint Resolve call_GetProfile call_PublishProfile call_PublishProfileVersion call_GetTemplate call_PublishTemplate call_PublishOnce
  call_ListTemplates call_ListProfiles call_ListOperators call_RecordOperatorContact call_ReportOperatorImages call_GetStatus
  call_RecordStatus call_RecordRuntimeApplied call_GetRuntimeApplied call_GetPosition call_InsertActivation call_GetActivation
  call_RecordActivation call_LatestActivation call_ActivationOfGeneration call_ConfigureReference call_Configure call_GetDefinition
  call_BeginCreation call_FailCreation call_CreationOf call_RegisterCreation call_CurrentPlacement call_RegisterPlacement
  call_CurrentStop call_RecordDeactivation call_RecordStop call_RecordStart call_LatestRecovery call_OpenRecovery call_PrepareRecovery
  call_FinalizeRecovery call_Desired : called.

Lemma refines_call X (e : repoE X) s m :
  wf m → legal m e → storable malformed m e → related malformed (data s) m →
  wps (repository malformed hashtextextended X e) (answered e s m) s.
Proof.
  intros Hwf Hlegal Hs Hr. destruct s as [[b o n] l]. pose proof Hr as [Ho Hb]. cbn in Ho, Hb. subst o.
  pose proof Hs as Hs'. destruct e; cbn [repository]; cbn in Hs'; destruct_and?;
    try (by apply call_Lock); try (by apply call_Unlock);
    (apply wps_embed; eapply wp_mono; [by intros ? ? Hx; split; [exact Hx|reflexivity]|by eauto 6 with called]).
Qed.


(** Where nothing fails, every such call that ends answers as the store in memory does, and a lock is given back. *)
Theorem postgres_answers X (e : repoE X) s m :
  ¬ may_fail → wf m → legal m e → storable malformed m e → related malformed (data s) m →
  wps (repository malformed hashtextextended X e) (λ x s', let '(y, m') := Memory.handle X e m in
    agree m e x y ∧ related malformed (data s') m' ∧ locked e (advisory s) x (advisory s')) s.
Proof.
  intros Hno Hwf Hlegal Hs Hr. eapply wps_mono; [|by apply refines_call]. intros x s' [Hx Hl]. unfold called in Hx.
  destruct (Memory.handle X e m) as [y m']. destruct Hx as [_ [(Ha & Hr' & _)|[[text _] _]]]; [done|].
  destruct (Hno (failed_may text)).
Qed.

(** ** A client of the repository *)

(** A client's calls made of the repository over PostgreSQL. *)
Fixpoint over {A} (p : prog repoE A) : prog sessionE A :=
  match p with
  | Ret a => Ret a
  | Vis e k => x ← repository malformed hashtextextended _ e; over (k x)
  end.
(** Each of its calls is as a caller may make it, whatever those before it answered. *)
Fixpoint admissible {A} (p : prog repoE A) m : Prop :=
  match p with
  | Ret _ => True
  | Vis e k =>
    legal m e ∧ storable malformed m e ∧
    let '(y, m') := Memory.handle _ e m in
    (∀ x, agree m e x y → admissible (k x) m') ∧ (∀ x, opaque e x → admissible (k x) m ∧ admissible (k x) m')
  end.
(** What it ends with and leaves over the store in memory and the locks held, where a call may fail, done or not. *)
Fixpoint outcome {A} (p : prog repoE A) m (held : gset Z) (a : A) m1 (held1 : gset Z) : Prop :=
  match p with
  | Ret a0 => a = a0 ∧ m1 = m ∧ held1 = held
  | Vis e k => ∃ x held', locked e held x held' ∧ let '(y, m') := Memory.handle _ e m in
    agree m e x y ∧ outcome (k x) m' held' a m1 held1 ∨
    opaque e x ∧ (outcome (k x) m held' a m1 held1 ∨ outcome (k x) m' held' a m1 held1)
  end.

(** C6: a client of the repository whose every call is one the service may make, as [postgres_refines] has it, ends as over
the store in memory, from any state of the store and whichever of its calls the driver fails: with what it ends with there
where calls fail so, done or not; no transaction open; the tables holding what that store then holds; the locks held that
its own taking and giving back leave; and the position never going back. *)
Theorem postgres_clients A (p : prog repoE A) s m : wf m → related malformed (data s) m → admissible p m →
  wps (over p) (λ a s', ∃ m', outcome p m (advisory s) a m' (advisory s') ∧ related malformed (data s') m' ∧ wf m' ∧
    position (committed (data s)) ≤ position (committed (data s'))) s.
Proof.
  revert s m. induction p as [a|X e k IH]; intros s m Hwf Hr Hp; [exists m; by split_and!|].
  destruct Hp as (Hl & Hs & Hp). pose proof (handle_keeps m X e Hwf Hl) as Hwf'. cbn [over]. rewrite wps_bind.
  eapply wps_mono; [|exact (refines_call X e s m Hwf Hl Hs Hr)]. intros x s' [Hx Hlk]. unfold called in Hx. cbn [outcome].
  destruct (Memory.handle X e m) as [y m'] eqn:He. destruct Hp as [Hok Hfail]. destruct Hx as [Hpos Hx].
  assert (∀ m0, wf m0 → related malformed (data s') m0 → admissible (k x) m0 →
    (∀ a m1 held1, outcome (k x) m0 (advisory s') a m1 held1 → agree m e x y ∧ outcome (k x) m' (advisory s') a m1 held1 ∨
    opaque e x ∧ (outcome (k x) m (advisory s') a m1 held1 ∨ outcome (k x) m' (advisory s') a m1 held1)) →
    wps (over (k x)) (λ a s1, ∃ m1, (∃ x0 held', locked e (advisory s) x0 held' ∧ (agree m e x0 y ∧ outcome (k x0) m' held' a m1 (advisory s1) ∨
    opaque e x0 ∧ (outcome (k x0) m held' a m1 (advisory s1) ∨ outcome (k x0) m' held' a m1 (advisory s1)))) ∧
    related malformed (data s1) m1 ∧ wf m1 ∧ position (committed (data s)) ≤ position (committed (data s1))) s') as Hnext.
  { intros m0 Hwf0 Hr0 Ha Ho. eapply wps_mono; [|by apply (IH x s' m0)]. intros a s1 (m1 & Hm1 & ? & ? & ?). exists m1.
    split; [exists x, (advisory s'); split; [exact Hlk|by apply Ho]|]. split_and!; [done..|lia]. }
  destruct Hx as [(Ha & Hr' & _)|[Ho [Hr'|Hr']]].
  - apply (Hnext m'); auto.
  - destruct (Hfail x Ho). apply (Hnext m); auto.
  - destruct (Hfail x Ho). apply (Hnext m'); auto.
Qed.

(** ** What runs under an agent's lock *)

(** The service's lock over the repository is PostgreSQL's. *)
Lemma over_bind A B (p : prog repoE A) (k : A → prog repoE B) Q s :
  wps (over (p ≫= k)) Q s ↔ wps (over p) (λ a s', wps (over (k a)) Q s') s.
Proof.
  revert s. induction p as [a|X e k' IH]; intros s; [done|]. cbn. rewrite !wps_bind.
  split; apply wps_mono; intros x s' Hw; by apply IH.
Qed.
Lemma over_call X (e : repoE X) Q s : wps (over (call e)) Q s ↔ wps (repository malformed hashtextextended X e) Q s.
Proof. cbn. rewrite wps_bind. done. Qed.

Theorem agent_lock_over A agent (p : prog repoE (result A)) Q s :
  wps (over (Service.WithAgentLock agent p)) Q s ↔ wps (WithAgentLock hashtextextended agent (over p)) Q s.
Proof.
  unfold Service.WithAgentLock, WithAgentLock, try_bind. rewrite over_bind, over_call, wps_bind.
  split; apply wps_mono; intros [[]|err] s'; try done.
  - rewrite over_bind, wps_bind. apply wps_mono. intros a s2. rewrite over_bind, over_call, wps_bind. apply wps_mono. by intros [] s3.
  - rewrite over_bind, wps_bind. apply wps_mono. intros a s2. rewrite over_bind, over_call, wps_bind. apply wps_mono. by intros [] s3.
Qed.

(** A function run under an agent's lock runs where no session held it and this one now does, and it is given back however
the function ended, but where the driver fails; where the lock is not taken the function is not run. *)
Theorem agent_lock_held A agent (fn : prog sessionE (result A)) (Q : result A → database → Prop) s :
  let key := agentKey hashtextextended agent in
  (key ∉ advisory s → wps fn (λ r s', advisory s' = {[key]} ∪ advisory s ∧ Q r (data s')) (mkServer (data s) ({[key]} ∪ advisory s))) →
  wps (WithAgentLock hashtextextended agent fn) (λ r s',
    (key ∉ advisory s ∧ Q r (data s') ∧ (advisory s' = advisory s ∨ may_fail ∧ advisory s' = {[key]} ∪ advisory s)) ∨
    (may_fail ∧ s' = s ∧ ∃ err, r = Err err)) s.
Proof.
  intros key Hfn. destruct s as [d l]. unfold WithAgentLock. apply wps_try_bind. unfold takeAgentLock. apply wps_try_wrap.
  intros x s1 (d1 & -> & Hx)%sql_answers. destruct Hx as [[= -> ->]|(err & Herr & -> & ->)]; cbn [wps call data advisory].
  2:{ right. split; [apply Herr|]. eauto. }
  rewrite wps_bind. intros x [d2 l2] [(-> & Hl & [= -> ->])|(err & Herr & -> & [= -> ->])]; cbn [wps mret prog_mret].
  2:{ intros [] s3 ->%release_answers. right. split; [apply Herr|]. eauto. }
  cbn [advisory data] in *. rewrite wps_bind. eapply wps_mono; [|by apply Hfn]. intros r [d3 l3] [Hl3 Hq]. cbn in Hl3, Hq. subst l3.
  rewrite wps_bind. unfold releaseAgentLock. rewrite wps_bind.
  assert (({[key]} ∪ l) ∖ {[key]} = l) as Hback by (unfold lockAgent in *; subst key; set_solver).
  intros x [d4 l4] [[_ [= -> ->]]|(err & Herr & _ & [[= -> ->]|[= -> ->]])]; intros [] s5 ->%release_answers;
    cbn [wps mret prog_mret data advisory]; left; (split; [done|]); (split; [done|]).
  - by left.
  - right. split; [apply Herr|done].
  - by left.
Qed.
End store.
End PostgresStore.

Import GoStd Json JsonText JsonRound MemoryInvariant FeedWire Sql Postgres SqlSpec PostgresSpec PostgresColumns PostgresStore.

Module PostgresSamples.
#[local] Existing Instances Samples.K8s Samples.SE FeedSamples.RJ FeedSamples.WL.

#[export] Instance QJ : QuantityJSON := λ j _, match j with JString s => ParseInt s | _ => None end.

(** Where calls may fail, and where none does. *)
#[export] Instance DB (fails : Prop) : Database := {|
    jsonb := string;
    jsonb_in := Some;
    jsonb_out j := j;
    now_of := Z.of_nat;
    timestamptz t := t;
    collate a b := bool_decide (String.le a b);
    any_row A := head;
    may_fail := fails;
  |}.
#[export] Instance DL fails : DatabaseLaws (DB := DB fails).
Proof.
  split; cbn.
  - intros i j. lia.
  - intros a b. apply bool_decide_eq_true.
  - done.
  - intros A [|x l]; [done|]. by left.
Defined.
#[export] Instance JL fails : JsonbLaws (DB := DB fails).
Proof.
  intros v j Hp _ Hj. cbn in Hj. injection Hj as <-. exists v. split; [by apply parse_Marshal|constructor].
Defined.

Lemma settings_canonical : canonical Samples.settings.
Proof.
  split; [split; [by apply distinct_JObject; split; [apply NoDup_nil_2|]|done]|]. split; [done|]. by split.
Qed.
Lemma new_related fails malformed : related (DB := DB fails) malformed new_database Memory.NewMemory.
Proof. split; [done|apply holds_schema]. Qed.

(** A profile published under an agent's lock, and read where it is. *)
Definition hashed (text : string) : Z := Z.of_nat (String.length text).
Definition publish : repoE (result Profile) := Repository.PublishProfile "org" "small" Samples.settings.
Definition publish_and_read : prog repoE (result Profile) :=
  p ←? Service.WithAgentLock "agent" (Vis publish Ret); Vis (Repository.GetProfile "org" (mkProfileRef (Profile_Name p) (Profile_Version p))) Ret.


Lemma postgres_answers_witness :
  wps (repository (DB := DB False) (λ s, s) hashed _ publish) (λ x s', let '(y, m') := Memory.handle _ publish Memory.NewMemory in
    agree Memory.NewMemory publish x y ∧ related (DB := DB False) (λ s, s) (data s') m' ∧
    locked (DB := DB False) hashed publish ∅ x (advisory s')) new_server.
Proof.
  apply (postgres_answers (DB := DB False) (λ s, s) hashed _ publish new_server Memory.NewMemory); [by intros []|apply NewMemory_wf|done|apply (canonical_kept (DB := DB False)), settings_canonical|apply new_related].
Defined.

Lemma postgres_clients_witness :
  wps (over (DB := DB True) (λ s, s) hashed publish_and_read)
    (λ a s', ∃ m', outcome (DB := DB True) hashed publish_and_read Memory.NewMemory ∅ a m' (advisory s') ∧
       related (DB := DB True) (λ s, s) (data s') m' ∧ wf m' ∧ 0 ≤ position (committed (data s')))
    new_server.
Proof.
  apply (postgres_clients (DB := DB True) (λ s, s) hashed _ publish_and_read new_server); [apply NewMemory_wf|apply new_related|].
  cbn. split; [done|]. split; [done|]. split; [|by intros x [text Hx]; injection Hx as <-].
  intros x ->. split; [done|]. split; [apply (canonical_kept (DB := DB True)), settings_canonical|]. split.
  - intros x ->. by split_and!.
  - intros x [text Hx]. injection Hx as <-. by split.
Defined.

(** A configuration, a report of an image, and a profile's settings. *)
Lemma columns_read_back_witness :
  config_kept (DB := DB True) (λ s, s) Samples.config ∧
  images_kept (DB := DB True) [mkOperatorImage "agent" "registry/agent:1" (Some "sha256:1")] ∧
  settings_kept (DB := DB True) Samples.settings.
Proof.
  destruct (columns_read_back (DB := DB True)) as (Hc & Hi & Hs). split_and!.
  - apply Hc. split_and!; try reflexivity; [|by apply map_Forall_empty]. intros e [= <-]. split_and!; reflexivity.
  - apply Hi. repeat constructor; try reflexivity. by intros d [= <-].
  - apply Hs, settings_canonical.
Defined.
End PostgresSamples.

Import GoStd Json JsonText Validation MemoryInvariant Distribution Sql Postgres SqlSpec PostgresSpec PostgresRefine PostgresPlacements.

Module PostgresRaces.

Section races.
Context `{K8s : Kubernetes, RJ : !ResourcesJSON, QJ : !QuantityJSON, SE : !SemanticEquality, DB : Database, DL : !DatabaseLaws}.
Context (malformed : string → string).
Implicit Types (t : tables) (m : Memory.mem).
Abbreviation holds := (holds malformed).

(** What a locking read at [READ COMMITTED] sees where it waited: of the current placements its snapshot shows, each as
the transaction that held it left it, and no row stored since. *)
Definition waited (snapshot t : tables) : tables :=
  let shown k := match placements snapshot !! k with Some r => null (placement_revoked_at r) | None => false end in
  set_placements (map_imap (λ k r, if shown k then Some r else None) (placements t)) t.
(** A session whose first statement, a locking read, waited for a transaction that has committed since. *)
Definition behind (snapshot : tables) : handler sqlE (bool * database) := λ X e,
  match e in sqlE X return bool * database → X * (bool * database) with
  | Statement q => λ '(waits, s),
    if waits : bool then
    match visible s with
    | None => (Err transaction_aborted, (false, s))
    | Some t => (result_map fst (q (now_of (ticks s)) (waited snapshot t)), (false, s))
    end
    else let '(x, s) := execute q s in (x, (false, s))
  | e => λ '(waits, s), let '(x, s) := serve _ e s in (x, (waits, s))
  end.

Lemma run_try {E S A B} (h : handler E S) (k : A → prog E (result B)) p s :
  run h (try_bind p k) s = let '(r, s') := run h p s in match r with Ok a => run h (k a) s' | Err err => (Err err, s') end.
Proof. unfold try_bind. rewrite run_bind. destruct (run h p s) as [[a|err] s']; [done|apply run_ret]. Qed.
Lemma run_query {S A B} (h : handler sqlE S) (q : query (option A)) (k : result A → prog sqlE B) s :
  run h (row ← query_row q; k row) s = let '(x, s') := h _ (Statement q) s in
  run h (k match x with Ok (Some row) => Ok row | Ok None => Err ErrNoRows | Err err => Err err end) s'.
Proof. rewrite run_bind. unfold query_row. rewrite run_bind, run_call. unfold inject, sub_refl. by destruct (h _ _ s). Qed.

(** A registration answered where it is stored. *)
Definition registered (input : PlacementInput) : Placement :=
  mkPlacement (PlacementInput_Agent input) (PlacementInput_Controller input) (PlacementInput_Request input) false.
(** A registration decided, in a transaction over tables that hold the store. *)
Lemma run_decided current input b t m n : holds t m n → Memory.agent_placements (PlacementInput_Agent input) m !! PlacementRequest_PodUID (PlacementInput_Request input) = None →
  run serve (register_decided current None input) (mkDatabase b [Some t] n) =
  match DecidePlacement current None input with
  | Err err => (Err err, mkDatabase b [Some t] n)
  | Ok _ => (Ok (mkPlacement (PlacementInput_Agent input) (PlacementInput_Controller input) (PlacementInput_Request input) false, true),
      mkDatabase b [Some (placement_stored input (now_of n) t)] n)
  end.
Proof.
  intros Ht Hn. unfold register_decided, lift, exec. rewrite run_try, run_ret.
  destruct (DecidePlacement current None input) as [[]|err] eqn:Hd; [|clear Hd|done].
  { unfold DecidePlacement in Hd. repeat (case_match; try done). }
  rewrite run_try, run_call. cbn [serve execute open_ ticks committed inject sub_refl]. unfold revokePlacement at 1.
  rewrite run_try, run_call. cbn [serve execute open_ ticks committed inject sub_refl].
  pose proof (insert_placement malformed t m n input (now_of n) Ht Hn) as Hi. cbv zeta in Hi. unfold revoked_of in Hi. by rewrite Hi.
Qed.

(** The transaction of an attempt, once its first read is answered. *)
Lemma run_attempt input current m b n : holds b m n → Memory.agent_placements (PlacementInput_Agent input) m !! PlacementRequest_PodUID (PlacementInput_Request input) = None →
  run serve (row ← query_row (lockPodPlacement (PlacementInput_Agent input) (PlacementRequest_PodUID (PlacementInput_Request input)));
    same ←? lift (scanPlacement row (PlacementInput_Agent input)); register_decided current same input) (mkDatabase b [Some b] n) = 
  match DecidePlacement current None input with
  | Err err => (Err err, mkDatabase b [Some b] n)
  | Ok _ => (Ok (mkPlacement (PlacementInput_Agent input) (PlacementInput_Controller input) (PlacementInput_Request input) false, true),
      mkDatabase b [Some (placement_stored input (now_of n) b)] n)
  end.
Proof.
  intros Hb Hn. rewrite run_query. cbn [serve execute open_ ticks committed]. unfold lockPodPlacement at 1, select at 1. unfold lift.
  rewrite run_try, run_ret, (pod_read malformed b m n _ _ Hb), Hn. by eapply run_decided.
Qed.

(** Past the wait, the session is served as any. *)
Lemma run_behind {A} snapshot (p : prog sqlE A) s :
  run (behind snapshot) p (false, s) = let '(x, s) := run serve p s in (x, (false, s)).
Proof.
  revert s. induction p as [a|X e k IH]; intros s; [done|]. cbn [run].
  assert (behind snapshot X e (false, s) = let '(x, s) := serve X e s in (x, (false, s))) as ->.
  { by destruct e; cbn. }
  destruct (serve X e s) as [x s']. apply IH.
Qed.

(** A registration whose Pod has no placement, over a database of its own, and one whose first read waited: it is decided
against what that read answered, and leaves the same tables. *)
Lemma run_placing (input : PlacementInput) m b n : wf m → holds b m n →
  Memory.agent_placements (PlacementInput_Agent input) m !! PlacementRequest_PodUID (PlacementInput_Request input) = None →
  run serve (RegisterPlacement input) (mkDatabase b [] n) =
  match DecidePlacement (current_of (PlacementInput_Agent input) m) None input with
  | Err err => (Err err, mkDatabase b [] (S n))
  | Ok _ => (Ok (registered input, true), mkDatabase (placement_stored input (now_of (S n)) b) [] (S n))
  end.
Proof.
  intros Hwf Hb Hn. unfold RegisterPlacement, placementAttempts. cbn [Nat.sub register_again]. rewrite run_bind.
  unfold registerPlacement, inTx, BeginFunc. rewrite run_try, run_call. cbn [serve begin_ visible open_ committed ticks inject sub_refl].
  rewrite run_bind, run_query. cbn [serve execute open_ ticks committed]. unfold lockCurrentPlacement at 1, select at 1.
  rewrite run_try. unfold lift at 1. rewrite run_ret, (current_read malformed b m n _ Hwf Hb).
  rewrite (run_attempt input _ m b (S n)); [|by apply holds_next|done].
  destruct (DecidePlacement _ _ _) as [a|err] eqn:Hd; [done|]. cbn. destruct (decide_refuses _ _ _ _ Hd) as [H1 H2].
  by rewrite H2, H1.
Qed.
Lemma run_placing_behind (input : PlacementInput) m b0 b n : holds b m n →
  Memory.agent_placements (PlacementInput_Agent input) m !! PlacementRequest_PodUID (PlacementInput_Request input) = None →
  (∀ k r, placements (waited b0 b) !! k = Some r → k.1 = PlacementInput_Agent input → null (placement_revoked_at r) = false) →
  PlacementRequest_Previous (PlacementInput_Request input) = zeroPrevious →
  run (behind b0) (RegisterPlacement input) (true, mkDatabase b [] n) =
  (Ok (registered input, true), (false, mkDatabase (placement_stored input (now_of (S n)) b) [] (S n))).
Proof.
  intros Hb Hn Hw Hz. unfold RegisterPlacement, placementAttempts. cbn [Nat.sub register_again]. rewrite run_bind.
  unfold registerPlacement, inTx, BeginFunc. rewrite run_try, run_call. cbn [behind serve begin_ visible open_ committed ticks inject sub_refl].
  rewrite run_bind, run_query. cbn [behind visible open_ ticks committed]. unfold lockCurrentPlacement at 1, select at 1. cbn [result_map fst].
  match goal with |- context [one_row ?p ?rows] => assert (one_row p rows = None) as -> end.
  { destruct (one_row _ _) as [[k r]|] eqn:Ho; [|done]. apply one_row_Some in Ho as [Hr [Ha Hl]%andb_prop].
    apply bool_decide_eq_true in Ha. by rewrite (Hw _ _ Hr Ha) in Hl. }
  rewrite run_try. unfold lift at 1. rewrite run_ret.
  match goal with |- context [scanPlacement ?row ?agent] => change (scanPlacement row agent) with (Ok (@None Placement)) end. cbv iota.
  rewrite run_behind.
  rewrite (run_attempt input _ m b (S n)); [|by apply holds_next|done].
  unfold DecidePlacement. rewrite Hz. done.
Qed.

(** The store that registering leaves. *)
Lemma placed_registered input m :
  Memory.agent_placements (PlacementInput_Agent input) (placement_registered input m) = registered_map (PlacementInput_Agent input) input m.
Proof. unfold Memory.agent_placements, placement_registered. cbn. by rewrite lookup_insert_eq. Qed.
Lemma placement_registered_keeps input m : wf m →
  wf (placement_registered input m) ∧
  current_of (PlacementInput_Agent input) (placement_registered input m) = Some (registered input).
Proof.
  intros Hwf. assert (wf (placement_registered input m)) as Hwf' by by apply registered_wf.
  split; [done|]. apply current_of_Some; [apply Hwf'|]. exists (PlacementRequest_PodUID (PlacementInput_Request input)). split; [|done].
  rewrite placed_registered. unfold registered_map. by rewrite lookup_insert_eq.
Qed.
Lemma run_CurrentPlacement agent m b n p : wf m → holds b m n → current_of agent m = Some p →
  (run serve (CurrentPlacement agent) (mkDatabase b [] n)).1 = Ok p.
Proof.
  intros Hwf Hb Hp. unfold CurrentPlacement. rewrite run_query. cbn [serve execute open_ committed ticks].
  unfold currentPlacement, lockCurrentPlacement, select at 1. rewrite run_ret, (current_read malformed b m n agent Hwf Hb), Hp. done.
Qed.

(** What a waited read sees of an agent's placements where one was registered over the current: none current. *)
Lemma waited_none first m b n now k r : holds b m n →
  Memory.agent_placements (PlacementInput_Agent first) m !! PlacementRequest_PodUID (PlacementInput_Request first) = None →
  placements (waited b (placement_stored first now b)) !! k = Some r → k.1 = PlacementInput_Agent first → null (placement_revoked_at r) = false.
Proof.
  intros Hb Hn. unfold waited, placement_stored. cbn. rewrite map_lookup_imap. intros (r1 & Hk & Hs)%bind_Some Ha. revert Hs.
  match goal with |- (if match ?x with _ => _ end then _ else _) = _ → _ => destruct x as [r0|] eqn:Hr0; [|done] end. destruct (null (placement_revoked_at r0)) eqn:Hl; [|done]. intros [= ->]. destruct k as [agent uid]. cbn in Ha. subst agent. rewrite lookup_insert_ne in Hk.
  - rewrite map_lookup_imap in Hk. apply bind_Some in Hk as (r2 & Hr2 & Hk). unfold GRN in *. rewrite Hr2 in Hr0. injection Hr0 as ->. injection Hk as <-. unfold revoked_of. cbn. by rewrite bool_decide_true, Hl.
  - intros [= <-]. destruct (placement_of _ _ _ _ _ _ _ Hb Hr0) as (p & Hp & _). unfold GRN in *. congruence.
Qed.

(** C8: two registrations for one agent, the second naming no Pod it replaces. Served before the first, or after it, the second
is refused: its caller shows no stop of the writer it would supersede. Served while the first commits, with its locking
read of the current placement waiting for it, that read answers no row: the second supersedes the first, and every
placement of the agent, on no evidence that any writer stopped. *)
Theorem overtaken_registration first second m b n c :
  wf m → holds b m n →
  let agent := PlacementInput_Agent first in
  PlacementInput_Agent second = agent →
  current_of agent m = Some c →
  Memory.agent_placements agent m !! PlacementRequest_PodUID (PlacementInput_Request first) = None →
  Memory.agent_placements agent m !! PlacementRequest_PodUID (PlacementInput_Request second) = None →
  PlacementRequest_PodUID (PlacementInput_Request first) ≠ PlacementRequest_PodUID (PlacementInput_Request second) →
  DecidePlacement (Some c) None first = Ok PlacementRegister →
  PlacementRequest_Previous (PlacementInput_Request second) = zeroPrevious →
  let '(x1, s1) := run serve (RegisterPlacement first) (mkDatabase b [] n) in
  x1 = Ok (registered first, true) ∧
  (run serve (RegisterPlacement second) (mkDatabase b [] n)).1 = Err ErrPreviousMismatch ∧
  (run serve (RegisterPlacement second) s1).1 = Err ErrPreviousMismatch ∧
  let '(x2, (_, s2)) := run (behind b) (RegisterPlacement second) (true, s1) in
  x2 = Ok (registered second, true) ∧ (run serve (CurrentPlacement agent) s2).1 = Ok (registered second) ∧
  ∃ r, placements (committed s2) !! (agent, PlacementRequest_PodUID (PlacementInput_Request first)) = Some r ∧
  placement_revoked_at r = Some (now_of (ticks s2)).
Proof.
  intros Hwf Hb agent Ha Hc Hn1 Hn2 Hne Hd Hz.
  rewrite (run_placing first m b n Hwf Hb Hn1). fold agent. rewrite Hc, Hd. split; [done|].
  assert (DecidePlacement (Some c) None second = Err ErrPreviousMismatch) as Hs by (unfold DecidePlacement; by rewrite Hz).
  rewrite (run_placing second m b n Hwf Hb); [|by rewrite Ha]. rewrite Ha, Hc, Hs. split; [done|].
  set (m1 := placement_registered first m).
  assert (Memory.agent_placements agent m1 = registered_map agent first m) as Hm1 by apply placed_registered.
  destruct (placement_registered_keeps first m Hwf) as [Hwf1 Hc1]. fold m1 agent in Hwf1, Hc1.
  destruct (placement_registered_keeps second m1 Hwf1) as [Hwf2 Hc2]. rewrite Ha in Hc2.
  assert (Memory.agent_placements agent m1 !! PlacementRequest_PodUID (PlacementInput_Request second) = None) as Hn1'.
  { rewrite Hm1. unfold registered_map. rewrite lookup_insert_ne by done. rewrite superseded_map by done. apply fmap_None, Hn2. }
  assert (holds (placement_stored first (now_of (S n)) b) m1 (S n)) as Hb1 by (by apply holds_placement, holds_next).
  rewrite (run_placing second m1 _ (S n) Hwf1 Hb1); [|by rewrite Ha]. rewrite Ha, Hc1.
  assert (DecidePlacement (Some (registered first)) None second = Err ErrPreviousMismatch) as -> by (unfold DecidePlacement; by rewrite Hz).
  split; [done|].
  rewrite (run_placing_behind second m1 b _ (S n) Hb1); [|by rewrite Ha| |done].
  2: { intros k r Hk Hag. rewrite Ha in Hag. exact (waited_none first m b n _ k r Hb Hn1 Hk Hag). }
  split; [done|]. split.
  - apply (run_CurrentPlacement agent (placement_registered second m1)); [done| |done]. by apply holds_placement, holds_next.
  - exists (placement_revoked (now_of (S (S n))) (mkPlacementRow (PlacementInput_Controller first) (PlacementRequest_Epoch (PlacementInput_Request first))
      (PlacementRequest_PVCUID (PlacementInput_Request first)) (PlacementRequest_TokenSHA256 (PlacementInput_Request first))
      (Previous_PodUID (PlacementRequest_Previous (PlacementInput_Request first)))
      (Previous_WriterStoppedSHA256 (PlacementRequest_Previous (PlacementInput_Request first))) (now_of (S n)) None)).
    split; [|done]. cbn. rewrite Ha, lookup_insert_ne by congruence. rewrite map_lookup_imap. fold agent. rewrite lookup_insert_eq.
    cbn. unfold revoked_of. cbn. by rewrite bool_decide_true.
Qed.
End races.

(** An agent on pod-1; one registration replaces it, on evidence, by pod-2, and another registers pod-3. *)
#[local] Existing Instances Samples.K8s Samples.SE FeedSamples.RJ FeedSamples.WL PostgresSamples.QJ.
#[local] Instance quiet : Database := PostgresSamples.DB False.
#[local] Instance quiet_laws : DatabaseLaws := PostgresSamples.DL False.
Definition on_pod1 : PlacementInput := Samples.placement_input "pod-1" zeroPrevious.
Definition replacing : PlacementInput := Samples.placement_input "pod-2" (mkPrevious "pod-1" "stopped").
Definition unaware : PlacementInput := Samples.placement_input "pod-3" zeroPrevious.
Lemma overtaken_registration_witness :
  let b := placement_stored on_pod1 0 schema in
  let '(x1, s1) := run serve (RegisterPlacement replacing) (mkDatabase b [] 1) in
  x1 = Ok (registered replacing, true) ∧
  (run serve (RegisterPlacement unaware) (mkDatabase b [] 1)).1 = Err ErrPreviousMismatch ∧
  (run serve (RegisterPlacement unaware) s1).1 = Err ErrPreviousMismatch ∧
  let '(x2, (_, s2)) := run (behind b) (RegisterPlacement unaware) (true, s1) in
  x2 = Ok (registered unaware, true) ∧ (run serve (CurrentPlacement Samples.agent) s2).1 = Ok (registered unaware) ∧
  ∃ r, placements (committed s2) !! (Samples.agent, "pod-2") = Some r ∧ placement_revoked_at r = Some (now_of (ticks s2)).
Proof.
  apply (overtaken_registration (λ s, s) replacing unaware (placement_registered on_pod1 Memory.NewMemory) _ _ (registered on_pod1)).
  - apply registered_wf, NewMemory_wf.
  - apply holds_placement; [apply NewMemory_wf|]. apply PostgresStore.holds_schema.
  - reflexivity.
  - refine (proj2 (placement_registered_keeps on_pod1 Memory.NewMemory _)). apply NewMemory_wf.
  - reflexivity.
  - reflexivity.
  - done.
  - reflexivity.
  - reflexivity.
Defined.
End PostgresRaces.
