(* ===== verification/Registrar.v ===== *)
(** The registrar ([src/internal/desired/registrar.go]) and where it reads the managed agents' placements
    ([src/internal/desired/placement/pods.go]): the loop that presents each to the control service, and what it
    remembers of each between its passes. *)
From S2P Require Import Prelude GoStd Errors Types Kube Names AgentApi Desired.
Import GoStd Kube Desired.

Module Registrar.

Definition registerPass : Z := Second.
Definition kindPlacementSuperseded := "placement_superseded".
Definition kindEpochSuperseded := "epoch_superseded".

Record CurrentPlacement := mkCurrentPlacement { Current_GRN : string; Current_Placement : Placement }.
#[global] Instance CurrentPlacement_eq_dec : EqDecision CurrentPlacement.
Proof. solve_decision. Defined.

(** The interface [PlacementStore]. *)
Inductive placementE : Type → Type :=
| Current : placementE (result (list CurrentPlacement)).

(** [registration]; a zero [time.Time] is [None]. *)
Record registration := mkRegistration {
  reg_placement : Placement;
  reg_accepted : bool;
  reg_superseded : bool;
  reg_next : option Time;
  reg_backoff : Z;
  reg_refusedAs : string;
}.
Definition fresh (p : Placement) : registration := mkRegistration p false false None 0 "".

(** [samePlacement]. *)
Definition samePlacement (a b : Placement) : bool :=
  if negb (bool_decide (Placement_Epoch a = Placement_Epoch b)) ||
     negb (bool_decide (Placement_PodUID a = Placement_PodUID b)) ||
     negb (bool_decide (Placement_PVCUID a = Placement_PVCUID b)) ||
     negb (bool_decide (Placement_TokenSHA256 a = Placement_TokenSHA256 b))
  then false
  else match Placement_Previous a, Placement_Previous b with
  | None, None => true
  | Some p, Some q => bool_decide (p = q)
  | _, _ => false
  end.

(** A refusal for good: the same body is never sent again. *)
Definition for_good (status : Z) (kind : string) : bool :=
  bool_decide (status = 409) &&
  (bool_decide (kind = kindPlacementSuperseded) || bool_decide (kind = kindEpochSuperseded)).

Section registrar.
Context `{K8s : Kubernetes}.
Context {E : Type → Type} `{!SubEvent clientE E, !SubEvent placementE E, !SubEvent loopE E}.
Implicit Types (rs : gmap string registration).

Definition log text attributes : prog E () := call (LoopLog text attributes).

(** What is known of a placement: the registration kept of it, or one afresh where the agent's placement
changed. *)
Definition registration_of (c : CurrentPlacement) rs : registration :=
  match rs !! Current_GRN c with
  | Some state => if samePlacement (reg_placement state) (Current_Placement c) then state else fresh (Current_Placement c)
  | None => fresh (Current_Placement c)
  end.

(** [register], on the registrations kept. *)
Definition register (c : CurrentPlacement) rs : prog E (gmap string registration) :=
  let about := [("agent", Current_GRN c); ("podUID", Placement_PodUID (Current_Placement c))] in
  let state := registration_of c rs in
  let keep state := <[Current_GRN c := state]> rs in
  if reg_superseded state || reg_accepted state then mret (keep state)
  else
  now ← call LoopNow;
  if match reg_next state with Some next => bool_decide (now < next) | None => false end then mret (keep state)
  else
  created ← call (SendPlacement (Current_GRN c) (Current_Placement c));
  match created with
  | Err err =>
    match asRefusal err with
    | Some (status, kind) =>
      if for_good status kind then
      _ ← log "The control service refused this placement for good; it is not presented again" about;
      mret (keep (mkRegistration (reg_placement state) (reg_accepted state) true (reg_next state) 0
        (reg_refusedAs state)))
      else
      now ← call LoopNow;
      let text := FormatInt status +:+ " " +:+ kind in
      _ ← (if negb (bool_decide (text = reg_refusedAs state))
        then log "The control service refused the placement; presenting it again slowly" about else mret tt);
      mret (keep (mkRegistration (reg_placement state) (reg_accepted state) (reg_superseded state)
        (Some (now + refusedWait)) 0 text))
    | None =>
      _ ← log "The placement registration did not answer; presenting it again" about;
      let backoff := retry_backoff (reg_backoff state) in
      now ← call LoopNow;
      mret (keep (mkRegistration (reg_placement state) (reg_accepted state) (reg_superseded state)
        (Some (now + backoff)) backoff (reg_refusedAs state)))
    end
  | Ok created =>
    _ ← log (if (created : bool) then "Registered the agent's placement"
      else "The agent's placement was already registered") about;
    mret (keep (mkRegistration (reg_placement state) true (reg_superseded state) (reg_next state) 0 ""))
  end.

Fixpoint register_each (cs : list CurrentPlacement) rs : prog E (gmap string registration) :=
  match cs with
  | [] => mret rs
  | c :: cs => rs ← register c rs; register_each cs rs
  end.

(** [registerAll]: the agents no longer listed keep nothing. *)
Definition registerAll rs : prog E (gmap string registration) :=
  current ← call Current;
  match current with
  | Err err => _ ← log "Failed to list the managed agents' placements" [("error", error_text err)]; mret rs
  | Ok current =>
    rs ← register_each current rs;
    mret (filter (λ kv, kv.1 ∈ Current_GRN <$> current) rs)
  end.

(** [Start], for [n] passes at most: what it remembers then. *)
Fixpoint Start (n : nat) rs : prog E (gmap string registration) :=
  match n with
  | O => mret rs
  | S n =>
    cancelled ← call Cancelled;
    if (cancelled : bool) then mret rs
    else rs ← registerAll rs; _ ← call (Pause registerPass); Start n rs
  end.
End registrar.

(** ** placement/pods.go *)

(** What is read of a placement Secret, from the API server itself: its token and its annotations. *)
Record placementSecret := mkPlacementSecret { secret_token : string; secret_annotations : gmap string string }.

Inductive podsE `{K8s : Kubernetes} : Type → Type :=
| ListAgents (namespace : string) : podsE (result (list AgentApi.Agent))
| GetAgentPod (namespace name : string) : podsE (result Pod)
| ReadPlacementSecret (namespace name : string) : podsE (result placementSecret).

(** [carriesAdapter]. *)
Definition carriesAdapter (pod : Pod) : bool :=
  existsb (λ c, bool_decide (Container_Name c = Names.AdapterContainer)) (Pod_InitContainers pod).

Section pods.
Context `{K8s : Kubernetes}.
Context {E : Type → Type} `{!SubEvent podsE E}.
Context (namespace : string).

(** The placement a Pod and its token are, where there is one. *)
Definition placement_of (epoch : string) (pod : Pod) (secret : placementSecret) : option Placement :=
  if bool_decide (secret_token secret = "") then None
  else
  let previous := annotation (secret_annotations secret) Names.PreviousPodUIDAnnotation in
  Some (mkPlacement epoch (Pod_UID pod) (annotation (Pod_Annotations pod) Names.PVCUIDAnnotation)
    (EncodeToString (Sum256 (bytes_of (secret_token secret))))
    (if bool_decide (previous = "") then None
      else Some (mkPrevious previous (annotation (secret_annotations secret) Names.PreviousWriterStoppedAnnotation)))).

Definition placementOf (name epoch : string) : prog E (result (option Placement)) :=
  pod ← call (GetAgentPod namespace (name +:+ "-0"));
  match pod with
  | Err err => if IsNotFound err then mret (Ok None) else mret (Err (Wrapf ("get the pod of " +:+ name +:+ ": ") err ""))
  | Ok pod =>
    if bool_decide (is_Some (Pod_DeletionTimestamp pod)) || negb (bool_decide (Pod_Phase pod = "Running")) ||
    bool_decide (annotation (Pod_Annotations pod) Names.PVCUIDAnnotation = "") || negb (carriesAdapter pod)
    then mret (Ok None)
    else
    secret ← call (ReadPlacementSecret namespace (Names.PlacementSecret name));
    match secret with
    | Err err =>
      if IsNotFound err then mret (Ok None)
      else mret (Err (Wrapf ("get the placement token of " +:+ name +:+ ": ") err ""))
    | Ok secret => mret (Ok (placement_of epoch pod secret))
    end
  end.

Fixpoint placements (agents : list AgentApi.Agent) : prog E (result (list CurrentPlacement)) :=
  match agents with
  | [] => mret (Ok [])
  | agent :: agents =>
    this ←? match AgentApi.Spec_Identity (AgentApi.Agent_Spec agent) with
    | Some identity =>
      if bool_decide (AgentApi.Identity_AssignmentEpoch identity = "") then mret (Ok [])
      else
      placement ←? placementOf (AgentApi.Agent_Name agent) (AgentApi.Identity_AssignmentEpoch identity);
      mret (Ok (match placement with
      | Some p => [mkCurrentPlacement (AgentApi.Identity_GRN identity) p] | None => [] end))
    | None => mret (Ok [])
    end;
    rest ←? placements agents;
    mret (Ok (this ++ rest))
  end.

(** [Pods.Current]. *)
Definition Pods_Current : prog E (result (list CurrentPlacement)) :=
  agents ←? call (ListAgents namespace) wrap (λ err, Wrapf "list the agents: " err "");
  placements agents.
End pods.
End Registrar.
