(* ===== verification/RegistrarSpec.v ===== *)
(** What the registrar promises, whatever the control service and the cluster answer: it presents only placements
    listed, never one again that was accepted or refused for good while it stays its agent's, and after a pass
    each placement listed is settled or waits a bounded time. *)
From S2P Require Import Prelude GoStd Errors Types Kube Names AgentApi Desired Registrar.
Import GoStd Kube Desired Registrar.

Module RegistrarSpec.

Section spec.
Context `{K8s : Kubernetes}.
Abbreviation fullE := (clientE +' placementE +' loopE).
Abbreviation history := (list (event fullE)).
Implicit Types (h : history) (g : string) (p : Placement) (l : list CurrentPlacement) (rs : gmap string registration)
  (s : registration).

(** What an event presented and was answered, and what it listed. *)
Definition sent_of (ev : event fullE) : option (string * Placement * result bool) :=
  match ev with
  | @Ev _ X (InL (InL e)) x =>
    match e in clientE X return X → _ with SendPlacement g p => λ x, Some (g, p, x) | _ => λ _, None end x
  | _ => None
  end.
Definition listing_of (ev : event fullE) : option (list CurrentPlacement) :=
  match ev with
  | @Ev _ X (InL (InR e)) x =>
    match e in placementE X return X → _ with
    | Current => λ x, match x with Ok l => Some l | Err _ => None end
    end x
  | _ => None
  end.
Definition read_at (ev : event fullE) : option Time :=
  match ev with
  | @Ev _ X (InR e) x => match e in loopE X return X → _ with LoopNow => λ t, Some t | _ => λ _, None end x
  | _ => None
  end.

(** An answer that settles a placement: taken, or refused for good. *)
Definition final (x : result bool) : Prop :=
  match x with
  | Ok _ => True
  | Err err => match asRefusal err with Some (status, kind) => for_good status kind = true | None => False end
  end.

(** The placement was settled, and every listing since names it as its agent's. *)
Fixpoint settled g p h : Prop :=
  match h with
  | [] => False
  | ev :: h => (∃ x, sent_of ev = Some (g, p, x) ∧ final x) ∨
    settled g p h ∧ ∀ l, listing_of ev = Some l → mkCurrentPlacement g p ∈ l
  end.
(** The last listing answered. *)
Fixpoint latest h : option (list CurrentPlacement) :=
  match h with [] => None | ev :: h => match listing_of ev with Some l => Some l | None => latest h end end.
(** Every listing names an agent once. *)
Definition distinct h : Prop := Forall (λ ev, ∀ l, listing_of ev = Some l → NoDup (Current_GRN <$> l)) h.

Definition presented h g p (x : result bool) : Prop := ∃ ev, ev ∈ h ∧ sent_of ev = Some (g, p, x).
Definition read h (t : Time) : Prop := ∃ ev, ev ∈ h ∧ read_at ev = Some t.

(** The calls of the loop. *)
Definition register_call h X (e : fullE X) : Prop :=
  match e with
  | InL (InL (SendPlacement g p)) =>
    (∃ l, latest h = Some l ∧ mkCurrentPlacement g p ∈ l) ∧ (distinct h → ¬ settled g p h)
  | InL (InL _) => False
  | InR (Pause d) => d = registerPass
  | _ => True
  end.

(** What a registration kept says of what happened. *)
Definition kept_of h g s : Prop :=
  (reg_accepted s = true → ∃ created, presented h g (reg_placement s) (Ok created)) ∧
  (reg_superseded s = true → ∃ err, presented h g (reg_placement s) (Err err) ∧ final (Err err)) ∧
  (∀ t, reg_next s = Some t → ∃ now, read h now ∧ transientFirst ≤ t - now ≤ refusedWait) ∧
  (reg_backoff s = 0 ∨ transientFirst ≤ reg_backoff s ≤ transientLast).
Definition is_done s : Prop := reg_accepted s = true ∨ reg_superseded s = true.
(** A placement listed is settled, or waits. *)
Definition dealt rs (c : CurrentPlacement) : Prop :=
  ∃ s, rs !! Current_GRN c = Some s ∧ reg_placement s = Current_Placement c ∧ (is_done s ∨ is_Some (reg_next s)).

(** What holds while the placements of a listing are presented. *)
Definition holds h l rs : Prop :=
  latest h = Some l ∧ map_Forall (kept_of h) rs ∧
  (distinct h → ∀ g p, settled g p h →
    mkCurrentPlacement g p ∈ l ∧ ∃ s, rs !! g = Some s ∧ reg_placement s = p ∧ is_done s).

Lemma samePlacement_iff a b : samePlacement a b = true ↔ a = b.
Proof.
  unfold samePlacement. destruct a as [e1 u1 v1 t1 q1], b as [e2 u2 v2 t2 q2]. cbn.
  do 4 (case_bool_decide; cbn; [subst|by split; [done|intros ?; simplify_eq]]).
  destruct q1 as [q1|], q2 as [q2|]; [|by split; intros [=]..|done].
  rewrite bool_decide_eq_true. split; [by intros ->|by intros [= ->]].
Qed.

(** An event that lists nothing and settles nothing. *)
Definition quiet (ev : event fullE) : Prop :=
  listing_of ev = None ∧ ∀ g p x, sent_of ev = Some (g, p, x) → ¬ final x.

Lemma presented_later h ev g p x : presented h g p x → presented (ev :: h) g p x.
Proof. intros (ev' & ? & ?). exists ev'. split; [by right|done]. Qed.
Lemma read_later h ev t : read h t → read (ev :: h) t.
Proof. intros (ev' & ? & ?). exists ev'. split; [by right|done]. Qed.
Lemma kept_later h ev g s : kept_of h g s → kept_of (ev :: h) g s.
Proof.
  intros (Ha & Hs & Hn & Hb). split_and!; [| | |done].
  - intros [created ?]%Ha. exists created. by apply presented_later.
  - intros (err & ? & ?)%Hs. exists err. split; [by apply presented_later|done].
  - intros t (now & ? & ?)%Hn. exists now. split; [by apply read_later|done].
Qed.
Lemma settled_quiet ev g p h : quiet ev → settled g p (ev :: h) → settled g p h.
Proof. intros [_ Hq] [(x & Hs & Hf)|[? _]]; [by destruct (Hq _ _ _ Hs)|done]. Qed.
Lemma distinct_cons ev h : distinct (ev :: h) → distinct h.
Proof. by intros [_ ?]%Forall_cons. Qed.

Lemma holds_quiet ev h l rs : quiet ev → holds h l rs → holds (ev :: h) l rs.
Proof.
  intros Hq (Hl & Hk & Hs). split_and!.
  - cbn. by rewrite (proj1 Hq).
  - intros g s ?. by apply kept_later, Hk.
  - intros Hd g p Hset. apply Hs; [by eapply distinct_cons|by eapply settled_quiet].
Qed.

(** A listing that names each agent once names one placement of it. *)
Lemma listed_once h l p c :
  latest h = Some l → distinct h → mkCurrentPlacement (Current_GRN c) p ∈ l → c ∈ l → p = Current_Placement c.
Proof.
  intros Hl Hd Hin Hc. assert (NoDup (Current_GRN <$> l)) as Hnd.
  { clear -Hl Hd. revert Hl. induction h as [|ev h IH]; [done|]. apply Forall_cons in Hd as [He Hd]. cbn.
    destruct (listing_of ev) as [l'|] eqn:Hl'; [intros [= <-]; by apply He|by apply IH]. }
  apply list_elem_of_lookup in Hin as [i Hi], Hc as [j Hj].
  assert (i = j) as ->; [|rewrite Hj in Hi; by injection Hi as ->].
  eapply NoDup_lookup; [done|rewrite list_lookup_fmap, Hi; done|by rewrite list_lookup_fmap, Hj].
Qed.

(** An agent's registration replaced by one of the placement listed, which is done wherever that is settled. *)
Lemma holds_keep h l rs c s :
  holds h l rs → c ∈ l → reg_placement s = Current_Placement c → kept_of h (Current_GRN c) s →
  (distinct h → settled (Current_GRN c) (Current_Placement c) h → is_done s) →
  holds h l (<[Current_GRN c := s]> rs).
Proof.
  intros (Hl & Hk & Hs) Hc Hp Hok Hdone. split_and!; [done|by apply map_Forall_insert_2|].
  intros Hd g p Hset. destruct (Hs Hd g p Hset) as (Hin & s' & Hs' & Hp' & Hdone'). split; [done|].
  destruct (decide (g = Current_GRN c)) as [->|Hne]; [|exists s'; by rewrite lookup_insert_ne].
  exists s. rewrite lookup_insert_eq. split; [done|].
  assert (p = Current_Placement c) as -> by by eapply listed_once. split; [done|by apply Hdone].
Qed.

(** The registration a placement is presented under. *)
Lemma registration_of_spec h l rs c (s := registration_of c rs) :
  holds h l rs → c ∈ l →
  reg_placement s = Current_Placement c ∧ kept_of h (Current_GRN c) s ∧
  (distinct h → settled (Current_GRN c) (Current_Placement c) h → is_done s).
Proof.
  intros (_ & Hk & Hs) Hc. subst s. unfold registration_of.
  assert (kept_of h (Current_GRN c) (fresh (Current_Placement c))) as Hfresh by (split_and!; [done..|by left]).
  destruct (rs !! Current_GRN c) as [s|] eqn:Hrs.
  - destruct (samePlacement _ _) eqn:Hsame.
    + apply samePlacement_iff in Hsame. split_and!; [done|by apply Hk|]. intros Hd Hset.
      destruct (Hs Hd _ _ Hset) as (_ & s' & Hs' & _ & ?). by rewrite Hrs in Hs'; injection Hs' as ->.
    + split_and!; [done..|]. intros Hd Hset. destruct (Hs Hd _ _ Hset) as (_ & s' & Hs' & Hp & _).
      rewrite Hrs in Hs'; injection Hs' as ->. by apply samePlacement_iff in Hp; rewrite Hp in Hsame.
  - split_and!; [done..|]. intros Hd Hset. destruct (Hs Hd _ _ Hset) as (_ & s' & Hs' & _). by rewrite Hrs in Hs'.
Qed.

(** What holds once a placement was presented. *)
Lemma holds_sent h l rs c s ev x :
  holds h l rs → c ∈ l → sent_of ev = Some (Current_GRN c, Current_Placement c, x) → listing_of ev = None →
  reg_placement s = Current_Placement c → kept_of (ev :: h) (Current_GRN c) s → (final x → is_done s) →
  (distinct h → ¬ settled (Current_GRN c) (Current_Placement c) h) →
  holds (ev :: h) l (<[Current_GRN c := s]> rs).
Proof.
  intros (Hlat & Hok & Hs) Hc Hev Hl Hp Hk Hf Hn. split_and!.
  - cbn. by rewrite Hl.
  - apply map_Forall_insert_2; [done|]. intros g s' ?. by apply kept_later, Hok.
  - intros Hd g p Hset. pose proof (distinct_cons _ _ Hd) as Hd'. cbn in Hset.
    destruct Hset as [(x' & Hx' & Hfin)|[Hset _]].
    + rewrite Hev in Hx'. injection Hx' as <- <- <-. split; [by destruct c|].
      exists s. rewrite lookup_insert_eq. split_and!; [done|done|by apply Hf].
    + destruct (Hs Hd' g p Hset) as (Hin & s' & Hs' & Hp' & Hdone'). split; [done|].
      destruct (decide (g = Current_GRN c)) as [->|Hne]; [|exists s'; by rewrite lookup_insert_ne].
      assert (p = Current_Placement c) as -> by by eapply listed_once. by destruct (Hn Hd').
Qed.

Lemma register_spec h l rs c :
  holds h l rs → c ∈ l →
  safe register_call (λ h' rs', holds h' l rs' ∧ dealt rs' c ∧ ∀ g, g ≠ Current_GRN c → rs' !! g = rs !! g)
  h (register c rs).
Proof.
  intros Hh Hc. unfold register, log. destruct (registration_of_spec h l rs c Hh Hc) as (Hp & Hk & Hd).
  set (state := registration_of c rs) in *.
  assert (∀ s, reg_placement s = Current_Placement c → is_done s ∨ is_Some (reg_next s) →
    dealt (<[Current_GRN c := s]> rs) c ∧ ∀ g, g ≠ Current_GRN c → <[Current_GRN c := s]> rs !! g = rs !! g) as Hdealt.
  { intros s Hs Hdone. split; [exists s; by rewrite lookup_insert_eq|intros; by rewrite lookup_insert_ne]. }
  destruct (reg_superseded state || reg_accepted state) eqn:Hdone.
  { split; [by apply holds_keep|apply Hdealt; [done|]]. left. apply orb_true_iff in Hdone as [?|?]; [by right|by left]. }
  apply orb_false_iff in Hdone as [Hns Hna].
  assert (distinct h → ¬ settled (Current_GRN c) (Current_Placement c) h) as Hnot.
  { intros Hdis Hset. destruct (Hd Hdis Hset); congruence. }
  cbn. split; [done|]. intros now. set (h1 := _ :: h).
  assert (holds h1 l rs) as Hh1 by by apply holds_quiet.
  assert (∀ s, kept_of h (Current_GRN c) s → kept_of h1 (Current_GRN c) s) as Hlater by by intros; apply kept_later.
  assert (distinct h1 → ¬ settled (Current_GRN c) (Current_Placement c) h1) as Hnot1.
  { intros Hdis Hset. apply Hnot; [by eapply distinct_cons|by eapply settled_quiet, Hset]. }
  destruct (match reg_next state with Some next => _ | None => _ end) eqn:Hwait.
  { split; [apply holds_keep; [done..|by apply Hlater|intros Hdis Hset; by destruct (Hnot1 Hdis Hset)]|].
    apply Hdealt; [done|]. right. by destruct (reg_next state). }
  cbn. split.
  { split; [|done]. exists l. split; [apply Hh1|by destruct c]. }
  intros x. set (h2 := _ :: h1).
  assert (∀ s, reg_placement s = Current_Placement c → kept_of h2 (Current_GRN c) s → (final x → is_done s) →
    holds h2 l (<[Current_GRN c := s]> rs)) as Hsent.
  { intros s Hs Hks Hfs. by eapply holds_sent. }
  assert (presented h2 (Current_GRN c) (reg_placement state) x) as Hpres.
  { rewrite Hp. eexists. split; [by left|done]. }
  assert (kept_of h2 (Current_GRN c) state) as Hk2 by by apply kept_later, Hlater.
  destruct Hk2 as (Ha2 & Hs2 & Hn2 & Hb2).
  assert (∀ h' s, holds h' l (<[Current_GRN c := state]> rs) → reg_placement s = Current_Placement c →
    (distinct h' → ¬ settled (Current_GRN c) (Current_Placement c) h') → kept_of h' (Current_GRN c) s →
    holds h' l (<[Current_GRN c := s]> rs)) as Hagain.
  { intros h' s Hh' Hs Hn' Hks. rewrite <- (insert_insert_eq rs (Current_GRN c) s state).
    apply holds_keep; [done..|]. intros Hdis Hset. by destruct (Hn' Hdis Hset). }
  assert (∀ h' s now', ¬ final x → (∃ evs, h' = evs ++ h2 ∧ Forall quiet evs) → read h' now' →
    reg_placement s = Current_Placement c → reg_accepted s = false → reg_superseded s = false →
    (reg_backoff s = 0 ∨ transientFirst ≤ reg_backoff s ≤ transientLast) → (∃ t, reg_next s = Some t ∧ transientFirst ≤ t - now' ≤ refusedWait) →
    holds h' l (<[Current_GRN c := s]> rs) ∧ dealt (<[Current_GRN c := s]> rs) c ∧
    ∀ g, g ≠ Current_GRN c → <[Current_GRN c := s]> rs !! g = rs !! g) as Hwaits.
  { intros h' s now' Hnf (evs & -> & Hq) Hread Hs Hsa Hss Hsb (t & Ht & Htr).
    split; [|apply Hdealt; [done|]; right; by rewrite Ht].
    assert (holds (evs ++ h2) l (<[Current_GRN c := state]> rs) ∧
      (distinct (evs ++ h2) → ¬ settled (Current_GRN c) (Current_Placement c) (evs ++ h2))) as [Hh' Hn'].
    { clear Hread. induction Hq as [|ev evs Hq Hqs [IH1 IH2]].
      - split; [by apply Hsent|]. intros Hdis [(x' & Hx' & Hf)|[Hset _]].
        + by injection Hx' as <-.
        + by apply Hnot1; [eapply distinct_cons|].
      - split; [by apply holds_quiet|]. intros Hdis Hset. apply IH2; [by eapply distinct_cons|by eapply settled_quiet, Hset]. }
    apply Hagain; [done..|]. split_and!; [by rewrite Hsa|by rewrite Hss| |done].
    intros t'. rewrite Ht. intros [= <-]. by exists now'. }
  destruct x as [created|err]; cbn.
  - split; [done|]. intros []. split; [apply holds_quiet; [done|]; apply Hsent|apply Hdealt]; try done.
    + split_and!; try done; [intros _; by exists created|by left].
    + by left.
    + left. by left.
  - destruct (asRefusal err) as [[status kind]|] eqn:Href; cbn.
    + destruct (for_good status kind) eqn:Hgood; cbn.
      * split; [done|]. intros []. 
        assert (final (Err err)) as Hfin by (cbn; by rewrite Href).
        split; [apply holds_quiet; [done|]; apply Hsent|apply Hdealt]; try done.
        -- split_and!; try done; [intros _; by exists err|by left].
        -- by right.
        -- left. by right.
      * split; [done|]. intros now'.
        assert (¬ final (Err err)) as Hnf by (cbn; rewrite Href; by rewrite Hgood).
        destruct (negb _); cbn; [split; [done|]; intros []|].
        all: apply (Hwaits _ _ now'); try done;
          try (by left); try (eexists; split; [done|]; unfold transientFirst, refusedWait, Second; lia).
        1, 3: first [by (eexists [_; _]; repeat constructor)|by (eexists [_]; repeat constructor)].
        all: exists (Ev (InR LoopNow) now'); split; [|done]; first [by right; left|by left].
    + split; [done|]. intros []. cbn. split; [done|]. intros now'.
      assert (transientFirst ≤ retry_backoff (reg_backoff state) ≤ transientLast) as Hb.
      { unfold retry_backoff, next_backoff, transientFirst, transientLast, Second in *. case_bool_decide; lia. }
      unfold transientFirst, transientLast, refusedWait, Second in Hb.
      apply (Hwaits _ _ now'); try done.
      * cbn. rewrite Href. by intros [].
      * eexists [_; _]. by repeat constructor.
      * eexists. split; [by left|done].
      * right. unfold transientFirst, transientLast, Second. cbn [reg_backoff]. lia.
      * eexists. split; [done|]. unfold transientFirst, refusedWait, Second. lia.
Qed.

Lemma register_each_spec h l rs cs :
  holds h l rs → (∀ c, c ∈ cs → c ∈ l) →
  safe register_call (λ h' rs', holds h' l rs' ∧ (NoDup (Current_GRN <$> cs) → ∀ c, c ∈ cs → dealt rs' c) ∧
    ∀ g, g ∉ Current_GRN <$> cs → rs' !! g = rs !! g) h (register_each cs rs).
Proof.
  revert h rs. induction cs as [|c cs IH]; intros h rs Hh Hin; cbn [register_each].
  { split_and!; [done| |done]. by intros _ c ?%not_elem_of_nil. }
  rewrite safe_bind. eapply safe_mono, register_spec; [|done|apply Hin; by left].
  intros h1 rs1 (Hh1 & Hc & Hkeep1). eapply safe_mono, IH; [|done|intros; apply Hin; by right].
  intros h2 rs2 (Hh2 & Hcs & Hkeep2). split_and!; [done| |].
  - cbn. intros [Hnin Hnd]%NoDup_cons c' [->|?]%elem_of_cons; [|by apply Hcs].
    destruct Hc as (s & Hs & ?). exists s. by rewrite Hkeep2.
  - cbn. intros g [? ?]%not_elem_of_cons. by rewrite Hkeep2, Hkeep1.
Qed.

(** What holds between two passes. *)
Definition between h rs : Prop :=
  map_Forall (kept_of h) rs ∧
  (distinct h → ∀ g p, settled g p h → ∃ s, rs !! g = Some s ∧ reg_placement s = p ∧ is_done s) ∧
  ∀ l, latest h = Some l → NoDup (Current_GRN <$> l) → ∀ c, c ∈ l → dealt rs c.

Lemma between_quiet h ev rs : quiet ev → between h rs → between (ev :: h) rs.
Proof.
  intros Hq (Hk & Hs & Hl). split_and!.
  - intros g s ?. by apply kept_later, Hk.
  - intros Hd g p Hset. apply Hs; [by eapply distinct_cons|by eapply settled_quiet, Hset].
  - cbn. rewrite (proj1 Hq). exact Hl.
Qed.

Lemma registerAll_spec h rs :
  between h rs → safe register_call between h (registerAll rs).
Proof.
  intros (Hk & Hs & Hl). unfold registerAll, log. cbn. split; [done|]. intros [l|err]; cbn.
  - rewrite safe_bind. eapply safe_mono, register_each_spec; [|split_and!|done].
    + intros h' rs' ((Hlat & Hk' & Hs') & Hdealt & _). split_and!.
      * intros g s [? _]%map_lookup_filter_Some. by apply Hk'.
      * intros Hd g p Hset. destruct (Hs' Hd g p Hset) as (Hin & s & Hgs & ?). exists s. split; [|done].
        apply map_lookup_filter_Some. split; [done|]. apply list_elem_of_fmap. by exists (mkCurrentPlacement g p).
      * intros l' Hl'. rewrite Hlat in Hl'. injection Hl' as <-. intros Hnd c Hc.
        destruct (Hdealt Hnd c Hc) as (s & Hgs & ?). exists s. split; [|done].
        apply map_lookup_filter_Some. split; [done|]. apply list_elem_of_fmap. by exists c.
    + done.
    + intros g s ?. by apply kept_later, Hk.
    + intros Hd g p [(x & Hx & _)|[Hset Hin]]; [done|]. split; [by apply Hin|].
      apply Hs; [by eapply distinct_cons|done].
  - split; [done|]. intros []. cbn. apply between_quiet; [done|]. by apply between_quiet.
Qed.

Lemma passes_register n h rs : between h rs → safe register_call between h (Start n rs).
Proof.
  revert h rs. induction n as [|n IH]; intros h rs Hb; [done|]. cbn [Start]. cbn -[registerAll]. split; [done|].
  intros [|]; [by apply between_quiet|]. rewrite safe_bind. eapply safe_mono, registerAll_spec, between_quiet, Hb; [|done].
  intros h' rs' Hb'. cbn. split; [done|]. intros []. by apply IH, between_quiet.
Qed.

(** C25: Whatever the control service and the cluster answer, over any number of passes: the registrar presents only a
placement the last listing names, and, while listings name each agent once, never again one the control service
took or refused for good, as long as every listing since names it as its agent's; what it remembers as taken
or refused was; and after a pass each placement of the last listing is settled, or waits for a time at most the
refusal's wait past a reading of the clock. *)
Theorem placement_presented_once n :
  safe register_call (λ h rs, map_Forall (kept_of h) rs ∧
    ∀ l, latest h = Some l → NoDup (Current_GRN <$> l) → ∀ c, c ∈ l → dealt rs c) [] (Start n ∅).
Proof. eapply safe_mono, passes_register; [by intros h rs (? & _ & ?)|]. by split_and!. Qed.
End spec.
End RegistrarSpec.
