(* ===== verification/PlacementWire.v ===== *)
(** A placement across the two processes: what the manager presents of a Pod ([src/internal/desired/placement] and
    [client.go]) the control service parses to the same placement ([src/internal/distribution/placement.go]). *)
From S2P Require Import Prelude GoStd Json JsonText JsonRound Errors Types Validation Samples Distribution Kube Names AgentApi Desired FeedWire Registrar.
Import GoStd Json JsonText JsonRound Validation Kube AgentApi FeedWire.

Module PlacementWire.

(** ** A digest's text *)
Lemma round_length st kw : length st = 8%nat → length (sha256_round st kw) = 8%nat.
Proof. intros Hst. do 8 (destruct st as [|? st]; [done|]). by destruct st. Qed.
Lemma rounds_length kws st : length st = 8%nat → length (foldl sha256_round st kws) = 8%nat.
Proof. revert st. induction kws as [|kw kws IH]; intros st Hst; [done|]. by apply IH, round_length. Qed.
Lemma blocks_length n words st : length st = 8%nat → length (sha256_blocks n words st) = 8%nat.
Proof.
  revert words st. induction n as [|n IH]; intros words st Hst; [done|]. cbn [sha256_blocks]. apply IH.
  unfold sha256_block. rewrite length_zip_with, rounds_length; lia.
Qed.
Lemma bytes_of_words l : length (l ≫= bytes_of_word) = (4 * length l)%nat ∧ is_bytes (l ≫= bytes_of_word).
Proof.
  assert (∀ z, 0 ≤ Z.land z 255 < 256) as Hr.
  { intros z. change 255 with (Z.ones 8). rewrite Z.land_ones by lia. by apply Z.mod_pos_bound. }
  induction l as [|w l [IHl IHb]]; [by split; [|constructor]|]. cbn. rewrite IHl. split; [lia|]. repeat (constructor; [apply Hr|]). exact IHb.
Qed.
Lemma hex_digit_lower z : 0 ≤ z < 16 → is_lower_hex (hex_digit z) = true.
Proof.
  intros Hz. unfold hex_digit, is_lower_hex, is_digit. apply orb_true_iff. rewrite !bool_decide_eq_true.
  destruct (decide (z < 10)) as [H|H]; [rewrite (bool_decide_true _ H)|rewrite (bool_decide_false _ H)];
    rewrite byte_of_byte by lia; lia.
Qed.
Lemma hex_text l :
  is_bytes l → String.length (EncodeToString l) = (2 * length l)%nat ∧ string_forall is_lower_hex (EncodeToString l) = true.
Proof.
  induction 1 as [|z l Hz Hl [IHl IHf]]; [by split|].
  change (EncodeToString (z :: l)) with
    (String (hex_digit (Z.shiftr z 4)) (String (hex_digit (Z.land z 15)) (EncodeToString l))).
  cbn [String.length string_forall length]. rewrite IHl. split; [lia|]. rewrite IHf, andb_true_r. apply andb_true_iff. split; apply hex_digit_lower.
  - rewrite Z.shiftr_div_pow2 by lia. split; [apply Z.div_pos; lia|apply Z.div_lt_upper_bound; lia].
  - change 15 with (Z.ones 4). rewrite Z.land_ones by lia. by apply Z.mod_pos_bound.
Qed.

(** A SHA-256 digest in hexadecimal is what the control service takes for one. *)
Lemma digest_text bytes : Distribution.sha256Pattern (EncodeToString (Sum256 bytes)) = true.
Proof.
  unfold Distribution.sha256Pattern, Sum256. destruct (bytes_of_words (sha256_blocks (length (sha256_pad bytes) / 64)
    (words_of (sha256_pad bytes)) sha256_init)) as [Hl Hb].
  rewrite blocks_length in Hl by done. destruct (hex_text _ Hb) as [Hlen Hhex]. cbv zeta.
  rewrite Hhex, Hlen, Hl. done.
Qed.

Lemma hex_utf8 s : string_forall is_lower_hex s = true → text s.
Proof.
  intros Hs. unfold text, utf8. generalize (le_n (String.length s)). generalize (String.length s) at 2 3 as n.
  induction s as [|c s IH]; intros [|n] Hn; cbn in Hs, Hn; try (done || lia).
  apply andb_true_iff in Hs as [Hc Hs]. unfold is_lower_hex, is_digit in Hc.
  apply orb_true_iff in Hc. rewrite !bool_decide_eq_true in Hc.
  change (utf8_bytes (S n) (byte_of c :: bytes_of s) = true). cbn [utf8_bytes].
  rewrite bool_decide_true by lia. apply IH; [done|lia].
Qed.
Lemma digest_utf8 s : Distribution.sha256Pattern s = true → text s.
Proof. intros [_ ?]%andb_true_iff. by apply hex_utf8. Qed.

Section wire.
Context `{K8s : Kubernetes}.

(** A Pod and its placement Secret that hold what Kubernetes and the fence write of them: texts, the identities of
the Pod and its claim, and for a Pod before it, another one and the digest of its evidence. *)
Record presentable (epoch : string) (pod : Pod) (secret : Registrar.placementSecret) : Prop := {
  presented_epoch : text epoch ∧ epoch ≠ "";
  presented_pod : text (Pod_UID pod) ∧ Pod_UID pod ≠ "";
  presented_claim : let claim := annotation (Pod_Annotations pod) Names.PVCUIDAnnotation in text claim ∧ claim ≠ "";
  presented_token : Registrar.secret_token secret ≠ "";
  presented_previous :
  let previous := annotation (Registrar.secret_annotations secret) Names.PreviousPodUIDAnnotation in
  let digest := annotation (Registrar.secret_annotations secret) Names.PreviousWriterStoppedAnnotation in
  previous ≠ "" → text previous ∧ previous ≠ Pod_UID pod ∧ (digest = "" ∨ Distribution.sha256Pattern digest = true);
}.

(** The body decoded, field by field. *)
Lemma body_read (p : Desired.Placement) :
  into_struct true Distribution.placementRequest_fields (Desired.placement_json p) (Distribution.mkPlacementBody "" "" "" "" None) =
  Some (Distribution.mkPlacementBody (Desired.Placement_Epoch p) (Desired.Placement_PodUID p) (Desired.Placement_PVCUID p)
    (Desired.Placement_TokenSHA256 p)
    ((λ q, mkPrevious (Desired.Previous_PodUID q) (Desired.Previous_WriterStoppedSHA256 q)) <$> Desired.Placement_Previous p)).
Proof.
  destruct p as [epoch pod claim digest [[previous evidence]|]]; unfold Desired.placement_json;
    cbn [Desired.Placement_Epoch Desired.Placement_PodUID Desired.Placement_PVCUID Desired.Placement_TokenSHA256
    Desired.Placement_Previous Desired.Previous_PodUID Desired.Previous_WriterStoppedSHA256]; repeat read_member; [|done].
  rewrite (into_pointer_Some _ _ _ _ (mkPrevious previous evidence)); [by repeat read_member|done|by repeat read_member].
Qed.

(** The request a placement is received as. *)
Definition received_placement (epoch : string) (pod : Pod) (secret : Registrar.placementSecret) : PlacementRequest :=
  let previous := annotation (Registrar.secret_annotations secret) Names.PreviousPodUIDAnnotation in
  mkPlacementRequest (Pod_UID pod) (annotation (Pod_Annotations pod) Names.PVCUIDAnnotation) epoch
  (EncodeToString (Sum256 (bytes_of (Registrar.secret_token secret))))
  (if bool_decide (previous = "") then zeroPrevious
    else mkPrevious previous (annotation (Registrar.secret_annotations secret) Names.PreviousWriterStoppedAnnotation)).

(** C23: What the manager presents of a Pod and its placement Secret, the control service reads as that Pod's placement:
its identity, its claim's, the epoch, the digest of its token, which no token makes malformed, and the Pod it
replaces with the evidence. *)
Theorem placement_read (epoch : string) (pod : Pod) (secret : Registrar.placementSecret) (Hp : presentable epoch pod secret) :
  ∃ p, Registrar.placement_of epoch pod secret = Some p ∧
  Distribution.parsePlacement (Marshal (Desired.placement_json p)) = Ok (received_placement epoch pod secret).
Proof.
  destruct Hp as [[He He'] [Hu Hu'] [Hc Hc'] Ht Hprev]. cbn zeta in *. unfold Registrar.placement_of.
  rewrite (bool_decide_false _ Ht). eexists. split; [done|]. unfold received_placement.
  pose proof (digest_text (bytes_of (Registrar.secret_token secret))) as Hd.
  set (digest := EncodeToString _) in *. clearbody digest. pose proof (digest_utf8 _ Hd) as Hdt.
  set (previous := annotation (Registrar.secret_annotations secret) Names.PreviousPodUIDAnnotation) in *.
  set (evidence := annotation (Registrar.secret_annotations secret) Names.PreviousWriterStoppedAnnotation) in *.
  set (claim := annotation (Pod_Annotations pod) Names.PVCUIDAnnotation) in *.
  clearbody previous evidence claim.
  assert (printed (Desired.placement_json (Desired.mkPlacement epoch (Pod_UID pod) claim digest
    (if bool_decide (previous = "") then None else Some (Desired.mkPrevious previous evidence))))) as Hprinted.
  { exists 2%nat. split; [|done]. unfold Desired.placement_json.
    destruct (decide (previous = "")) as [E|E]; [rewrite (bool_decide_true _ E)|rewrite (bool_decide_false _ E)].
    - by print_members.
    - destruct (Hprev E) as (? & _ & [->|?%digest_utf8]); by print_members. }
  unfold Distribution.parsePlacement. rewrite decode_one_Marshal by done. rewrite body_read.
  cbn [Desired.Placement_Epoch Desired.Placement_PodUID Desired.Placement_PVCUID Desired.Placement_TokenSHA256
    Desired.Placement_Previous Distribution.placement_Epoch Distribution.placement_PodUID Distribution.placement_PVCUID
    Distribution.placement_TokenSHA256 Distribution.placement_Previous].
  rewrite Hd, !bool_decide_false by done. cbn [negb orb].
  destruct (decide (previous = "")) as [E|E]; [by rewrite (bool_decide_true _ E)|rewrite !(bool_decide_false _ E)].
  destruct (Hprev E) as (_ & Hne & Hev). cbn. rewrite !bool_decide_false by done. cbn.
  by destruct Hev as [->| ->]; [|rewrite andb_false_r].
Qed.
End wire.

(** ** A witness: a Pod that replaces another, with the evidence that its writers stopped *)
#[local] Existing Instance Samples.K8s.
Definition sample_pod : Pod :=
  mkPod "a-0" "garam" "pod-2" 10 None [] {[Names.PVCUIDAnnotation := "claim-1"]} "node-1" [] [] [] "Running" [] [] [].
Definition evidence_digest : string := Eval vm_compute in EncodeToString (Sum256 (bytes_of "evidence")).
Definition sample_secret : Registrar.placementSecret :=
  Registrar.mkPlacementSecret "token"
    (<[Names.PreviousPodUIDAnnotation := "pod-1"]>
       {[Names.PreviousWriterStoppedAnnotation := evidence_digest]}).
Lemma sample_presentable : presentable "epoch-1" sample_pod sample_secret.
Proof.
  split; cbn zeta; [by split..|done|]. intros _. split_and!; [by vm_compute|done|]. right. by vm_compute.
Defined.

Lemma placement_read_witness :
  (∃ p, Registrar.placement_of "epoch-1" sample_pod sample_secret = Some p ∧
    Distribution.parsePlacement (Marshal (Desired.placement_json p)) =
    Ok (received_placement "epoch-1" sample_pod sample_secret)) ∧
  Previous_PodUID (PlacementRequest_Previous (received_placement "epoch-1" sample_pod sample_secret)) = "pod-1".
Proof. split; [exact (placement_read "epoch-1" sample_pod sample_secret sample_presentable)|by vm_compute]. Defined.
End PlacementWire.
