(* ===== verification/Recoverer.v ===== *)
(** The recoverer ([src/internal/desired/recoverer.go]) and the Secrets it persists a recovery's request in
    ([src/internal/desired/credential/*.go]): the loop that takes each managed agent's credential recovery through
    the manager's half, and what it remembers between its passes. *)
From S2P Require Import Prelude GoStd Errors Types Kube Names AgentApi Workload Desired.
Import GoStd Desired.

Module Recoverer.

Definition recoverPass : Z := Second.
Definition preparedWait : Z := 10 * Second.

(** The interface [RecoveryStore]; and what the recoverer reads of its own: the open recoveries last offered, and
    the order its map of agents is ranged over. *)
Inductive recoveryE : Type → Type :=
| Recovering : recoveryE (result (list string))
| LoadRecovery (agent : string) : recoveryE (result (option RecoveryRequest))
| SaveRecovery (agent : string) (request : RecoveryRequest) : recoveryE (result ())
| RecordRecovered (agent lineage : string) : recoveryE (result ()).
Inductive offerE : Type → Type :=
| Offered : offerE (gmap string OpenRecovery)
| RangeOrder (agents : gset string) : offerE (list string).

(** [attempt]; a zero [time.Time] is [None]. *)
Record attempt := mkAttempt { attempt_next : option Time; attempt_backoff : Z; attempt_refusedAs : string }.
Definition zeroAttempt : attempt := mkAttempt None 0 "".

(** What the loop keeps of each agent, and the recovery its lineage was last recorded from. *)
Record recoverer := mkRecoverer { attempts : gmap string attempt; recorded : gmap string string }.
Definition NewRecoverer : recoverer := mkRecoverer ∅ ∅.

Section recoverer.
Context `{K8s : Kubernetes}.
Context {E : Type → Type} `{!SubEvent clientE E, !SubEvent recoveryE E, !SubEvent offerE E, !SubEvent loopE E}.
Implicit Types (r : recoverer).

Definition log text attributes : prog E () := call (LoopLog text attributes).
Definition keep agent (state : attempt) r : recoverer := mkRecoverer (<[agent := state]> (attempts r)) (recorded r).
Definition forget agent r : recoverer := mkRecoverer (delete agent (attempts r)) (recorded r).

(** [retryTransient]. *)
Definition retryTransient (state : attempt) : prog E attempt :=
  let backoff := retry_backoff (attempt_backoff state) in
  now ← call LoopNow;
  mret (mkAttempt (Some (now + backoff)) backoff (attempt_refusedAs state)).

(** [begin]: what is sent is what was persisted. *)
Definition begin agent (open : OpenRecovery) : prog E (result RecoveryRequest) :=
  _ ←? call (SaveRecovery agent (mkRecoveryRequest (OpenRecovery_RequestID open) (OpenRecovery_Epoch open)));
  persisted ←? call (LoadRecovery agent);
  match persisted with
  | Some persisted => mret (Ok persisted)
  | None => mret (Err (Errorf "the recovery request was not persisted"))
  end.

(** The request sent, once one is persisted. *)
Definition send_persisted agent (request : RecoveryRequest) (state : attempt) r : prog E recoverer :=
  recovered ← call (SendRecovery agent request);
  match recovered with
  | Err err =>
    match asRefusal err with
    | Some (status, kind) =>
      now ← call LoopNow;
      let text := FormatInt status +:+ " " +:+ kind in
      _ ← (if negb (bool_decide (text = attempt_refusedAs state))
        then log "The control service refused the recovery request; asking again slowly" [("agent", agent)]
        else mret tt);
      mret (keep agent (mkAttempt (Some (now + refusedWait)) 0 text) r)
    | None =>
      _ ← log "The recovery request did not answer; asking again" [("agent", agent)];
      state ← retryTransient state;
      mret (keep agent state r)
    end
  | Ok recovered =>
    if negb (bool_decide (Recovered_Agent recovered = agent)) ||
    negb (bool_decide (Recovered_RequestID recovered = RecoveryRequest_ID request)) ||
    negb (bool_decide (Recovered_Epoch recovered = RecoveryRequest_Epoch request))
    then
    _ ← log "Not recording a recovery of another request" [("agent", agent)];
    now ← call LoopNow;
    mret (keep agent (mkAttempt (Some (now + refusedWait)) (attempt_backoff state) (attempt_refusedAs state)) r)
    else if bool_decide (Recovered_Lineage recovered = "") then
    now ← call LoopNow;
    mret (keep agent (mkAttempt (Some (now + preparedWait)) 0 (attempt_refusedAs state)) r)
    else
    stored ← call (RecordRecovered agent (Recovered_Lineage recovered));
    match stored with
    | Err _ =>
      _ ← log "Failed to record the recovered lineage" [("agent", agent)];
      state ← retryTransient state;
      mret (keep agent state r)
    | Ok _ =>
      _ ← log "Recorded the recovered lineage of a managed agent; its tokens are minted again in it" [("agent", agent)];
      mret (mkRecoverer (delete agent (attempts r)) (<[agent := RecoveryRequest_ID request]> (recorded r)))
    end
  end.

(** [recover], one agent's step. *)
Definition recover agent (open : option OpenRecovery) r : prog E recoverer :=
  let state := default zeroAttempt (attempts r !! agent) in
  let r := keep agent state r in
  now ← call LoopNow;
  if match attempt_next state with Some next => bool_decide (now < next) | None => false end then mret r
  else
  loaded ← call (LoadRecovery agent);
  match loaded with
  | Err _ =>
    _ ← log "Failed to read the persisted recovery request" [("agent", agent)];
    state ← retryTransient state;
    mret (keep agent state r)
  | Ok (Some request) => send_persisted agent request state r
  | Ok None =>
    match open with
    | None => mret (forget agent r)
    | Some open =>
      if bool_decide (default "" (recorded r !! agent) = OpenRecovery_RequestID open) then mret (forget agent r)
      else
      request ← begin agent open;
      match request with
      | Err _ =>
        _ ← log "Failed to persist the recovery request" [("agent", agent)];
        state ← retryTransient state;
        mret (keep agent state r)
      | Ok request => send_persisted agent request state r
      end
    end
  end.

Fixpoint recover_each (agents : list string) (offered : gmap string OpenRecovery) r : prog E recoverer :=
  match agents with
  | [] => mret r
  | agent :: agents => r ← recover agent (offered !! agent) r; recover_each agents offered r
  end.

(** [recoverAll]. *)
Definition recoverAll r : prog E recoverer :=
  persisted ← call Recovering;
  match persisted with
  | Err err => _ ← log "Failed to list the managed agents being recovered" [("error", error_text err)]; mret r
  | Ok persisted =>
    offered ← call Offered;
    agents ← call (RangeOrder (list_to_set persisted ∪ dom offered));
    recover_each agents offered r
  end.

(** [Start], for [n] passes at most: what it remembers then. *)
Fixpoint Start (n : nat) r : prog E recoverer :=
  match n with
  | O => mret r
  | S n =>
    cancelled ← call Cancelled;
    if (cancelled : bool) then mret r
    else r ← recoverAll r; _ ← call (Pause recoverPass); Start n r
  end.
End recoverer.

(** ** credential/secret.go, credential/recovery.go *)
Definition epochKey := "epoch".
Definition requestIDKey := "request-id".

(** The calls of the Secrets' store on the API server. A Secret is created owned by the Agent read; a credential's
    patch sets the lineage and removes the refresh time. *)
Inductive secretsE `{K8s : Kubernetes} : Type → Type :=
| ListAgents (namespace : string) : secretsE (result (list AgentApi.Agent))
| GetAgent (namespace name : string) : secretsE (result AgentApi.Agent)
| GetSecretMetadata (namespace name : string) : secretsE (result ())
| ReadSecretMetadata (namespace name : string) : secretsE (result ())
| ReadSecret (namespace name : string) : secretsE (result (gmap string string))
| CreateOwned (owner : AgentApi.Agent) (namespace name : string) (data : gmap string string) : secretsE (result ())
| PatchAnnotations (namespace name : string) (set : gmap string (option string)) : secretsE (result ())
| DeleteSecret (namespace name : string) : secretsE (result ()).

Section secrets.
Context `{K8s : Kubernetes}.
Context {E : Type → Type} `{!SubEvent secretsE E}.
Context (namespace : string).
(** [controllerutil.SetControllerReference] of an owner. *)
Context (SetControllerReference : AgentApi.Agent → result ()).

Definition exists_ (name : string) : prog E (result bool) :=
  secret ← call (GetSecretMetadata namespace name);
  match secret with
  | Err err => if IsNotFound err then mret (Ok false) else mret (Err (Wrapf ("get secret " +:+ name +:+ ": ") err ""))
  | Ok _ => mret (Ok true)
  end.

Fixpoint recovering (agents : list AgentApi.Agent) : prog E (result (list string)) :=
  match agents with
  | [] => mret (Ok [])
  | agent :: agents =>
    this ←? match AgentApi.Spec_Identity (AgentApi.Agent_Spec agent) with
    | Some identity =>
      persisted ←? exists_ (Names.RecoveryRequestSecret (AgentApi.Identity_GRN identity));
      mret (Ok (if (persisted : bool) then [AgentApi.Identity_GRN identity] else []))
    | None => mret (Ok [])
    end;
    rest ←? recovering agents;
    mret (Ok (this ++ rest))
  end.
Definition Secrets_Recovering : prog E (result (list string)) :=
  agents ←? call (ListAgents namespace) wrap (λ err, Wrapf "list the agents: " err "");
  recovering agents.

Definition Secrets_LoadRecovery (agent : string) : prog E (result (option RecoveryRequest)) :=
  data ← call (ReadSecret namespace (Names.RecoveryRequestSecret agent));
  match data with
  | Err err =>
    if IsNotFound err then mret (Ok None)
    else mret (Err (Wrapf ("get the recovery request of " +:+ agent +:+ ": ") err ""))
  | Ok data => mret (Ok (Some (mkRecoveryRequest (default "" (data !! requestIDKey)) (default "" (data !! epochKey)))))
  end.

Definition Secrets_SaveRecovery (agent : string) (request : RecoveryRequest) : prog E (result ()) :=
  let name := Names.RecoveryRequestSecret agent in
  owner ←? call (GetAgent namespace (Names.Agent agent)) wrap (λ err, Wrapf ("get the agent of " +:+ agent +:+ ": ") err "");
  _ ←? lift (SetControllerReference owner) wrap (λ err, Wrapf ("own secret " +:+ name +:+ ": ") err "");
  created ← call (CreateOwned owner namespace name
    (<[epochKey := RecoveryRequest_Epoch request]> {[requestIDKey := RecoveryRequest_ID request]}));
  match created with
  | Err err =>
    if IsAlreadyExists err then mret (Ok tt)
    else mret (Err (Wrapf ("persist the recovery request of " +:+ agent +:+ ": ") err ""))
  | Ok _ => mret (Ok tt)
  end.

Definition deleteSecret (name : string) : prog E (result ()) :=
  deleted ← call (DeleteSecret namespace name);
  match deleted with
  | Err err => if IsNotFound err then mret (Ok tt) else mret (Err (Wrapf ("remove secret " +:+ name +:+ ": ") err ""))
  | Ok _ => mret (Ok tt)
  end.

Definition Secrets_Recovered (agent lineage : string) : prog E (result ()) :=
  let credential := Names.CredentialsSecret agent in
  read ← call (ReadSecretMetadata namespace credential);
  match read with
  | Err err =>
    if IsNotFound err then deleteSecret (Names.RecoveryRequestSecret agent)
    else mret (Err (Wrapf ("get the credential of " +:+ agent +:+ ": ") err ""))
  | Ok _ =>
    _ ←? call (PatchAnnotations namespace credential
      (<[Workload.CredentialLineageAnnotation := Some lineage]> {[Names.TokensRefreshAnnotation := None]}))
    wrap (λ err, Wrapf ("record the recovered lineage of " +:+ agent +:+ ": ") err "");
    deleteSecret (Names.RecoveryRequestSecret agent)
  end.

(** The store the recoverer uses. *)
Definition Secrets X (e : recoveryE X) : prog E X :=
  match e with
  | Recovering => Secrets_Recovering
  | LoadRecovery agent => Secrets_LoadRecovery agent
  | SaveRecovery agent request => Secrets_SaveRecovery agent request
  | RecordRecovered agent lineage => Secrets_Recovered agent lineage
  end.
End secrets.
End Recoverer.
