(* ===== verification/RecovererSpec.v ===== *)
(** What the recoverer promises, whatever the control service and the store of its requests answer: it sends only
    the request it last read persisted, persists one only where it read that none is, and records a lineage only
    as it was answered to the request persisted. *)
From S2P Require Import Prelude GoStd Errors Types Desired Recoverer.
Import GoStd Desired Recoverer.

Module RecovererSpec.

Section spec.
Context `{K8s : Kubernetes}.
Abbreviation fullE := (clientE +' recoveryE +' offerE +' loopE).
Abbreviation history := (list (event fullE)).
Implicit Types (h : history) (agent : string) (s : attempt) (r : recoverer) (request : RecoveryRequest).

(** What is known of an agent's persisted request. *)
Inductive known := Unknown | Holds (o : option RecoveryRequest).

(** What an event tells of it: a read what the store holds, a write that it is to be read again. *)
Definition told agent (ev : event fullE) : option known :=
  match ev with
  | @Ev _ X (InL (InL (InR e))) x =>
    match e in recoveryE X return X → _ with
    | LoadRecovery a => λ x, if bool_decide (a = agent) then match x with Ok o => Some (Holds o) | Err _ => None end else None
    | SaveRecovery a _ => λ _, if bool_decide (a = agent) then Some Unknown else None
    | RecordRecovered a _ => λ _, if bool_decide (a = agent) then Some Unknown else None
    | Recovering => λ _, None
    end x
  | _ => None
  end.
Fixpoint held agent h : known :=
  match h with [] => Unknown | ev :: h => default (held agent h) (told agent ev) end.

(** The last request of an agent that was answered, and its answer. *)
Definition answered_of agent (ev : event fullE) : option (RecoveryRequest * Recovered) :=
  match ev with
  | @Ev _ X (InL (InL (InL e))) x =>
    match e in clientE X return X → _ with
    | SendRecovery a request => λ x,
      if bool_decide (a = agent) then match x with Ok answer => Some (request, answer) | Err _ => None end else None
    | _ => λ _, None
    end x
  | _ => None
  end.
Fixpoint answered agent h : option (RecoveryRequest * Recovered) :=
  match h with [] => None | ev :: h => match answered_of agent ev with Some a => Some a | None => answered agent h end end.

(** The recovery an agent's lineage was last recorded from. *)
Definition records agent (ev : event fullE) : bool :=
  match ev with
  | @Ev _ X (InL (InL (InR e))) x =>
    match e in recoveryE X return X → _ with
    | RecordRecovered a _ => λ x, bool_decide (a = agent) && match x with Ok _ => true | Err _ => false end
    | _ => λ _, false
    end x
  | _ => false
  end.
Fixpoint last_recorded agent h : option string :=
  match h with
  | [] => None
  | ev :: h => if records agent ev then (RecoveryRequest_ID ∘ fst) <$> answered agent h else last_recorded agent h
  end.

Definition read_at (ev : event fullE) : option Time :=
  match ev with
  | @Ev _ X (InR e) x => match e in loopE X return X → _ with LoopNow => λ t, Some t | _ => λ _, None end x
  | _ => None
  end.
Definition read h (t : Time) : Prop := ∃ ev, ev ∈ h ∧ read_at ev = Some t.

(** An open recovery of the agent was offered by an answer of the feed. *)
Definition offered h agent (open : OpenRecovery) : Prop :=
  ∃ o, Ev (InL (InR Offered)) o ∈ h ∧ o !! agent = Some open.

Definition recover_call h X (e : fullE X) : Prop :=
  match e with
  | InL (InL (InL (SendRecovery agent request))) => held agent h = Holds (Some request)
  | InL (InL (InL _)) => False
  | InL (InL (InR (SaveRecovery agent request))) =>
    held agent h = Holds None ∧ ∃ open, offered h agent open ∧
    request = mkRecoveryRequest (OpenRecovery_RequestID open) (OpenRecovery_Epoch open) ∧
    last_recorded agent h ≠ Some (OpenRecovery_RequestID open)
  | InL (InL (InR (RecordRecovered agent lineage))) =>
    ∃ request answer, answered agent h = Some (request, answer) ∧ held agent h = Holds (Some request) ∧
    Recovered_Agent answer = agent ∧ Recovered_RequestID answer = RecoveryRequest_ID request ∧
    Recovered_Epoch answer = RecoveryRequest_Epoch request ∧ Recovered_Lineage answer = lineage ∧ lineage ≠ ""
  | InR (Pause d) => d = recoverPass
  | _ => True
  end.

(** What the loop keeps: each wait bounded, and the recovery each lineage was last recorded from. *)
Definition attempt_ok h s : Prop :=
  (∀ t, attempt_next s = Some t → ∃ now, read h now ∧ transientFirst ≤ t - now ≤ refusedWait) ∧
  (attempt_backoff s = 0 ∨ transientFirst ≤ attempt_backoff s ≤ transientLast).
Definition keeps h r : Prop :=
  (∀ agent, recorded r !! agent = last_recorded agent h) ∧ map_Forall (λ _, attempt_ok h) (attempts r).

Lemma attempt_later h ev s : attempt_ok h s → attempt_ok (ev :: h) s.
Proof.
  intros [Hn Hb]. split; [|done]. intros t (now & (ev' & ? & ?) & ?)%Hn. exists now. split; [|done].
  exists ev'. split; [by right|done].
Qed.
Lemma keeps_later h ev r : (∀ agent, records agent ev = false) → keeps h r → keeps (ev :: h) r.
Proof.
  intros Hev [Hr Ha]. split; [|intros ? ? ?; by eapply attempt_later, Ha].
  intros agent. cbn. by rewrite Hev.
Qed.
Lemma keeps_keep h agent s r : keeps h r → attempt_ok h s → keeps h (keep agent s r).
Proof. intros [Hr Ha] Hs. split; [done|]. by apply map_Forall_insert_2. Qed.
Lemma keeps_forget h agent r : keeps h r → keeps h (forget agent r).
Proof. intros [Hr Ha]. split; [done|]. by apply map_Forall_delete. Qed.
Lemma offer_later h ev agent open : offered h agent open → offered (ev :: h) agent open.
Proof. intros (o & ? & ?). exists o. split; [by right|done]. Qed.

Lemma attempt_at h now d b text :
  transientFirst ≤ d ≤ refusedWait → b = 0 ∨ transientFirst ≤ b ≤ transientLast →
  attempt_ok (Ev (InR LoopNow) now :: h) (mkAttempt (Some (now + d)) b text).
Proof.
  intros Hd Hb. split; [|done]. intros t [= <-]. exists now. split; [|lia].
  exists (Ev (InR LoopNow) now). split; [by left|done].
Qed.
Lemma retry_range b : b = 0 ∨ transientFirst ≤ b ≤ transientLast → transientFirst ≤ retry_backoff b ≤ transientLast.
Proof. unfold retry_backoff, next_backoff, transientFirst, transientLast, Second. case_bool_decide; lia. Qed.

(** The attempt made again later: the clock read, and its wait kept. *)
Lemma retry_spec h agent s r :
  keeps h r → attempt_ok h s →
  safe recover_call keeps h (state ← retryTransient s; mret (keep agent state r)).
Proof.
  intros Hr [_ Hb]. unfold retryTransient. cbn. split; [done|]. intros now.
  apply keeps_keep; [by apply keeps_later|]. pose proof (retry_range _ Hb).
  apply attempt_at; [|by right]. unfold transientLast, refusedWait, Second in *. lia.
Qed.

Lemma send_spec h agent request s r :
  keeps h r → attempt_ok h s → held agent h = Holds (Some request) →
  safe recover_call keeps h (send_persisted agent request s r).
Proof.
  intros Hr Hs Hheld. unfold send_persisted, log. cbn -[retryTransient]. split; [done|]. intros [answer|err].
  - set (h1 := _ :: h). assert (keeps h1 r) as Hr1 by by apply keeps_later.
    assert (attempt_ok h1 s) as Hs1 by by apply attempt_later.
    destruct (_ || _) eqn:Hmatch.
    { cbn. split; [done|]. intros []. cbn. split; [done|]. intros now.
    apply keeps_keep; [by do 2 (apply keeps_later; [done|])|apply attempt_at; [done|apply Hs]]. }
    destruct (decide (Recovered_Lineage answer = "")) as [Hl|Hl].
    { rewrite (bool_decide_true _ Hl). cbn. split; [done|]. intros now. apply keeps_keep; [by apply keeps_later|by apply attempt_at; [|left]]. }
    apply orb_false_iff in Hmatch as [[Ha Hi]%orb_false_iff He].
    apply negb_false_iff, bool_decide_eq_true in Ha, Hi, He.
    rewrite (bool_decide_false _ Hl). cbn -[retryTransient]. split.
    { exists request, answer. cbn. by rewrite bool_decide_true. }
    intros [[]|err]; cbn -[retryTransient]; (split; [done|]); intros [].
    + cbn. destruct Hr1 as [Hrec Hatt]. split.
      * intros a. cbn. destruct (decide (agent = a)) as [<-|Hne].
        -- rewrite !bool_decide_true by done. cbn. by rewrite lookup_insert_eq.
        -- rewrite !bool_decide_false by done. cbn. rewrite lookup_insert_ne by done. rewrite Hrec. done.
      * apply map_Forall_delete. intros ? ? ?. by do 2 apply attempt_later; eapply Hatt.
    + apply retry_spec; [|by do 2 apply attempt_later].
      apply keeps_later; [done|]. apply keeps_later; [|done]. intros a. cbn. by rewrite andb_false_r.
  - destruct (asRefusal err) as [[status kind]|]; cbn -[retryTransient].
    + split; [done|]. intros now. set (h1 := _ :: _ :: h).
      assert (keeps h1 r) as Hr1 by by do 2 (apply keeps_later; [done|]).
      assert (∀ text, attempt_ok h1 (mkAttempt (Some (now + refusedWait)) 0 text)) as Hs1
        by by intros; apply attempt_at; [|left].
      destruct (negb _); cbn; [split; [done|]; intros []|]; apply keeps_keep; try done;
        [by apply keeps_later|by apply attempt_later].
    + split; [done|]. intros []. by apply retry_spec; [do 2 (apply keeps_later; [done|])|do 2 apply attempt_later].
Qed.
Lemma state_of h agent r : keeps h r → attempt_ok h (default zeroAttempt (attempts r !! agent)).
Proof.
  intros [_ Ha]. destruct (attempts r !! agent) as [s|] eqn:Hs; [by apply (Ha agent)|].
  split; [done|by left].
Qed.

Lemma begin_spec h agent open s r :
  keeps h r → attempt_ok h s → held agent h = Holds None → offered h agent open →
  last_recorded agent h ≠ Some (OpenRecovery_RequestID open) →
  safe recover_call keeps h (request ← begin agent open;
    match request with
    | Err _ =>
      _ ← log "Failed to persist the recovery request" [("agent", agent)];
      state ← retryTransient s;
      mret (keep agent state r)
    | Ok request => send_persisted agent request s r
    end).
Proof.
  intros Hr Hs Hheld Ho Hnew. unfold begin, log. cbn -[send_persisted retryTransient]. split.
  { split; [done|]. by exists open. }
  intros [[]|err]; cbn -[send_persisted retryTransient].
  - split; [done|]. intros [[request|]|err]; cbn -[send_persisted retryTransient].
    1: apply send_spec; [by do 2 (apply keeps_later; [done|])|by do 2 apply attempt_later|cbn; by rewrite bool_decide_true].
    all: split; [done|]; intros []; apply retry_spec; [by do 3 (apply keeps_later; [done|])|by do 3 apply attempt_later].
  - split; [done|]. intros []. apply retry_spec; [by do 2 (apply keeps_later; [done|])|by do 2 apply attempt_later].
Qed.

Lemma recover_spec h agent open r :
  keeps h r → (∀ o, open = Some o → offered h agent o) → safe recover_call keeps h (recover agent open r).
Proof.
  intros Hr Ho. unfold recover. pose proof (state_of h agent r Hr) as Hs.
  set (s := default zeroAttempt _) in *. assert (keeps h (keep agent s r)) as Hk by by apply keeps_keep.
  unfold log. cbn -[send_persisted begin retryTransient]. split; [done|]. intros now.
  set (h1 := _ :: h). assert (keeps h1 (keep agent s r)) as Hk1 by by apply keeps_later.
  destruct (match attempt_next s with Some _ => _ | None => _ end); [done|].
  cbn -[send_persisted begin retryTransient]. split; [done|]. intros loaded. set (h2 := _ :: h1).
  assert (keeps h2 (keep agent s r)) as Hk2 by by apply keeps_later.
  assert (attempt_ok h2 s) as Hs2 by by do 2 apply attempt_later.
  destruct loaded as [[request|]|err].
  - apply send_spec; [done..|]. cbn. by rewrite bool_decide_true.
  - destruct open as [o|]; [|by apply keeps_forget]. case_bool_decide as Hrec; [by apply keeps_forget|].
    apply begin_spec; [done|done|cbn; by rewrite bool_decide_true| |].
    + by do 2 apply offer_later; apply Ho.
    + intros Hlast. apply Hrec. pose proof (proj1 Hr agent) as E. cbn in Hlast. by rewrite E, Hlast.
  - cbn -[retryTransient]. split; [done|]. intros []. apply retry_spec; [by apply keeps_later|by apply attempt_later].
Qed.

Lemma recover_each_spec h agents offers r :
  keeps h r → Ev (InL (InR Offered)) offers ∈ h → safe recover_call keeps h (recover_each agents offers r).
Proof.
  revert h r. induction agents as [|agent agents IH]; intros h r Hr Ho; [done|]. cbn [recover_each].
  rewrite safe_bind. eapply safe_mono; [|eapply safe_suffix, recover_spec; [done|by intros o ?; exists offers]].
  intros h' r' [[k ->] Hr']. apply IH; [done|]. apply elem_of_app. by right.
Qed.

Lemma recoverAll_spec h r : keeps h r → safe recover_call keeps h (recoverAll r).
Proof.
  intros Hr. unfold recoverAll, log. cbn. split; [done|]. intros [agents|err]; cbn.
  - split; [done|]. intros offers. split; [done|]. intros order.
    apply recover_each_spec; [by do 3 (apply keeps_later; [done|])|]. right. by left.
  - split; [done|]. intros []. by do 2 (apply keeps_later; [done|]).
Qed.

Lemma passes_keep n h r : keeps h r → safe recover_call keeps h (Start n r).
Proof.
  revert h r. induction n as [|n IH]; intros h r Hr; [done|]. cbn [Start]. cbn -[recoverAll]. split; [done|].
  intros [|]; [by apply keeps_later|]. rewrite safe_bind. eapply safe_mono, recoverAll_spec, keeps_later; [|done..].
  intros h' r' Hr'. cbn. split; [done|]. intros []. by apply IH, keeps_later.
Qed.

(** C26: Whatever the control service, its feed and the store of requests answer, over any number of passes: the
recoverer sends only the request it read persisted, unwritten since; persists one only where it read that none
is, of the recovery the feed offers, and not of the one the agent's lineage was last recorded from; records a
lineage only as the answer to the request persisted, of the same agent, request and epoch, gave it; and keeps no
wait further than the refusal's past a reading of the clock. *)
Theorem recovery_sends_persisted n : safe recover_call keeps [] (Start n NewRecoverer).
Proof. apply passes_keep. by split. Qed.
End spec.
End RecovererSpec.
