(* ===== verification/Refresher.v ===== *)
(** The refresher of the agents' tokens ([src/internal/garam/refresher.go], [garam.go], [token_store.go]), the client
    it mints through ([client.go]) and the Secrets it writes them to ([constructor/tokens.go]). *)
From S2P Require Import Prelude GoStd GoTime Json JsonText Errors Types Kube Names AgentApi Workload Execution Desired Machine.
Import GoStd GoTime Json JsonText Machine.

Module Refresher.

(** ** garam.go, token_store.go *)
Record AgentToken := mkAgentToken {
  AgentToken_Token : string;
  AgentToken_Epoch : Z;
  AgentToken_ExpiresAt : Time;
  AgentToken_ServerRootPEM : string;
}.
#[global] Instance AgentToken_eq_dec : EqDecision AgentToken.
Proof. solve_decision. Defined.
Definition zeroToken : AgentToken := mkAgentToken "" 0 zeroTime "".

(** [TokenHolder]: an agent whose tokens this operator mints, or why it could not be read. *)
Record TokenHolder := mkHolder {
  Holder_Agent : string;
  Holder_Epoch : Z;
  Holder_Due : Time;
  Holder_Version : string;
  Holder_Err : option error;
}.
#[global] Instance TokenHolder_eq_dec : EqDecision TokenHolder.
Proof. solve_decision. Defined.

Record Tokens := mkTokens { Tokens_Garam : AgentToken; Tokens_Control : AgentToken }.
#[global] Instance Tokens_eq_dec : EqDecision Tokens.
Proof. solve_decision. Defined.
Definition noTokens : Tokens := mkTokens zeroToken zeroToken.

(** The interface [TokenStore]; the client's one method; and what the refresher reads and tells of its own: its
    clock and its log ([Desired.loopE]), the 64 random bits a refresh is placed by, and the refusals it counts. *)
Inductive storeE : Type → Type :=
| Holders : storeE (result (list TokenHolder))
| Store (holder : TokenHolder) (tokens : Tokens) (due : Time) : storeE (result ()).
Inductive mintE : Type → Type :=
| MintAgentToken (agent audience : string) : mintE (result AgentToken).
Inductive refreshE : Type → Type :=
| RandomBits : refreshE Z
| CountRefusal (status : Z) : refreshE ().

(** ** client.go *)
Definition tokenContract := "machine-token.v1".

(** [agentTokenPayload]; a missing time is the zero one. *)
Record agentTokenPayload := mkPayload {
  payload_Token : string; payload_GRN : string; payload_Epoch : Z; payload_Audience : string;
  payload_ExpiresAt : option Time; payload_ServerRootPEM : string }.
Definition zeroPayload : agentTokenPayload := mkPayload "" "" 0 "" None "".
Definition payload_fields `{TJ : Execution.TimeJSON} : list (field agentTokenPayload) :=
  let with_ f := λ i, f (payload_Token i) (payload_GRN i) (payload_Epoch i) (payload_Audience i) (payload_ExpiresAt i)
    (payload_ServerRootPEM i) in
  [at_field "token" into_string payload_Token (λ i x, with_ (λ _ b c d e f, mkPayload x b c d e f) i);
   at_field "grn" into_string payload_GRN (λ i x, with_ (λ a _ c d e f, mkPayload a x c d e f) i);
   at_field "epoch" into_int64 payload_Epoch (λ i x, with_ (λ a b _ d e f, mkPayload a b x d e f) i);
   at_field "audience" into_string payload_Audience (λ i x, with_ (λ a b c _ e f, mkPayload a b c x e f) i);
   at_field "expiresAt" Execution.into_time payload_ExpiresAt (λ i x, with_ (λ a b c d _ f, mkPayload a b c d x f) i);
   at_field "serverRootPem" into_string payload_ServerRootPEM (λ i x, with_ (λ a b c d e _, mkPayload a b c d e x) i)].

(** [agentToken]. *)
Definition agentToken (p : agentTokenPayload) (agent audience : string) : result AgentToken :=
  if negb (Execution.agentTokenPattern (payload_Token p)) then
    Err (Errorf ("a token garam minted for " +:+ agent +:+ " is not an agent token"))
  else if negb (bool_decide (payload_GRN p = agent)) || negb (bool_decide (payload_Audience p = audience)) then
    Err (Errorf ("garam minted a token for " +:+ payload_GRN p +:+ " and audience " +:+ quote (payload_Audience p) +:+
                 ", not " +:+ agent +:+ " and " +:+ quote audience))
  else match payload_ExpiresAt p with
  | Some expires =>
      if bool_decide (payload_Epoch p < 1) || bool_decide (payload_ServerRootPEM p = "")
      then Err (Errorf ("a token garam minted for " +:+ agent +:+ " carries no epoch, expiry or server root"))
      else Ok (mkAgentToken (payload_Token p) (payload_Epoch p) expires (payload_ServerRootPEM p))
  | None => Err (Errorf ("a token garam minted for " +:+ agent +:+ " carries no epoch, expiry or server root"))
  end.

(** [refusalFrom]. *)
Definition refusalFrom (status : Z) (body : string) : error :=
  match Unmarshal (into_struct false Desired.error_fields) ("", "") body with
  | None => GaramRefusal status "" ""
  | Some (kind, message) => GaramRefusal status kind message
  end.

Section client.
Context {E : Type → Type} `{!SubEvent httpE E}.
(** The machine listener's host and port, and what the JSON decoder says of a text it refuses. *)
Context (address : string) (malformed : string → string).

(** [send] of a JSON body, its answer decoded into a variable. *)
Definition send {T} (method path contract : string) (body : json) (i : into T) (zero : T) : prog E (result T) :=
  let url := "https://" +:+ address +:+ path in
  _ ←? call (NewRequest method url);
  let headers := {["Content-Type" := "application/json"]} in
  let headers := if bool_decide (contract = "") then headers else <[contractHeader := contract]> headers in
  response ←? call (RoundTrip (mkWireRequest method url headers (Some (Marshal body))));
  answered ←? lift (read_all response);
  let got := answer_header response contractHeader in
  let status := answer_status response in
  if negb (bool_decide (contract = "")) && negb (bool_decide (got = contract)) then
  mret (Err (Errorf ("garam answered " +:+ FormatInt status +:+ " under contract " +:+ quote got +:+ ", want " +:+ quote contract)))
  else if bool_decide (400 ≤ status) then mret (Err (refusalFrom status answered))
  else match Unmarshal i zero answered with
  | Some out => mret (Ok out)
  | None => mret (Err (Wrapf "decode what garam answered: " (Errorf (malformed answered)) ""))
  end.

Definition Mint `{TJ : Execution.TimeJSON} (agent audience : string) : prog E (result AgentToken) :=
  answered ← send "POST" ("/agents/" +:+ Desired.PathEscape agent +:+ "/tokens") tokenContract
  (JObject (if bool_decide (audience = "") then [] else [("audience", JString audience)]))
  (into_struct false payload_fields) zeroPayload;
  match answered with
  | Err err =>
    match asGaramRefusal err with
    | Some (403, kind, message) =>
      mret (Err (Wrapf2 ("mint a token for " +:+ agent +:+ ": ") ErrAgentNotHeld ": " (GaramRefusal 403 kind message) ""))
    | _ => mret (Err (Wrapf ("mint a token for " +:+ agent +:+ ": ") err ""))
    end
  | Ok answered => lift (agentToken answered agent audience)
  end.
Definition Minter `{TJ : Execution.TimeJSON} X (e : mintE X) : prog E X :=
  match e with MintAgentToken agent audience => Mint agent audience end.
End client.

(** ** refresher.go *)
Definition refreshPass : Z := 10 * Second.
Definition refusedWait : Z := 300 * Second.
Definition failedWait : Z := 30 * Second.

(** [windowStart] and [windowEnd - windowStart], constants rounded to float64; and the point [NewRefresher] draws
    between them, [rand.Float64] of 53 random bits. *)
Definition windowStart : float64 := Eval vm_compute in div64 (float64_of 2) (float64_of 3).
Definition windowSpan : float64 := Eval vm_compute in div64 (float64_of 1) (float64_of 12).
Definition Float64 (bits : Z) : float64 := div64 (float64_of (Z.land bits (2 ^ 53 - 1))) (float64_of (2 ^ 53)).
Definition window (bits : Z) : float64 := add64 windowStart (mul64 (Float64 bits) windowSpan).
(** [time.Duration(float64(lifetime) * r.Window())]. *)
Definition part_of (lifetime : Z) (point : float64) : Z := int_of (mul64 (float64_of lifetime) point).

(** [unwritten]: tokens minted against one version of a Secret. *)
Record unwritten := mkUnwritten { unwritten_version : string; unwritten_minted : Time; unwritten_tokens : Tokens }.

Record refresher := mkRefresher { waiting : gmap string Time; unwritten_of : gmap string unwritten }.
Definition NewRefresher : refresher := mkRefresher ∅ ∅.
Definition with_waiting (f : gmap string Time → gmap string Time) (r : refresher) : refresher :=
  mkRefresher (f (waiting r)) (unwritten_of r).
Definition with_unwritten (f : gmap string unwritten → gmap string unwritten) (r : refresher) : refresher :=
  mkRefresher (waiting r) (f (unwritten_of r)).

(** The earlier expiry of the two tokens. *)
Definition expires_of (tokens : Tokens) : Time :=
  if bool_decide (AgentToken_ExpiresAt (Tokens_Control tokens) < AgentToken_ExpiresAt (Tokens_Garam tokens))
  then AgentToken_ExpiresAt (Tokens_Control tokens) else AgentToken_ExpiresAt (Tokens_Garam tokens).

Section refresher.
Context {E : Type → Type} `{!SubEvent storeE E, !SubEvent mintE E, !SubEvent refreshE E, !SubEvent Desired.loopE E}.
Context (controlAudience : string).
Implicit Types (r : refresher).

Definition log text attributes : prog E () := call (Desired.LoopLog text attributes).

(** [mint], its refusal counted. *)
Definition mint (holder : TokenHolder) (audience : string) : prog E (result AgentToken) :=
  minted ← call (MintAgentToken (Holder_Agent holder) audience);
  match minted with
  | Err err =>
    _ ← match asGaramRefusal err with Some (status, _, _) => call (CountRefusal status) | None => mret tt end;
    mret (Err err)
  | Ok token =>
    if negb (bool_decide (Holder_Epoch holder = 0)) && negb (bool_decide (AgentToken_Epoch token = Holder_Epoch holder)) then
    mret (Err (Wrapf ("mint a token for " +:+ Holder_Agent holder +:+ ": ") ErrMintEpochSuperseded
      (": minted at " +:+ FormatInt (AgentToken_Epoch token) +:+ ", the spec names " +:+ FormatInt (Holder_Epoch holder))))
    else mret (Ok token)
  end.

(** What an earlier attempt left of the holder's tokens that may be written, or nothing minted yet. *)
Definition held_of (holder : TokenHolder) (now : Time) r : unwritten :=
  match unwritten_of r !! Holder_Agent holder with
  | Some held =>
    if negb (bool_decide (unwritten_version held = Holder_Version holder)) ||
    negb (bool_decide (now < AgentToken_ExpiresAt (Tokens_Garam (unwritten_tokens held))))
    then mkUnwritten (Holder_Version holder) now noTokens else held
  | None => mkUnwritten (Holder_Version holder) now noTokens
  end.
Definition keep (holder : TokenHolder) (held : unwritten) r : refresher :=
  with_unwritten <[Holder_Agent holder := held]> r.

(** The first token, minted where it is not held. *)
Definition mint_garam holder (held : unwritten) r : prog E (result unwritten * refresher) :=
  if bool_decide (AgentToken_Token (Tokens_Garam (unwritten_tokens held)) = "") then
  token ← mint holder "";
  match token with
  | Err err => mret (Err err, r)
  | Ok token =>
    let held := mkUnwritten (unwritten_version held) (unwritten_minted held)
    (mkTokens token (Tokens_Control (unwritten_tokens held))) in
    mret (Ok held, keep holder held r)
  end
  else mret (Ok held, r).
(** And the second. *)
Definition mint_control holder (held : unwritten) r : prog E (result unwritten * refresher) :=
  if bool_decide (AgentToken_Token (Tokens_Control (unwritten_tokens held)) = "") then
  token ← mint holder controlAudience;
  match token with
  | Err err => mret (Err err, r)
  | Ok token =>
    let held := mkUnwritten (unwritten_version held) (unwritten_minted held)
    (mkTokens (Tokens_Garam (unwritten_tokens held)) token) in
    mret (Ok held, keep holder held r)
  end
  else mret (Ok held, r).

(** [refresh], of one holder. *)
Definition refresh (holder : TokenHolder) r : prog E (result () * refresher) :=
  now ← call Desired.LoopNow;
  '(garam, r) ← mint_garam holder (held_of holder now r) r;
  match garam with
  | Err err => mret (Err err, r)
  | Ok held =>
    '(control, r) ← mint_control holder held r;
    match control with
    | Err err => mret (Err err, r)
    | Ok held =>
      bits ← call RandomBits;
      let due := unwritten_minted held + part_of (Sub (expires_of (unwritten_tokens held)) (unwritten_minted held)) (window bits) in
      stored ← call (Store holder (unwritten_tokens held) due);
      match stored with
      | Err err => mret (Err (Wrapf ("write the tokens of " +:+ Holder_Agent holder +:+ ": ") err ""), r)
      | Ok _ => mret (Ok tt, with_unwritten (delete (Holder_Agent holder)) r)
      end
    end
  end.

(** How long a failed agent waits. *)
Definition pause_of (err : error) : Z :=
  if errors_is err ErrAgentNotHeld || errors_is err ErrMintEpochSuperseded || errors_is err ErrEpochUnreadable
  then refusedWait else failedWait.

(** One holder of a pass. *)
Definition refresh_one (holder : TokenHolder) r : prog E refresher :=
  let agent := Holder_Agent holder in
  now ← call Desired.LoopNow;
  if (bool_decide (Holder_Err holder = None) && bool_decide (now < Holder_Due holder)) ||
  bool_decide (now < default zeroTime (waiting r !! agent))
  then mret r
  else
  '(refreshed, r) ← match Holder_Err holder with Some err => mret (Err err, r) | None => refresh holder r end;
  match refreshed with
  | Err err =>
    _ ← log "Failed to refresh an agent's tokens" [("agent", agent); ("error", error_text err)];
    mret (with_waiting <[agent := now + pause_of err]> r)
  | Ok _ => mret (with_waiting (delete agent) r)
  end.
Fixpoint refresh_each (holders : list TokenHolder) r : prog E refresher :=
  match holders with
  | [] => mret r
  | holder :: holders => r ← refresh_one holder r; refresh_each holders r
  end.

(** [Refresh]: a pass, and what is forgotten of the agents no longer listed. *)
Definition Refresh r : prog E refresher :=
  holders ← call Holders;
  match holders with
  | Err err => _ ← log "Failed to list the agents whose tokens this operator keeps" [("error", error_text err)]; mret r
  | Ok holders =>
    r ← refresh_each holders r;
    let listed : gset string := list_to_set (Holder_Agent <$> holders) in
    mret (mkRefresher (filter (λ kv, kv.1 ∈ listed) (waiting r)) (filter (λ kv, kv.1 ∈ listed) (unwritten_of r)))
  end.

(** [Start], for [n] passes at most. *)
Fixpoint Start (n : nat) r : prog E refresher :=
  match n with
  | O => mret r
  | S n =>
    cancelled ← call Desired.Cancelled;
    if (cancelled : bool) then mret r
    else r ← Refresh r; _ ← call (Desired.Pause refreshPass); Start n r
  end.
End refresher.

(** ** constructor/tokens.go *)
Section tokens.
Context `{K8s : Kubernetes}.

(** The store's calls on the API server: a Secret's metadata is its version and its annotations; a Secret is
created owned by the Agent read, and patched under the version read. *)
Inductive tokensE : Type → Type :=
| ListAgents (namespace : string) : tokensE (result (list AgentApi.Agent))
| GetAgent (namespace name : string) : tokensE (result AgentApi.Agent)
| GetMetadata (namespace name : string) : tokensE (result (string * gmap string string))
| CreateOwned (owner : AgentApi.Agent) (namespace name : string) (annotations data : gmap string string) : tokensE (result ())
| PatchAt (namespace name version : string) (annotations data : gmap string string) : tokensE (result ()).

Context {E : Type → Type} `{!SubEvent tokensE E}.
Context (namespace : string).
(** [controllerutil.SetControllerReference] of an owner. *)
Context (SetControllerReference : AgentApi.Agent → result ()).

Definition with_due (h : TokenHolder) version due : TokenHolder :=
  mkHolder (Holder_Agent h) (Holder_Epoch h) due version (Holder_Err h).
Definition with_err (h : TokenHolder) (err : error) : TokenHolder :=
  mkHolder (Holder_Agent h) (Holder_Epoch h) (Holder_Due h) (Holder_Version h) (Some err).

(** [readDue]: the holder with what was read, or why it was not. *)
Definition readDue (h : TokenHolder) : prog E TokenHolder :=
  read ← call (GetMetadata namespace (Names.CredentialsSecret (Holder_Agent h)));
  match read with
  | Err err =>
    if IsNotFound err then mret h
    else mret (with_err h (Wrapf ("get the credential of " +:+ Holder_Agent h +:+ ": ") err ""))
  | Ok (version, annotations) =>
    mret (with_due h version
      match annotations !! Names.TokensRefreshAnnotation with
      | Some due => default (Holder_Due h) (ParseRFC3339 due)
      | None => Holder_Due h
      end)
  end.

Fixpoint holders_of (agents : list AgentApi.Agent) : prog E (list TokenHolder) :=
  match agents with
  | [] => mret []
  | agent :: agents =>
    match AgentApi.Spec_Identity (AgentApi.Agent_Spec agent) with
    | None => holders_of agents
    | Some identity =>
      let grn := AgentApi.Identity_GRN identity in
      let epoch := AgentApi.Identity_AssignmentEpoch identity in
      holder ← match (if bool_decide (epoch = "") then Some 0 else ParseInt epoch) with
      | Some parsed => readDue (mkHolder grn parsed zeroTime "" None)
      | None => mret (mkHolder grn 0 zeroTime ""
          (Some (Wrapf ("read the epoch " +:+ quote epoch +:+ " of " +:+ grn +:+ ": ") ErrEpochUnreadable "")))
      end;
      rest ← holders_of agents;
      mret (holder :: rest)
    end
  end.
Definition Tokens_Holders : prog E (result (list TokenHolder)) :=
  agents ←? call (ListAgents namespace) wrap (λ err, Wrapf "list the agents: " err "");
  holders ← holders_of agents;
  mret (Ok holders).

Definition tokenData (tokens : Tokens) : gmap string string :=
  <[Workload.TokenKey := AgentToken_Token (Tokens_Garam tokens)]>
  (<[Workload.ControlTokenKey := AgentToken_Token (Tokens_Control tokens)]>
    {[Workload.ServerRootKey := AgentToken_ServerRootPEM (Tokens_Garam tokens)]}).

Definition Tokens_Store (holder : TokenHolder) (tokens : Tokens) (due : Time) : prog E (result ()) :=
  let agent := Holder_Agent holder in
  let annotations := {[Names.TokensRefreshAnnotation := FormatRFC3339 due]} in
  let name := Names.CredentialsSecret agent in
  if bool_decide (Holder_Version holder = "") then
  owner ←? call (GetAgent namespace (Names.Agent agent)) wrap (λ err, Wrapf ("get the agent of " +:+ agent +:+ ": ") err "");
  _ ←? lift (SetControllerReference owner) wrap (λ err, Wrapf ("own the credential of " +:+ agent +:+ ": ") err "");
  _ ←? call (CreateOwned owner namespace name annotations (tokenData tokens))
  wrap (λ err, Wrapf ("create the credential of " +:+ agent +:+ ": ") err "");
  mret (Ok tt)
  else
  _ ←? call (PatchAt namespace name (Holder_Version holder) annotations (tokenData tokens))
  wrap (λ err, Wrapf ("write the tokens of " +:+ agent +:+ ": ") err "");
  mret (Ok tt).

(** The store the refresher uses. *)
Definition TokenStore X (e : storeE X) : prog E X :=
  match e with
  | Holders => Tokens_Holders
  | Store holder tokens due => Tokens_Store holder tokens due
  end.
End tokens.
End Refresher.
