(* ===== verification/RefresherSpec.v ===== *)
(** What the refresher promises over any number of passes, whatever garam, the API server and the clock answer: what it
    writes is what garam minted for the agent, against the Secret it writes over; that the time it writes is read back;
    and that a token kept for a retry is not checked against an epoch the spec named since. *)
From S2P Require Import Prelude GoStd GoTime Errors Types Samples Names AgentApi Workload Desired Machine Refresher.
Import GoStd GoTime Refresher.

Module RefresherSpec.

Section spec.
Context (controlAudience : string).
Abbreviation fullE := (storeE +' mintE +' refreshE +' Desired.loopE).
Abbreviation history := (list (event fullE)).
Implicit Types (h : history) (r : refresher).

(** A holder of the agents listed. *)
Definition listed h (holder : TokenHolder) : Prop :=
  ∃ holders, Ev (InL (InL (InL Holders)) : fullE _) (Ok holders) ∈ h ∧ holder ∈ holders ∧ Holder_Err holder = None.
(** garam minted a token for a holder of the agent, against the version of its Secret, at the epoch its spec named. *)
Definition minted_for h (agent version audience : string) (token : AgentToken) : Prop :=
  ∃ holder, listed h holder ∧ Holder_Agent holder = agent ∧ Holder_Version holder = version ∧
  (Holder_Epoch holder = 0 ∨ AgentToken_Epoch token = Holder_Epoch holder) ∧
  Ev (InL (InL (InR (MintAgentToken agent audience))) : fullE _) (Ok token) ∈ h.

Definition refresh_call h X (e : fullE X) : Prop :=
  match e with
  | InL (InL (InL (Store holder tokens _))) =>
    listed h holder ∧
    minted_for h (Holder_Agent holder) (Holder_Version holder) "" (Tokens_Garam tokens) ∧
    minted_for h (Holder_Agent holder) (Holder_Version holder) controlAudience (Tokens_Control tokens)
  | InL (InL (InR (MintAgentToken agent audience))) =>
    (audience = "" ∨ audience = controlAudience) ∧ ∃ holder, listed h holder ∧ Holder_Agent holder = agent
  | _ => True
  end.

(** Tokens kept: each is the zero one or was minted against the version they are kept for. *)
Definition kept h (agent : string) (held : unwritten) : Prop :=
  let token audience t := AgentToken_Token t = "" ∨ minted_for h agent (unwritten_version held) audience t in
  token "" (Tokens_Garam (unwritten_tokens held)) ∧ token controlAudience (Tokens_Control (unwritten_tokens held)).
Definition keeps h r : Prop := ∀ agent held, unwritten_of r !! agent = Some held → kept h agent held.

Lemma listed_later h h' holder : h `suffix_of` h' → listed h holder → listed h' holder.
Proof. intros [l ->] (hs & Hin & ?). exists hs. split; [|done]. apply elem_of_app. by right. Qed.
Lemma minted_later h h' agent version audience token :
  h `suffix_of` h' → minted_for h agent version audience token → minted_for h' agent version audience token.
Proof.
  intros Hs (holder & Hl & ? & ? & ? & Hin). exists holder. split; [by eapply listed_later|]. split_and!; try done.
  destruct Hs as [l ->]. apply elem_of_app. by right.
Qed.
Lemma tokens_kept_later h h' agent held : h `suffix_of` h' → kept h agent held → kept h' agent held.
Proof. intros Hs [[?|?] [?|?]]; (split; [first [by left|right; by eapply minted_later]..]). Qed.
Lemma tokens_later h h' r : h `suffix_of` h' → keeps h r → keeps h' r.
Proof. intros Hs Hk agent held Hh. by eapply tokens_kept_later, Hk. Qed.
Lemma tokens_keep h r holder held : keeps h r → kept h (Holder_Agent holder) held → keeps h (keep holder held r).
Proof.
  intros Hk Hh agent held'. unfold keep, with_unwritten. cbn. intros [[<- <-]|[_ ?]]%lookup_insert_cases; [done|by apply Hk].
Qed.
Lemma later_one h X (e : fullE X) x : h `suffix_of` Ev e x :: h.
Proof. by eexists [_]. Qed.
Hint Resolve later_one : core.

Section holder.
Context (holder : TokenHolder).

(** One token, minted for the holder. *)
Lemma mint_safe h audience Q :
  listed h holder → (audience = "" ∨ audience = controlAudience) →
  (∀ h' token, h `suffix_of` h' → minted_for h' (Holder_Agent holder) (Holder_Version holder) audience token → Q h' (Ok token)) →
  (∀ h' err, h `suffix_of` h' → Q h' (Err err)) →
  safe refresh_call Q h (mint holder audience).
Proof.
  intros Hl Ha Hok Herr. split; [split; [done|by exists holder]|]. intros [token|err]; cbn.
  2: { destruct (asGaramRefusal err) as [[[status kind] message]|]; cbn; [|by apply Herr].
  split; [done|]. intros []. cbn. apply Herr. by eexists [_; _]. }
  destruct (negb (bool_decide (Holder_Epoch holder = 0)) && negb (bool_decide (AgentToken_Epoch token = Holder_Epoch holder))) eqn:He.
  { by apply Herr. }
  apply Hok; [done|]. exists holder. split; [eapply listed_later; [apply later_one|exact Hl]|]. split_and!; [done|done| |by left].
  apply andb_false_iff in He as [He|He]; apply negb_false_iff, bool_decide_eq_true in He; [by left|by right].
Qed.

(** The tokens to write, minted or kept, and what is kept of them. *)
Definition written h (garam control : bool) (answer : result unwritten * refresher) : Prop :=
  keeps h answer.2 ∧
  match answer.1 with
  | Ok held => unwritten_version held = Holder_Version holder ∧ kept h (Holder_Agent holder) held ∧
    (garam = true → minted_for h (Holder_Agent holder) (Holder_Version holder) "" (Tokens_Garam (unwritten_tokens held))) ∧
    (control = true → minted_for h (Holder_Agent holder) (Holder_Version holder) controlAudience (Tokens_Control (unwritten_tokens held)))
  | Err _ => True
  end.

Lemma held_of_kept h now r :
  keeps h r → unwritten_version (held_of holder now r) = Holder_Version holder ∧ kept h (Holder_Agent holder) (held_of holder now r).
Proof.
  intros Hk. unfold held_of. destruct (unwritten_of r !! Holder_Agent holder) as [held|] eqn:Hu; [|by repeat split; left].
  destruct (negb _ || _) eqn:Hc; [by repeat split; left|]. split; [|by apply Hk].
  by apply orb_false_iff in Hc as [Hc%negb_false_iff%bool_decide_eq_true _].
Qed.

Lemma mint_garam_safe h held r :
  listed h holder → keeps h r → unwritten_version held = Holder_Version holder → kept h (Holder_Agent holder) held →
  safe refresh_call (λ h' answer, h `suffix_of` h' ∧ written h' true false answer) h (mint_garam holder held r).
Proof.
  intros Hl Hk Hv Hh. unfold mint_garam. case_bool_decide as He.
  2: { split; [done|]. split; [done|]. destruct Hh as [Hg Hc]. split_and!; [done|done| |done]. intros _.
  destruct Hg as [?|Hg]; [done|]. by rewrite <- Hv. }
  rewrite safe_bind. apply mint_safe; [done|by left|..].
  - intros h' token Hs Hm. cbn. split; [done|]. destruct (tokens_kept_later _ _ _ _ Hs Hh) as [_ Hc].
    assert (kept h' (Holder_Agent holder) (mkUnwritten (unwritten_version held) (unwritten_minted held)
      (mkTokens token (Tokens_Control (unwritten_tokens held))))) as Hk'.
    { split; [right; cbn; by rewrite Hv|exact Hc]. }
    split; [|by split_and!]. apply tokens_keep; [by eapply tokens_later|done].
  - intros h' err Hs. cbn. split; [done|]. split; [by eapply tokens_later|done].
Qed.

Lemma mint_control_safe h held r :
  listed h holder → keeps h r → unwritten_version held = Holder_Version holder → kept h (Holder_Agent holder) held →
  minted_for h (Holder_Agent holder) (Holder_Version holder) "" (Tokens_Garam (unwritten_tokens held)) →
  safe refresh_call (λ h' answer, h `suffix_of` h' ∧ written h' true true answer) h (mint_control controlAudience holder held r).
Proof.
  intros Hl Hk Hv Hh Hg. unfold mint_control. case_bool_decide as He.
  2: { split; [done|]. split; [done|]. split_and!; try done. intros _. destruct Hh as [_ [?|Hc]]; [done|]. by rewrite <- Hv. }
  rewrite safe_bind. apply mint_safe; [done|by right|..].
  - intros h' token Hs Hm. cbn. split; [done|]. destruct (tokens_kept_later _ _ _ _ Hs Hh) as [Hg' _].
    assert (kept h' (Holder_Agent holder) (mkUnwritten (unwritten_version held) (unwritten_minted held)
      (mkTokens (Tokens_Garam (unwritten_tokens held)) token))) as Hk'.
    { split; [exact Hg'|right; cbn; by rewrite Hv]. }
    split; [|split_and!; try done; intros _; by eapply minted_later]. apply tokens_keep; [by eapply tokens_later|done].
  - intros h' err Hs. cbn. split; [done|]. split; [by eapply tokens_later|done].
Qed.

Lemma tokens_forget h r agent : keeps h r → keeps h (with_unwritten (delete agent) r).
Proof. intros Hk agent' held. cbn. intros [_ Hu]%lookup_delete_Some. by apply Hk. Qed.

Lemma refresh_safe h r :
  listed h holder → keeps h r →
  safe refresh_call (λ h' answer, h `suffix_of` h' ∧ keeps h' answer.2) h (refresh controlAudience holder r).
Proof.
  intros Hl Hk. unfold refresh. apply safe_call. split; [done|]. intros now. rewrite safe_bind.
  pose proof (later_one h _ (inject Desired.LoopNow) now) as Hs0.
  destruct (held_of_kept _ now r (tokens_later _ _ _ Hs0 Hk)) as [Hv Hh].
  eapply safe_mono, mint_garam_safe; [|by eapply listed_later|by eapply tokens_later|exact Hv|exact Hh].
  intros h1 [garam r1] (Hs1 & Hk1 & Hw1). cbn in Hk1, Hw1. destruct garam as [held|err].
  2: { split; [by etrans|done]. }
  destruct Hw1 as (Hv1 & Hh1 & Hg1 & _). rewrite safe_bind.
  assert (h `suffix_of` h1) as Hs1' by by etrans.
  eapply safe_mono, mint_control_safe; [|by eapply listed_later|done|done|done|by apply Hg1].
  intros h2 [control r2] (Hs2 & Hk2 & Hw2). cbn in Hk2, Hw2. destruct control as [held2|err].
  2: { split; [by etrans|done]. }
  destruct Hw2 as (Hv2 & Hh2 & Hg2 & Hc2). assert (h `suffix_of` h2) as Hs2' by by etrans.
  apply safe_call. split; [done|]. intros bits. pose proof (later_one h2 _ (inject RandomBits) bits) as Hs3.
  apply safe_call. split.
  { split_and!; [by eapply listed_later; [etrans; [exact Hs2'|exact Hs3]|]|eapply minted_later; [exact Hs3|by apply Hg2]
      |eapply minted_later; [exact Hs3|by apply Hc2]]. }
  intros stored. cbn.
  assert (∀ r', keeps h2 r' → h `suffix_of` (Ev (inject (Store holder (unwritten_tokens held2) (unwritten_minted held2 +
    part_of (Sub (expires_of (unwritten_tokens held2)) (unwritten_minted held2)) (window bits)))) stored
    :: Ev (inject RandomBits) bits :: h2 : history) ∧ keeps (Ev (inject (Store holder (unwritten_tokens held2) (unwritten_minted held2 +
    part_of (Sub (expires_of (unwritten_tokens held2)) (unwritten_minted held2)) (window bits)))) stored
    :: Ev (inject RandomBits) bits :: h2 : history) r') as Hend.
  { intros r' Hk'. split; [|eapply tokens_later; [|exact Hk']; by eexists [_; _]]. etrans; [exact Hs2'|]. by eexists [_; _]. }
  destruct stored as [[]|err]; apply Hend; [by apply tokens_forget|done].
Qed.
End holder.

Lemma refresh_one_safe h r holder :
  (Holder_Err holder = None → listed h holder) → keeps h r →
  safe refresh_call (λ h' r', h `suffix_of` h' ∧ keeps h' r') h (refresh_one controlAudience holder r).
Proof.
  intros Hl Hk. unfold refresh_one. apply safe_call. split; [done|]. intros now.
  pose proof (later_one h _ (inject Desired.LoopNow) now) as Hs0. pose proof (tokens_later _ _ _ Hs0 Hk) as Hk0.
  destruct (_ || _); [done|]. rewrite safe_bind.
  apply safe_mono with (λ h' answer, h `suffix_of` h' ∧ keeps h' answer.2).
  - intros h' [[[]|err] r'] [Hs Hk']; cbn in Hk'; [done|]. unfold log. apply safe_call. split; [done|]. intros [].
    split; [by etrans|]. by eapply tokens_later; [apply later_one|].
  - destruct (Holder_Err holder) as [err|] eqn:He; [done|].
    eapply safe_mono, refresh_safe; [|eapply listed_later; [exact Hs0|by apply Hl]|done].
    intros h' answer [Hs ?]. split; [by etrans|done].
Qed.

Lemma refresh_each_safe h r holders :
  (∀ holder, holder ∈ holders → Holder_Err holder = None → listed h holder) → keeps h r →
  safe refresh_call keeps h (refresh_each controlAudience holders r).
Proof.
  revert h r. induction holders as [|holder holders IH]; intros h r Hl Hk; [done|]. cbn [refresh_each]. rewrite safe_bind.
  eapply safe_mono, refresh_one_safe; [|intros He; apply Hl; [by left|done]|done].
  intros h' r' [Hs Hk']. apply IH; [|done]. intros holder' Hin He. eapply listed_later; [exact Hs|]. apply Hl; [by right|done].
Qed.

Lemma Refresh_safe h r : keeps h r → safe refresh_call keeps h (Refresh controlAudience r).
Proof.
  intros Hk. unfold Refresh. apply safe_call. split; [done|]. intros [holders|err].
  2: { unfold log. apply safe_call. split; [done|]. intros []. eapply tokens_later; [|exact Hk]. by eexists [_; _]. }
  rewrite safe_bind. eapply safe_mono, refresh_each_safe.
  - intros h' r' Hk' agent held. cbn. intros [Hu _]%map_lookup_filter_Some. by apply Hk'.
  - intros holder Hin He. exists holders. split_and!; [by left|done|done].
  - eapply tokens_later; [apply later_one|done].
Qed.

Lemma Start_safe n h r : keeps h r → safe refresh_call keeps h (Start controlAudience n r).
Proof.
  revert h r. induction n as [|n IH]; intros h r Hk; [done|]. cbn [Start].
  apply safe_call. split; [done|]. intros [|]; [by eapply tokens_later; [apply later_one|]|].
  rewrite safe_bind. eapply safe_mono, Refresh_safe; [|by eapply tokens_later; [apply later_one|]].
  intros h' r' Hk'. apply safe_call. split; [done|]. intros []. apply IH. by eapply tokens_later; [apply later_one|].
Qed.

(** C21: Over any number of passes, whatever garam, the API server and the clock answer, tokens are written only for an
agent listed whose holding could be read, and are those garam minted for that agent, for garam and for the control
service, for a holder listed with the version of the Secret they are written over and at the epoch that holder's spec
named; and nothing is minted for an agent not listed. *)
Theorem tokens_written_as_minted n : safe refresh_call (λ _ _, True) [] (Start controlAudience n NewRefresher).
Proof. eapply safe_mono, Start_safe; [done|]. by intros agent held ?. Qed.
End spec.

(** ** A token kept for a retry *)

(** Two passes over one agent: its first tokens are minted at epoch 1 and not written; the spec then names epoch 2. *)
Section retry.
Definition agent_token : AgentToken := mkAgentToken "garam_at_1" 1 (3600 * Second) "root".
Definition retried_holder (epoch : Z) : TokenHolder := mkHolder "grn:agent" epoch zeroTime "v1" None.
(** The passes begun, and what each call is answered: the first write fails, and a pass is a minute after another. *)
Definition answering : handler ((storeE +' mintE) +' refreshE +' Desired.loopE) Z := λ X e s,
  match e with
  | InL (InL (InL e)) =>
    match e in storeE X return X * Z with
    | Holders => (Ok [retried_holder (s + 1)], s + 1)
    | Store _ _ _ => (if bool_decide (s = 1) then Err (Errorf "conflict") else Ok tt, s)
    end
  | InL (InL (InR e)) => match e in mintE X return X * Z with MintAgentToken _ _ => (Ok agent_token, s) end
  | InL (InR e) =>
    match e in refreshE X return X * Z with RandomBits => (0, s) | CountRefusal _ => (tt, s) end
  | InR e =>
    match e in Desired.loopE X return X * Z with
    | Desired.Cancelled => (false, s) | Desired.Pause _ => (tt, s) | Desired.LoopNow => (s * 60 * Second, s)
    | Desired.LoopLog _ _ => (tt, s)
    end
  end.
(** A write of a token minted at another epoch than the holder's spec names. *)
Definition stale_write X (e : ((storeE +' mintE) +' refreshE +' Desired.loopE) X) : bool :=
  match e with
  | InL (InL (InL (Store holder tokens _))) =>
    negb (bool_decide (Holder_Epoch holder = 0)) &&
    negb (bool_decide (AgentToken_Epoch (Tokens_Garam tokens) = Holder_Epoch holder))
  | _ => false
  end.

(** A token kept for a retry is written though the agent's spec names another epoch by then. *)
Theorem stale_epoch_written : makes stale_write answering (Start "grn:control" 2 NewRefresher) 0 = true.
Proof. vm_compute. reflexivity. Qed.
End retry.

(** ** The time written is read back *)
Section due.
Context `{K8s : Kubernetes} {S : Type} (hd : handler tokensE S).
Context (namespace : string) (SetControllerReference : AgentApi.Agent → result ()).

(** An API server that keeps what it is given: the annotations a Secret is created or patched with are read on it. *)
Record keeps_annotations : Prop := {
  created_kept owner namespace name annotations data s s' :
  hd _ (CreateOwned owner namespace name annotations data) s = (Ok tt, s') →
  ∃ version kept, (hd _ (GetMetadata namespace name) s').1 = Ok (version, kept) ∧ annotations ⊆ kept;
  patched_kept namespace name version annotations data s s' :
  hd _ (PatchAt namespace name version annotations data) s = (Ok tt, s') →
  ∃ version kept, (hd _ (GetMetadata namespace name) s').1 = Ok (version, kept) ∧ annotations ⊆ kept;
}.

Lemma readDue_kept holder s version kept due :
  printed_year due → (hd _ (GetMetadata namespace (Names.CredentialsSecret (Holder_Agent holder))) s).1 = Ok (version, kept) →
  {[Names.TokensRefreshAnnotation := FormatRFC3339 due]} ⊆ kept →
  (run hd (readDue namespace holder) s).1 = with_due holder version (due / Second * Second).
Proof.
  intros Hy Hread Hsub. unfold readDue. rewrite run_bind, run_call.
  change (hd _ (inject _) s) with (hd _ (GetMetadata namespace (Names.CredentialsSecret (Holder_Agent holder))) s).
  destruct (hd _ _ s) as [answer s2]. cbn [fst] in Hread. subst answer. cbn [run mret prog_mret fst].
  apply map_singleton_subseteq_l in Hsub. rewrite Hsub. by rewrite Parse_Format.
Qed.

(** Over an API server that keeps what it is given, the time a write of tokens names is the time the agent's holder is
due at when it is next read, to the second. *)
Theorem due_read_back holder tokens due s s' (holder' : TokenHolder)
  (Hserver : keeps_annotations) (Hyear : printed_year due) (Hagent : Holder_Agent holder' = Holder_Agent holder)
  (Hstored : run hd (Tokens_Store namespace SetControllerReference holder tokens due) s = (Ok tt, s')) :
  ∃ version, (run hd (readDue namespace holder') s').1 = with_due holder' version (due / Second * Second).
Proof.
  revert Hstored. unfold Tokens_Store. case_bool_decide.
  - rewrite run_try_wrap, run_call. destruct (hd _ _ s) as [[owner|err] s1]; [|done].
    rewrite run_try_wrap, run_lift. destruct (SetControllerReference owner) as [[]|err]; [|done].
    rewrite run_try_wrap, run_call. destruct (hd _ _ s1) as [[[]|err] s2] eqn:He; [|done]. intros [= <-].
    apply (created_kept Hserver) in He as (version & kept & Hread & Hsub). exists version.
    eapply readDue_kept; [done| |done]. by rewrite Hagent.
  - rewrite run_try_wrap, run_call. destruct (hd _ _ s) as [[[]|err] s1] eqn:He; [|done]. intros [= <-].
    apply (patched_kept Hserver) in He as (version & kept & Hread & Hsub). exists version.
    eapply readDue_kept; [done| |done]. by rewrite Hagent.
Qed.
End due.

(** A server of Secrets' annotations, and one write to it. *)
Section server.
Import Samples.
Definition secrets_server : handler tokensE (gmap (string * string) (gmap string string)) := λ X e s,
  match e in tokensE X return X * gmap (string * string) (gmap string string) with
  | ListAgents _ => (Ok [], s)
  | GetAgent _ _ => (Err (ApiError ApiNotFound "no agent"), s)
  | GetMetadata namespace name =>
    (match s !! (namespace, name) with Some kept => Ok ("v2", kept) | None => Err (ApiError ApiNotFound "no secret") end, s)
  | CreateOwned _ namespace name annotations _ => (Ok tt, <[(namespace, name) := annotations]> s)
  | PatchAt namespace name _ annotations _ =>
    (Ok tt, <[(namespace, name) := annotations ∪ default ∅ (s !! (namespace, name))]> s)
  end.
Lemma server_keeps : keeps_annotations secrets_server.
Proof.
  split.
  - intros owner ns name annotations data s s' [= <-]. exists "v2", annotations. cbn. by rewrite lookup_insert_eq.
  - intros ns name version annotations data s s' [= <-]. eexists "v2", _. cbn. rewrite lookup_insert_eq. split; [done|].
    apply map_union_subseteq_l.
Qed.
Lemma due_read_back_witness :
  ∃ version s', (run secrets_server (readDue "garam" (retried_holder 1)) s').1 =
  with_due (retried_holder 1) version (1772323149500000000 / Second * Second).
Proof.
  set (s' := (run secrets_server (Tokens_Store "garam" (λ _, Ok tt) (retried_holder 1) noTokens 1772323149500000000) ∅).2).
  destruct (due_read_back secrets_server "garam" (λ _, Ok tt) (retried_holder 1) noTokens 1772323149500000000 ∅ s'
    (retried_holder 1) server_keeps) as [version H].
  - vm_compute. done.
  - done.
  - vm_compute. reflexivity.
  - by exists version, s'.
Defined.
End server.
End RefresherSpec.
