(* ===== verification/KubeSamples.v ===== *)
(** Objects of a cluster the examples of the controller evaluate on: an agent, the Pod that ran it, the
    node and the claim of that Pod. *)
From S2P Require Import Prelude GoStd Errors Types Samples Kube Names Fence.
Import GoStd Kube Names Fence Samples.

Module KubeSamples.

Definition agent : Kube.Agent := mkAgent "a" "garam" None true.
Definition reconciler : AgentReconciler :=
  mkReconciler "copy:1" "workspace:1" "adapter:1" "garam:443" "https://garam" "control:443" "/etc/control/root.pem".

Definition exited (code : Z) : ContainerState :=
  mkState false false (Some (mkTerminated code "" 50 "containerd://1")).
Definition agent_status (st : ContainerState) : ContainerStatus :=
  mkContainerStatus agentContainerName st zeroState false 0 "containerd://1".

(** The agent's Pod, on a node, deleted at [t] where it is. *)
Definition pod_at (deleted : option Time) (st : ContainerState) : Pod :=
  mkPod "a-0" "garam" "pod-1" 10 deleted [writerStoppedFinalizer] {[pvcUIDAnnotation := "claim-1"]} "node-1"
    [] [mkContainer agentContainerName None] [mkVolume stateVolumeName (Some "state-a-0")] "Running" []
    [] [agent_status st].
Definition stopped_pod : Pod := pod_at (Some 60) (exited 0).
Definition running_pod : Pod := pod_at (Some 60) (mkState true false None).

Definition node : Node := mkNode "node-1" [mkCondition NodeReady "True" "" ""] [].
Definition claim : Claim := mkClaim "state-a-0" "garam" "claim-1" 5 ∅ ∅ None (10 : Z).
End KubeSamples.
