(* ===== verification/FenceSpec.v ===== *)
(** What the writer fence promises, whatever the API server answers: a Pod is let go only on evidence
    its writers stopped, read in the same pass and recorded first. *)
From S2P Require Import Prelude GoStd Errors Types Samples Kube Names Fence KubeSamples.
Import GoStd Kube Names Fence.

Module FenceSpec.

(** ** What the controller's own calls are *)
Section effects.
Context `{K8s : Kubernetes}.
Definition fullE : Type → Type := kubeE +' controllerE.
Abbreviation history := (list (event fullE)).

Definition asked {X} (h : history) (e : kubeE X) (x : X) : Prop := Ev (InL e) x ∈ h.
Definition told {X} (h : history) (e : controllerE X) (x : X) : Prop := Ev (InR e) x ∈ h.

(** The calls that change an object the API server holds. *)
Definition writes {X} (e : kubeE X) : bool :=
  match e with
  | GetPod _ _ | GetNode _ | GetClaim _ _ | GetSecret _ _ | GetStatefulSet _ _ | GetJob _ _
  | ListJobs _ _ | ListPodsOfJob _ _ => false
  | _ => true
  end.
Definition wrote (ev : event fullE) : bool :=
  match ev with Ev e _ => match e with InL e => writes e | InR _ => false end end.

Lemma asked_new {X} (e : kubeE X) x (h : history) : asked (Ev (InL e) x :: h) e x.
Proof. apply list_elem_of_here. Qed.
Lemma asked_old {X Y} (e : kubeE X) x (e' : fullE Y) y (h : history) :
  asked h e x → asked (Ev e' y :: h) e x.
Proof. apply list_elem_of_further. Qed.
Lemma asked_suffix {X} (e : kubeE X) x (h h' : history) :
  h `suffix_of` h' → asked h e x → asked h' e x.
Proof. intros [k ->] H. apply elem_of_app. by right. Qed.
(** The history [h'] goes on from [h] with reads only. *)
Definition reads (h h' : history) : Prop :=
  ∃ new, h' = new ++ h ∧ Forall (λ ev, wrote ev = false) new.
Lemma reads_refl h : reads h h.
Proof. by exists []. Qed.
Lemma reads_later {Y} (e : fullE Y) y h h' : wrote (Ev e y) = false → reads h h' → reads h (Ev e y :: h').
Proof. intros He (new & -> & Hn). exists (Ev e y :: new). split; [done|]. by constructor. Qed.
Lemma reads_trans h h1 h2 : reads h h1 → reads h1 h2 → reads h h2.
Proof.
  intros (new1 & -> & H1) (new2 & -> & H2). exists (new2 ++ new1). rewrite app_assoc.
  split; [done|]. by apply Forall_app.
Qed.
Lemma reads_suffix h h' : reads h h' → h `suffix_of` h'.
Proof. intros (new & -> & _). by exists new. Qed.
Lemma reads_wrote h h' :
  reads h h' → Forall (λ ev, wrote ev = false) h → Forall (λ ev, wrote ev = false) h'.
Proof. intros (new & -> & Hn) Hh. by apply Forall_app. Qed.
Lemma suffix_later {Y} (e' : fullE Y) y (h h' : history) :
  h `suffix_of` h' → h `suffix_of` Ev e' y :: h'.
Proof. apply suffix_cons_r. Qed.

(** A call the server takes: answered, and with no error. *)
Definition taken {A} (r : result A) : bool := match r with Ok _ => true | Err _ => false end.
Definition accepted (ev : event fullE) : bool :=
  match ev with
  | Ev e x =>
    match e with
    | InL e =>
      match e in kubeE X return X → bool with
      | GetPod _ _ => taken | GetNode _ => taken | GetClaim _ _ => taken | GetSecret _ _ => taken
      | GetStatefulSet _ _ => taken | GetJob _ _ => taken | ListJobs _ _ => taken
      | ListPodsOfJob _ _ => taken | PatchWriterStopped _ _ => taken | PatchPod _ _ => taken
      | PatchClaim _ _ => taken | PatchSecret _ _ _ _ => taken | CreateSecret _ _ _ _ => taken
      | CreateClaim _ => taken | CreateJob _ => taken
      end
    | InR e =>
      match e in controllerE X return X → bool with
      | RandRead _ => taken
      | SetControllerReference _ _ => taken
      | SetWriterFence _ _ _ | SetMemoryMove _ _ _ | SetPlacement _ _ | Now | LogInfo _ _ => λ _, true
      end
    end x
  end.

(** What a program comes to where every call is answered as [ok] allows. *)
Definition answered (ok : event fullE → Prop) {A} (Q : history → A → Prop) (h : history)
  (p : prog fullE A) : Prop :=
  safe (λ _ _ _, True) (λ h a, Forall ok h → Q h a) h p.

Lemma safe_under (R : Prop) {A} (Q : history → A → Prop) h p :
  (R → safe (λ _ _ _, True) Q h p) → safe (λ _ _ _, True) (λ h a, R → Q h a) h p.
Proof.
  revert h. induction p as [a|X e k IH]; intros h HR; [done|]. split; [done|]. intros x. apply IH.
  intros H. by apply HR.
Qed.

Context (ok : event fullE → Prop).

Lemma answered_ret {A} (Q : history → A → Prop) h a : Q h a → answered ok Q h (Ret a).
Proof. by intros H ?. Qed.

Lemma answered_mono {A} (Q Q' : history → A → Prop) h p :
  (∀ h' a, Q h' a → Q' h' a) → answered ok Q h p → answered ok Q' h p.
Proof. intros HQ. apply safe_mono. auto. Qed.

Lemma answered_under (R : Prop) {A} (Q : history → A → Prop) h p :
  (∀ h', Forall ok h' → h `suffix_of` h' → R) → (R → answered ok Q h p) → answered ok Q h p.
Proof.
  intros HR H. eapply safe_mono, safe_suffix, (safe_under R), H.
  intros h' a [Hs HQ] Ha. apply HQ; eauto.
Qed.

Lemma answered_call {A X} (Q : history → A → Prop) h (e : fullE X) k :
  (∀ x, ok (Ev e x) → answered ok Q (Ev e x :: h) (k x)) → answered ok Q h (Vis e k).
Proof.
  intros H. split; [done|]. intros x. apply (answered_under (ok (Ev e x))); [|apply H].
  intros h' Ha [k' ->]. by apply Forall_app in Ha as [_ [? _]%Forall_cons].
Qed.

Lemma answered_try {A B} (Q : history → result B → Prop) h p (k : A → prog fullE (result B)) :
  answered ok (λ h' r, ∃ a, r = Ok a ∧ answered ok Q h' (k a)) h p → answered ok Q h (try_bind p k).
Proof.
  unfold answered. rewrite safe_try_bind. apply safe_mono. intros h' [a|e] Hr.
  - apply (answered_under (Forall ok h')); [by intros h2 Ha [k' ->]; apply Forall_app in Ha as [_ ?]|].
    intros Ha. by destruct (Hr Ha) as (a' & [= ->] & ?).
  - intros Ha. by destruct (Hr Ha) as (a' & ? & ?).
Qed.

Lemma answered_wrap {A B} f (Q : history → result B → Prop) h p (k : A → prog fullE (result B)) :
  answered ok (λ h' r, ∃ a, r = Ok a ∧ answered ok Q h' (k a)) h p → answered ok Q h (try_wrap f p k).
Proof.
  unfold answered. rewrite safe_try_wrap. apply safe_mono. intros h' [a|e] Hr.
  - apply (answered_under (Forall ok h')); [by intros h2 Ha [k' ->]; apply Forall_app in Ha as [_ ?]|].
    intros Ha. by destruct (Hr Ha) as (a' & [= ->] & ?).
  - intros Ha. by destruct (Hr Ha) as (a' & ? & ?).
Qed.

(** A call whose one answer allowed is [x]. *)
Lemma answered_as {A X} (Q : history → A → Prop) h (e : fullE X) k x :
  (∀ y, ok (Ev e y) → y = x) → answered ok Q (Ev e x :: h) (k x) → answered ok Q h (Vis e k).
Proof. intros Hx H. apply answered_call. by intros y ->%Hx. Qed.
End effects.
#[global] Arguments answered : simpl never.
#[local] Arguments try_bind : simpl never.
#[local] Arguments try_wrap : simpl never.
#[local] Arguments newPlacementToken : simpl never.
#[local] Arguments createPlacementToken : simpl never.
#[local] Arguments recordLastWriter : simpl never.

(** Places one history after another, and a call in one. *)
Ltac hist :=
  lazymatch goal with
  | |- reads _ _ =>
      first [apply reads_refl | assumption | apply reads_later; [reflexivity|]; hist
            | match goal with Hr : reads _ ?h |- reads _ ?h => eapply reads_trans; [|exact Hr]; clear Hr; hist end]
  | |- _ `suffix_of` _ =>
      first [reflexivity | assumption | apply suffix_later; hist
            | match goal with
              | Hr : reads _ ?h |- _ `suffix_of` ?h => etrans; [|exact (reads_suffix _ _ Hr)]; clear Hr; hist
              | Hr : _ `suffix_of` ?h |- _ `suffix_of` ?h => etrans; [|exact Hr]; clear Hr; hist
              end]
  | |- asked _ _ _ =>
      first [assumption | apply asked_new | apply asked_old; hist
            | match goal with
              | Hr : reads _ ?h |- asked ?h _ _ => eapply asked_suffix; [exact (reads_suffix _ _ Hr)|]; clear Hr; hist
              | Hr : _ `suffix_of` ?h |- asked ?h _ _ => eapply asked_suffix; [exact Hr|]; clear Hr; hist
              end]
  end.
#[export] Hint Extern 1 (reads _ _) => hist : garam.
#[export] Hint Extern 1 (_ `suffix_of` _) => hist : garam.
#[export] Hint Extern 1 (asked _ _ _) => hist : garam.

(** ** What proves a writer stopped *)
Section evidence.
(** The kubelet's last word on a container of the Pod. *)
Definition reported (pod : Pod) (name : string) (s : ContainerStatus) : Prop :=
  last (filter (λ s, ContainerStatus_Name s = name)
    (Pod_InitContainerStatuses pod ++ Pod_ContainerStatuses pod)) = Some s.

(** A container that ran and is over. *)
Definition terminated (s : ContainerStatus) (t : Terminated) : Prop :=
  State_Running (ContainerStatus_State s) = false ∧
  State_Waiting (ContainerStatus_State s) = false ∧
  State_Terminated (ContainerStatus_State s) = Some t ∧ Terminated_ContainerID t ≠ "".

(** A Pod the kubelet itself made terminal, on a node that can be believed. *)
Definition kubelet_terminal (pod : Pod) (node : Node) : Prop :=
  (Pod_Phase pod = PodFailed ∨ Pod_Phase pod = PodSucceeded) ∧
  (∃ c, c ∈ Node_Conditions node ∧ Condition_Type c = NodeReady ∧ Condition_Status c = "True") ∧
  TaintNodeOutOfService ∉ Node_Taints node ∧
  (∀ c, c ∈ Pod_Conditions pod → Condition_Type c = DisruptionTarget →
    Condition_Reason c = PodReasonTerminationByKubelet).

Definition stopped (pod : Pod) (node : Node) (name : string) : Prop :=
  ∃ s, reported pod name s ∧
  ((∃ t, terminated s t) ∨ (wasNeverCreated s = true ∧ kubelet_terminal pod node)).
End evidence.

(** ** Reading the statuses *)
Section statuses.
Implicit Types (pod : Pod) (node : Node).

Lemma fold_statuses (l : list ContainerStatus) (m : gmap string ContainerStatus) name :
  foldl (λ m s, <[ContainerStatus_Name s := s]> m) m l !! name =
  match last (filter (λ s, ContainerStatus_Name s = name) l) with
  | Some s => Some s
  | None => m !! name
  end.
Proof.
  induction l as [|s l IH] using rev_ind; [done|].
  rewrite foldl_snoc, filter_app, filter_cons, filter_nil.
  destruct (decide (ContainerStatus_Name s = name)) as [<-|Hne].
  - by rewrite lookup_insert_eq, last_snoc.
  - by rewrite lookup_insert_ne, app_nil_r.
Qed.

Lemma statuses_of_lookup pod name s : statuses_of pod !! name = Some s ↔ reported pod name s.
Proof.
  unfold statuses_of, reported. rewrite fold_statuses, lookup_empty. by destruct (last _).
Qed.

Lemma wasNeverCreated_spec s :
  wasNeverCreated s = true →
  State_Running (ContainerStatus_State s) = false ∧ State_Terminated (ContainerStatus_State s) = None.
Proof.
  unfold wasNeverCreated. rewrite !andb_true_iff, !bool_decide_eq_true, negb_true_iff. naive_solver.
Qed.

Lemma never_created_not_terminated s t : wasNeverCreated s = true → ¬ terminated s t.
Proof. intros [_ Hn]%wasNeverCreated_spec (_ & _ & Ht & _). congruence. Qed.

Lemma node_ready_spec node :
  node_ready node = true ↔
  ∃ c, c ∈ Node_Conditions node ∧ Condition_Type c = NodeReady ∧ Condition_Status c = "True".
Proof.
  unfold node_ready. rewrite existsb_exists. setoid_rewrite andb_true_iff.
  setoid_rewrite bool_decide_eq_true. by setoid_rewrite <- list_elem_of_In.
Qed.

Lemma neverCreatedRefusal_spec pod node :
  neverCreatedRefusal pod node = "" ↔ kubelet_terminal pod node.
Proof.
  unfold neverCreatedRefusal, kubelet_terminal. rewrite <- node_ready_spec.
  destruct (bool_decide (Pod_Phase pod = PodFailed)) eqn:H1,
    (bool_decide (Pod_Phase pod = PodSucceeded)) eqn:H2; cbn [negb andb];
    rewrite ?bool_decide_eq_true, ?bool_decide_eq_false in *;
    try (split; [done|naive_solver]);
    (destruct (node_ready node); cbn [negb]; [|split; [done|naive_solver]]);
    (case_bool_decide as Ht; [split; [done|naive_solver]|]);
    (destruct (List.find _ _) as [c|] eqn:Hf;
    [apply find_some in Hf as [Hin Hc]; rewrite andb_true_iff, negb_true_iff, bool_decide_eq_true,
    bool_decide_eq_false in Hc; apply list_elem_of_In in Hin; split; [done|naive_solver]
    |split; [intros _; split_and!; try done; [tauto|]|done]; intros c Hin Hc;
    apply list_elem_of_In in Hin; apply (find_none _ _ Hf) in Hin as Hc';
    rewrite bool_decide_true in Hc' by done; cbn in Hc';
    by rewrite negb_false_iff, bool_decide_eq_true in Hc']).
Qed.
End statuses.

(** ** The writers, one and all *)
Section writers.
Context (pod : Pod) (node : Node).

Definition is_terminated (c : TerminatedContainer) : Prop :=
  ∃ s t, reported pod (TerminatedContainer_Name c) s ∧ terminated s t ∧
  c = mkTerminatedContainer (TerminatedContainer_Name c) (Terminated_ContainerID t)
  (Terminated_ExitCode t) (Terminated_FinishedAt t).
Definition is_never_created (name : string) : Prop :=
  ∃ s, reported pod name s ∧ wasNeverCreated s = true ∧ kubelet_terminal pod node.

Lemma reported_unique name s s' : reported pod name s → reported pod name s' → s = s'.
Proof. unfold reported. congruence. Qed.

Lemma writer_status_spec name :
  match writer_status pod node name with
  | WriterTerminated c => TerminatedContainer_Name c = name ∧ is_terminated c
  | WriterNeverCreated => is_never_created name
  | WriterUnproven reason _ => reason ≠ "" ∧ ¬ stopped pod node name
  end.
Proof.
  unfold writer_status, stopped.
  destruct (statuses_of pod !! name) as [s|] eqn:Hs; [apply statuses_of_lookup in Hs|].
  2:{ split; [done|]. intros (s & Hr & _). apply statuses_of_lookup in Hr. congruence. }
  assert (∀ P : ContainerStatus → Prop, (∃ s, reported pod name s ∧ P s) → P s) as Hu.
  { intros P (s' & Hs' & HP). by rewrite (reported_unique _ _ _ Hs Hs'). }
  destruct (wasNeverCreated s) eqn:Hw.
  { case_bool_decide as Hr; [apply neverCreatedRefusal_spec in Hr; by exists s|].
    split; [by destruct (State_Waiting _)|]. intros [[t Ht]|[_ Hk]]%Hu.
    - by apply never_created_not_terminated in Ht.
    - by apply Hr, neverCreatedRefusal_spec. }
  destruct (State_Running _) eqn:H1; [|destruct (State_Waiting _) eqn:H2;
    [|destruct (State_Terminated _) as [t|] eqn:H3; [case_bool_decide as H4|]]];
    try (split; [done|]; intros [(t' & ? & ? & ? & ?)|[? _]]%Hu; congruence).
  split; [done|]. by exists s, t.
Qed.

Lemma collect_writers_spec names :
  let '(ts, ns, reason, _) := collect_writers pod node names in
  if decide (reason = "") then
  Forall (stopped pod node) names ∧ (TerminatedContainer_Name <$> ts) ++ ns ≡ₚ names ∧
  Forall is_terminated ts ∧ Forall is_never_created ns
  else ts = [] ∧ ns = [] ∧ ¬ Forall (stopped pod node) names.
Proof.
  induction names as [|name names IH]; cbn [collect_writers].
  { rewrite decide_True by done. by split_and!. }
  pose proof (writer_status_spec name) as Hw.
  destruct (collect_writers pod node names) as [[[ts ns] reason] message].
  destruct (writer_status pod node name) as [c| |r m].
  3:{ destruct Hw as [Hr Hn]. rewrite decide_False by done. split_and!; [done..|].
  by intros [? _]%Forall_cons. }
  all: destruct (decide (reason = "")) as [->|Hr];
    [|rewrite bool_decide_false by done; cbn [negb]; rewrite decide_False by done;
    destruct IH as (_ & _ & Hn); split_and!; [done..|]; by intros [_ ?]%Forall_cons].
  all: rewrite bool_decide_true by done; cbn [negb]; rewrite decide_True by done;
    destruct IH as (Hst & Hp & Ht & Hn).
  - destruct Hw as [Hc Ht']. split_and!; [|by rewrite fmap_cons, <- app_comm_cons, Hp, Hc|by constructor|done].
    constructor; [|done]. destruct Ht' as (s & t & Hs & Ht' & _). rewrite <- Hc. exists s. eauto.
  - split_and!; [|by rewrite <- Permutation_middle, Hp|done|by constructor].
    constructor; [|done]. destruct Hw as (s & Hs & Hk). exists s. eauto.
Qed.
End writers.

(** A Pod's writers are taken for stopped exactly when each is: every regular container, and every
    init container that keeps running, last reported either terminated with the ID of the container that
    ran, or never created in a Pod the kubelet itself made terminal. Then each is listed once, a
    terminated one with what its status says; a writer short of that leaves nothing listed. *)
Theorem terminatedWriters_spec pod node :
  let '(ts, ns, reason, _) := terminatedWriters pod node in
  (reason = "" ↔ Forall (stopped pod node) (writers_of pod)) ∧
  (reason = "" → (TerminatedContainer_Name <$> ts) ++ ns ≡ₚ writers_of pod ∧
     Forall (is_terminated pod) ts ∧ Forall (is_never_created pod node) ns) ∧
  (reason ≠ "" → ts = [] ∧ ns = []).
Proof.
  unfold terminatedWriters. pose proof (collect_writers_spec pod node (writers_of pod)) as H.
  destruct (collect_writers _ _ _) as [[[ts ns] reason] message].
  destruct (decide (reason = "")); naive_solver.
Qed.

(** ** The calls of one pass over the fence *)
Section calls.
Context `{K8s : Kubernetes} (canonical_json : WriterStoppedEvidence → result string)
  (r : AgentReconciler) (agent : Kube.Agent).
Abbreviation history := (list (event fullE)).
Implicit Types (h : history) (pod : Pod) (e : WriterStoppedEvidence).

Definition read_deleting h pod : Prop :=
  asked h (GetPod (Agent_Namespace agent) (agentPodName agent)) (Ok pod) ∧
  is_Some (Pod_DeletionTimestamp pod) ∧ writerStoppedFinalizer ∈ Pod_Finalizers pod.

(** The node's first Ready condition says True or False: it is not out of contact. *)
Definition in_contact (node : Node) : Prop :=
  ∃ c, List.find (λ c, bool_decide (Condition_Type c = NodeReady)) (Node_Conditions node) = Some c ∧
  Condition_Status c ≠ "Unknown".

(** The claim the Pod was marked with, and no younger than it. *)
Definition started_on pod (claim : Claim) : Prop :=
  annotation (Pod_Annotations pod) pvcUIDAnnotation = Claim_UID claim ∧
  Claim_CreationTimestamp claim ≤ Pod_CreationTimestamp pod.

(** What was read proves the Pod's writers stopped, and the evidence says what was read. *)
Definition proven h pod e : Prop :=
  Evidence_PodUID e = Pod_UID pod ∧
  ((Pod_NodeName pod = "" ∧ Evidence_Containers e = [] ∧ Evidence_NeverCreated e = []) ∨
    ∃ node claim,
    asked h (GetNode (Pod_NodeName pod)) (Ok node) ∧ in_contact node ∧
    asked h (GetClaim (Agent_Namespace agent) (claimOfPod agent pod)) (Ok claim) ∧
    started_on pod claim ∧ Evidence_PVCUID e = Claim_UID claim ∧
    Forall (stopped pod node) (writers_of pod) ∧
    (TerminatedContainer_Name <$> Evidence_Containers e) ++ Evidence_NeverCreated e ≡ₚ writers_of pod ∧
    Forall (is_terminated pod) (Evidence_Containers e) ∧
    (Evidence_NeverCreated e ≠ [] → Evidence_PodPhase e = Pod_Phase pod)).

Definition evidence_recorded h pod e : Prop :=
  proven h pod e ∧ asked h (PatchWriterStopped agent e) (Ok tt).

(** What the next placement's token says of the placement it follows. *)
Definition previous_of pod (digest : string) : gmap string string :=
  <[PreviousPodUIDAnnotation := Pod_UID pod]> (<[PreviousWriterStoppedAnnotation := digest]> ∅).

(** The token that names the placement it follows was written: over the Secret, or, the Secret missing when it was
patched, in a new one. *)
Definition token_missing h previous : Prop :=
  ∃ token err, asked h (PatchSecret (Agent_Namespace agent) (placementSecretName agent) token previous) (Err err) ∧
  IsNotFound err = true.
Definition token_written h previous : Prop :=
  let ns := Agent_Namespace agent in
  let name := placementSecretName agent in
  (∃ token, asked h (PatchSecret ns name token previous) (Ok tt)) ∨
  (token_missing h previous ∧ ∃ token, asked h (CreateSecret ns name token previous) (Ok tt)).

(** The token was not written, and the pass goes on: the Secret, missing when it was patched, was there after, in the cache
or when it was to be made. *)
Definition token_left h previous : Prop :=
  let ns := Agent_Namespace agent in
  let name := placementSecretName agent in
  token_missing h previous ∧
  (asked h (GetSecret ns name) (Ok tt) ∨
    ∃ token err, asked h (CreateSecret ns name token previous) (Err err) ∧ IsAlreadyExists err = true).

(** The claim says who wrote it last; or there is no claim. *)
Definition writer_recorded h (claim : Claim) (w : lastWriter) : Prop :=
  annotation (Claim_Annotations claim) lastWriterAnnotation = lastWriter_json w ∨
  ∃ c, asked h (PatchClaim claim (annotated claim lastWriterAnnotation (lastWriter_json w))) (Ok c).
Definition stopped_writer_recorded h pod e : Prop :=
  let name := claimOfPod agent pod in
  (∃ err, asked h (GetClaim (Agent_Namespace agent) name) (Err err) ∧ IsNotFound err = true) ∨
  ∃ claim, asked h (GetClaim (Agent_Namespace agent) name) (Ok claim) ∧
  writer_recorded h claim (mkLastWriter (Pod_UID pod) writerStopped (agent_exit (Evidence_Containers e))).

(** The Pod is let go: on evidence, recorded; after the token of the placement that follows it was written, or left, and
its claim's record of it. *)
Definition may_release h pod : Prop :=
  read_deleting h pod ∧ ∃ e, evidence_recorded h pod e ∧ stopped_writer_recorded h pod e ∧
  (adapterBuilt r agent = true → ∃ digest, writerStoppedDigest canonical_json e = Ok digest ∧
    (token_written h (previous_of pod digest) ∨ token_left h (previous_of pod digest))).

(** The Pod is marked with its claim, once: while it runs, unmarked, and after the claim names it. *)
Definition may_mark h pod (uid : string) : Prop :=
  asked h (GetPod (Agent_Namespace agent) (agentPodName agent)) (Ok pod) ∧
  Pod_DeletionTimestamp pod = None ∧ Pod_Annotations pod !! pvcUIDAnnotation = None ∧
  ∃ claim, asked h (GetClaim (Agent_Namespace agent) (claimOfPod agent pod)) (Ok claim) ∧
  uid = Claim_UID claim ∧ writer_recorded h claim (mkLastWriter (Pod_UID pod) writerRunning None).

(** The token's annotations: the Pod whose evidence is recorded, and that evidence's digest. *)
Definition may_mint h (ns name : string) (previous : gmap string string) : Prop :=
  ns = Agent_Namespace agent ∧ name = placementSecretName agent ∧
  ∃ pod e digest, read_deleting h pod ∧ evidence_recorded h pod e ∧
  writerStoppedDigest canonical_json e = Ok digest ∧ previous = previous_of pod digest.

(** The record of a claim's last writer: of a Pod that runs, or of one proven stopped. *)
Definition may_record h (claim wanted : Claim) : Prop :=
  ∃ pod w, asked h (GetPod (Agent_Namespace agent) (agentPodName agent)) (Ok pod) ∧
  asked h (GetClaim (Agent_Namespace agent) (claimOfPod agent pod)) (Ok claim) ∧
  wanted = annotated claim lastWriterAnnotation (lastWriter_json w) ∧ writer_PodUID w = Pod_UID pod ∧
  ((Pod_DeletionTimestamp pod = None ∧ writer_State w = writerRunning) ∨
    (∃ e, read_deleting h pod ∧ evidence_recorded h pod e ∧ writer_State w = writerStopped)).

Definition fence_call h X (e : fullE X) : Prop :=
  match e with
  | InL (PatchWriterStopped a e) => a = agent ∧ ∃ pod, read_deleting h pod ∧ proven h pod e
  | InL (PatchSecret ns name _ previous) | InL (CreateSecret ns name _ previous) => may_mint h ns name previous
  | InL (PatchClaim claim wanted) => may_record h claim wanted
  | InL (PatchPod pod wanted) =>
    (wanted = RemoveFinalizer pod writerStoppedFinalizer ∧ may_release h pod) ∨
    (∃ uid, wanted = annotated_pod pod pvcUIDAnnotation uid ∧ may_mark h pod uid)
  | InL (CreateClaim _) | InL (CreateJob _) => False
  | _ => True
  end.

(** What the pass reports: the Pod gone only as the server says, a fence unverified with nothing
written, and neither otherwise. *)
Definition fence_outcome h (res : result (bool * bool)) : Prop :=
  match res with
  | Ok (true, unverified) => unverified = false ∧ Forall (λ ev, wrote ev = false) h ∧
    ∃ err, asked h (GetPod (Agent_Namespace agent) (agentPodName agent)) (Err err) ∧ IsNotFound err = true
  | Ok (false, true) => Forall (λ ev, wrote ev = false) h ∧
    ∃ pod reason message, read_deleting h pod ∧ told h (SetWriterFence ConditionUnknown reason message) tt
  | Ok (false, false) | Err _ => True
  end.

Abbreviation P := fence_call.


Lemma readNode_safe {Q : history → _ → Prop} name h :
  (∀ h' res, reads h h' →
    match res with
    | Ok (inl node) => asked h' (GetNode name) (Ok node) ∧ in_contact node
    | _ => True
    end → Q h' res) →
  safe P Q h (readNode name).
Proof.
  intros HQ. unfold readNode. split; [done|]. intros [node|err]; cbn.
  - destruct (List.find _ _) as [c|] eqn:Hc; [case_bool_decide as Hu|]; apply HQ; eauto with garam.
    split; [auto with garam|]. by exists c.
  - case_match; apply HQ; eauto with garam.
Qed.

Lemma readClaim_safe {Q : history → _ → Prop} pod h :
  (∀ h' res, reads h h' →
    match res with
    | Ok (inl uid) => ∃ claim, asked h' (GetClaim (Agent_Namespace agent) (claimOfPod agent pod)) (Ok claim) ∧
      started_on pod claim ∧ uid = Claim_UID claim
    | _ => True
    end → Q h' res) →
  safe P Q h (readClaim agent pod).
Proof.
  intros HQ. unfold readClaim. split; [done|]. intros [claim|err]; cbn.
  - case_bool_decide as Hu; cbn; [|apply HQ; eauto with garam].
    case_bool_decide as Ht; apply HQ; eauto with garam.
    exists claim. split_and!; [auto with garam|split; [done|lia]|done].
  - case_match; apply HQ; eauto with garam.
Qed.

Lemma readFence_safe {Q : history → _ → Prop} pod h :
  (∀ h' res, reads h h' →
    match res with
    | Ok v => match verdict_evidence v with Some e => proven h' pod e | None => True end
    | Err _ => True
    end → Q h' res) →
  safe P Q h (readFence agent pod).
Proof.
  intros HQ. unfold readFence. split; [done|]. intros now. cbn.
  case_bool_decide as Hn; [apply HQ; [eauto with garam|]; cbn; split; [done|]; by left|].
  rewrite safe_try_bind. apply readNode_safe. intros h1 node Hr1 Hnode.
  destruct node as [[node|[reason message]]|err]; [|apply HQ; auto with garam..].
  rewrite safe_try_bind. apply readClaim_safe. intros h2 claim Hr2 Hclaim.
  destruct claim as [[uid|[reason message]]|err]; [|apply HQ; auto with garam..].
  pose proof (collect_writers_spec pod node (writers_of pod)) as Hw. fold (terminatedWriters pod node) in Hw.
  destruct (terminatedWriters pod node) as [[[ts ns] reason] message].
  destruct (decide (reason = "")) as [->|Hreason]; [|rewrite bool_decide_false by done; by apply HQ; [hist|]].
  rewrite bool_decide_true by done. cbn [negb].
  apply HQ; [hist|]. split; [done|]. right. destruct Hnode, Hclaim as (claim & ? & ? & ->), Hw as (? & ? & ? & ?).
  exists node, claim. split_and!; auto with garam.
  cbn. intros Hns. by rewrite bool_decide_false.
Qed.

(** ** The writes of a release *)
Lemma newPlacementToken_safe {Q : history → _ → Prop} h :
  (∀ h' res, h `suffix_of` h' → Q h' res) → safe P Q h newPlacementToken.
Proof. intros HQ. split; [done|]. intros [raw|err]; apply HQ; auto with garam. Qed.

Lemma read_deleting_suffix h h' pod : h `suffix_of` h' → read_deleting h pod → read_deleting h' pod.
Proof. intros Hs (? & ? & ?). split; [hist|done]. Qed.

Lemma proven_suffix h h' pod e : h `suffix_of` h' → proven h pod e → proven h' pod e.
Proof.
  intros Hs [? [?|(node & claim & ? & ? & ? & ?)]]; (split; [done|]); [by left|right].
  exists node, claim. split_and!; try done; try hist; tauto.
Qed.

Lemma evidence_recorded_suffix h h' pod e :
  h `suffix_of` h' → evidence_recorded h pod e → evidence_recorded h' pod e.
Proof. intros Hs [? ?]. split; [by eapply proven_suffix|hist]. Qed.

Lemma may_mint_suffix h h' ns name previous :
  h `suffix_of` h' → may_mint h ns name previous → may_mint h' ns name previous.
Proof.
  intros Hs (-> & -> & pod & e & digest & ? & ? & ?). split_and!; [done..|].
  exists pod, e, digest. split_and!; eauto using read_deleting_suffix, evidence_recorded_suffix; tauto.
Qed.

Lemma token_missing_suffix h h' previous : h `suffix_of` h' → token_missing h previous → token_missing h' previous.
Proof. intros Hs (token & err & ? & ?). exists token, err. split; [hist|done]. Qed.
Lemma token_suffix h h' previous :
  h `suffix_of` h' → token_written h previous ∨ token_left h previous → token_written h' previous ∨ token_left h' previous.
Proof.
  intros Hs [[[t ?]|[Hm [t ?]]]|[Hm [?|(t & err & ? & ?)]]].
  - left. left. exists t. hist.
  - left. right. split; [by eapply token_missing_suffix|exists t; hist].
  - right. split; [by eapply token_missing_suffix|left; hist].
  - right. split; [by eapply token_missing_suffix|right; exists t, err; split; [hist|done]].
Qed.

Lemma createPlacementToken_safe {Q : history → _ → Prop} previous h :
  may_mint h (Agent_Namespace agent) (placementSecretName agent) previous →
  (∀ h' res, h `suffix_of` h' →
    (res = Ok tt → asked h' (GetSecret (Agent_Namespace agent) (placementSecretName agent)) (Ok tt) ∨
      (∃ token, asked h' (CreateSecret (Agent_Namespace agent) (placementSecretName agent) token previous) (Ok tt)) ∨
      ∃ token err, asked h' (CreateSecret (Agent_Namespace agent) (placementSecretName agent) token previous) (Err err) ∧
      IsAlreadyExists err = true) → Q h' res) →
  safe P Q h (createPlacementToken agent previous).
Proof.
  intros Hm HQ. split; [done|]. intros [[]|err]; cbn.
  { apply HQ; auto with garam. }
  destruct (negb _); [apply HQ; [hist|done]|].
  rewrite safe_try_bind. apply newPlacementToken_safe. intros h1 [token|e] Hh1; [|apply HQ; [hist|done]].
  rewrite safe_try_wrap. split; [done|]. intros [[]|e]; [|apply HQ; [hist|done]].
  split; [eapply may_mint_suffix; [|exact Hm]; hist|].
  intros [[]|e]; cbn; [apply HQ; [hist|]; right; left; eexists; hist|].
  destruct (IsAlreadyExists e) eqn:He; (apply HQ; [hist|]); [|done].
  right. right. do 2 eexists. split; [hist|done].
Qed.

Lemma mintPlacementToken_safe {Q : history → _ → Prop} previous h :
  may_mint h (Agent_Namespace agent) (placementSecretName agent) previous →
  (∀ h' res, h `suffix_of` h' → (res = Ok tt → token_written h' previous ∨ token_left h' previous) → Q h' res) →
  safe P Q h (mintPlacementToken agent previous).
Proof.
  intros Hm HQ. unfold mintPlacementToken. rewrite safe_try_bind. apply newPlacementToken_safe.
  intros h1 [token|e] Hh1; [|apply HQ; [hist|done]].
  split; [by eapply may_mint_suffix|]. intros [[]|err]; cbn.
  { apply HQ; [hist|]. intros _. left. left. eexists. hist. }
  destruct (IsNotFound err) eqn:Hnf; [|apply HQ; [hist|done]].
  apply createPlacementToken_safe; [eapply may_mint_suffix; [|exact Hm]; hist|].
  intros h' res Hh' Hres. apply HQ; [hist|]. intros Hok.
  assert (token_missing h' previous) as Hmissing by (exists token, err; split; [hist|done]).
  destruct (Hres Hok) as [?|[?|?]]; [right; split; [done|by left]|left; by right|right; split; [done|by right]].
Qed.
Lemma recordLastWriter_safe {Q : history → _ → Prop} claim w h :
  may_record h claim (annotated claim lastWriterAnnotation (lastWriter_json w)) →
  (∀ h' res, h `suffix_of` h' → (res = Ok tt → writer_recorded h' claim w) → Q h' res) →
  safe P Q h (recordLastWriter claim w).
Proof.
  intros Hm HQ. unfold recordLastWriter. case_bool_decide as He.
  { apply HQ; [hist|]. intros _. by left. }
  rewrite safe_try_wrap. split; [done|]. intros [c|err]; (apply HQ; [hist|]); [|done].
  intros _. right. exists c. hist.
Qed.

Lemma recordStoppedWriter_safe {Q : history → _ → Prop} pod e h :
  read_deleting h pod → evidence_recorded h pod e →
  (∀ h' res, h `suffix_of` h' → (res = Ok tt → stopped_writer_recorded h' pod e) → Q h' res) →
  safe P Q h (recordStoppedWriter agent pod e).
Proof.
  intros Hd He HQ. unfold recordStoppedWriter. split; [done|]. intros [claim|err]; cbn.
  - apply recordLastWriter_safe.
    { exists pod. eexists. split_and!; [destruct Hd as [Hd _]; hist|hist|done..|]. right. exists e.
    split_and!; [|eapply evidence_recorded_suffix; [|exact He]; hist|done].
    eapply read_deleting_suffix; [|exact Hd]; hist. }
    intros h' res Hs Hres. apply HQ; [hist|]. intros Hok. right. exists claim. split; [hist|auto].
  - destruct (IsNotFound err) eqn:Hnf; (apply HQ; [hist|]); [|done].
    intros _. left. exists err. split; [hist|done].
Qed.

Lemma recordPlacement_safe {Q : history → _ → Prop} pod h :
  asked h (GetPod (Agent_Namespace agent) (agentPodName agent)) (Ok pod) → Pod_DeletionTimestamp pod = None →
  (∀ h' res, Q h' res) → safe P Q h (recordPlacement agent pod).
Proof.
  intros Hp Hd HQ. unfold recordPlacement. destruct (_ !! _) eqn:Ha; [split; [done|]; intros []; apply HQ|].
  split; [done|]. intros [claim|err]; cbn; [|case_match; apply HQ].
  rewrite safe_try_bind. apply recordLastWriter_safe.
  { exists pod. eexists. split_and!; [hist|hist|done..|]. by left. }
  intros h1 [[]|err] Hh1 Hw; [|apply HQ].
  rewrite safe_try_wrap. split.
  { right. eexists. split; [done|]. split_and!; [hist|done..|]. exists claim. split_and!; [hist|done|auto]. }
  intros [p|err]; [|apply HQ]. split; [done|]. intros []. apply HQ.
Qed.

Lemma releaseFence_safe {Q : history → _ → Prop} pod e h :
  read_deleting h pod → proven h pod e →
  (∀ h' res, Q h' res) → safe P Q h (releaseFence canonical_json r agent pod e).
Proof.
  intros Hd He HQ. unfold releaseFence. rewrite safe_try_wrap. split; [split; [done|]; by exists pod|].
  intros [[]|err]; [|apply HQ]. cbn. set (h1 := Ev _ _ :: h).
  assert (read_deleting h1 pod) as Hd1 by (eapply read_deleting_suffix; [|exact Hd]; hist).
  assert (evidence_recorded h1 pod e) as He1.
  { split; [eapply proven_suffix; [|exact He]|]; hist. }
  clearbody h1. clear Hd He h. rewrite safe_try_bind.
  eapply (safe_mono _ (λ h' res, h1 `suffix_of` h' ∧ (res = Ok tt → adapterBuilt r agent = true →
    ∃ digest, writerStoppedDigest canonical_json e = Ok digest ∧
    (token_written h' (previous_of pod digest) ∨ token_left h' (previous_of pod digest))))).
  2:{ destruct (adapterBuilt r agent) eqn:Hb; [|split; [hist|done]].
  rewrite safe_try_bind. cbn. destruct (writerStoppedDigest canonical_json e) as [digest|err] eqn:Hdig;
    [|split; [hist|done]].
  apply mintPlacementToken_safe; [split_and!; [done..|]; by exists pod, e, digest|].
  intros h' res Hs Hm. split; [done|]. eauto. }
  intros h2 [[]|err] [Hs2 Hm]; [|apply HQ]. rewrite safe_try_bind. apply recordStoppedWriter_safe.
  { by eapply read_deleting_suffix. } { by eapply evidence_recorded_suffix. }
  intros h3 [[]|err] Hs3 Hw; [|apply HQ]. split.
  - left. split; [done|]. split; [eapply read_deleting_suffix; [|exact Hd1]; hist|].
    exists e. split_and!; [eapply evidence_recorded_suffix; [|exact He1]; hist|auto|].
    intros Hb. destruct (Hm eq_refl Hb) as (digest & Hdig & Ht). exists digest. split; [done|].
    eapply token_suffix; [|exact Ht]. hist.
  - intros released. cbn. case_match; [apply HQ|]. split; [done|]. intros []. split; [done|]. intros [].
    apply HQ.
Qed.

Lemma reconcileFence_safe : safe P fence_outcome [] (reconcileFence canonical_json r agent).
Proof.
  split; [done|]. intros [pod|err]; cbn.
  2:{ destruct (IsNotFound err) eqn:Hnf; [|done]. cbn. split_and!; [done|by repeat constructor|].
  exists err. split; [hist|done]. }
  case_bool_decide as Hd.
  { rewrite safe_try_bind. apply recordPlacement_safe; [hist|done|]. by intros h' [[]|e]. }
  unfold ContainsFinalizer. case_bool_decide as Hf; cbn [negb]; [|done].
  set (h := [_]). assert (read_deleting h pod) as Hr.
  { split_and!; [hist| |done]. by destruct (Pod_DeletionTimestamp pod); [eexists|]. }
  assert (Forall (λ ev, wrote ev = false) h) as Hno by by repeat constructor.
  rewrite safe_try_bind. apply readFence_safe. intros h1 [v|e] Hh1 Hv; [|done].
  assert (read_deleting h1 pod) as Hr1 by (eapply read_deleting_suffix; [|exact Hr]; hist).
  destruct (verdict_evidence v) as [e|].
  - rewrite safe_try_bind. apply releaseFence_safe; [done..|]. by intros h' [[]|e'].
  - split; [done|]. intros []. cbn. split; [constructor; [done|]; by eapply reads_wrote|].
    exists pod. do 2 eexists. split; [eapply read_deleting_suffix; [|exact Hr1]; hist|]. apply list_elem_of_here.
Qed.
(** ** A stopped Pod is let go *)
Context (ok : event fullE → Prop) (ok_accepted : ∀ ev, ok ev → accepted ev = true).

Lemma newPlacementToken_taken h :
  answered ok (λ h' r, h `suffix_of` h' ∧ ∃ t, r = Ok t) h newPlacementToken.
Proof.
  apply answered_call. intros [raw|e] Ha; [|by apply ok_accepted in Ha]. apply answered_ret. split; [hist|]. by eexists.
Qed.

Lemma mintPlacementToken_taken previous h :
  answered ok (λ h' r, h `suffix_of` h' ∧ r = Ok tt) h (mintPlacementToken agent previous).
Proof.
  apply answered_try. eapply answered_mono, newPlacementToken_taken. intros h1 r1 [Hs [t ->]].
  exists t. split; [done|]. apply answered_call. intros [[]|e] Ha; [|by apply ok_accepted in Ha]. apply answered_ret. split; [hist|done].
Qed.

Lemma recordLastWriter_taken claim w h :
  answered ok (λ h' r, h `suffix_of` h' ∧ r = Ok tt) h (recordLastWriter claim w).
Proof.
  unfold recordLastWriter. case_bool_decide; [apply answered_ret; split; [hist|done]|].
  apply answered_call. intros [c|e] Ha; [|by apply ok_accepted in Ha]. apply answered_ret. split; [hist|done].
Qed.

Lemma recordStoppedWriter_taken pod e h :
  answered ok (λ h' r, h `suffix_of` h' ∧ r = Ok tt) h (recordStoppedWriter agent pod e).
Proof.
  apply answered_call. intros [claim|err] Ha; [|by apply ok_accepted in Ha].
  eapply answered_mono, recordLastWriter_taken. intros h' r' [Hs ->]. split; [hist|done].
Qed.

(** A Pod released: its evidence was recorded, and the server took its finalizer's removal. *)
Definition released h pod : Prop :=
  (∃ e, Evidence_PodUID e = Pod_UID pod ∧ asked h (PatchWriterStopped agent e) (Ok tt)) ∧
  ∃ p, asked h (PatchPod pod (RemoveFinalizer pod writerStoppedFinalizer)) (Ok p).

Lemma releaseFence_taken pod e h digest :
  Evidence_PodUID e = Pod_UID pod → canonical_json e = Ok digest →
  answered ok (λ h' r, released h' pod ∧ r = Ok tt) h (releaseFence canonical_json r agent pod e).
Proof.
  intros He Hj. apply answered_call. intros [[]|err] Ha; [|by apply ok_accepted in Ha]. cbn. set (h1 := Ev _ _ :: h).
  assert (asked h1 (PatchWriterStopped agent e) (Ok tt)) as Hask by hist. clearbody h1.
  apply answered_try. eapply (answered_mono _ (λ h' r, h1 `suffix_of` h' ∧ r = Ok tt)).
  2:{ destruct (adapterBuilt r agent); [|apply answered_ret; split; [hist|done]].
  unfold writerStoppedDigest. rewrite Hj. apply mintPlacementToken_taken. }
  intros h2 ? [Hs2 ->]. exists tt. split; [done|].
  apply answered_try. eapply answered_mono, recordStoppedWriter_taken. intros h3 ? [Hs3 ->]. exists tt. split; [done|].
  apply answered_call. intros [p|err] Ha3; [|by apply ok_accepted in Ha3]. cbn.
  apply answered_call. intros [] _. apply answered_call. intros [] _. apply answered_ret.
  split; [|done]. split; [exists e; split; [done|hist]|exists p; hist].
Qed.

Lemma readFence_taken pod h (Q : history → result fenceVerdict → Prop) :
  (Pod_NodeName pod ≠ "" →
    (∀ res, ok (Ev (InL (GetNode (Pod_NodeName pod))) res) →
      ∃ node, res = Ok node ∧ in_contact node ∧ Forall (stopped pod node) (writers_of pod)) ∧
    (∀ res, ok (Ev (InL (GetClaim (Agent_Namespace agent) (claimOfPod agent pod))) res) →
      ∃ claim, res = Ok claim ∧ started_on pod claim)) →
  (∀ h' e, Evidence_PodUID e = Pod_UID pod → Q h' (Ok (mkVerdict (Some e) "" ""))) →
  answered ok Q h (readFence agent pod).
Proof.
  intros Hread HQ. apply answered_call. intros now _. cbn. case_bool_decide as Hn; [by apply answered_ret, HQ|].
  destruct (Hread Hn) as [Hnode Hclaim]. clear Hread.
  apply answered_call. intros ? (node & -> & (c & Hc & Hu) & Hst)%Hnode. cbn. rewrite Hc.
  rewrite bool_decide_false by done. cbn.
  apply answered_call. intros ? (claim & -> & [Huid Hage])%Hclaim. cbn.
  rewrite bool_decide_true by done. cbn. rewrite bool_decide_false by lia. cbn.
  pose proof (collect_writers_spec pod node (writers_of pod)) as Hw. fold (terminatedWriters pod node) in Hw.
  destruct (terminatedWriters pod node) as [[[ts ns] reason] message].
  destruct (decide (reason = "")) as [->|Hreason]; [by apply answered_ret, HQ|tauto].
Qed.
End calls.

(** The answers of a cluster that holds the Pod, its node and its claim, and takes every write. *)
Definition cluster_answers `{K8s : Kubernetes} (pod : Pod) (node : Node) (claim : Claim) (ev : event fullE) : Prop :=
  accepted ev = true ∧
  match ev with
  | Ev (InL e) x =>
      match e in kubeE X return X → Prop with
      | GetPod _ _ => λ x, x = Ok pod
      | GetNode _ => λ x, x = Ok node
      | GetClaim _ _ => λ x, x = Ok claim
      | _ => λ _, True
      end x
  | Ev (InR _) _ => True
  end.

(** C9: A pass over the fence takes its finalizer off a Pod only where it read that Pod deleting and
    held, and only on evidence: the Pod was given no node; or its node, in contact, and the claim it was
    marked with, no younger than it, were read, and every container that could write the agent's state
    was seen stopped. By then the evidence is recorded on the Agent; the Pod's claim says its writer
    stopped, or was read to be gone; and, where the adapter is built, the next placement's token is written,
    naming that Pod and the digest of that evidence, but for one case: where the placement Secret was missing
    when it was patched and was there again when it was read or made, the token is left as it then is (see
    [mint_without_token]). *)
Theorem release_on_evidence `{K8s : Kubernetes} canonical_json r agent h k pod wanted :
  reaches (reconcileFence canonical_json r agent) [] (Vis (InL (PatchPod pod wanted)) k) h →
  writerStoppedFinalizer ∈ Pod_Finalizers pod → writerStoppedFinalizer ∉ Pod_Finalizers wanted →
  may_release canonical_json r agent h pod.
Proof.
  intros Hr Hin Hout. pose proof (safe_issued _ _ _ _ _ _ _ _ (reconcileFence_safe _ _ _) Hr) as Hp.
  destruct Hp as [[-> ?]|(uid & -> & _)]; done.
Qed.

(** The evidence of a Pod whose one container exited, released with the adapter built. *)
Lemma release_on_evidence_witness :
  ∃ h, may_release (λ _, Ok "{}") KubeSamples.reconciler KubeSamples.agent h KubeSamples.stopped_pod.
Proof.
  eexists. eapply (release_on_evidence (λ _, Ok "{}") KubeSamples.reconciler KubeSamples.agent _ _
    KubeSamples.stopped_pod (RemoveFinalizer KubeSamples.stopped_pod writerStoppedFinalizer)).
  - unfold reconcileFence.
    eapply (reaches_step _ _ _ (Ok KubeSamples.stopped_pod)).
    eapply (reaches_step _ _ _ (70 : Time)).
    eapply (reaches_step _ _ _ (Ok KubeSamples.node)).
    eapply (reaches_step _ _ _ (Ok KubeSamples.claim)).
    eapply (reaches_step _ _ _ (Ok tt)).
    eapply (reaches_step _ _ _ (Ok [1; 2])).
    eapply (reaches_step _ _ _ (Ok tt)).
    eapply (reaches_step _ _ _ (Ok KubeSamples.claim)).
    eapply (reaches_step _ _ _ (Ok KubeSamples.claim)).
    apply reaches_refl.
  - by left.
  - by vm_compute; intros ?%elem_of_nil.
Defined.

(** Whatever the API server answers a pass over the fence, it records evidence, mints a token,
    names a claim's writer, marks a Pod or lets one go only as [fence_call] allows, and nothing else is
    written; it reports the Pod gone only where the server said so; and where it reports the fence
    unverified it wrote nothing and set the condition to Unknown. *)
Theorem reconcileFence_guarded `{K8s : Kubernetes} canonical_json r agent :
  safe (fence_call canonical_json r agent) (fence_outcome agent) []
    (reconcileFence canonical_json r agent).
Proof. apply reconcileFence_safe. Qed.

(** A deleting Pod's fence is not left closed on a Pod whose writers stopped: where the cluster
    holds the Pod, its node, in contact, and the claim it was marked with, every writer is seen stopped
    (or the Pod was given no node), and the server takes each write, the pass records evidence of that
    Pod, takes its finalizer off, and reports the fence neither gone nor unverified. *)
Theorem stopped_pod_released `{K8s : Kubernetes} canonical_json r agent pod node claim
    (Hcanonical : ∀ e, ∃ s, canonical_json e = Ok s)
    (Hdeleting : is_Some (Pod_DeletionTimestamp pod)) (Hheld : writerStoppedFinalizer ∈ Pod_Finalizers pod)
    (Hstopped : Pod_NodeName pod = "" ∨
       (in_contact node ∧ started_on pod claim ∧ Forall (stopped pod node) (writers_of pod))) :
  answered (cluster_answers pod node claim)
    (λ h res, res = Ok (false, false) ∧ released agent h pod) [] (reconcileFence canonical_json r agent).
Proof.
  assert (∀ ev, cluster_answers pod node claim ev → accepted ev = true) as Hok by by intros ev [].
  apply answered_call. intros x [Ha Hx]. cbn in Hx. subst x. cbn.
  rewrite bool_decide_false by (intros Hn; rewrite Hn in Hdeleting; by destruct Hdeleting).
  unfold ContainsFinalizer. rewrite bool_decide_true by done. cbn [negb].
  apply answered_try, readFence_taken.
  - intros Hn. destruct Hstopped as [?|(? & ? & ?)]; [done|].
    split; intros res [_ Hres]; cbn in Hres; subst res; eexists; by split_and!.
  - intros h' e He. eexists. split; [done|]. cbn. destruct (Hcanonical e) as [digest Hd].
    apply answered_try. eapply answered_mono; [|by eapply (releaseFence_taken _ r agent _ Hok)].
    intros h2 ? [? ->]. exists tt. split; [done|]. by apply answered_ret.
Qed.

(** The Pod whose one container exited, on a node in contact. *)
Lemma stopped_pod_released_witness :
  answered (cluster_answers KubeSamples.stopped_pod KubeSamples.node KubeSamples.claim)
    (λ h res, res = Ok (false, false) ∧ released KubeSamples.agent h KubeSamples.stopped_pod) []
    (reconcileFence (λ _, Ok "{}") KubeSamples.reconciler KubeSamples.agent).
Proof.
  apply (stopped_pod_released (λ _, Ok "{}")).
  - by eexists.
  - by eexists.
  - by left.
  - right. split; [by eexists|]. split; [by split|]. repeat constructor.
    exists (KubeSamples.agent_status (KubeSamples.exited 0)). split; [done|]. left. by eexists.
Defined.

(** A token may be taken for minted that no write made: where the patch of the placement Secret finds
    none and the cache still holds the one deleted, minting ends with no error, no write taken, and the
    next placement is named by nothing. *)
Theorem mint_without_token `{K8s : Kubernetes} agent previous missing
    (Hmissing : IsNotFound missing = true) :
  ∃ h, reaches (mintPlacementToken agent previous : prog fullE _) [] (Ret (Ok tt)) h ∧
    Forall (λ ev, wrote ev && accepted ev = false) h.
Proof.
  eexists. split.
  - unfold mintPlacementToken, newPlacementToken. eapply (reaches_step _ _ _ (Ok [])).
    eapply (reaches_step _ _ _ (Err missing)). cbn. rewrite Hmissing.
    eapply (reaches_step _ _ _ (Ok tt)). apply reaches_refl.
  - by repeat constructor.
Qed.

Lemma mint_without_token_witness :
  let missing := ApiError ApiNotFound "secrets not found" in
  IsNotFound missing = true ∧
  ∃ h, reaches (mintPlacementToken KubeSamples.agent ∅ : prog fullE _) [] (Ret (Ok tt)) h ∧
    Forall (λ ev, wrote ev && accepted ev = false) h.
Proof. split; [done|]. by apply (mint_without_token _ _ (ApiError ApiNotFound "secrets not found")). Defined.
End FenceSpec.
