(* ===== verification/Move.v ===== *)
(** The move of an agent's memory to another claim ([src/internal/controller/agent_move.go]): the claims
    and their annotations hold its record, and every pass decides the next step from them again. *)
From S2P Require Import Prelude GoStd Json JsonText Errors Types Kube Names Fence.
From Stdlib Require Import Ascii.
Import GoStd JsonText Kube Names Fence.

Module Move.

Definition movedToAnnotation := "agent.garam.sh/moved-to".
Definition moveIDAnnotation := "agent.garam.sh/move-id".
Definition movePhaseAnnotation := "agent.garam.sh/move-phase".
Definition moveReasonAnnotation := "agent.garam.sh/move-reason".
Definition moveMessageAnnotation := "agent.garam.sh/move-message".
Definition moveSourceAnnotation := "agent.garam.sh/move-source".
Definition moveSourceUIDAnnotation := "agent.garam.sh/move-source-uid".
Definition moveSourceWriterAnnotation := "agent.garam.sh/move-source-writer".
Definition moveDigestAnnotation := "agent.garam.sh/move-digest".
Definition moveCopyStartedAnnotation := "agent.garam.sh/move-copy-started".
Definition moveCheckStartedAnnotation := "agent.garam.sh/move-verify-started".
Definition moveAgentLabel := "agent.garam.sh/agent".

Definition movePhaseCreated := "created".
Definition movePhaseCopied := "copied".
Definition movePhaseVerified := "verified".
Definition movePhaseSwitched := "switched".
Definition movePhaseAccepted := "accepted".
Definition movePhaseRefused := "refused".

Definition moveContainerName := "move".
Definition moveStepCopy := "copy".
Definition moveStepVerify := "verify".

Definition JobFailed := "Failed".
Definition PodReady := "Ready".
Definition maxMoves : nat := 64.

(** What the workload is built with for the agent's state. *)
Record statePlan := mkPlan {
  plan_claim : string;
  plan_requireStore : bool;
  plan_hold : bool;
}.
Definition zeroPlan : statePlan := mkPlan "" false false.
Definition held (p : statePlan) : statePlan := mkPlan (plan_claim p) (plan_requireStore p) true.

Record moveRefusal := mkRefusal { refusal_reason : string; refusal_message : string }.

Record jobOutcome := mkOutcome {
  outcome_ended : bool;
  outcome_message : string;
  outcome_refusal : option moveRefusal;
}.

(** [json.Unmarshal] into a [lastWriter]: [None] where it errs. *)
Definition lastWriter_fields : list (field lastWriter) :=
  [at_field "podUID" into_string writer_PodUID (λ w s, mkLastWriter s (writer_State w) (writer_ExitCode w));
   at_field "state" into_string writer_State (λ w s, mkLastWriter (writer_PodUID w) s (writer_ExitCode w));
   at_field "exitCode" (into_pointer 0 into_int32) writer_ExitCode
     (λ w z, mkLastWriter (writer_PodUID w) (writer_State w) z)].
Definition decode_lastWriter (text : string) : option lastWriter :=
  j ← Json.parse text; into_struct false lastWriter_fields j (mkLastWriter "" "" None).

(** ** Reading Pods and Jobs *)

Definition nonzero_exit (s : ContainerState) : option Z :=
  match State_Terminated s with
  | Some t => if bool_decide (Terminated_ExitCode t = 0) then None else Some (Terminated_ExitCode t)
  | None => None
  end.
Definition status_exit (s : ContainerStatus) : option Z :=
  if bool_decide (ContainerStatus_Name s = agentContainerName) then
    match nonzero_exit (ContainerStatus_State s) with
    | Some code => Some code
    | None => nonzero_exit (ContainerStatus_LastTerminationState s)
    end
  else None.
Definition agentExitedNonZero (pod : Pod) : option Z :=
  head (omap status_exit (Pod_ContainerStatuses pod)).

Definition podReady (pod : Pod) : bool :=
  let ready := foldl (λ ready c, if bool_decide (Condition_Type c = PodReady)
                                 then bool_decide (Condition_Status c = "True") else ready)
                 false (Pod_Conditions pod) in
  match List.find (λ s, bool_decide (ContainerStatus_Name s = agentContainerName)) (Pod_ContainerStatuses pod) with
  | Some s => ready && ContainerStatus_Ready s
  | None => false
  end.

(** The first terminated [move] container of a Job's Pods. *)
Definition moved_container (pods : list Pod) : option Terminated :=
  head (omap (λ s, if bool_decide (ContainerStatus_Name s = moveContainerName)
                   then State_Terminated (ContainerStatus_State s) else None)
          (pods ≫= Pod_ContainerStatuses)).

(** What a Job and its Pods come to. *)
Definition outcome_of (job : Job) (pods : list Pod) : jobOutcome :=
  match moved_container pods with
  | Some t =>
      if bool_decide (Terminated_ExitCode t = 0) then mkOutcome true (Terminated_Message t) None
      else mkOutcome true "" (Some (mkRefusal ""
             ("Job " +:+ quote (Job_Name job) +:+ " exited " +:+ FormatInt (Terminated_ExitCode t) +:+ ": " +:+
              TrimSpace (Terminated_Message t))))
  | None =>
      match List.find (λ c, bool_decide (Condition_Type c = JobFailed) && bool_decide (Condition_Status c = "True"))
              (Job_Conditions job) with
      | Some c => mkOutcome true "" (Some (mkRefusal ""
             ("Job " +:+ quote (Job_Name job) +:+ " failed with no Pod left to read: " +:+ Condition_Message c)))
      | None => mkOutcome false "" None
      end
  end.

(** The [key=value] fields a Job's message holds. *)
Definition reportedDigests (message : string) : gmap string string :=
  foldl (λ m field, match Cut field "="%char with (key, value, true) => <[key := value]> m | _ => m end)
    ∅ (Fields message).

Section move.
Context `{K8s : Kubernetes}.
Context {E : Type → Type} `{!SubEvent kubeE E, !SubEvent controllerE E}.
Context (r : AgentReconciler).
(** The file the agent type keeps its memory in, and what [encoding/json] prints of a text it cannot
decode. *)
Context (memoryFile : string) (decode_error : string → string).
Implicit Types (agent : Kube.Agent) (move : MemoryMove) (plan : statePlan) (target : Claim).

(** [moveJobName] and [targetClaimName]. *)
Definition targetClaimName agent (id : string) : string := Agent_Name agent +:+ "-state-" +:+ id.
Definition moveJobName agent (id step : string) : string :=
  let sum := Sum256 (bytes_of (Agent_Namespace agent +:+ "/" +:+ Agent_Name agent +:+ "/" +:+ id)) in
  "memory-move-" +:+ EncodeToString (take 8 sum) +:+ "-" +:+ step.

(** ** Where the memory is *)

(** A claim on the chain no move of this Agent created holds the agent stopped. *)
Definition lost_chain (name : string) : prog E (result (statePlan * string)) :=
  _ ← call (SetMemoryMove ConditionFalse ReasonSourceChanged
    ("The agent's memory moved to claim " +:+ quote name +:+
      ", which does not exist or no move of this Agent created; the agent is held at no replica"));
  mret (Ok (mkPlan "" false true, name)).

Fixpoint follow_moves agent (n : nat) (name : string) : prog E (result (statePlan * string)) :=
  match n with
  | O =>
    _ ← call (SetMemoryMove ConditionFalse ReasonSourceChanged
      ("The chain of claims the agent's memory moved through is longer than " +:+
        FormatInt (Z.of_nat maxMoves) +:+ ", so where it is cannot be read"));
    mret (Ok (mkPlan "" false true, name))
  | S n' =>
    claim ← call (GetClaim (Agent_Namespace agent) name);
    let own := bool_decide (name = stateClaimName agent) in
    match claim with
    | Err err =>
      if negb (IsNotFound err) then mret (Err (Wrapf ("get claim " +:+ quote name +:+ ": ") err ""))
      else if own then mret (Ok (zeroPlan, name))
      else lost_chain name
    | Ok claim =>
      let moved := bool_decide (annotation (Claim_Labels claim) moveAgentLabel = Agent_Name agent) &&
      negb (bool_decide (annotation (Claim_Annotations claim) moveIDAnnotation = "")) in
      if negb own && negb moved then lost_chain name
      else
      let next := annotation (Claim_Annotations claim) movedToAnnotation in
      if bool_decide (next = "") then
      if own then mret (Ok (zeroPlan, name)) else mret (Ok (mkPlan name true false, name))
      else follow_moves agent n' next
    end
  end.

Definition stateInUse agent : prog E (result (statePlan * string)) :=
  follow_moves agent maxMoves (stateClaimName agent).

(** ** The Jobs of a move *)
Definition read_outcome (job : Job) : prog E (result jobOutcome) :=
  pods ← call (ListPodsOfJob (Job_Namespace job) (Job_Name job));
  match pods with
  | Err err => mret (Err (Wrapf ("list the pods of job " +:+ quote (Job_Name job) +:+ ": ") err ""))
  | Ok pods => mret (Ok (outcome_of job pods))
  end.

Fixpoint any_running (jobs : list Job) : prog E (result bool) :=
  match jobs with
  | [] => mret (Ok false)
  | job :: jobs =>
    outcome ←? read_outcome job;
    if negb (outcome_ended outcome) then mret (Ok true) else any_running jobs
  end.

Definition moveJobRunning agent : prog E (result bool) :=
  jobs ←? call (ListJobs (Agent_Namespace agent) (Agent_Name agent))
  wrap (λ e, Wrapf "list the jobs moving the agent's memory: " e "");
  any_running jobs.

Definition moveJob agent target (name step : string) : JobSpec :=
  mkJobSpec name (Agent_Namespace agent) (Agent_Name agent) (CopyImage r) step memoryFile
  (annotation (Claim_Annotations target) moveSourceAnnotation) (Claim_Name target)
  (negb (bool_decide (step = moveStepCopy))).

(** The outcome, and the claim as it now is: marked where the Job was made. *)
Definition ensureMoveJob agent move target (step startedAnnotation : string) :
  prog E (result (jobOutcome * Claim)) :=
  let name := moveJobName agent (Move_ID move) step in
  job ← call (GetJob (Agent_Namespace agent) name);
  match job with
  | Ok job => outcome ←? read_outcome job; mret (Ok (outcome, target))
  | Err err =>
    if negb (IsNotFound err) then mret (Err (Wrapf ("get job " +:+ quote name +:+ ": ") err ""))
    else if negb (bool_decide (annotation (Claim_Annotations target) startedAnnotation = ""))
    then mret (Ok (mkOutcome true "" (Some (mkRefusal "" ("the " +:+ step +:+ " Job " +:+ quote name +:+
      " is gone with no outcome recorded, so what it did is unknown"))), target))
    else
    target' ←? call (PatchClaim target (annotated target startedAnnotation name))
    wrap (λ e, Wrapf ("mark claim " +:+ quote (Claim_Name target) +:+ " before its " +:+ step +:+ " Job: ") e "");
    _ ←? call (SetControllerReference "Job" name) wrap (λ e, Wrapf ("own job " +:+ quote name +:+ ": ") e "");
    created ← call (CreateJob (moveJob agent target' name step));
    let failed := match created with
    | Err err => if IsAlreadyExists err then None else Some err
    | Ok _ => None
    end in
    match failed with
    | Some err => mret (Err (Wrapf ("create job " +:+ quote name +:+ ": ") err ""))
    | None =>
      _ ← call (LogInfo "Started a step of the agent's memory move" [("job", name); ("step", step)]);
      mret (Ok (mkOutcome false "" None, target'))
    end
  end.

(** ** The record of a move *)
Definition recordMovePhase target (phase : string) (extra : gmap string string) (reason message : string) :
  prog E (result Claim) :=
  target' ←? call (PatchClaim target
    (with_annotations target (extra ∪ <[movePhaseAnnotation := phase]> (Claim_Annotations target))))
  wrap (λ e, Wrapf ("record move phase " +:+ quote phase +:+ " on claim " +:+ quote (Claim_Name target) +:+ ": ") e "");
  _ ← call (SetMemoryMove (if bool_decide (phase = movePhaseAccepted) then ConditionTrue else ConditionFalse)
    reason message);
  _ ← call (LogInfo "Recorded a step of the agent's memory move"
    [("claim", Claim_Name target'); ("phase", phase)]);
  mret (Ok target').

Definition refused_text move target (message : string) : string :=
  "Move " +:+ quote (Move_ID move) +:+ " was refused, and its claim " +:+ quote (Claim_Name target) +:+
  " is kept and never used again: " +:+ message +:+ ". The agent stays stopped on claim " +:+
  quote (annotation (Claim_Annotations target) moveSourceAnnotation) +:+
  " until the move is cleared or a new id is named".

Definition refuseMove move target (refusal : moveRefusal) : prog E (result Claim) :=
  target' ←? recordMovePhase target movePhaseRefused
  (<[moveReasonAnnotation := refusal_reason refusal]>
    (<[moveMessageAnnotation := refusal_message refusal]> ∅))
  (refusal_reason refusal) "";
  _ ← call (SetMemoryMove ConditionFalse (refusal_reason refusal)
    (refused_text move target' (refusal_message refusal)));
  mret (Ok target').

Definition refuseBeforeRecord plan (refusal : moveRefusal) : prog E (result statePlan) :=
  _ ← call (SetMemoryMove ConditionFalse (refusal_reason refusal)
    (refusal_message refusal +:+ ". The agent stays stopped until the move is cleared or a new id is named"));
  mret (Ok (held plan)).

Definition linkMove agent (source to : string) : prog E (result ()) :=
  claim ←? call (GetClaim (Agent_Namespace agent) source)
  wrap (λ e, Wrapf ("get claim " +:+ quote source +:+ ": ") e "");
  if bool_decide (annotation (Claim_Annotations claim) movedToAnnotation = to) then mret (Ok tt)
  else
  let marked := if bool_decide (to = "")
  then with_annotations claim (delete movedToAnnotation (Claim_Annotations claim))
  else annotated claim movedToAnnotation to in
  _ ←? call (PatchClaim claim marked)
  wrap (λ e, Wrapf ("name on claim " +:+ quote source +:+ " where the memory moved: ") e "");
  mret (Ok tt).

(** ** Beginning a move *)
Definition drainedCleanly (source : Claim) : option moveRefusal :=
  let refuse text := Some (mkRefusal ReasonWriterNotDrained ("Claim " +:+ quote (Claim_Name source) +:+ text)) in
  match Claim_Annotations source !! lastWriterAnnotation with
  | None => refuse " carries no record of its last writer, so no clean exit was seen"
  | Some recorded =>
    match decode_lastWriter recorded with
    | None => refuse ("'s record of its last writer cannot be read: " +:+ decode_error recorded)
    | Some w =>
      let last := "'s last writer, Pod " +:+ writer_PodUID w +:+ ", " in
      if negb (bool_decide (writer_State w = writerStopped))
      then refuse (last +:+ "was never seen to stop; a Pod released by hand leaves no evidence")
      else match writer_ExitCode w with
      | None => refuse (last +:+ "stopped with no agent exit observed")
      | Some code =>
        if bool_decide (code = 0) then None
        else refuse (last +:+ "exited " +:+ FormatInt code +:+ " rather than 0 after a drain; " +:+
          "let the agent run and stop cleanly once, then name a new move id")
      end
    end
  end.

(** The claim a move copies into, as it is created. *)
Definition new_target agent move (source : Claim) : Claim :=
  mkClaim (targetClaimName agent (Move_ID move)) (Agent_Namespace agent) "" 0
  {[moveAgentLabel := Agent_Name agent]}
  (<[moveIDAnnotation := Move_ID move]>
    (<[movePhaseAnnotation := movePhaseCreated]>
      (<[moveSourceAnnotation := Claim_Name source]>
        (<[moveSourceUIDAnnotation := Claim_UID source]>
          {[moveSourceWriterAnnotation := annotation (Claim_Annotations source) lastWriterAnnotation]}))))
  (Move_StorageClassName move) (Move_StorageSize move).

(** [beginMove] past its checks of the image and the StatefulSet. *)
Definition begin_drained agent move plan (inUse : string) (podGone : bool) : prog E (result statePlan) :=
  let targetName := targetClaimName agent (Move_ID move) in
  if negb podGone then
  _ ← call (SetMemoryMove ConditionFalse ReasonMoveStopping
    ("Stopping the agent to move its memory to claim " +:+ quote targetName +:+
      "; its Pod is released only on its writers' evidence"));
  mret (Ok plan)
  else
  source ← call (GetClaim (Agent_Namespace agent) inUse);
  match source with
  | Err err =>
    if IsNotFound err then
    refuseBeforeRecord plan (mkRefusal ReasonSourceChanged
      ("Claim " +:+ quote inUse +:+
        ", which the agent's memory is on, does not exist, so there is no memory to move"))
    else mret (Err (Wrapf ("get claim " +:+ quote inUse +:+ ": ") err ""))
  | Ok source =>
    match drainedCleanly source with
    | Some refusal => refuseBeforeRecord plan refusal
    | None =>
      created ← call (CreateClaim (new_target agent move source));
      let failed := match created with
      | Err err => if IsAlreadyExists err then None else Some err
      | Ok _ => None
      end in
      match failed with
      | Some err => mret (Err (Wrapf ("create claim " +:+ quote targetName +:+ ": ") err ""))
      | None =>
        _ ← call (LogInfo "Created the claim the agent's memory moves to"
          [("claim", targetName); ("source", Claim_Name source)]);
        _ ← call (SetMemoryMove ConditionFalse ReasonMoveCopying
          ("Copying the agent's memory from claim " +:+ quote (Claim_Name source) +:+
            " to claim " +:+ quote targetName));
        mret (Ok plan)
      end
    end
  end.

Definition beginMove agent move plan (inUse : string) (podGone : bool) : prog E (result statePlan) :=
  if bool_decide (CopyImage r = "") then
  refuseBeforeRecord plan (mkRefusal ReasonCopyImageUnset
    "This operator names no copy image (--agent-copy-image), so it cannot copy the agent's memory")
  else
  statefulSet ← call (GetStatefulSet (Agent_Namespace agent) (Agent_Name agent));
  match statefulSet with
  | Err err =>
    if negb (IsNotFound err) then mret (Err (Wrapf "get statefulset: " err ""))
    else begin_drained agent move (held plan) inUse podGone
  | Ok false =>
    refuseBeforeRecord plan (mkRefusal ReasonMoveSharedClaim
      ("The workspace shares the state claim, so the claim holds the workspace as well as the memory; " +:+
        "it is moved only once the agent claims them separately, which this operator's replacement gives it (ADR 0068)"))
  | Ok true => begin_drained agent move (held plan) inUse podGone
  end.

(** ** Advancing a move *)
Definition sourceUnchanged agent target : prog E (result (option moveRefusal)) :=
  let name := annotation (Claim_Annotations target) moveSourceAnnotation in
  let changed text := mret (Ok (Some (mkRefusal ReasonSourceChanged ("Source claim " +:+ quote name +:+ text)))) in
  source ← call (GetClaim (Agent_Namespace agent) name);
  match source with
  | Err err =>
    if IsNotFound err then changed " no longer exists"
    else mret (Err (Wrapf ("get claim " +:+ quote name +:+ ": ") err ""))
  | Ok source =>
    if negb (bool_decide (Claim_UID source = annotation (Claim_Annotations target) moveSourceUIDAnnotation))
    then changed (" is " +:+ Claim_UID source +:+ ", not the claim the move began on")
    else if negb (bool_decide (annotation (Claim_Annotations source) lastWriterAnnotation =
      annotation (Claim_Annotations target) moveSourceWriterAnnotation))
    then changed " has had a writer since the move began, so the copy is not its state"
    else mret (Ok None)
  end.

Definition refuse_step move target (reason message : string) : prog E (result ()) :=
  _ ←? refuseMove move target (mkRefusal reason message); mret (Ok tt).

Definition runCopy agent move target : prog E (result ()) :=
  '(outcome, target) ←? ensureMoveJob agent move target moveStepCopy moveCopyStartedAnnotation;
  match outcome_refusal outcome with
  | Some refusal => refuse_step move target ReasonCopyFailed (refusal_message refusal)
  | None =>
    if negb (outcome_ended outcome) then
    _ ← call (SetMemoryMove ConditionFalse ReasonMoveCopying
      ("Copying the agent's memory from claim " +:+
        quote (annotation (Claim_Annotations target) moveSourceAnnotation) +:+
        " to claim " +:+ quote (Claim_Name target)));
    mret (Ok tt)
    else
    let source := annotation (reportedDigests (outcome_message outcome)) "source" in
    if bool_decide (source = "") then
    refuse_step move target ReasonCopyFailed
    ("The copy reported no digest of its source: " +:+ quote (outcome_message outcome))
    else
    _ ←? recordMovePhase target movePhaseCopied {[moveDigestAnnotation := source]} ReasonMoveVerifying
    ("Verifying the copy on claim " +:+ quote (Claim_Name target) +:+ " against its source");
    mret (Ok tt)
  end.

(** What the verification reported against the digest of the copy: empty where it holds. *)
Definition verify_mismatch (message copied : string) : string :=
  let reported := reportedDigests message in
  let source := annotation reported "source" in
  let copy := annotation reported "target" in
  let extra := annotation reported "extra" in
  if bool_decide (source = "") || bool_decide (copy = "") || bool_decide (extra = "")
  then "the verification reported no digests: " +:+ quote message
  else if negb (bool_decide (source = copied))
  then "the source changed while it was copied: " +:+ copied +:+ " before, " +:+ source +:+ " after"
  else if negb (bool_decide (copy = source))
  then "the copy's digest " +:+ copy +:+ " does not match its source's " +:+ source
  else if negb (bool_decide (extra = "0"))
  then "the target holds " +:+ extra +:+ " entries beyond the copy"
  else "".

Definition runVerify agent move target : prog E (result ()) :=
  '(outcome, target) ←? ensureMoveJob agent move target moveStepVerify moveCheckStartedAnnotation;
  match outcome_refusal outcome with
  | Some refusal => refuse_step move target ReasonVerificationFailed (refusal_message refusal)
  | None =>
    if negb (outcome_ended outcome) then
    _ ← call (SetMemoryMove ConditionFalse ReasonMoveVerifying
      ("Verifying the copy on claim " +:+ quote (Claim_Name target) +:+ " against its source"));
    mret (Ok tt)
    else
    let copied := annotation (Claim_Annotations target) moveDigestAnnotation in
    let mismatch := verify_mismatch (outcome_message outcome) copied in
    if negb (bool_decide (mismatch = "")) then refuse_step move target ReasonVerificationFailed mismatch
    else
    _ ←? recordMovePhase target movePhaseVerified ∅ ReasonMoveStarting
    ("The copy on claim " +:+ quote (Claim_Name target) +:+ " matches its source, digest " +:+ copied);
    mret (Ok tt)
  end.

(** ** Ending a move *)
Definition restoreSource agent target : prog E (result statePlan) :=
  let source := annotation (Claim_Annotations target) moveSourceAnnotation in
  _ ←? linkMove agent source "";
  mret (Ok (mkPlan source (negb (bool_decide (source = stateClaimName agent))) true)).

Definition starting target : prog E () :=
  call (SetMemoryMove ConditionFalse ReasonMoveStarting
    ("Starting the agent on claim " +:+ quote (Claim_Name target) +:+
      "; it must accept the copy before it serves")).
Definition accepted_text target : string :=
  "The agent accepted the copy on claim " +:+ quote (Claim_Name target) +:+ "; claim " +:+
  quote (annotation (Claim_Annotations target) moveSourceAnnotation) +:+
  " is kept, and deleting it is a person's step".

(** The switched move's Pod: accepted, refused, or neither yet. *)
Definition settle_switched agent move plan target : prog E (result statePlan) :=
  pod ← call (GetPod (Agent_Namespace agent) (agentPodName agent));
  match pod with
  | Err err =>
    if IsNotFound err then _ ← starting target; mret (Ok plan)
    else mret (Err (Wrapf "get the agent's pod: " err ""))
  | Ok pod =>
    if negb (bool_decide (podStateClaim pod = Claim_Name target)) then _ ← starting target; mret (Ok plan)
    else match agentExitedNonZero pod with
    | Some code =>
      target ←? refuseMove move target (mkRefusal ReasonAgentRefusedStore
        ("the agent exited " +:+ FormatInt code +:+ " on the copy before it served; a move needs agent " +:+
          "v0.2.0 or later, which accepts --require-store"));
      restoreSource agent target
    | None =>
      if negb (podReady pod) then _ ← starting target; mret (Ok plan)
      else
      _ ←? recordMovePhase target movePhaseAccepted ∅ ReasonMoveAccepted (accepted_text target);
      mret (Ok plan)
    end
  end.

Definition settleMove agent move plan target : prog E (result statePlan) :=
  let phase := annotation (Claim_Annotations target) movePhaseAnnotation in
  if bool_decide (phase = movePhaseVerified) then
  target ←? recordMovePhase target movePhaseSwitched ∅ ReasonMoveStarting
  ("Starting the agent on claim " +:+ quote (Claim_Name target) +:+
    "; it must accept the copy before it serves");
  settle_switched agent move plan target
  else if bool_decide (phase = movePhaseSwitched) then settle_switched agent move plan target
  else if bool_decide (phase = movePhaseAccepted) then
  _ ← call (SetMemoryMove ConditionTrue ReasonMoveAccepted (accepted_text target));
  mret (Ok plan)
  else if bool_decide (phase = movePhaseRefused) then restoreSource agent target
  else
  _ ←? refuseMove move target (mkRefusal ReasonSourceChanged
    ("The agent's memory is on claim " +:+ quote (Claim_Name target) +:+ ", whose move phase " +:+
      quote phase +:+ " is not one a switch follows"));
  mret (Ok (mkPlan "" false true)).

Definition switchMove agent move target : prog E (result statePlan) :=
  _ ←? linkMove agent (annotation (Claim_Annotations target) moveSourceAnnotation) (Claim_Name target);
  settleMove agent move (mkPlan (Claim_Name target) true false) target.

(** The step of the phase recorded, once the source is seen unchanged. *)
Definition advance_phase agent move plan target : prog E (result statePlan) :=
  let phase := annotation (Claim_Annotations target) movePhaseAnnotation in
  if bool_decide (phase = movePhaseCreated) then _ ←? runCopy agent move target; mret (Ok plan)
  else if bool_decide (phase = movePhaseCopied) then _ ←? runVerify agent move target; mret (Ok plan)
  else if bool_decide (phase = movePhaseVerified) then switchMove agent move target
  else
  _ ←? refuseMove move target (mkRefusal ReasonTargetForeign
    ("Claim " +:+ quote (Claim_Name target) +:+ " records move phase " +:+ quote phase +:+
      ", which no move writes"));
  mret (Ok plan).

Definition advanceMove agent move plan target (podGone : bool) : prog E (result statePlan) :=
  let plan := held plan in
  let phase := annotation (Claim_Annotations target) movePhaseAnnotation in
  if bool_decide (phase = movePhaseRefused) then
  _ ← call (SetMemoryMove ConditionFalse (annotation (Claim_Annotations target) moveReasonAnnotation)
    (refused_text move target (annotation (Claim_Annotations target) moveMessageAnnotation)));
  mret (Ok plan)
  else if bool_decide (phase = movePhaseSwitched) || bool_decide (phase = movePhaseAccepted) then
  refuseBeforeRecord plan (mkRefusal ReasonTargetForeign
    ("Claim " +:+ quote (Claim_Name target) +:+
      " was already moved to and is not the claim the agent's memory is on; name a new move id"))
  else if negb podGone then
  _ ← call (SetMemoryMove ConditionFalse ReasonMoveStopping
    ("Waiting for the agent's Pod to be released before the move to claim " +:+
      quote (Claim_Name target) +:+ " continues"));
  mret (Ok plan)
  else
  refusal ←? sourceUnchanged agent target;
  match refusal with
  | Some refusal => _ ←? refuseMove move target refusal; mret (Ok plan)
  | None => advance_phase agent move plan target
  end.

(** One pass: where the memory is, and the move asked for one step further. *)
Definition reconcileMove agent (podGone : bool) : prog E (result statePlan) :=
  '(plan, inUse) ←? stateInUse agent;
  if plan_hold plan then mret (Ok plan)
  else
  running ←? moveJobRunning agent;
  let plan := mkPlan (plan_claim plan) (plan_requireStore plan) running in
  match Agent_MemoryMove agent with
  | None =>
    _ ← call (SetMemoryMove ConditionFalse ReasonNoMove
      ("No move is asked for; the agent's memory is on claim " +:+ quote inUse));
    mret (Ok plan)
  | Some move =>
    let targetName := targetClaimName agent (Move_ID move) in
    target ← call (GetClaim (Agent_Namespace agent) targetName);
    match target with
    | Err err =>
      if IsNotFound err then beginMove agent move plan inUse podGone
      else mret (Err (Wrapf ("get claim " +:+ quote targetName +:+ ": ") err ""))
    | Ok target =>
      if negb (bool_decide (annotation (Claim_Labels target) moveAgentLabel = Agent_Name agent)) ||
      negb (bool_decide (annotation (Claim_Annotations target) moveIDAnnotation = Move_ID move))
      then refuseBeforeRecord plan (mkRefusal ReasonTargetForeign
        ("Claim " +:+ quote targetName +:+ " exists and no move of this Agent created it"))
      else if bool_decide (inUse = targetName) then settleMove agent move plan target
      else advanceMove agent move plan target podGone
    end
  end.
End move.
End Move.
