(* ===== verification/Build.v ===== *)
(** Building the workload ([src/internal/controller/agent_statefulset.go], applyAgent and what it calls): the
    fields an Agent's spec decides are written onto the StatefulSet found, every other left as it was. *)
From S2P Require Import Prelude GoStd Errors Types Kube Names AgentApi AgentTypes Fence Workload Move.
Import GoStd Kube AgentApi AgentTypes Workload.

Module Build.

Section build.
Context `{K8s : Kubernetes}.
Context (r : Fence.AgentReconciler).
Implicit Types (agent : Agent) (d : agentTypeDescriptor) (s : StatefulSet) (plan : Move.statePlan).

Definition heldStopped agent : bool := Spec_Suspended (Agent_Spec agent) || Spec_Stopped (Agent_Spec agent).
Definition replicasFor agent plan : Z := if heldStopped agent || Move.plan_hold plan then 0 else 1.

Definition adapterBuilt agent : bool := Fence.adapterBuilt r (view agent).

(** The identity's GRN, where there is one. *)
Definition grn_of agent : string := from_option Identity_GRN "" (Spec_Identity (Agent_Spec agent)).

Definition issuerFor agent d : option messageIssuer :=
  if bool_decide (Fence.GaramIssuer r = "") || negb (adapterBuilt agent) then None
  else Some (mkIssuer (Fence.GaramIssuer r) ("https://" +:+ Fence.GaramAddress r +:+ messageSigningKeysPath)
    (credentialsMountPath d +:+ "/" +:+ ServerRootKey)).

Definition instructionsFor agent d : string :=
  if negb (adapterBuilt agent) then "" else garamReplyInstruction d.

Definition agentArgumentsFor agent d : agentArguments :=
  mkArguments
  match Spec_Identity (Agent_Spec agent) with Some i => Identity_GRN i | None => Agent_Name agent end
  (if negb (bool_decide (Spec_Ego (Agent_Spec agent) = "")) then egoFileIn d (configMountPath d) else "")
  (if negb (bool_decide (instructionsFor agent d = "")) then instructionsFileIn d (configMountPath d) else "")
  match Spec_Identity (Agent_Spec agent) with Some i => Identity_AssignmentEpoch i | None => "" end
  false.

(** ** The config file and the container that writes it *)

(** Whether the Agent declares anything the config files hold, [controlRoot] the root read for its
adapter. *)
Definition config_declared agent d (controlRoot : option string) : bool :=
  let spec := Agent_Spec agent in
  negb (bool_decide (Spec_Pins spec = ∅) && negb (bool_decide (is_Some (Spec_Model spec))) &&
    bool_decide (Spec_Revision spec = "") && bool_decide (Spec_Ego spec = "") &&
    bool_decide (instructionsFor agent d = "") && negb (bool_decide (is_Some controlRoot)) &&
    negb (bool_decide (is_Some (issuerFor agent d)))).

Definition config_container agent d (controlRoot : option string) (file : string) (c : PodContainer) : PodContainer :=
  let ego := Spec_Ego (Agent_Spec agent) in
  let instructions := instructionsFor agent d in
  {| C_Name := C_Name c;
    C_Image := Fence.CopyImage r;
    C_ImagePullPolicy := PullAlways;
    C_Command := writeConfigCommand (configMountPath d) d (negb (bool_decide (ego = "")))
    (negb (bool_decide (instructions = ""))) (bool_decide (is_Some controlRoot));
    C_Args := C_Args c;
    C_Env := [mkEnv configContentVariable (EnvText file)] ++
    (if negb (bool_decide (ego = "")) then [mkEnv egoContentVariable (EnvText ego)] else []) ++
    (if negb (bool_decide (instructions = ""))
      then [mkEnv instructionsContentVariable (EnvText instructions)] else []) ++
    match controlRoot with Some root => [mkEnv controlRootContentVariable (EnvText root)] | None => [] end;
    C_Resources := C_Resources c;
    C_SecurityContext := Some containerSecurityContext;
    C_RestartPolicy := C_RestartPolicy c;
    C_VolumeMounts := [mkMount configVolumeName (configMountPath d) "" false] ++
    match controlRoot with
    | Some _ => [mkMount controlRootVolumeName controlRootMountPath "" false] | None => []
    end;
    C_Other := C_Other c |}.

(** ** The agent's container *)
Definition secret_env (variable : string) (key : SecretKeyReference) : EnvVar := mkEnv variable (EnvSecret key).

Definition agent_env agent d (controlRoot : option string) : list EnvVar :=
  [mkEnv (memoryPathVariable d) (EnvText (memoryPath d))] ++
  match Spec_Model (Agent_Spec agent) with
  | Some m => secret_env (modelKeyVariable d) (ModelSpec_APIKeySecretRef m) ::
    match embeddingKeyOf agent with Some key => [secret_env (embeddingKeyVariable d) key] | None => [] end
  | None => []
  end ++
  (if negb (bool_decide (Fence.WorkspaceImage r = ""))
    then [mkEnv (workspaceAddressVariable d) (EnvText (workspaceAddress d))] else []) ++
  (if adapterBuilt agent then [mkEnv (listenAddressVariable d) (EnvText (gatewayAddress d))] else []) ++
  (if config_declared agent d controlRoot
    then [mkEnv (configHomeVariable d) (EnvText (configMountPath d))] else []).

Definition agent_mounts agent d (controlRoot : option string) : list VolumeMount :=
  [mkMount Names.stateVolumeName (stateMountPath d) "" false] ++
  match issuerFor agent d with
  | Some _ => [mkMount serverRootVolumeName (credentialsMountPath d) "" true] | None => []
  end ++
  (if config_declared agent d controlRoot
    then [mkMount configVolumeName (configMountPath d) "" true] else []).

Definition agent_container agent d (controlRoot : option string) (args : list string) (c : PodContainer) : PodContainer :=
  {| C_Name := C_Name c;
    C_Image := Spec_Image (Agent_Spec agent);
    C_ImagePullPolicy := PullAlways;
    C_Command := C_Command c;
    C_Args := args;
    C_Env := agent_env agent d controlRoot;
    C_Resources := Spec_Resources (Agent_Spec agent);
    C_SecurityContext := Some containerSecurityContext;
    C_RestartPolicy := C_RestartPolicy c;
    C_VolumeMounts := agent_mounts agent d controlRoot;
    C_Other := C_Other c |}.

(** ** The workspace, the adapter and the outbox *)
Definition workspace_container d (c : PodContainer) : PodContainer :=
  {| C_Name := C_Name c;
    C_Image := Fence.WorkspaceImage r;
    C_ImagePullPolicy := PullAlways;
    C_Command := C_Command c;
    C_Args := C_Args c;
    C_Env := [mkEnv (listenAddressVariable d) (EnvText (workspaceAddress d));
      mkEnv (workspaceDirVariable d) (EnvText (stateMountPath d +:+ "/" +:+ workspaceDirName));
      mkEnv (execUserVariable d) (EnvText (FormatInt agentRunAsUser))];
    C_Resources := C_Resources c;
    C_SecurityContext := Some containerSecurityContext;
    C_RestartPolicy := C_RestartPolicy c;
    C_VolumeMounts := [mkMount workspaceVolumeName (stateMountPath d) "" false];
    C_Other := C_Other c |}.

Definition applyWorkspace d (containers : list PodContainer) : list PodContainer :=
  if bool_decide (Fence.WorkspaceImage r = "") then deleteNamed workspaceContainerName containers
  else containerNamed workspaceContainerName (workspace_container d) containers.

Definition adapterVolumeMounts : list VolumeMount :=
  [mkMount credentialsVolumeName adapterCredentialsMountPath "" true;
    mkMount placementVolumeName placementMountPath "" true].

Definition adapter_container agent d (c : PodContainer) : PodContainer :=
  let grn := grn_of agent in
  {| C_Name := C_Name c;
    C_Image := Fence.AdapterImage r;
    C_ImagePullPolicy := PullAlways;
    C_Command := C_Command c;
    C_Args := ["adapter"];
    C_Env := [mkEnv adapterAgentSetting (EnvText grn);
      mkEnv adapterMachineURLSetting (EnvText ("https://" +:+ Fence.GaramAddress r));
      mkEnv adapterGatewayURLSetting (EnvText ("http://" +:+ gatewayAddress d));
      mkEnv adapterTokenFileSetting (EnvText (adapterCredentialsMountPath +:+ "/" +:+ TokenKey));
      mkEnv adapterServerRootSetting (EnvText (adapterCredentialsMountPath +:+ "/" +:+ ServerRootKey));
      mkEnv adapterControlURLSetting (EnvText ("https://" +:+ Fence.ControlAddress r));
      mkEnv adapterControlRootSetting (EnvText (controlRootMountPath +:+ "/" +:+ controlRootFile));
      mkEnv adapterControlTokenSetting (EnvText (adapterCredentialsMountPath +:+ "/" +:+ ControlTokenKey));
      mkEnv adapterPlacementTokenSetting (EnvText (placementMountPath +:+ "/" +:+ Fence.placementTokenKey));
      mkEnv adapterOutboxDirSetting (EnvText outboxMountPath)];
    C_Resources := C_Resources c;
    C_SecurityContext := Some containerSecurityContext;
    C_RestartPolicy := Some Fence.ContainerRestartPolicyAlways;
    C_VolumeMounts := adapterVolumeMounts ++
    [mkMount controlRootVolumeName controlRootMountPath "" true;
      mkMount Names.stateVolumeName outboxMountPath (outboxDir d) false];
    C_Other := C_Other c |}.

Definition applyAdapter agent d (inits : list PodContainer) : list PodContainer :=
  if negb (adapterBuilt agent) then deleteNamed adapterContainerName inits
  else containerNamed adapterContainerName (adapter_container agent d) inits.

Definition outbox_container d (c : PodContainer) : PodContainer :=
  {| C_Name := C_Name c;
    C_Image := Fence.CopyImage r;
    C_ImagePullPolicy := PullAlways;
    C_Command := makeOutboxCommand (outboxStateMountPath +:+ "/" +:+ outboxDir d);
    C_Args := C_Args c;
    C_Env := C_Env c;
    C_Resources := C_Resources c;
    C_SecurityContext := Some containerSecurityContext;
    C_RestartPolicy := C_RestartPolicy c;
    C_VolumeMounts := [mkMount Names.stateVolumeName outboxStateMountPath "" false];
    C_Other := C_Other c |}.

Definition applyOutbox agent d (inits : list PodContainer) : list PodContainer :=
  if negb (adapterBuilt agent) then deleteNamed outboxContainerName inits
  else containerNamed outboxContainerName (outbox_container d) inits.

Definition applyConfig agent d (controlRoot : option string) (file : string) (inits : list PodContainer) :
  list PodContainer :=
  if negb (config_declared agent d controlRoot) then deleteNamed configContainerName inits
  else containerNamed configContainerName (config_container agent d controlRoot file) inits.

(** ** The Pod's volumes *)
Definition pod_volumes agent d plan (controlRoot : option string) : list PodVolume :=
  (if negb (bool_decide (Move.plan_claim plan = ""))
    then [claimVolume Names.stateVolumeName (Move.plan_claim plan) false] else []) ++
  (if adapterBuilt agent
    then [secretVolume credentialsVolumeName (Spec_CredentialsSecretName (Agent_Spec agent));
      secretVolume placementVolumeName (Names.placementSecretName (view agent))] else []) ++
  match issuerFor agent d with
  | Some _ => [mkPodVolume serverRootVolumeName
      (SecretSource (Spec_CredentialsSecretName (Agent_Spec agent))
        [(ServerRootKey, ServerRootKey)] credentialsFileMode)]
  | None => []
  end ++
  (if config_declared agent d controlRoot
    then mkPodVolume configVolumeName EmptyDir ::
    match controlRoot with Some _ => [mkPodVolume controlRootVolumeName EmptyDir] | None => [] end
    else []).

Definition pod_security (c : option PodSecurityContext) : PodSecurityContext :=
  mkPodSecurity (Some agentFSGroup) (Some agentRunAsUser) (Some true) (Some "RuntimeDefault")
  match c with Some c => PodSecurity_Other c | None => ∅ end.

(** ** The StatefulSet *)

(** What is written at creation only: the labels, the selector and the claim templates. *)
Definition created agent plan s : StatefulSet :=
  match S_CreationTimestamp s with
  | Some _ => s
  | None =>
    let labels := workloadLabels agent in
    mkStatefulSet (S_Name s) (S_Namespace s) (S_UID s) (S_Generation s) (S_CreationTimestamp s) labels
    (S_Replicas s) (Some labels)
    ((if bool_decide (Move.plan_claim plan = "")
      then [claim Names.stateVolumeName (Spec_StorageSize (Agent_Spec agent)) agent] else []) ++
      [claim workspaceVolumeName (workspaceStorageSize agent) agent])
    (mkTemplate labels (T_Annotations (S_Template s)) (T_Finalizers (S_Template s))
      (T_TerminationGracePeriodSeconds (S_Template s)) (T_SecurityContext (S_Template s))
      (T_Volumes (S_Template s)) (T_InitContainers (S_Template s)) (T_Containers (S_Template s)))
    (S_ReadyReplicas s) (S_UpdateRevision s) (S_ObservedGeneration s)
  end.

(** The template, with [args] the agent's command line and [file] its config file. *)
Definition built_template agent d plan (controlRoot : option string) (args : list string) (file : string)
  (t : PodTemplate) : PodTemplate :=
  {| T_Labels := T_Labels t;
    T_Annotations := T_Annotations t;
    T_Finalizers := [Fence.writerStoppedFinalizer];
    T_TerminationGracePeriodSeconds := Some (Z.quot (terminationGrace d) Second);
    T_SecurityContext := Some (pod_security (T_SecurityContext t));
    T_Volumes := pod_volumes agent d plan controlRoot;
    T_InitContainers := applyAdapter agent d (applyOutbox agent d
      (applyConfig agent d controlRoot file (T_InitContainers t)));
    T_Containers := applyWorkspace d (containerNamed Names.agentContainerName
      (agent_container agent d controlRoot args) (T_Containers t)) |}.

Definition nil_function {A} : result A := Err (Panic "invalid memory address or nil pointer dereference").

(** What [applyAgent] leaves the StatefulSet as, [controlRoot] the root read for the adapter. *)
Definition applied agent d plan (controlRoot : option string) s : result StatefulSet :=
  match renderArgs d with
  | None => nil_function
  | Some renderArgs =>
    let args := agentArgumentsFor agent d in
    let args := mkArguments (arg_agentID args) (arg_egoFile args) (arg_instructionsFile args)
    (arg_assignmentEpoch args) (Move.plan_requireStore plan) in
    file ← (if config_declared agent d controlRoot then
      match renderConfig d with
      | None => nil_function
      | Some renderConfig => renderConfig (Agent_Spec agent) (issuerFor agent d)
      end
      else Ok "");
    let s := created agent plan s in
    Ok (with_template (with_replicas s (replicasFor agent plan))
      (built_template agent d plan controlRoot (renderArgs args) file (S_Template s)))
  end.

(** [applyLineage]. *)
Definition applyLineage (lineage : string) s : StatefulSet :=
  let t := S_Template s in
  let annotations := if bool_decide (lineage = "") then delete CredentialLineageAnnotation (T_Annotations t)
  else <[CredentialLineageAnnotation := lineage]> (T_Annotations t) in
  with_template s (mkTemplate (T_Labels t) annotations (T_Finalizers t) (T_TerminationGracePeriodSeconds t)
    (T_SecurityContext t) (T_Volumes t) (T_InitContainers t) (T_Containers t)).
End build.
End Build.
