(* ===== verification/BuildSpec.v ===== *)
(** What the workload built promises: applying an Agent again changes nothing, and applying it to whatever the
    controller built and the API server made of it leaves the workload it would be built from nothing. *)
From S2P Require Import Prelude GoStd Errors Types Kube Names AgentApi AgentTypes Fence Workload Move Build.
Import GoStd Kube AgentApi AgentTypes Workload Build.

Module BuildSpec.

(** ** The containers by name *)
Section named.
Context `{K8s : Kubernetes}.
Implicit Types (c : PodContainer) (l : list PodContainer) (f : PodContainer → PodContainer).

(** [f] writes a container and leaves its name, and writes the same over what it wrote. *)
Definition writer f : Prop := ∀ c, C_Name (f c) = C_Name c ∧ f (f c) = f c.

(** The first container called [name] is as [f] writes it. *)
Definition settled name f l : Prop :=
  ∃ c, List.find (λ c, bool_decide (C_Name c = name)) l = Some c ∧ f c = c.

Lemma containerNamed_settled name f l : writer f → settled name f (containerNamed name f l).
Proof.
  intros Hf. unfold settled. induction l as [|c l (c' & Hc & Hf')]; cbn.
  - destruct (Hf (emptyContainer name)) as [Hn Hff]. rewrite Hn, bool_decide_true by done. eauto.
  - destruct (bool_decide_reflect (C_Name c = name)); cbn.
    + destruct (Hf c) as [Hn Hff]. rewrite Hn, bool_decide_true by done. eauto.
    + rewrite bool_decide_false by done. eauto.
Qed.

Lemma settled_containerNamed name f l : settled name f l → containerNamed name f l = l.
Proof.
  intros (c & Hc & Hf). induction l as [|c' l IH]; [done|]. cbn in Hc |- *.
  case_bool_decide; [|by rewrite IH]. injection Hc as ->. by rewrite Hf.
Qed.

Lemma find_containerNamed_other name name' f l :
  (∀ c, C_Name (f c) = C_Name c) → name ≠ name' →
  List.find (λ c, bool_decide (C_Name c = name)) (containerNamed name' f l) =
  List.find (λ c, bool_decide (C_Name c = name)) l.
Proof.
  intros Hf Hne. induction l as [|c l IH]; cbn.
  - rewrite Hf. cbn. by rewrite bool_decide_false by done.
  - destruct (bool_decide_reflect (C_Name c = name')) as [Hc|Hc]; cbn; [|by rewrite IH].
    rewrite Hf. by rewrite bool_decide_false by congruence.
Qed.

Lemma find_deleteNamed_other name name' l :
  name ≠ name' →
  List.find (λ c, bool_decide (C_Name c = name)) (deleteNamed name' l) =
  List.find (λ c, bool_decide (C_Name c = name)) l.
Proof.
  intros Hne. unfold deleteNamed. induction l as [|c l IH]; [done|]. rewrite filter_cons.
  destruct (decide (C_Name c = name')) as [Hc|Hc].
  - rewrite decide_False by auto. cbn. by rewrite IH, bool_decide_false by congruence.
  - rewrite decide_True by done. cbn. by rewrite IH.
Qed.

Lemma deleteNamed_absent name l : name ∉ C_Name <$> l → deleteNamed name l = l.
Proof.
  intros Hn. induction l as [|c l IH]; [done|]. apply not_elem_of_cons in Hn as [Hc Hl].
  unfold deleteNamed in *. rewrite filter_cons, decide_True by done. by rewrite IH.
Qed.

Lemma deleteNamed_none name l : name ∉ C_Name <$> deleteNamed name l.
Proof.
  intros (c & Hc & Hin)%list_elem_of_fmap. apply list_elem_of_filter in Hin as [Hne _]. congruence.
Qed.

Lemma containerNamed_names name f l x :
  (∀ c, C_Name (f c) = C_Name c) → x ≠ name → x ∉ C_Name <$> l → x ∉ C_Name <$> containerNamed name f l.
Proof.
  intros Hf Hx. induction l as [|c l IH]; cbn.
  - intros _. rewrite Hf. cbn. by rewrite list_elem_of_singleton.
  - intros [Hc Hl]%not_elem_of_cons. case_bool_decide; cbn; rewrite not_elem_of_cons, ?Hf; auto.
Qed.

Lemma deleteNamed_names name l x : x ∉ C_Name <$> l → x ∉ C_Name <$> deleteNamed name l.
Proof.
  intros Hx (c & Hc & Hin)%list_elem_of_fmap. apply Hx. apply list_elem_of_filter in Hin as [_ Hin].
  apply list_elem_of_fmap. eauto.
Qed.

(** One container of a list built or taken out: what the builders of the Pod do. *)
Definition place (b : bool) name f l := if b then containerNamed name f l else deleteNamed name l.
Definition placed (b : bool) name f l : Prop := if b then settled name f l else name ∉ C_Name <$> l.

Lemma place_placed b name f l : writer f → placed b name f (place b name f l).
Proof. destruct b; [apply containerNamed_settled|intros _; apply deleteNamed_none]. Qed.
Lemma placed_place b name f l : placed b name f l → place b name f l = l.
Proof. destruct b; [apply settled_containerNamed|apply deleteNamed_absent]. Qed.
Lemma placed_other b name f b' name' f' l :
  writer f' → name ≠ name' → placed b name f l → placed b name f (place b' name' f' l).
Proof.
  intros Hf Hne. destruct b, b'; cbn.
  - intros (c & Hc & ?). exists c. split; [|done]. rewrite find_containerNamed_other; auto. apply Hf.
  - intros (c & Hc & ?). exists c. split; [|done]. by rewrite find_deleteNamed_other.
  - apply containerNamed_names; [apply Hf|done].
  - apply deleteNamed_names.
Qed.
End named.

Section spec.
Context `{K8s : Kubernetes}.
Implicit Types (r : Fence.AgentReconciler) (agent : Agent) (d : agentTypeDescriptor) (s : StatefulSet)
  (plan : Move.statePlan).

Lemma applyWorkspace_place r d l :
  applyWorkspace r d l =
  place (negb (bool_decide (Fence.WorkspaceImage r = ""))) workspaceContainerName (workspace_container r d) l.
Proof. unfold applyWorkspace, place. by case_bool_decide. Qed.
Lemma applyAdapter_place r agent d l :
  applyAdapter r agent d l = place (adapterBuilt r agent) adapterContainerName (adapter_container r agent d) l.
Proof. unfold applyAdapter, place. by destruct (adapterBuilt r agent). Qed.
Lemma applyOutbox_place r agent d l :
  applyOutbox r agent d l = place (adapterBuilt r agent) outboxContainerName (outbox_container r d) l.
Proof. unfold applyOutbox, place. by destruct (adapterBuilt r agent). Qed.
Lemma applyConfig_place r agent d root file l :
  applyConfig r agent d root file l =
  place (config_declared r agent d root) configContainerName (config_container r agent d root file) l.
Proof. unfold applyConfig, place. by destruct (config_declared r agent d root). Qed.

Lemma inits_settled r agent d root file l :
  let build l := applyAdapter r agent d (applyOutbox r agent d (applyConfig r agent d root file l)) in
  build (build l) = build l.
Proof.
  cbv beta zeta. rewrite !applyAdapter_place, !applyOutbox_place, !applyConfig_place.
  assert (∀ b name f l, (name = configContainerName ∨ name = outboxContainerName) → placed b name f l →
    placed b name f (place (adapterBuilt r agent) adapterContainerName (adapter_container r agent d) l)) as Ha.
  { intros b name f l' Hn. apply placed_other; [done|]. by destruct Hn; subst. }
  assert (∀ b f l, placed b configContainerName f l → placed b configContainerName f
    (place (adapterBuilt r agent) outboxContainerName (outbox_container r d) l)) as Ho.
  { intros b f l'. by apply placed_other. }
  rewrite (placed_place _ configContainerName).
  2: { apply Ha, Ho; [by left|]. by apply place_placed. }
  rewrite (placed_place _ outboxContainerName).
  2: { apply Ha; [by right|]. by apply place_placed. }
  apply placed_place. by apply place_placed.
Qed.

Lemma containers_settled r agent d root args l :
  let build l := applyWorkspace r d (containerNamed Names.agentContainerName (agent_container r agent d root args) l) in
  build (build l) = build l.
Proof.
  cbv beta zeta. rewrite !applyWorkspace_place.
  change (containerNamed Names.agentContainerName (agent_container r agent d root args))
    with (place true Names.agentContainerName (agent_container r agent d root args)).
  rewrite (placed_place true).
  2: { apply placed_other; [done|done|]. by apply place_placed. }
  apply placed_place. by apply place_placed.
Qed.

(** The command line and the config file an Agent's workload is built with, which what was there does not
enter. *)
Definition rendered r agent d plan root : result (list string * string) :=
  match renderArgs d with
  | None => nil_function
  | Some renderArgs =>
    let args := agentArgumentsFor r agent d in
    file ← (if config_declared r agent d root then
      match renderConfig d with
      | None => nil_function
      | Some renderConfig => renderConfig (Agent_Spec agent) (issuerFor r agent d)
      end
      else Ok "");
    Ok (renderArgs (mkArguments (arg_agentID args) (arg_egoFile args) (arg_instructionsFile args)
      (arg_assignmentEpoch args) (Move.plan_requireStore plan)), file)
  end.

Lemma applied_rendered r agent d plan root s :
  applied r agent d plan root s =
  result_map (λ '(args, file),
    let s := created agent plan s in
    with_template (with_replicas s (replicasFor agent plan))
    (built_template r agent d plan root args file (S_Template s))) (rendered r agent d plan root).
Proof.
  unfold applied, rendered. destruct (renderArgs d); [|done].
  by destruct (if config_declared r agent d root then _ else _).
Qed.

Lemma created_again agent plan agent' plan' s : S_CreationTimestamp s ≠ None → created agent plan s = s.
Proof. unfold created. by destruct (S_CreationTimestamp s). Qed.

(** The StatefulSet as the API server holds it once it created it. *)
Definition stamped (uid : string) (generation : Z) (t : Time) s : StatefulSet :=
  mkStatefulSet (S_Name s) (S_Namespace s) uid generation (Some t) (S_Labels s) (S_Replicas s) (S_Selector s)
  (S_VolumeClaimTemplates s) (S_Template s) (S_ReadyReplicas s) (S_UpdateRevision s) (S_ObservedGeneration s).

(** Applying an Agent to the workload it built changes nothing: an unchanged Agent leaves an unchanged
StatefulSet, which the API server is then not written to. *)
Theorem applied_again r agent d plan root s s' uid generation t :
  applied r agent d plan root s = Ok s' →
  applied r agent d plan root (stamped uid generation t s') = Ok (stamped uid generation t s').
Proof.
  rewrite !applied_rendered. destruct (rendered r agent d plan root) as [[args file]|e]; [|done].
  cbn -[created]. intros [= <-]. rewrite created_again by done. f_equal.
  unfold stamped, with_template, with_replicas, built_template. cbn -[created]. f_equal. f_equal.
  - apply inits_settled.
  - apply containers_settled.
Qed.

(** ** What was built before leaves no trace *)

(** A container apart from the fields the API server defaulted. *)
Definition erase (c : PodContainer) : PodContainer :=
  mkPodContainer (C_Name c) (C_Image c) (C_ImagePullPolicy c) (C_Command c) (C_Args c) (C_Env c) (C_Resources c)
  (C_SecurityContext c) (C_RestartPolicy c) (C_VolumeMounts c) ∅.

(** The StatefulSet as the API server may come to hold it: it gives it an identity and a status, and
defaults fields of its containers this controller does not write. *)
Definition served s s' : Prop :=
  S_Labels s' = S_Labels s ∧ S_Selector s' = S_Selector s ∧
  S_VolumeClaimTemplates s' = S_VolumeClaimTemplates s ∧
  T_Labels (S_Template s') = T_Labels (S_Template s) ∧
  T_Annotations (S_Template s') = T_Annotations (S_Template s) ∧
  (erase <$> T_InitContainers (S_Template s')) = (erase <$> T_InitContainers (S_Template s)) ∧
  (erase <$> T_Containers (S_Template s')) = (erase <$> T_Containers (S_Template s)).

Lemma served_stamped uid generation t s : served s (stamped uid generation t s).
Proof. by repeat split. Qed.

(** [controlRootFor] answers a root exactly where the adapter is built. *)
Definition root_read r agent (root : option string) : Prop :=
  is_Some root ↔ adapterBuilt r agent = true.

(** The StatefulSets this controller comes to hold: a new one, one it applied any Agent to under any
settings of its own, and what the API server makes of either. *)
Inductive maintained : StatefulSet → Prop :=
| maintained_new name namespace : maintained (newStatefulSet name namespace)
| maintained_applied r agent d plan root lineage s s' :
  maintained s → root_read r agent root →
  applied r agent d plan root (applyLineage lineage s) = Ok s' → maintained s'
| maintained_served s s' : maintained s → served s s' → maintained s'.

(** The fields no builder writes on a container of a name are as they were in the empty one. *)
Definition left_alone (c : PodContainer) : Prop :=
  (C_Name c ≠ adapterContainerName → C_RestartPolicy c = None) ∧
  (C_Name c ∉ [configContainerName; outboxContainerName] → C_Command c = []) ∧
  (C_Name c ∉ [Names.agentContainerName; adapterContainerName] → C_Args c = []) ∧
  (C_Name c = outboxContainerName → C_Env c = []) ∧
  (C_Name c ≠ Names.agentContainerName → C_Resources c = noResources).

Definition init_names : list (list string) :=
  [[]; [configContainerName]; [configContainerName; outboxContainerName; adapterContainerName]].
Definition container_names : list (list string) :=
  [[]; [Names.agentContainerName]; [Names.agentContainerName; workspaceContainerName]].

Definition claim_names : list (list string) :=
  [[]; [workspaceVolumeName]; [Names.stateVolumeName; workspaceVolumeName]].

Definition shaped s : Prop :=
  let t := S_Template s in
  C_Name <$> T_InitContainers t ∈ init_names ∧ C_Name <$> T_Containers t ∈ container_names ∧
  Forall left_alone (T_InitContainers t) ∧ Forall left_alone (T_Containers t) ∧
  (∀ k, k ≠ CredentialLineageAnnotation → T_Annotations t !! k = None) ∧
  CT_Name <$> S_VolumeClaimTemplates s ∈ claim_names.

(** The containers of the Pod, from nothing. *)
Definition expected_inits r agent d root file : list PodContainer :=
  (if config_declared r agent d root
    then [config_container r agent d root file (emptyContainer configContainerName)] else []) ++
  (if adapterBuilt r agent
    then [outbox_container r d (emptyContainer outboxContainerName);
      adapter_container r agent d (emptyContainer adapterContainerName)] else []).
Definition expected_containers r agent d root args : list PodContainer :=
  [agent_container r agent d root args (emptyContainer Names.agentContainerName)] ++
  (if negb (bool_decide (Fence.WorkspaceImage r = ""))
    then [workspace_container r d (emptyContainer workspaceContainerName)] else []).

(** What a builder writes over a container left alone is what it writes over an empty one. *)
Definition fresh (name : string) (f : PodContainer → PodContainer) : Prop :=
  ∀ c, C_Name c = name → left_alone c →
  erase (f c) = f (emptyContainer name) ∧ C_Name (f c) = name ∧ left_alone (f c).

Ltac fresh_tac :=
  intros [????????? ? ?] Hn (Hr & Hc & Ha & He & Hs); cbn in Hn, Hr, Hc, Ha, He, Hs; subst;
  rewrite ?Hr, ?Hc, ?Ha, ?He, ?Hs by (rewrite ?not_elem_of_cons; repeat split; (discriminate || apply not_elem_of_nil));
  repeat split; cbn; rewrite ?not_elem_of_cons; intuition (discriminate || auto).

Lemma config_fresh r agent d root file : fresh configContainerName (config_container r agent d root file).
Proof. fresh_tac. Qed.
Lemma outbox_fresh r d : fresh outboxContainerName (outbox_container r d).
Proof. fresh_tac. Qed.
Lemma adapter_fresh r agent d : fresh adapterContainerName (adapter_container r agent d).
Proof. fresh_tac. Qed.
Lemma agent_fresh r agent d root args : fresh Names.agentContainerName (agent_container r agent d root args).
Proof. fresh_tac. Qed.
Lemma workspace_fresh r d : fresh workspaceContainerName (workspace_container r d).
Proof. fresh_tac. Qed.

Ltac name_of :=
  repeat match goal with H : C_Name ?c = _ |- context [C_Name ?c] => rewrite H end; (reflexivity || discriminate).
(** Computes [place] on a list of containers whose names are known. *)
Ltac place_tac :=
  unfold place, deleteNamed; cbn [containerNamed];
  repeat first
  [ rewrite bool_decide_true by name_of | rewrite bool_decide_false by name_of
  | rewrite filter_cons, decide_True by name_of
  | (rewrite filter_cons, decide_False by (let H := fresh in intros H; apply H; name_of))
  | rewrite filter_nil | progress cbn [containerNamed] ].

Lemma left_alone_empty name : left_alone (emptyContainer name).
Proof. by repeat split. Qed.

Lemma init_names_elem l :
  C_Name <$> l ∈ init_names →
  l = [] ∨ (∃ c, l = [c] ∧ C_Name c = configContainerName) ∨
  (∃ c o a, l = [c; o; a] ∧ C_Name c = configContainerName ∧ C_Name o = outboxContainerName ∧
    C_Name a = adapterContainerName).
Proof.
  unfold init_names. rewrite !elem_of_cons, elem_of_nil.
  destruct l as [|c [|o [|a [|? ?]]]]; cbn; naive_solver.
Qed.

Lemma container_names_elem l :
  C_Name <$> l ∈ container_names →
  l = [] ∨ (∃ c, l = [c] ∧ C_Name c = Names.agentContainerName) ∨
  (∃ c w, l = [c; w] ∧ C_Name c = Names.agentContainerName ∧ C_Name w = workspaceContainerName).
Proof.
  unfold container_names. rewrite !elem_of_cons, elem_of_nil.
  destruct l as [|c [|w [|? ?]]]; cbn; naive_solver.
Qed.

Lemma config_declared_adapter r agent d root :
  root_read r agent root → adapterBuilt r agent = true → config_declared r agent d root = true.
Proof.
  intros Hr Hb. apply Hr in Hb as [x ->]. unfold config_declared.
  rewrite (bool_decide_true (is_Some (Some x))) by eauto. by rewrite !andb_false_r.
Qed.

Ltac know_fresh Hf c :=
  let H1 := fresh "Hw" in let H2 := fresh "Hw" in let H3 := fresh "Hw" in
  destruct (Hf c) as (H1 & H2 & H3); [done | done || apply left_alone_empty |].
Ltac shape_tac :=
  place_tac; rewrite ?fmap_cons, ?fmap_nil; cbn [app];
  repeat match goal with
  | H : erase ?x = _ |- context [erase ?x] => rewrite H
  | H : C_Name ?x = _ |- context [C_Name ?x] => rewrite H
  end;
  (split; [reflexivity|split; [unfold init_names, container_names; rewrite ?elem_of_cons; tauto|by rewrite ?Forall_cons, ?Forall_nil]]).

Lemma inits_shape (declared built : bool) fc fo fa l :
  fresh configContainerName fc → fresh outboxContainerName fo → fresh adapterContainerName fa →
  (built = true → declared = true) →
  C_Name <$> l ∈ init_names → Forall left_alone l →
  let l' := place built adapterContainerName fa (place built outboxContainerName fo
    (place declared configContainerName fc l)) in
  erase <$> l' = (if declared then [fc (emptyContainer configContainerName)] else []) ++
  (if built then [fo (emptyContainer outboxContainerName);
    fa (emptyContainer adapterContainerName)] else []) ∧
  C_Name <$> l' ∈ init_names ∧ Forall left_alone l'.
Proof.
  intros Hfc Hfo Hfa Hb Hn Hl. cbv zeta.
  know_fresh Hfc (emptyContainer configContainerName).
  know_fresh Hfo (emptyContainer outboxContainerName).
  know_fresh Hfa (emptyContainer adapterContainerName).
  apply init_names_elem in Hn as [->|[(c & -> & Hc)|(c & o & a & -> & Hc & Ho & Ha)]];
    rewrite ?Forall_cons in Hl; destruct_and?.
  - destruct built; [rewrite Hb by done|destruct declared]; shape_tac.
  - know_fresh Hfc c. destruct built; [rewrite Hb by done|destruct declared]; shape_tac.
  - know_fresh Hfc c. know_fresh Hfo o. know_fresh Hfa a.
    destruct built; [rewrite Hb by done|destruct declared]; shape_tac.
Qed.

Lemma containers_shape (workspace : bool) fa fw l :
  fresh Names.agentContainerName fa → fresh workspaceContainerName fw →
  C_Name <$> l ∈ container_names → Forall left_alone l →
  let l' := place workspace workspaceContainerName fw (place true Names.agentContainerName fa l) in
  erase <$> l' = [fa (emptyContainer Names.agentContainerName)] ++
  (if workspace then [fw (emptyContainer workspaceContainerName)] else []) ∧
  C_Name <$> l' ∈ container_names ∧ Forall left_alone l'.
Proof.
  intros Hfa Hfw Hn Hl. cbv zeta.
  know_fresh Hfa (emptyContainer Names.agentContainerName).
  know_fresh Hfw (emptyContainer workspaceContainerName).
  apply container_names_elem in Hn as [->|[(c & -> & Hc)|(c & w & -> & Hc & Hnw)]];
    rewrite ?Forall_cons in Hl; destruct_and?.
  - destruct workspace; shape_tac.
  - know_fresh Hfa c. destruct workspace; shape_tac.
  - know_fresh Hfa c. know_fresh Hfw w. destruct workspace; shape_tac.
Qed.

Lemma erase_names (l l' : list PodContainer) : erase <$> l' = erase <$> l → C_Name <$> l' = C_Name <$> l.
Proof.
  assert (∀ l : list PodContainer, C_Name <$> (erase <$> l) = C_Name <$> l) as H.
  { intros k. induction k as [|c k IH]; [done|]. rewrite !fmap_cons. by f_equal. }
  intros He. by rewrite <- (H l'), He, H.
Qed.

Lemma erase_left_alone (l l' : list PodContainer) :
  erase <$> l' = erase <$> l → Forall left_alone l → Forall left_alone l'.
Proof.
  assert (∀ l : list PodContainer, Forall left_alone (erase <$> l) ↔ Forall left_alone l) as H.
  { intros k. rewrite Forall_fmap. apply Forall_proper; [|done]. by intros []. }
  intros He Hl. by rewrite <- H, He, H.
Qed.

(** The containers an Agent's workload has, whatever was there. *)
Lemma built_shape r agent d plan root args file lineage s :
  root_read r agent root → shaped s →
  let s0 := created agent plan (applyLineage lineage s) in
  let t := built_template r agent d plan root args file (S_Template s0) in
  erase <$> T_InitContainers t = expected_inits r agent d root file ∧
  erase <$> T_Containers t = expected_containers r agent d root args ∧
  shaped (with_template (with_replicas s0 (replicasFor agent plan)) t).
Proof.
  intros Hr (Hi & Hc & Hli & Hlc & Ha & Ht). cbv zeta.
  assert (T_InitContainers (S_Template (created agent plan (applyLineage lineage s))) =
    T_InitContainers (S_Template s)) as Hsi.
  { unfold created. cbn. by destruct (S_CreationTimestamp s). }
  assert (T_Containers (S_Template (created agent plan (applyLineage lineage s))) =
    T_Containers (S_Template s)) as Hsc.
  { unfold created. cbn. by destruct (S_CreationTimestamp s). }
  destruct (inits_shape (config_declared r agent d root) (adapterBuilt r agent) _ _ _ _
    (config_fresh r agent d root file) (outbox_fresh r d) (adapter_fresh r agent d)
    (config_declared_adapter r agent d root Hr) Hi Hli) as (He1 & Hn1 & Hl1).
  destruct (containers_shape (negb (bool_decide (Fence.WorkspaceImage r = ""))) _ _ _
    (agent_fresh r agent d root args) (workspace_fresh r d) Hc Hlc) as (He2 & Hn2 & Hl2).
  rewrite <- applyConfig_place, <- applyOutbox_place, <- applyAdapter_place in He1, Hn1, Hl1.
  rewrite <- applyWorkspace_place in He2, Hn2, Hl2. cbn [place] in He2, Hn2, Hl2.
  unfold shaped. cbn -[created claim_names]. rewrite Hsi, Hsc.
  split; [exact He1|]. split; [exact He2|].
  split; [exact Hn1|]. split; [exact Hn2|]. split; [exact Hl1|]. split; [exact Hl2|]. split.
  - intros k Hk. apply not_eq_sym in Hk as Hk'. unfold created. cbn -[CredentialLineageAnnotation].
    destruct (S_CreationTimestamp s); cbn -[CredentialLineageAnnotation];
      destruct (bool_decide (lineage = ""));
      rewrite ?lookup_delete_ne, ?lookup_insert_ne by done; by apply Ha.
  - unfold created. cbn -[claim_names]. destruct (S_CreationTimestamp s); cbn -[claim_names]; [done|].
    unfold claim_names. rewrite !elem_of_cons. destruct (bool_decide (Move.plan_claim plan = "")); cbn; tauto.
Qed.

(** The same, of an Agent applied. *)
Lemma applied_shape r agent d plan root lineage s s' :
  root_read r agent root → shaped s → applied r agent d plan root (applyLineage lineage s) = Ok s' →
  ∃ file args, rendered r agent d plan root = Ok (args, file) ∧
  erase <$> T_InitContainers (S_Template s') = expected_inits r agent d root file ∧
  erase <$> T_Containers (S_Template s') = expected_containers r agent d root args ∧
  shaped s'.
Proof.
  intros Hr Hs. rewrite applied_rendered. destruct (rendered r agent d plan root) as [[args file]|e]; [|done].
  intros [= <-]. exists file, args. split; [done|]. by apply built_shape.
Qed.

Lemma maintained_shaped s : maintained s → shaped s.
Proof.
  induction 1 as [name namespace|r agent d plan root lineage s s' _ IH Hr Ha|s s' _ IH Hs].
  - unfold shaped. cbn -[init_names container_names claim_names]. unfold init_names, container_names, claim_names.
    rewrite !elem_of_cons. split_and!; auto using Forall_nil_2.
  - by destruct (applied_shape _ _ _ _ _ _ _ _ Hr IH Ha) as (? & ? & ? & ? & ? & ?).
  - destruct Hs as (_ & _ & Hct & _ & Han & Hei & Hec). destruct IH as (Hi & Hc & Hli & Hlc & Ha & Ht).
    unfold shaped. cbv zeta. rewrite (erase_names _ _ Hei), (erase_names _ _ Hec), Han, Hct.
    split_and!; eauto using erase_left_alone.
Qed.

(** ** The claims and the labels *)

(** The StatefulSet claims the workspace separately, and makes the state claim where the plan names no claim
and only there: so [replaceSharedShape] and [replaceStateTemplate] leave it. *)
Definition claims_agree plan s : Prop :=
  S_CreationTimestamp s = None ∨
  (hasWorkspaceClaim s = true ∧ (Move.plan_claim plan = "" ↔ claimTemplate s Names.stateVolumeName ≠ None)).

Lemma find_template s name :
  claimTemplate s name ≠ None ↔ name ∈ CT_Name <$> S_VolumeClaimTemplates s.
Proof.
  unfold claimTemplate. induction (S_VolumeClaimTemplates s) as [|c l IH]; cbn.
  - rewrite elem_of_nil. tauto.
  - rewrite elem_of_cons, <- IH. case_bool_decide; naive_solver.
Qed.

Lemma agreed_claims r agent d plan root lineage s s' :
  maintained s → claims_agree plan s → applied r agent d plan root (applyLineage lineage s) = Ok s' →
  CT_Name <$> S_VolumeClaimTemplates s' =
  (if bool_decide (Move.plan_claim plan = "") then [Names.stateVolumeName] else []) ++ [workspaceVolumeName].
Proof.
  intros (_ & _ & _ & _ & _ & Hn)%maintained_shaped Hag. rewrite applied_rendered.
  destruct (rendered r agent d plan root) as [[args file]|e]; [|done]. intros [= <-].
  cbn -[created]. unfold created. cbn. destruct Hag as [-> |[Hw Hs]]; cbn; [by case_bool_decide|].
  destruct (S_CreationTimestamp s); cbn; [|by case_bool_decide].
  rewrite find_template in Hs. unfold hasWorkspaceClaim in Hw.
  assert (workspaceVolumeName ∈ CT_Name <$> S_VolumeClaimTemplates s) as Hin.
  { apply find_template. by destruct (claimTemplate s workspaceVolumeName). }
  unfold claim_names in Hn. rewrite !elem_of_cons, elem_of_nil in Hn.
  destruct Hn as [Hn|[Hn|[Hn|[]]]]; rewrite Hn in Hin, Hs |- *; rewrite ?elem_of_cons, ?elem_of_nil in Hin, Hs.
  - tauto.
  - rewrite bool_decide_false; [done|]. intros [?|[]]%Hs. done.
  - rewrite bool_decide_true; [done|]. apply Hs. auto.
Qed.

(** The StatefulSets that run the Agents called [name]: one this controller built from nothing for such an Agent, one it
applied such an Agent to again, under any spec and any settings of its own, and what the API server makes of either. *)
Inductive run_for (name : string) : StatefulSet → Prop :=
| run_built r agent d plan root lineage namespace s :
  Agent_Name agent = name → root_read r agent root →
  applied r agent d plan root (applyLineage lineage (newStatefulSet name namespace)) = Ok s → run_for name s
| run_applied r agent d plan root lineage s s' :
  run_for name s → Agent_Name agent = name → root_read r agent root →
  applied r agent d plan root (applyLineage lineage s) = Ok s' → run_for name s'
| run_served s s' : run_for name s → served s s' → run_for name s'.

Lemma run_maintained name s : run_for name s → maintained s.
Proof. induction 1; eauto using maintained. Qed.

(** Its labels, its selector and its Pod's labels are the Agent's. *)
Definition labelled agent s : Prop :=
  S_Labels s = workloadLabels agent ∧ S_Selector s = Some (workloadLabels agent) ∧
  T_Labels (S_Template s) = workloadLabels agent.

Lemma workloadLabels_name agent agent' : Agent_Name agent = Agent_Name agent' → workloadLabels agent = workloadLabels agent'.
Proof. unfold workloadLabels. by intros ->. Qed.

Lemma applied_labelled r agent d plan root lineage s s' :
  S_CreationTimestamp s = None ∨ labelled agent s →
  applied r agent d plan root (applyLineage lineage s) = Ok s' → labelled agent s'.
Proof.
  intros Hs. rewrite applied_rendered. destruct (rendered r agent d plan root) as [[args file]|e]; [|done].
  intros [= <-]. unfold labelled. cbn -[created]. unfold created. cbn.
  destruct (S_CreationTimestamp s); [|by split_and!]. by destruct Hs.
Qed.

Lemma run_labelled name s agent : run_for name s → Agent_Name agent = name → labelled agent s.
Proof.
  intros Hr <-. induction Hr as [r a d plan root lineage namespace s Hn _ Ha|r a d plan root lineage s s' _ IH Hn _ Ha|s s' _ IH Hs].
  - unfold labelled. rewrite <- (workloadLabels_name _ _ Hn). eapply applied_labelled; [|exact Ha]. by left.
  - unfold labelled in *. rewrite <- (workloadLabels_name _ _ Hn) in *. eapply applied_labelled; [|exact Ha]. by right.
  - destruct Hs as (Hl & Hsel & _ & Ht & _). unfold labelled. by rewrite Hl, Hsel, Ht.
Qed.

(** ** Built from nothing *)

(** A Pod's security context apart from the fields the API server defaulted. *)
Definition erase_security (c : PodSecurityContext) : PodSecurityContext :=
  mkPodSecurity (PodSecurity_FSGroup c) (PodSecurity_RunAsUser c) (PodSecurity_RunAsNonRoot c)
  (PodSecurity_SeccompProfile c) ∅.

(** The workload a StatefulSet is, apart from what the API server gives it and defaulted: how many replicas it runs, the
labels it has and selects by, the names of the claims it makes, and its Pod, whole. *)
Definition workload_of s :=
  let t := S_Template s in
  ((S_Replicas s, S_Labels s, S_Selector s, CT_Name <$> S_VolumeClaimTemplates s),
    (T_Labels t, T_Annotations t, T_Finalizers t, T_TerminationGracePeriodSeconds t, erase_security <$> T_SecurityContext t,
      T_Volumes t, erase <$> T_InitContainers t, erase <$> T_Containers t)).

Lemma lineage_annotations agent plan lineage s :
  shaped s → T_Annotations (S_Template (created agent plan (applyLineage lineage s))) =
  if bool_decide (lineage = "") then ∅ else {[CredentialLineageAnnotation := lineage]}.
Proof.
  intros (_ & _ & _ & _ & Ha & _).
  assert (T_Annotations (S_Template (created agent plan (applyLineage lineage s))) =
    if bool_decide (lineage = "") then delete CredentialLineageAnnotation (T_Annotations (S_Template s))
    else <[CredentialLineageAnnotation := lineage]> (T_Annotations (S_Template s))) as ->.
  { unfold created. cbn. by destruct (S_CreationTimestamp s). }
  case_bool_decide; apply map_eq; intros k; destruct (decide (k = CredentialLineageAnnotation)) as [->|Hk].
  - by rewrite lookup_delete_eq, lookup_empty.
  - by rewrite lookup_delete_ne, lookup_empty, Ha.
  - by rewrite lookup_insert_eq, lookup_singleton_eq.
  - by rewrite lookup_insert_ne, lookup_singleton_ne, Ha by done.
Qed.

(** C32: What was built before leaves no trace: applying an Agent to any StatefulSet that runs it, whatever specs
and settings of this controller it was built under, and what the API server made of it since, leaves the workload it
would be built from nothing, where its claim templates are as the two replace steps leave them: its replicas, its labels
and selector, the names of its claim templates, and its Pod's labels, annotations, finalizers, grace period, security
context, volumes and containers, whole. The templates cannot be changed, so the sizes and the storage classes they were
created with are theirs to keep. *)
Theorem built_afresh r agent d plan root lineage s s' namespace :
  run_for (Agent_Name agent) s → root_read r agent root → claims_agree plan s →
  applied r agent d plan root (applyLineage lineage s) = Ok s' →
  ∃ s0, applied r agent d plan root (applyLineage lineage (newStatefulSet (Agent_Name agent) namespace)) = Ok s0 ∧
  workload_of s' = workload_of s0.
Proof.
  intros Hrun Hr Hag Ha. pose proof (run_maintained _ _ Hrun) as Hm.
  pose proof (maintained_new (Agent_Name agent) namespace) as Hm0.
  set (s1 := newStatefulSet _ _) in *. destruct (applied r agent d plan root (applyLineage lineage s1)) as [s0|e] eqn:Ha0.
  2:{ rewrite applied_rendered in Ha, Ha0. by destruct (rendered r agent d plan root). }
  exists s0. split; [done|].
  destruct (applied_labelled _ _ _ _ _ _ _ _ (or_intror (run_labelled _ _ agent Hrun eq_refl)) Ha) as (Hl & Hsel & Htl).
  destruct (applied_labelled _ _ _ _ _ _ s1 _ (or_introl eq_refl) Ha0) as (Hl0 & Hsel0 & Htl0).
  pose proof (agreed_claims _ _ _ _ _ _ _ _ Hm Hag Ha) as Hc.
  pose proof (agreed_claims _ _ _ _ _ _ s1 _ Hm0 (or_introl eq_refl) Ha0) as Hc0.
  unfold workload_of. rewrite Hl, Hl0, Hsel, Hsel0, Htl, Htl0, Hc, Hc0. clearbody s1. clear - Hm Hm0 Hr Ha Ha0.
  apply maintained_shaped in Hm, Hm0. rewrite applied_rendered in Ha, Ha0.
  destruct (rendered r agent d plan root) as [[args file]|e]; [|done]. injection Ha as <-. injection Ha0 as <-.
  destruct (built_shape r agent d plan root args file lineage s Hr Hm) as (He1 & He2 & _).
  destruct (built_shape r agent d plan root args file lineage s1 Hr Hm0) as (He3 & He4 & _).
  cbv zeta. cbn [S_Template with_template S_Replicas with_replicas]. rewrite He1, He2, He3, He4.
  cbn [T_Annotations built_template]. by rewrite !lineage_annotations.
Qed.
End spec.
End BuildSpec.
