(* ===== verification/Isolation.v ===== *)
(** Where the workload's secrets, claims and volumes go: every volume a container mounts is one the Pod has;
    each claim, root and volume is mounted only in the containers it is meant for; and of a Secret, a container is
    given only the keys that are for it. *)
From S2P Require Import Prelude GoStd Errors Types Samples Kube Names AgentApi AgentTypes Fence KubeSamples Workload Move Build BuildSpec.
Import GoStd Kube AgentApi AgentTypes Workload Build BuildSpec.

Module Isolation.

Section isolation.
Context `{K8s : Kubernetes}.
Implicit Types (r : Fence.AgentReconciler) (agent : Agent) (d : agentTypeDescriptor) (s : StatefulSet)
  (plan : Move.statePlan) (c : PodContainer).

Definition containers_of s : list PodContainer :=
  T_InitContainers (S_Template s) ++ T_Containers (S_Template s).

(** A container of the Pod is one of the five, up to what the API server defaulted. *)
Lemma built_container r agent d plan root lineage s s' c :
  maintained s → root_read r agent root → applied r agent d plan root (applyLineage lineage s) = Ok s' →
  c ∈ containers_of s' →
  ∃ args file,
  (config_declared r agent d root = true ∧
    erase c = config_container r agent d root file (emptyContainer configContainerName)) ∨
  (adapterBuilt r agent = true ∧
    (erase c = outbox_container r d (emptyContainer outboxContainerName) ∨
      erase c = adapter_container r agent d (emptyContainer adapterContainerName))) ∨
  erase c = agent_container r agent d root args (emptyContainer Names.agentContainerName) ∨
  erase c = workspace_container r d (emptyContainer workspaceContainerName).
Proof.
  intros Hm%maintained_shaped Hr Ha Hc.
  destruct (applied_shape _ _ _ _ _ _ _ _ Hr Hm Ha) as (file & args & _ & Hi & Hcs & _).
  exists args, file.
  assert (erase c ∈ expected_inits r agent d root file ++ expected_containers r agent d root args) as He.
  { rewrite <- Hi, <- Hcs, <- fmap_app. by apply list_elem_of_fmap_2. }
  unfold expected_inits, expected_containers in He. rewrite !elem_of_app in He.
  destruct (config_declared r agent d root), (adapterBuilt r agent),
    (negb (bool_decide (Fence.WorkspaceImage r = ""))); rewrite ?elem_of_cons, ?elem_of_nil in He; tauto.
Qed.

(** ** What a container is given *)








Lemma volumes_of r agent d plan root s s' :
  applied r agent d plan root s = Ok s' → T_Volumes (S_Template s') = pod_volumes r agent d plan root.
Proof.
  rewrite applied_rendered. destruct (rendered r agent d plan root) as [[args file]|e]; [|done].
  by intros [= <-].
Qed.



(** ** Every volume mounted exists *)

Definition volume_names s : list string :=
  (PodVolume_Name <$> T_Volumes (S_Template s)) ++ (CT_Name <$> S_VolumeClaimTemplates s).

Lemma pod_volume_names r agent d plan root :
  PodVolume_Name <$> pod_volumes r agent d plan root =
  (if bool_decide (Move.plan_claim plan = "") then [] else [Names.stateVolumeName]) ++
  (if adapterBuilt r agent then [credentialsVolumeName; placementVolumeName] else []) ++
  match issuerFor r agent d with Some _ => [serverRootVolumeName] | None => [] end ++
  (if config_declared r agent d root
    then configVolumeName :: match root with Some _ => [controlRootVolumeName] | None => [] end else []).
Proof.
  unfold pod_volumes. rewrite !fmap_app.
  by destruct (bool_decide _), (adapterBuilt r agent), (issuerFor r agent d), (config_declared r agent d root), root.
Qed.

Ltac find_volume Hm :=
  cbn in Hm; rewrite ?elem_of_cons, ?elem_of_nil in Hm; destruct_or?; subst; cbn;
  rewrite ?elem_of_cons; destruct (bool_decide (Move.plan_claim _ = "")); rewrite ?elem_of_cons; intuition auto.

(** C31: Every volume a container mounts is one the Pod or a claim template of the StatefulSet makes, and no two
of them share a name: the Pod is one the API server admits. *)
Theorem mounts_exist r agent d plan root lineage s s' :
  maintained s → root_read r agent root → claims_agree plan s →
  applied r agent d plan root (applyLineage lineage s) = Ok s' →
  NoDup (volume_names s') ∧
  ∀ c m, c ∈ containers_of s' → m ∈ C_VolumeMounts c → Mount_Name m ∈ volume_names s'.
Proof.
  intros Hm Hr Hag Ha. unfold volume_names.
  rewrite (agreed_claims _ _ _ _ _ _ _ _ Hm Hag Ha), (volumes_of _ _ _ _ _ _ _ Ha), pod_volume_names.
  split.
  { destruct (bool_decide _), (adapterBuilt r agent), (issuerFor r agent d), (config_declared r agent d root), root;
      apply (bool_decide_unpack _); vm_compute; exact I. }
  intros c m Hc Hmt. pose proof (config_declared_adapter r agent d root Hr) as Hd.
  destruct (built_container _ _ _ _ _ _ _ _ _ Hm Hr Ha Hc)
    as (args & file & [[Hb He]|[[Hb [He|He]]|[He|He]]]);
    change (C_VolumeMounts c) with (C_VolumeMounts (erase c)) in Hmt; rewrite He in Hmt; cbn in Hmt.
  all: rewrite ?Hb, ?Hd by done; rewrite ?elem_of_app.
  - destruct root; find_volume Hmt.
  - find_volume Hmt.
  - destruct (proj2 Hr Hb) as [x ->]. find_volume Hmt.
  - unfold agent_mounts in Hmt. destruct (issuerFor r agent d), (config_declared r agent d root); find_volume Hmt.
  - find_volume Hmt.
Qed.
End isolation.
End Isolation.
