(* ===== verification/Reconcile.v ===== *)
(** The reconcile loop of an Agent ([src/internal/controller/agent_controller.go], the StatefulSet's part of
    [agent_statefulset.go] and [agent_status.go]): the fence, the workload, the recovery and the status
    reported, in the order a pass takes them. *)
From S2P Require Import Prelude GoStd Errors Types Kube Names AgentApi AgentTypes Fence Workload Move Build.
Import GoStd Kube AgentApi AgentTypes Workload Build.

Module Reconcile.

Definition workloadFencedFinalizer := "agent.garam.sh/workload-fenced".
Definition fenceRecheckInterval : Z := 30 * Second.

(** How a deletion reaches what the object owns. *)
Inductive propagation := PropagationBackground | PropagationOrphan.

(** What is read of the agent's Pod to roll it: its revision label and its controller, by UID. *)
Record WorkloadPod := mkWorkloadPod {
  WP_Name : string;
  WP_UID : string;
  WP_Revision : string;
  WP_DeletionTimestamp : option Time;
  WP_Controller : option string;
}.

Section calls.
Context `{K8s : Kubernetes}.

(** The loop's own calls on the API server. [controllerutil.CreateOrUpdate] is two: it reads the object its
caller then changes, and writes what the caller left of it, unless it left it as it was; it answers what
it did and the object as the server then holds it. *)
Inductive workloadE : Type → Type :=
| GetAgent (namespace name : string) : workloadE (result Agent)
| ListAgents (namespace : string) : workloadE (result (list Agent))
| PatchAgent (read wanted : Agent) : workloadE (result Agent)
| PatchAgentStatus (read wanted : Agent) : workloadE (result ())
| DeleteStatefulSet (namespace name : string) (p : propagation) (uid : option string) : workloadE (result ())
| ReadStatefulSet (namespace name : string) : workloadE (result StatefulSet)
| BeginCreateOrUpdate (namespace name : string) : workloadE (result StatefulSet)
| EndCreateOrUpdate (wanted : StatefulSet) : workloadE (result (string * StatefulSet))
| SecretMetadata (namespace name : string) : workloadE (result (gmap string string))
| ReadPod (namespace name : string) : workloadE (result WorkloadPod)
| DeletePod (namespace name uid : string) : workloadE (result ())
| ReadFile (path : string) : workloadE (result string)
| LogError (message : string) (attributes : list (string * string)) : workloadE ()
(** What it sets on the Agent it holds. *)
| SetCondition (type : string) (status : condition_status) (reason message : string) : workloadE ()
| RemoveCondition (type : string) : workloadE ()
| SetObservedGeneration (generation : Z) : workloadE ().

Definition reconcileE : Type → Type := kubeE +' controllerE +' workloadE.

(** The fence's and the move's programs, within a pass. *)
Definition within {A} (p : prog (kubeE +' controllerE) A) : prog reconcileE A := embed p.
End calls.

Record podRollout := mkRollout { rollout_reason : string; rollout_message : string }.
Definition noRollout : podRollout := mkRollout "" "".

Record requiredSecret := mkRequired { required_name : string; required_missingReason : string }.

(** [ctrl.Result]: when to reconcile again, 0 for not of itself. *)
Record Result := mkResult { RequeueAfter : Z }.
Definition fenceResult (unverified : bool) : Result := mkResult (if unverified then fenceRecheckInterval else 0).

Section loop.
Context `{K8s : Kubernetes}.
Context (canonical_json : WriterStoppedEvidence → result string) (decode_error : string → string)
  (yaml_Marshal : sherlockConfig → result string).
Abbreviation E := reconcileE.
Context (r : Fence.AgentReconciler).
Implicit Types (agent : Agent) (d : agentTypeDescriptor) (s : StatefulSet) (plan : Move.statePlan).

(** ** The StatefulSet *)
Definition replaceSharedShape namespace name : prog E (result ()) :=
  existing ← call (ReadStatefulSet namespace name);
  match existing with
  | Ok existing =>
    if hasWorkspaceClaim existing then mret (Ok tt)
    else
    deleted ← call (DeleteStatefulSet namespace name PropagationOrphan (Some (S_UID existing)));
    let failed := match deleted with
    | Err err => if IsNotFound err then None else Some err
    | Ok _ => None
    end in
    match failed with
    | Some err =>
      mret (Err (Wrapf "delete the statefulset its workspace shares a claim in, leaving its pod: " err ""))
    | None =>
      _ ← call (LogInfo "Replacing the StatefulSet to give the workspace a claim of its own"
        [("statefulSet", S_Name existing)]);
      mret (Err errReplacing)
    end
  | Err err =>
    if negb (IsNotFound err) then mret (Err (Wrapf "get statefulset: " err "")) else mret (Ok tt)
  end.

Definition replaceStateTemplate agent plan : prog E (result Move.statePlan) :=
  existing ← call (ReadStatefulSet (Agent_Namespace agent) (Agent_Name agent));
  match existing with
  | Err err => if IsNotFound err then mret (Ok plan) else mret (Err (Wrapf "get statefulset: " err ""))
  | Ok existing =>
    let templated := bool_decide (is_Some (claimTemplate existing Names.stateVolumeName)) in
    let plan := if bool_decide (Move.plan_claim plan = "") && negb templated
    then Move.mkPlan (Names.stateClaimName (view agent)) (Move.plan_requireStore plan)
    (Move.plan_hold plan)
    else plan in
    if bool_decide (Move.plan_claim plan = "") || negb templated then mret (Ok plan)
    else
    deleted ← call (DeleteStatefulSet (Agent_Namespace agent) (Agent_Name agent) PropagationOrphan
      (Some (S_UID existing)));
    let failed := match deleted with
    | Err err => if IsNotFound err then None else Some err
    | Ok _ => None
    end in
    match failed with
    | Some err =>
      mret (Err (Wrapf "delete the statefulset whose template makes the claim the memory moved off: " err ""))
    | None =>
      _ ← call (LogInfo "Replacing the StatefulSet to mount the claim the agent's memory moved to"
        [("statefulSet", S_Name existing); ("claim", Move.plan_claim plan)]);
      mret (Err errReplacingForMove)
    end
  end.

Definition credentialLineage agent : prog E (result string) :=
  secret ← call (SecretMetadata (Agent_Namespace agent) (Spec_CredentialsSecretName (Agent_Spec agent)));
  match secret with
  | Err err =>
    if IsNotFound err then mret (Ok "") else mret (Err (Wrapf "read the credential of the agent: " err ""))
  | Ok annotations => mret (Ok (annotation annotations CredentialLineageAnnotation))
  end.

Definition controlRootFor agent : prog E (result (option string)) :=
  if negb (adapterBuilt r agent) then mret (Ok None)
  else
  root ←? call (ReadFile (Fence.ControlRootFile r)) wrap (λ err, Wrapf "read the control root: " err "");
  mret (Ok (Some root)).

(** [applyAgent], which changes the StatefulSet it is given. *)
Definition applyAgent agent d plan s : prog E (result StatefulSet) :=
  controlRoot ←? controlRootFor agent;
  s ←? lift (applied r agent d plan controlRoot s);
  _ ←? call (SetControllerReference "StatefulSet" (S_Name s));
  mret (Ok s).

Definition createOrUpdate agent d plan lineage : prog E (result (string * StatefulSet)) :=
  s ←? call (BeginCreateOrUpdate (Agent_Namespace agent) (Agent_Name agent));
  s ←? applyAgent agent d plan (applyLineage lineage s);
  call (EndCreateOrUpdate s).

Definition operationResultNone := "unchanged".

Definition reconcileStatefulSet agent d plan : prog E (result StatefulSet) :=
  _ ←? replaceSharedShape (Agent_Namespace agent) (Agent_Name agent);
  plan ←? replaceStateTemplate agent plan;
  lineage ←? credentialLineage agent;
  '(operation, s) ←? createOrUpdate agent d plan lineage
  wrap (λ err, Wrapf "create or update statefulset: " err "");
  _ ← (if negb (bool_decide (operation = operationResultNone))
    then call (LogInfo "Reconciled the StatefulSet" [("statefulSet", S_Name s); ("operation", operation)])
    else mret tt);
  mret (Ok s).

(** ** Rolling the Pod *)
Definition rolling (pod : WorkloadPod) s (why : string) : podRollout :=
  mkRollout ReasonWorkloadRolling
  ("Pod " +:+ quote (WP_Name pod) +:+ " runs revision " +:+ quote (WP_Revision pod) +:+ " and StatefulSet " +:+
    quote (S_Name s) +:+ " is at " +:+ quote (S_UpdateRevision s) +:+ "; " +:+ why).

Definition rollOutdatedPod s : prog E (result podRollout) :=
  let name := S_Name s +:+ "-0" in
  pod ← call (ReadPod (S_Namespace s) name);
  match pod with
  | Err err =>
    if IsNotFound err then mret (Ok noRollout) else mret (Err (Wrapf "get the agent's pod: " err ""))
  | Ok pod =>
    let revision := WP_Revision pod in
    let update := S_UpdateRevision s in
    if bool_decide (update = "") || bool_decide (S_ObservedGeneration s < S_Generation s) then
    mret (Ok (mkRollout ReasonRolloutNotObserved
      ("Pod " +:+ quote (WP_Name pod) +:+ " runs revision " +:+ quote revision +:+ " and StatefulSet " +:+
        quote (S_Name s) +:+ "'s status has not observed generation " +:+ FormatInt (S_Generation s) +:+
        " yet (observed " +:+ FormatInt (S_ObservedGeneration s) +:+ ", update revision " +:+ quote update +:+
        "), so which revision the Pod should run is not known")))
    else if bool_decide (revision = update) then mret (Ok noRollout)
    else if negb (bool_decide (WP_DeletionTimestamp pod = None)) then
    mret (Ok (rolling pod s "the Pod is deleting, held by the writer fence until its writers stop"))
    else if negb (bool_decide (WP_Controller pod = Some (S_UID s))) then
    mret (Ok (rolling pod s "the StatefulSet has not adopted the Pod yet"))
    else
    deleted ← call (DeletePod (S_Namespace s) (WP_Name pod) (WP_UID pod));
    let failed := match deleted with
    | Err err => if IsNotFound err then None else Some err
    | Ok _ => None
    end in
    match failed with
    | Some err =>
      mret (Err (Wrapf "delete the agent's pod to roll it onto the statefulset's revision: " err ""))
    | None =>
      _ ← call (LogInfo "Rolling the agent's Pod onto the StatefulSet's revision"
        [("pod", WP_Name pod); ("revision", revision); ("updateRevision", update)]);
      mret (Ok (rolling pod s
        "the Pod is deleted to roll it, and the writer fence holds it until its writers stop"))
    end
  end.

(** ** What is reported *)
Definition setSynced status reason message : prog E () := call (SetCondition ConditionSynced status reason message).
Definition setAvailable status reason message : prog E () :=
  call (SetCondition ConditionAvailable status reason message).

Definition stoppedBy agent : string :=
  if Spec_Suspended (Agent_Spec agent) then "suspends" else "stops (spec.stopped, the control service's stop)".

Definition setAvailableFromWorkload agent s : prog E () :=
  if heldStopped agent then
  setAvailable ConditionFalse ReasonSuspended
  ("The spec " +:+ stoppedBy agent +:+ " the agent, so StatefulSet " +:+ quote (S_Name s) +:+ " asks for no replica")
  else if bool_decide (S_ReadyReplicas s > 0) then
  setAvailable ConditionTrue ReasonReplicaReady
  ("StatefulSet " +:+ quote (S_Name s) +:+ " reports its replica ready. The workload carries no readiness probe, " +:+
    "so this says the agent's containers are running and nothing about whether the agent inside them works")
  else
  setAvailable ConditionFalse ReasonReplicaNotReady
  ("StatefulSet " +:+ quote (S_Name s) +:+ " reports no ready replica. This covers a replica still starting as " +:+
    "much as one that cannot start, and does not say which").

Definition setRecovery (persisted : bool) : prog E () :=
  if persisted then
  call (SetCondition ConditionRecovery ConditionTrue ReasonRecovering
    "A recovery request is persisted and its new lineage is not recorded yet")
  else
  call (SetCondition ConditionRecovery ConditionFalse ReasonNotRecovering
    "No recovery of the agent's credential is in progress").

Definition setSuspendedFromPod agent (podGone : bool) : prog E () :=
  let pod := Names.agentPodName (view agent) in
  if heldStopped agent && podGone then
  call (SetCondition ConditionSuspended ConditionTrue ReasonSuspended
    ("The spec " +:+ stoppedBy agent +:+ " the agent and Pod " +:+ quote pod +:+
      " is gone, so nothing mounts its volumes"))
  else if heldStopped agent then
  call (SetCondition ConditionSuspended ConditionFalse ReasonSuspending
    ("The spec " +:+ stoppedBy agent +:+ " the agent and Pod " +:+ quote pod +:+
      " still exists. WriterFence says whether it is held"))
  else
  call (SetCondition ConditionSuspended ConditionFalse ReasonNotSuspended "The spec does not suspend the agent").

(** ** The workload *)
Definition secretsRequiredBy agent : list requiredSecret :=
  let spec := Agent_Spec agent in
  mkRequired (Spec_CredentialsSecretName spec) ReasonCredentialsSecretMissing ::
  match Spec_Model spec with
  | None => []
  | Some m => mkRequired (SecretKey_Name (ModelSpec_APIKeySecretRef m)) ReasonModelKeySecretMissing ::
    match embeddingKeyOf agent with
    | Some key => [mkRequired (SecretKey_Name key) ReasonEmbeddingKeySecretMissing] | None => []
    end
  end.

Definition not_reconciled : prog E () :=
  setAvailable ConditionUnknown ReasonWorkloadNotObserved
  "The workload was not reconciled, so its readiness was not observed. The Synced condition says why".

Definition secretExists namespace name : prog E (result ()) :=
  _ ←? call (SecretMetadata namespace name); mret (Ok tt).

(** The loop over the Secrets required: whether all exist, reported where one does not. *)
Fixpoint secrets_present agent (required : list requiredSecret) : prog E (result bool) :=
  match required with
  | [] => mret (Ok true)
  | required :: rest =>
    exists_ ← secretExists (Agent_Namespace agent) (required_name required);
    match exists_ with
    | Ok _ => secrets_present agent rest
    | Err err =>
      if IsNotFound err then
      _ ← setSynced ConditionFalse (required_missingReason required)
      ("Secret " +:+ quote (required_name required) +:+
        " does not exist, and the workload is not built until it does");
      _ ← not_reconciled;
      mret (Ok false)
      else mret (Err (Wrapf ("get secret " +:+ quote (required_name required) +:+ ": ") err ""))
    end
  end.

(** Synced, of the StatefulSet the cluster holds and of the Pod's rollout. *)
Definition report_synced agent s (rollout : podRollout) : prog E () :=
  let spec := Agent_Spec agent in
  let workspaceSize := workspaceStorageSize agent in
  let stateTemplated := bool_decide (is_Some (claimTemplate s Names.stateVolumeName)) in
  let claimed := claimedStorageSize s Names.stateVolumeName in
  let workspaceClaimed := claimedStorageSize s workspaceVolumeName in
  let claimedClass := claimedStorageClass s in
  if stateTemplated && negb (bool_decide (Quantity_Cmp claimed (Spec_StorageSize spec) = 0)) then
  setSynced ConditionFalse ReasonStorageSizeImmutable
  ("The volume was claimed at " +:+ Quantity_String claimed +:+ " and spec.storageSize now asks for " +:+
    Quantity_String (Spec_StorageSize spec) +:+ ", which a StatefulSet's claim template cannot be changed to")
  else if negb (bool_decide (Quantity_Cmp workspaceClaimed workspaceSize = 0)) then
  setSynced ConditionFalse ReasonStorageSizeImmutable
  ("The workspace's volume was claimed at " +:+ Quantity_String workspaceClaimed +:+
    " and the spec now asks for " +:+ Quantity_String workspaceSize +:+
    ", which a StatefulSet's claim template cannot be changed to")
  else if stateTemplated && negb (bool_decide (claimedClass = Spec_StorageClassName spec)) then
  setSynced ConditionFalse ReasonStorageClassImmutable
  ("The volume was claimed from storage class " +:+ describeStorageClass claimedClass +:+
    " and spec.storageClassName now asks for " +:+ describeStorageClass (Spec_StorageClassName spec) +:+
    ", which a StatefulSet's claim template cannot be changed to")
  else if negb (bool_decide (rollout_reason rollout = "")) then
  setSynced ConditionFalse (rollout_reason rollout) (rollout_message rollout)
  else
  setSynced ConditionTrue ReasonWorkloadReconciled
  ("StatefulSet " +:+ quote (S_Name s) +:+ " carries what this Agent's spec asks for").

Definition report_available agent s (rollout : podRollout) : prog E () :=
  if bool_decide (rollout_reason rollout = ReasonWorkloadRolling) then
  setAvailable ConditionFalse ReasonReplicaOutdated (rollout_message rollout)
  else if bool_decide (rollout_reason rollout = ReasonRolloutNotObserved) then
  setAvailable ConditionUnknown ReasonRolloutNotObserved (rollout_message rollout)
  else setAvailableFromWorkload agent s.

(** The StatefulSet reconciled on the plan of the move, and what is reported of it. *)
Definition reconcile_built agent d plan : prog E (result ()) :=
  s ← reconcileStatefulSet agent d plan;
  match s with
  | Err err =>
    if errors_is err errReplacingForMove then
    _ ← setSynced ConditionFalse ReasonWorkloadReplacing
    ("StatefulSet " +:+ quote (Agent_Name agent) +:+ " is being replaced to mount claim " +:+
      quote (Move.plan_claim plan) +:+ ", which the agent's memory moved to; its claims are kept");
    _ ← not_reconciled;
    mret (Ok tt)
    else if errors_is err errReplacing then
    _ ← setSynced ConditionFalse ReasonWorkloadReplacing
    ("StatefulSet " +:+ quote (Agent_Name agent) +:+ " is being replaced to give the workspace a volume of " +:+
      "its own; its Pod and its claims are kept");
    _ ← not_reconciled;
    mret (Ok tt)
    else mret (Err err)
  | Ok s =>
    rollout ←? (if negb (heldStopped agent) then rollOutdatedPod s else mret (Ok noRollout));
    _ ← report_synced agent s rollout;
    _ ← report_available agent s rollout;
    mret (Ok tt)
  end.

Definition reconcileWorkload agent (podGone : bool) : prog E (result ()) :=
  match resolveAgentType yaml_Marshal (Spec_Type (Agent_Spec agent)) with
  | (_, false) =>
    _ ← setSynced ConditionFalse ReasonTypeUnimplemented
    ("Agent type " +:+ quote (effectiveType (Spec_Type (Agent_Spec agent))) +:+
      " is admitted but not yet implemented by this controller version; the workload will not be built " +:+
      "until one is");
    _ ← not_reconciled;
    mret (Ok tt)
  | (d, true) =>
    present ←? secrets_present agent (secretsRequiredBy agent);
    if negb present then mret (Ok tt)
    else
    _ ←? (if adapterBuilt r agent then within (Fence.ensurePlacementToken (view agent)) else mret (Ok tt));
    plan ←? within (Move.reconcileMove r (memoryFile d) decode_error (view agent) podGone);
    reconcile_built agent d plan
  end.

Definition reconcileRecovery agent : prog E (result ()) :=
  match Spec_Identity (Agent_Spec agent) with
  | None => _ ← call (RemoveCondition ConditionRecovery); mret (Ok tt)
  | Some identity =>
    secret ← call (SecretMetadata (Agent_Namespace agent) (Names.RecoveryRequestSecret (Identity_GRN identity)));
    match secret with
    | Ok _ => _ ← setRecovery true; mret (Ok tt)
    | Err err =>
      if negb (IsNotFound err) then mret (Err (Wrapf "read the recovery request of the agent: " err ""))
      else _ ← setRecovery false; mret (Ok tt)
    end
  end.

(** A pass over an Agent that is not deleting, up to its status: whether its fence is unverified. *)
Definition reconcile_agent agent : prog E (result bool) :=
  '(podGone, unverified) ←? within (Fence.reconcileFence canonical_json r (view agent));
  _ ←? reconcileWorkload agent podGone;
  _ ← setSuspendedFromPod agent podGone;
  _ ←? reconcileRecovery agent;
  _ ← call (SetObservedGeneration (Agent_Generation agent));
  mret (Ok unverified).

(** ** What wakes an Agent *)

(** [agentOfPod], of a Pod's namespace and labels. *)
Definition agentOfPod namespace (labels : gmap string string) : list (string * string) :=
  if negb (bool_decide (annotation labels "app.kubernetes.io/name" = Names.agentContainerName)) ||
  bool_decide (annotation labels "app.kubernetes.io/instance" = "")
  then []
  else [(namespace, annotation labels "app.kubernetes.io/instance")].

Definition names_secret (secret : string) agent : bool :=
  match Spec_Identity (Agent_Spec agent) with
  | Some identity => bool_decide (Names.RecoveryRequestSecret (Identity_GRN identity) = secret)
  | None => false
  end || existsb (λ required, bool_decide (required_name required = secret)) (secretsRequiredBy agent).

Definition agentsNamingSecret namespace secret : prog E (list (string * string)) :=
  agents ← call (ListAgents namespace);
  match agents with
  | Err err =>
    _ ← call (LogError "Failed to list Agents for a Secret" [("error", error_text err); ("secret", secret)]);
    mret []
  | Ok agents =>
    mret ((λ agent, (Agent_Namespace agent, Agent_Name agent)) <$> filter (λ agent, names_secret secret agent) agents)
  end.
End loop.
End Reconcile.
