(* ===== verification/AgentLoop.v ===== *)
(** A pass of the controller over an Agent ([src/internal/controller/agent_controller.go], Reconcile): what the
    pass sets on the Agent it holds is kept as its status and written once, at the end
    ([agent_status.go], writeStatus). *)
From S2P Require Import Prelude GoStd Errors Types Kube Names AgentApi AgentTypes Fence Workload Move Build Reconcile.
Import GoStd Kube AgentApi AgentTypes Workload Build Reconcile.

Module AgentLoop.

(** The condition types this operator writes, and the only ones it keeps. *)
Definition conditionTypes : list string :=
  [ConditionSynced; ConditionAvailable; ConditionRecovery; ConditionSuspended; ConditionWriterFence;
   ConditionMemoryMove].

Definition status_text (s : condition_status) : string :=
  match s with ConditionTrue => "True" | ConditionFalse => "False" | ConditionUnknown => "Unknown" end.

Section status.
Context `{K8s : Kubernetes, SM : StatusMachinery}.

Definition set_condition (generation : Z) type status reason message now (s : AgentStatus) : AgentStatus :=
  with_conditions (SetStatusCondition now (Status_Conditions s)
    (mkStatusCondition type status reason message generation 0)) s.

(** What a call does to the status of the Agent held, at an instant. The fence sets the evidence on the Agent
before it writes it. *)
Definition kube_effect {X} (e : kubeE X) (s : AgentStatus) : AgentStatus :=
  match e with
  | PatchWriterStopped _ evidence =>
    mkAgentStatus (Status_Conditions s) (Status_ObservedGeneration s) (Status_Placement s) (Some evidence)
  | _ => s
  end.
Definition controller_effect (generation : Z) {X} (e : controllerE X) (now : Time) (s : AgentStatus) : AgentStatus :=
  match e with
  | SetWriterFence status reason message =>
    set_condition generation ConditionWriterFence status reason message now s
  | SetMemoryMove status reason message =>
    set_condition generation ConditionMemoryMove status reason message now s
  | SetPlacement podUID pvcUID =>
    mkAgentStatus (Status_Conditions s) (Status_ObservedGeneration s) (Some (mkPlacement podUID pvcUID))
    (Status_WriterStopped s)
  | _ => s
  end.
Definition workload_effect (generation : Z) {X} (e : workloadE X) (now : Time) (s : AgentStatus) : AgentStatus :=
  match e with
  | SetCondition type status reason message => set_condition generation type status reason message now s
  | RemoveCondition type => with_conditions (RemoveStatusCondition (Status_Conditions s) type) s
  | SetObservedGeneration g => mkAgentStatus (Status_Conditions s) g (Status_Placement s) (Status_WriterStopped s)
  | _ => s
  end.
Definition effect (generation : Z) {X} (e : reconcileE X) (now : Time) (s : AgentStatus) : AgentStatus :=
  match e with
  | InL (InL e) => kube_effect e s
  | InL (InR e) => controller_effect generation e now s
  | InR e => workload_effect generation e now s
  end.

(** A program over the Agent held, with the status it holds made explicit; [clock] is the instant of each of
its calls in turn. *)
Fixpoint keeping {A} (generation : Z) (clock : nat → Time) (n : nat) (p : prog reconcileE A) (s : AgentStatus) :
  prog reconcileE (A * AgentStatus) :=
  match p with
  | Ret a => Ret (a, s)
  | Vis e k => Vis e (λ x, keeping generation clock (S n) (k x) (effect generation e (clock n) s))
  end.
End status.

Section pass.
Context `{K8s : Kubernetes, SM : StatusMachinery}.
Context (canonical_json : WriterStoppedEvidence → result string) (decode_error : string → string)
  (yaml_Marshal : sherlockConfig → result string) (clock : nat → Time).
Context (r : Fence.AgentReconciler).
Implicit Types (agent : Agent) (status : AgentStatus).

(** [writeStatus]: [agent] as it was read, [status] as this pass left it. *)
Definition writeStatus agent status : prog reconcileE (result ()) :=
  let status := with_conditions (filter (λ c, SC_Type c ∈ conditionTypes) (Status_Conditions status)) status in
  if StatusDeepEqual (Agent_Status agent) status then mret (Ok tt)
  else
  _ ←? call (PatchAgentStatus agent (with_status agent status)) wrap (λ err, Wrapf "patch agent status: " err "");
  let reported type (key : string) :=
  match FindStatusCondition (Status_Conditions status) type with
  | Some c => [(key, status_text (SC_Status c)); (key +:+ "Reason", SC_Reason c)] | None => []
  end in
  _ ← call (LogInfo "Reported on the Agent"
    (reported ConditionSynced "synced" ++ reported ConditionAvailable "available"));
  mret (Ok tt).

Definition reconcileDeletion agent : prog reconcileE (result Result) :=
  if negb (agent_fenced agent workloadFencedFinalizer) then mret (Ok (mkResult 0))
  else
  '(fence, status) ← keeping (Agent_Generation agent) clock 0
  (within (Fence.reconcileFence canonical_json r (view agent))) (Agent_Status agent);
  '(podGone, unverified) ←? mret fence;
  deleted ← call (DeleteStatefulSet (Agent_Namespace agent) (Agent_Name agent) PropagationBackground None);
  let failed := match deleted with
  | Err err => if IsNotFound err then None else Some err
  | Ok _ => None
  end in
  match failed with
  | Some err => mret (Err (Wrapf "delete the agent's statefulset: " err ""))
  | None =>
    _ ←? writeStatus agent status;
    if negb podGone then mret (Ok (fenceResult unverified))
    else
    released ← call (PatchAgent agent (DropFinalizer agent workloadFencedFinalizer));
    match released with
    | Err err =>
      if IsNotFound err then mret (Ok (mkResult 0))
      else mret (Err (Wrapf "release the agent's workload fence: " err ""))
    | Ok _ => mret (Ok (mkResult 0))
    end
  end.

(** The Agent with the workload's fence on it, added where it was not. *)
Definition fenced agent : prog reconcileE (result Agent) :=
  if agent_fenced agent workloadFencedFinalizer then mret (Ok agent)
  else
  patched ←? call (PatchAgent agent (AddFinalizer agent workloadFencedFinalizer))
  wrap (λ err, Wrapf "add the workload fence to the agent: " err "");
  mret (Ok patched).

Definition Reconcile namespace name : prog reconcileE (result Result) :=
  agent ← call (GetAgent namespace name);
  match agent with
  | Err err => if IsNotFound err then mret (Ok (mkResult 0)) else mret (Err (Wrapf "get agent: " err ""))
  | Ok agent =>
    if negb (bool_decide (Agent_DeletionTimestamp agent = None)) then reconcileDeletion agent
    else
    agent ←? fenced agent;
    '(outcome, status) ← keeping (Agent_Generation agent) clock 0
    (reconcile_agent canonical_json decode_error yaml_Marshal r agent) (Agent_Status agent);
    unverified ←? mret outcome;
    _ ←? writeStatus agent status;
    mret (Ok (fenceResult unverified))
  end.
End pass.
End AgentLoop.
