(* ===== verification/LastWriter.v ===== *)
(** The record a claim carries of its last writer, written by the fence and read by a move: it reads
    back as it was written. *)
From S2P Require Import Prelude GoStd Json JsonText JsonRound Errors Types Samples Kube Names Fence KubeSamples Move.
Import GoStd JsonText JsonRound Kube Names Fence Move.

Module LastWriter.

(** ** The record *)
Definition int32 (z : Z) : Prop := -2147483648 ≤ z ≤ 2147483647.

Definition members_of (w : lastWriter) : list (string * Json.json) :=
  ("podUID", Json.JString (writer_PodUID w)) :: ("state", Json.JString (writer_State w)) ::
  match writer_ExitCode w with Some code => [("exitCode", Json.JNumber (FormatInt code))] | None => [] end.

(** The record's text is its object, marshalled. *)
Lemma lastWriter_Marshal w : lastWriter_json w = Marshal (Json.JObject (members_of w)).
Proof.
  rewrite <- (string_of_bytes_of (lastWriter_json w)). unfold Marshal. f_equal.
  rewrite encode_JObject. unfold lastWriter_json, members_of. destruct (writer_ExitCode w) as [code|];
    rewrite ?encode_members_cons; cbn [encode_members]; rewrite !bytes_of_app;
    unfold encode_string; cbn -[json_string]; by rewrite <- ?app_assoc.
Qed.

(** What [encoding/json] reads of the record is the record. *)
Lemma decode_encoded w :
  utf8 (writer_PodUID w) = true → utf8 (writer_State w) = true → (∀ z, writer_ExitCode w = Some z → int32 z) →
  decode_lastWriter (lastWriter_json w) = Some w.
Proof.
  intros Hu Hs Hc. unfold decode_lastWriter. rewrite lastWriter_Marshal, parse_Marshal.
  - destruct w as [uid state [code|]]; [|done]. specialize (Hc code eq_refl).
    pose proof (into_int32_FormatInt code 0 Hc) as Hcode. revert Hcode. eval_names. by intros ->.
  - exists 1%nat. split; [|done]. apply printable_JObject. exists 0%nat. split; [done|].
    unfold members_of. destruct (writer_ExitCode w) as [code|]; rewrite ?Forall_cons; cbn [fst snd printable]; eauto 10.
Qed.

(** ** The last writer a move trusts *)
Section drained.
#[local] Arguments decode_lastWriter : simpl never.
Context `{K8s : Kubernetes} (decode_error : string → string).

(** A move begins only from a claim whose record reads as a writer that stopped and whose agent
exited 0; any other claim, one with no record or one that cannot be read, is refused as not
drained. *)
Theorem drainedCleanly_spec (source : Claim) :
  match drainedCleanly decode_error source with
  | None => ∃ recorded w, Claim_Annotations source !! lastWriterAnnotation = Some recorded ∧
    decode_lastWriter recorded = Some w ∧ writer_State w = writerStopped ∧ writer_ExitCode w = Some 0
  | Some refusal => refusal_reason refusal = ReasonWriterNotDrained ∧
    ∀ recorded w, Claim_Annotations source !! lastWriterAnnotation = Some recorded →
    decode_lastWriter recorded = Some w → ¬ (writer_State w = writerStopped ∧ writer_ExitCode w = Some 0)
  end.
Proof.
  unfold drainedCleanly. destruct (_ !! _) as [recorded|]; [|by split].
  destruct (decode_lastWriter recorded) as [w|] eqn:Hd; [|split; [done|]; intros ? ? [= <-]; congruence].
  case_bool_decide as Hs; cbn; [|split; [done|]; intros ? ? [= <-]; naive_solver].
  destruct (writer_ExitCode w) as [code|] eqn:He; [case_bool_decide as Hz; subst|];
    [by exists recorded, w|split; [done|]; intros ? ? [= <-]; naive_solver..].
Qed.

(** What the fence records of a claim's last writer, a move reads back: of any Pod whose UID and
state are well-formed UTF-8, with an exit code of 32 bits, the record decodes to itself; so a claim the
fence marked is taken for drained exactly when its agent was seen to stop and to exit 0. *)
Theorem recorded_writer_read (claim : Claim) (w : lastWriter)
  (Huid : utf8 (writer_PodUID w) = true) (Hstate : utf8 (writer_State w) = true)
  (Hcode : ∀ z, writer_ExitCode w = Some z → int32 z) :
  decode_lastWriter (lastWriter_json w) = Some w ∧
  (drainedCleanly decode_error (annotated claim lastWriterAnnotation (lastWriter_json w)) = None ↔
    writer_State w = writerStopped ∧ writer_ExitCode w = Some 0).
Proof.
  pose proof (decode_encoded w Huid Hstate Hcode) as Hd. split; [done|].
  unfold drainedCleanly. cbn [Claim_Annotations annotated with_annotations]. rewrite lookup_insert_eq, Hd.
  case_bool_decide as Hs; cbn; [|naive_solver].
  destruct (writer_ExitCode w) as [code|]; [case_bool_decide as Hz; subst|]; naive_solver.
Qed.
End drained.

(** The writer of a Pod that drained, and of one that was killed. *)
Lemma recorded_writer_read_witness :
  let drained := mkLastWriter "0b5e-41" writerStopped (Some 0) in
  decode_lastWriter (lastWriter_json drained) = Some drained ∧
  (drainedCleanly (λ s, s) (annotated KubeSamples.claim lastWriterAnnotation (lastWriter_json drained)) = None ↔
   writer_State drained = writerStopped ∧ writer_ExitCode drained = Some 0).
Proof.
  apply (recorded_writer_read (λ s, s)); [by vm_compute|by vm_compute|]. cbn. intros z [= <-]. by vm_compute.
Defined.
End LastWriter.
