(* ===== verification/MoveSpec.v ===== *)
(** What a move of an agent's memory promises, whatever the API server answers: the agent runs only on
    memory a move left whole, and every step of a move is taken on what the pass read. *)
From S2P Require Import Prelude GoStd Json Errors Types Samples Kube Names Fence KubeSamples FenceSpec Move.
Import GoStd Kube Names Fence FenceSpec Move.

Module MoveSpec.

#[local] Arguments try_bind : simpl never.
#[local] Arguments try_wrap : simpl never.

Section calls.
Context `{K8s : Kubernetes} (r : AgentReconciler) (memoryFile : string) (decode_error : string → string).
Context (agent : Kube.Agent) (podGone : bool).
Abbreviation history := (list (event fullE)).
Abbreviation ns := (Agent_Namespace agent).
Implicit Types (h : history) (c target source : Claim) (move : MemoryMove).

(** ** The chain of claims *)
Definition noted c (k : string) : string := annotation (Claim_Annotations c) k.
Definition ours c : Prop :=
  annotation (Claim_Labels c) moveAgentLabel = Agent_Name agent ∧ noted c moveIDAnnotation ≠ "".
Definition on_chain (name : string) c : Prop := name = stateClaimName agent ∨ ours c.

(** The claim [a], read, is one of the agent's and names [b] as where the memory moved. *)
Definition hop h (a b : string) : Prop :=
  ∃ c, asked h (GetClaim ns a) (Ok c) ∧ on_chain a c ∧ noted c movedToAnnotation = b ∧ b ≠ "".

(** The claim the memory is on: the chain's end, from the StatefulSet's own claim. *)
Definition in_use h (name : string) : Prop :=
  rtc (hop h) (stateClaimName agent) name ∧
  ((∃ c, asked h (GetClaim ns name) (Ok c) ∧ on_chain name c ∧ noted c movedToAnnotation = "") ∨
    (name = stateClaimName agent ∧ ∃ err, asked h (GetClaim ns name) (Err err) ∧ IsNotFound err = true)).
(** The workload on it: the StatefulSet's own claim as its template has it, another by name, and then
the agent must find a store there. *)
Definition plan_on (name : string) (hold : bool) : statePlan :=
  if bool_decide (name = stateClaimName agent) then mkPlan "" false hold else mkPlan name true hold.

(** ** What the pass read of the move *)
Definition phase_of c : string := noted c movePhaseAnnotation.

(** The claim the move asked for copies to: as read, or as the server answered a patch of it. *)
Inductive is_target h move : Claim → Prop :=
| target_read t :
  asked h (GetClaim ns (targetClaimName agent (Move_ID move))) (Ok t) →
  annotation (Claim_Labels t) moveAgentLabel = Agent_Name agent → noted t moveIDAnnotation = Move_ID move →
  is_target h move t
| target_patched t w t' : is_target h move t → asked h (PatchClaim t w) (Ok t') → is_target h move t'.

(** The phase of a claim: as read, or as just recorded on it. *)
Definition at_phase h c (p : string) : Prop :=
  phase_of c = p ∨ ∃ t w, asked h (PatchClaim t w) (Ok c) ∧ phase_of w = p.

(** The source, read: the claim the move began on, with no writer since. *)
Definition unchanged h target : Prop :=
  ∃ source, asked h (GetClaim ns (noted target moveSourceAnnotation)) (Ok source) ∧
  Claim_UID source = noted target moveSourceUIDAnnotation ∧
  noted source lastWriterAnnotation = noted target moveSourceWriterAnnotation.

(** The step's Job is read to have ended with exit 0, and what it reported. *)
Definition ended_well h move (step message : string) : Prop :=
  ∃ job pods t, asked h (GetJob ns (moveJobName agent (Move_ID move) step)) (Ok job) ∧
  asked h (ListPodsOfJob (Job_Namespace job) (Job_Name job)) (Ok pods) ∧
  moved_container pods = Some t ∧ Terminated_ExitCode t = 0 ∧ message = Terminated_Message t.

(** A claim made to name where the memory moved, or, with no name, nowhere. *)
Definition unlinked c : Claim := with_annotations c (delete movedToAnnotation (Claim_Annotations c)).
Definition relinked c (to : string) : Claim :=
  if bool_decide (to = "") then unlinked c else annotated c movedToAnnotation to.

(** The memory is on the target: its source names it, or was just made to. *)
Definition moved_onto h target : Prop :=
  ∃ source, asked h (GetClaim ns (noted target moveSourceAnnotation)) (Ok source) ∧
  (noted source movedToAnnotation = Claim_Name target ∨
    ∃ s, asked h (PatchClaim source (relinked source (Claim_Name target))) (Ok s)).

Definition reported (message key : string) : string := annotation (reportedDigests message) key.
Definition read_pod h pod : Prop := asked h (GetPod ns (agentPodName agent)) (Ok pod).

(** ** The steps a pass may record *)
Inductive may_step h move c : string → gmap string string → Prop :=
| step_copied message :
  podGone = true → phase_of c = movePhaseCreated → unchanged h c → ended_well h move moveStepCopy message →
  reported message "source" ≠ "" →
  may_step h move c movePhaseCopied {[moveDigestAnnotation := reported message "source"]}
| step_verified message :
  podGone = true → phase_of c = movePhaseCopied → unchanged h c → ended_well h move moveStepVerify message →
  reported message "source" ≠ "" → reported message "source" = noted c moveDigestAnnotation →
  reported message "target" = noted c moveDigestAnnotation → reported message "extra" = "0" →
  may_step h move c movePhaseVerified ∅
| step_switched :
  phase_of c = movePhaseVerified →
  in_use h (targetClaimName agent (Move_ID move)) ∨ (podGone = true ∧ unchanged h c ∧ moved_onto h c) →
  may_step h move c movePhaseSwitched ∅
| step_accepted pod :
  at_phase h c movePhaseSwitched → read_pod h pod → podStateClaim pod = Claim_Name c →
  agentExitedNonZero pod = None → podReady pod = true →
  may_step h move c movePhaseAccepted ∅
| step_refused p reason message :
  at_phase h c p → p ≠ movePhaseAccepted → p ≠ movePhaseRefused →
  may_step h move c movePhaseRefused (<[moveReasonAnnotation := reason]> (<[moveMessageAnnotation := message]> ∅)).

(** The mark a step's Job is made after: its phase is the step's, and no Job of it is found. *)
Definition may_mark h move c (step started : string) : Prop :=
  podGone = true ∧ unchanged h c ∧ noted c started = "" ∧
  (∃ err, asked h (GetJob ns (moveJobName agent (Move_ID move) step)) (Err err) ∧ IsNotFound err = true) ∧
  ((step = moveStepCopy ∧ started = moveCopyStartedAnnotation ∧ phase_of c = movePhaseCreated) ∨
    (step = moveStepVerify ∧ started = moveCheckStartedAnnotation ∧ phase_of c = movePhaseCopied)).

Inductive may_patch h move c : Claim → Prop :=
| patch_phase p extra :
  is_target h move c → may_step h move c p extra →
  may_patch h move c (with_annotations c (extra ∪ <[movePhaseAnnotation := p]> (Claim_Annotations c)))
| patch_mark step started :
  is_target h move c → may_mark h move c step started →
  may_patch h move c (annotated c started (moveJobName agent (Move_ID move) step))
| patch_link target :
  is_target h move target → podGone = true → phase_of target = movePhaseVerified → unchanged h target →
  asked h (GetClaim ns (noted target moveSourceAnnotation)) (Ok c) →
  may_patch h move c (relinked c (Claim_Name target))
| patch_unlink target :
  is_target h move target → at_phase h target movePhaseRefused →
  asked h (GetClaim ns (noted target moveSourceAnnotation)) (Ok c) →
  may_patch h move c (relinked c "").

(** A claim is made to move to only from a stopped agent's claim, drained cleanly. *)
Definition may_create h move (created : Claim) : Prop :=
  podGone = true ∧ CopyImage r ≠ "" ∧
  (asked h (GetStatefulSet ns (Agent_Name agent)) (Ok true) ∨
    ∃ err, asked h (GetStatefulSet ns (Agent_Name agent)) (Err err) ∧ IsNotFound err = true) ∧
  ∃ name source, in_use h name ∧ asked h (GetClaim ns name) (Ok source) ∧
  drainedCleanly decode_error source = None ∧ created = new_target agent move source.

Definition move_call h X (e : fullE X) : Prop :=
  match e with
  | InL (PatchClaim c wanted) => ∃ move, Agent_MemoryMove agent = Some move ∧ may_patch h move c wanted
  | InL (CreateClaim c) => ∃ move, Agent_MemoryMove agent = Some move ∧ may_create h move c
  | InL (CreateJob j) => ∃ move t target step started, Agent_MemoryMove agent = Some move ∧
    is_target h move t ∧ may_mark h move t step started ∧
    asked h (PatchClaim t (annotated t started (moveJobName agent (Move_ID move) step))) (Ok target) ∧
    j = moveJob r memoryFile agent target (moveJobName agent (Move_ID move) step) step
  | InL e => writes e = false
  | InR _ => True
  end.

(** No Job of a move is left running. *)
Definition jobs_ended h : Prop :=
  ∃ jobs, asked h (ListJobs ns (Agent_Name agent)) (Ok jobs) ∧
  Forall (λ job, ∃ pods, asked h (ListPodsOfJob (Job_Namespace job) (Job_Name job)) (Ok pods) ∧
    outcome_ended (outcome_of job pods) = true) jobs.

(** What the workload may run on: the end of the chain with no move asked for; or the claim of the move
asked for, once the memory is on it and its phase is switched or accepted. *)
Definition may_run h (plan : statePlan) : Prop :=
  match Agent_MemoryMove agent with
  | None => jobs_ended h ∧ ∃ name, in_use h name ∧ plan = plan_on name false
  | Some move =>
    (∃ target, is_target h move target ∧
      (at_phase h target movePhaseSwitched ∨ at_phase h target movePhaseAccepted)) ∧
    ((jobs_ended h ∧ in_use h (targetClaimName agent (Move_ID move)) ∧
      plan = plan_on (targetClaimName agent (Move_ID move)) false) ∨
      (∃ target, is_target h move target ∧ unchanged h target ∧ moved_onto h target ∧
        plan = mkPlan (Claim_Name target) true false))
  end.
Definition move_outcome h (res : result statePlan) : Prop :=
  match res with
  | Ok plan => plan_hold plan = false → may_run h plan
  | Err _ => True
  end.

(** ** What was read stays read *)
Section later.
Context (h h' : history) (Hs : h `suffix_of` h').

Lemma hop_later a b : hop h a b → hop h' a b.
Proof. intros (c & ? & ?). exists c. split; [hist|done]. Qed.
Lemma chain_later a b : rtc (hop h) a b → rtc (hop h') a b.
Proof. induction 1; [done|]. eapply rtc_l; [by apply hop_later|done]. Qed.
Lemma in_use_later name : in_use h name → in_use h' name.
Proof.
  intros [Hc He]. split; [by apply chain_later|].
  destruct He as [(c & ? & ?)|(? & err & ? & ?)]; [left; exists c|right; split; [done|]; exists err];
    (split; [hist|done]).
Qed.
Lemma is_target_later move c : is_target h move c → is_target h' move c.
Proof.
  induction 1 as [t|t w t0 Ht IH Hp]; [eapply target_read; [hist|done..]|].
  apply (target_patched _ _ t w); [exact IH|hist].
Qed.
Lemma at_phase_later c p : at_phase h c p → at_phase h' c p.
Proof. intros [?|(t & w & ? & ?)]; [by left|right]. exists t, w. split; [hist|done]. Qed.
Lemma unchanged_later c : unchanged h c → unchanged h' c.
Proof. intros (s & ? & ?). exists s. split; [hist|done]. Qed.
Lemma moved_onto_later c : moved_onto h c → moved_onto h' c.
Proof.
  intros (s & ? & Hm). exists s. split; [hist|]. destruct Hm as [?|[s' ?]]; [by left|right]. exists s'. hist.
Qed.
Lemma ended_well_later move step message : ended_well h move step message → ended_well h' move step message.
Proof. intros (j & p & t & ? & ? & ?). exists j, p, t. split_and!; try done; try hist; tauto. Qed.
Lemma may_mark_later move c step started : may_mark h move c step started → may_mark h' move c step started.
Proof.
  intros (? & ? & ? & (err & ? & ?) & ?). split_and!; try done; [by apply unchanged_later|].
  exists err. split; [hist|done].
Qed.
Lemma jobs_ended_later : jobs_ended h → jobs_ended h'.
Proof.
  intros (jobs & ? & Hj). exists jobs. split; [hist|]. eapply Forall_impl; [exact Hj|].
  intros job (pods & ? & ?). exists pods. split; [hist|done].
Qed.
End later.

Abbreviation P := move_call.

(** ** Where the memory is *)
Lemma follow_moves_safe {Q : history → _ → Prop} n name h :
  rtc (hop h) (stateClaimName agent) name →
  (∀ h' plan name', h `suffix_of` h' →
    (plan_hold plan = false → in_use h' name' ∧ plan = plan_on name' false) → Q h' (Ok (plan, name'))) →
  (∀ h' e, Q h' (Err e)) →
  safe P Q h (follow_moves agent n name).
Proof.
  revert name h. induction n as [|n IH]; intros name h Hc HQ He.
  { split; [done|]. intros []. apply HQ; [hist|done]. }
  assert (∀ h', h `suffix_of` h' → safe P Q h' (lost_chain name)) as Hlost.
  { intros h' Hs. split; [done|]. intros []. apply HQ; [hist|done]. }
  split; [done|]. intros [c|err]; cbn.
  2:{ destruct (IsNotFound err) eqn:Hnf; cbn; [|apply He].
  case_bool_decide as Hown; [|apply Hlost; hist]. apply HQ; [hist|]. intros _. unfold plan_on.
  rewrite bool_decide_true by done. split; [|done].
  split; [eapply chain_later; [|exact Hc]; hist|]. right. split; [done|]. exists err. split; [hist|done]. }
  set (h' := Ev _ _ :: h). assert (asked h' (GetClaim ns name) (Ok c)) as Ha by hist.
  assert (h `suffix_of` h') as Hs by hist. clearbody h'.
  destruct (bool_decide (name = stateClaimName agent)) eqn:Hown; cbn.
  all: rewrite ?bool_decide_eq_true, ?bool_decide_eq_false in Hown.
  - case_bool_decide as Hnext.
    + apply HQ; [done|]. intros _. unfold plan_on. rewrite bool_decide_true by done. split; [|done].
      split; [by eapply chain_later|]. left. exists c. split_and!; [done|by left|done].
    + apply IH; [|intros h2 plan name2 Hs2; apply HQ; hist|done].
      eapply rtc_r; [by eapply chain_later|]. exists c. split_and!; [done|by left|done..].
  - destruct (_ && _) eqn:Hours; cbn; [|by apply Hlost].
    rewrite andb_true_iff, bool_decide_eq_true, negb_true_iff, bool_decide_eq_false in Hours.
    assert (on_chain name c) as Hon by by right.
    case_bool_decide as Hnext.
    + apply HQ; [done|]. intros _. unfold plan_on. rewrite bool_decide_false by done. split; [|done].
      split; [by eapply chain_later|]. left. by exists c.
    + apply IH; [|intros h2 plan name2 Hs2; apply HQ; hist|done].
      eapply rtc_r; [by eapply chain_later|]. by exists c.
Qed.

(** ** Jobs *)
Lemma read_outcome_safe {Q : history → _ → Prop} job h :
  (∀ h' pods, h `suffix_of` h' → asked h' (ListPodsOfJob (Job_Namespace job) (Job_Name job)) (Ok pods) →
    Q h' (Ok (outcome_of job pods))) →
  (∀ h' e, Q h' (Err e)) →
  safe P Q h (read_outcome job).
Proof. intros HQ He. split; [done|]. intros [pods|err]; cbn; [apply HQ; hist|apply He]. Qed.

Lemma any_running_safe {Q : history → _ → Prop} jobs h :
  (∀ h' b, h `suffix_of` h' →
    (b = false → Forall (λ job, ∃ pods, asked h' (ListPodsOfJob (Job_Namespace job) (Job_Name job)) (Ok pods) ∧
      outcome_ended (outcome_of job pods) = true) jobs) → Q h' (Ok b)) →
  (∀ h' e, Q h' (Err e)) →
  safe P Q h (any_running jobs).
Proof.
  revert Q h. induction jobs as [|job jobs IH]; intros Q h HQ He; [apply HQ; [hist|by constructor]|].
  cbn [any_running]. rewrite safe_try_bind. apply read_outcome_safe; [|done]. intros h1 pods Hs1 Hp.
  destruct (outcome_ended (outcome_of job pods)) eqn:Ho; cbn [negb]; [|by apply HQ].
  apply IH; [|done]. intros h2 b Hs2 Hb. apply HQ; [hist|]. intros ->. constructor; [|by apply Hb].
  exists pods. split; [hist|done].
Qed.

Lemma moveJobRunning_safe {Q : history → _ → Prop} h :
  (∀ h' b, h `suffix_of` h' → (b = false → jobs_ended h') → Q h' (Ok b)) →
  (∀ h' e, Q h' (Err e)) →
  safe P Q h (moveJobRunning agent).
Proof.
  intros HQ He. unfold moveJobRunning. rewrite safe_try_wrap. split; [done|]. intros [jobs|err]; [|apply He].
  apply any_running_safe; [|done]. intros h' b Hs Hb. apply HQ; [hist|]. intros Hf.
  exists jobs. split; [hist|]. auto.
Qed.

(** ** Recording *)
Lemma may_step_extra h move c p extra : may_step h move c p extra → extra !! movePhaseAnnotation = None.
Proof. by inversion 1. Qed.

Lemma recordMovePhase_safe {Q : history → _ → Prop} move target p extra reason message h :
  Agent_MemoryMove agent = Some move → is_target h move target → may_step h move target p extra →
  (∀ h' t, h `suffix_of` h' → is_target h' move t → at_phase h' t p → Q h' (Ok t)) →
  (∀ h' e, Q h' (Err e)) →
  safe P Q h (recordMovePhase target p extra reason message).
Proof.
  intros Hm Ht Hstep HQ He. unfold recordMovePhase. rewrite safe_try_wrap.
  split; [exists move; split; [done|]; by constructor|].
  intros [t|err]; [|apply He]. split; [done|]. intros []. split; [done|]. intros [].
  apply HQ; [hist| |].
  - apply (target_patched _ _ target (with_annotations target (extra ∪ <[movePhaseAnnotation:=p]> (Claim_Annotations target))));
      [eapply is_target_later; [|exact Ht]; hist|hist].
  - right. exists target. eexists. split; [hist|]. unfold phase_of, noted, annotation. cbn.
    rewrite lookup_union_r by by eapply may_step_extra. by rewrite lookup_insert_eq.
Qed.

Lemma refuseMove_safe {Q : history → _ → Prop} move target p refusal h :
  Agent_MemoryMove agent = Some move → is_target h move target → at_phase h target p →
  p ≠ movePhaseAccepted → p ≠ movePhaseRefused →
  (∀ h' t, h `suffix_of` h' → is_target h' move t → at_phase h' t movePhaseRefused → Q h' (Ok t)) →
  (∀ h' e, Q h' (Err e)) →
  safe P Q h (refuseMove move target refusal).
Proof.
  intros Hm Ht Hp Ha Hr HQ He. unfold refuseMove. rewrite safe_try_bind.
  eapply recordMovePhase_safe; [done..|by eapply step_refused| |done].
  intros h1 t Hs Ht1 Hp1. split; [done|]. intros []. apply HQ; [hist| |].
  - eapply is_target_later; [|exact Ht1]; hist.
  - eapply at_phase_later; [|exact Hp1]; hist.
Qed.

Lemma linkMove_safe {Q : history → _ → Prop} move (source to : string) h :
  Agent_MemoryMove agent = Some move →
  (∀ h' c, h `suffix_of` h' → asked h' (GetClaim ns source) (Ok c) → may_patch h' move c (relinked c to)) →
  (∀ h' c, h `suffix_of` h' → asked h' (GetClaim ns source) (Ok c) →
    noted c movedToAnnotation = to ∨ (∃ s, asked h' (PatchClaim c (relinked c to)) (Ok s)) → Q h' (Ok tt)) →
  (∀ h' e, Q h' (Err e)) →
  safe P Q h (linkMove agent source to).
Proof.
  intros Hm Hp HQ He. unfold linkMove. rewrite safe_try_wrap. split; [done|]. intros [c|err]; [|apply He].
  cbn. case_bool_decide as Hto; [apply (HQ _ c); [hist|hist|by left]|].
  rewrite safe_try_wrap. split; [exists move; split; [done|]; apply Hp; hist|].
  intros [s|err]; [|apply He]. apply (HQ _ c); [hist|hist|right]. exists s. hist.
Qed.

Lemma sourceUnchanged_safe {Q : history → _ → Prop} target h :
  (∀ h' refusal, h `suffix_of` h' → (refusal = None → unchanged h' target) → Q h' (Ok refusal)) →
  (∀ h' e, Q h' (Err e)) →
  safe P Q h (sourceUnchanged agent target).
Proof.
  intros HQ He. split; [done|]. intros [c|err]; cbn.
  - case_bool_decide as Hu; cbn; [|apply HQ; [hist|done]].
    case_bool_decide as Hw; cbn; (apply HQ; [hist|]); [|done].
    intros _. exists c. split_and!; [hist|done..].
  - destruct (IsNotFound err); [apply HQ; [hist|done]|apply He].
Qed.

(** The step's Job: its outcome read, or gone after its mark, or made after it. *)
Lemma ensureMoveJob_safe {Q : history → _ → Prop} move target step started h :
  Agent_MemoryMove agent = Some move → is_target h move target → podGone = true → unchanged h target →
  ((step = moveStepCopy ∧ started = moveCopyStartedAnnotation ∧ phase_of target = movePhaseCreated) ∨
    (step = moveStepVerify ∧ started = moveCheckStartedAnnotation ∧ phase_of target = movePhaseCopied)) →
  (∀ h' outcome, h `suffix_of` h' →
    (outcome_refusal outcome = None → outcome_ended outcome = true →
      ended_well h' move step (outcome_message outcome)) → Q h' (Ok (outcome, target))) →
  (∀ h' t, h `suffix_of` h' → Q h' (Ok (mkOutcome false "" None, t))) →
  (∀ h' e, Q h' (Err e)) →
  safe P Q h (ensureMoveJob r memoryFile agent move target step started).
Proof.
  intros Hm Ht Hgone Hu Hstep HQ Hmade He. split; [done|]. intros [job|err]; cbn.
  { rewrite safe_try_bind. apply read_outcome_safe; [|done]. intros h1 pods Hs1 Hp. apply HQ; [hist|].
    unfold outcome_of. destruct (moved_container pods) as [t|] eqn:Hc; [case_bool_decide as Hz|case_match]; cbn; try done.
    intros _ _. exists job, pods, t. split_and!; [hist|done..]. }
  destruct (IsNotFound err) eqn:Hnf; cbn; [|apply He].
  case_bool_decide as Hst; cbn; [|apply HQ; [hist|done]].
  set (h1 := Ev _ _ :: h). assert (h `suffix_of` h1) as Hs1 by hist.
  assert (may_mark h1 move target step started) as Hmark.
  { split_and!; [done|by eapply unchanged_later|done| |done]. exists err. split; [hist|done]. }
  assert (is_target h1 move target) as Ht1 by by eapply is_target_later. clearbody h1.
  rewrite safe_try_wrap. split; [exists move; split; [done|]; by constructor|].
  intros [t|e]; [|apply He]. cbn. rewrite safe_try_wrap. split; [done|]. intros [[]|e]; [|apply He].
  split.
  - exists move, target, t, step, started. split_and!; [done| | |hist|done].
    + eapply is_target_later; [|exact Ht1]; hist.
    + eapply may_mark_later; [|exact Hmark]; hist.
  - intros created. cbn. case_match; [apply He|]. split; [done|]. intros []. apply Hmade. hist.
Qed.

Lemma refuse_step_safe {Q : history → _ → Prop} move target p reason message h :
  Agent_MemoryMove agent = Some move → is_target h move target → phase_of target = p →
  p ≠ movePhaseAccepted → p ≠ movePhaseRefused →
  (∀ h' res, Q h' res) → safe P Q h (refuse_step move target reason message).
Proof.
  intros Hm Ht Hp Ha Hr HQ. unfold refuse_step. rewrite safe_try_bind.
  eapply refuseMove_safe; [done|done|by left|done|done| |]; intros; apply HQ.
Qed.

Lemma runCopy_safe {Q : history → _ → Prop} move target h :
  Agent_MemoryMove agent = Some move → is_target h move target → podGone = true → unchanged h target →
  phase_of target = movePhaseCreated → (∀ h' res, Q h' res) →
  safe P Q h (runCopy r memoryFile agent move target).
Proof.
  intros Hm Ht Hgone Hu Hp HQ. unfold runCopy. rewrite safe_try_bind.
  eapply ensureMoveJob_safe; [done..|by left| | |intros; apply HQ].
  2:{ intros h1 t Hs. cbn. split; [done|]. intros []. apply HQ. }
  intros h1 outcome Hs Hended. cbn. assert (is_target h1 move target) as Ht1 by by eapply is_target_later.
  destruct (outcome_refusal outcome) as [refusal|]; [by eapply refuse_step_safe|].
  destruct (outcome_ended outcome); cbn; [|split; [done|]; intros []; apply HQ].
  case_bool_decide as Hd; [by eapply refuse_step_safe|]. rewrite safe_try_bind.
  eapply recordMovePhase_safe; [done|done| |intros; apply HQ|intros; apply HQ].
  apply step_copied; try done; [by eapply unchanged_later|by apply Hended].
Qed.

(** What the verification compares. *)
Lemma verify_mismatch_spec message copied :
  verify_mismatch message copied = "" ↔
  reported message "source" ≠ "" ∧ reported message "source" = copied ∧
  reported message "target" = copied ∧ reported message "extra" = "0".
Proof.
  unfold verify_mismatch. fold (reported message "source") (reported message "target") (reported message "extra").
  set (s := reported message "source"). set (t := reported message "target"). set (x := reported message "extra").
  repeat match goal with
    | |- context [bool_decide ?p] =>
    destruct (decide p); [rewrite (bool_decide_true p) by done|rewrite (bool_decide_false p) by done];
    cbn [negb orb]
    end; (split; [first [intros; split_and!; congruence|done]|intros (? & ? & ? & ?); congruence || done]).
Qed.

Lemma runVerify_safe {Q : history → _ → Prop} move target h :
  Agent_MemoryMove agent = Some move → is_target h move target → podGone = true → unchanged h target →
  phase_of target = movePhaseCopied → (∀ h' res, Q h' res) →
  safe P Q h (runVerify r memoryFile agent move target).
Proof.
  intros Hm Ht Hgone Hu Hp HQ. unfold runVerify. rewrite safe_try_bind.
  eapply ensureMoveJob_safe; [done..|by right| | |intros; apply HQ].
  2:{ intros h1 t Hs. cbn. split; [done|]. intros []. apply HQ. }
  intros h1 outcome Hs Hended. cbn. assert (is_target h1 move target) as Ht1 by by eapply is_target_later.
  destruct (outcome_refusal outcome) as [refusal|]; [by eapply refuse_step_safe|].
  destruct (outcome_ended outcome); cbn; [|split; [done|]; intros []; apply HQ].
  case_bool_decide as Hd; cbn; [|by eapply refuse_step_safe]. rewrite safe_try_bind.
  apply verify_mismatch_spec in Hd as (? & ? & ? & ?).
  eapply recordMovePhase_safe; [done|done| |intros; apply HQ|intros; apply HQ].
  eapply step_verified; try done; [by eapply unchanged_later|by apply Hended].
Qed.

(** ** Ending a move *)
Lemma restoreSource_safe {Q : history → _ → Prop} move target h :
  Agent_MemoryMove agent = Some move → is_target h move target → at_phase h target movePhaseRefused →
  (∀ h' plan, plan_hold plan = true → Q h' (Ok plan)) → (∀ h' e, Q h' (Err e)) →
  safe P Q h (restoreSource agent target).
Proof.
  intros Hm Ht Hp HQ He. unfold restoreSource. rewrite safe_try_bind.
  apply (linkMove_safe move); [done| |intros; by apply HQ|done].
  intros h' c Hs Ha. apply (patch_unlink _ _ _ target); [by eapply is_target_later|by eapply at_phase_later|done].
Qed.

(** The plan the move settles under runs the memory's claim, whatever the target's own phase. *)
Definition settles h move (plan : statePlan) : Prop :=
  plan_hold plan = false →
  (jobs_ended h ∧ in_use h (targetClaimName agent (Move_ID move)) ∧
    plan = plan_on (targetClaimName agent (Move_ID move)) false) ∨
  (∃ target, is_target h move target ∧ unchanged h target ∧ moved_onto h target ∧
    plan = mkPlan (Claim_Name target) true false).

Lemma settles_later h h' move plan : h `suffix_of` h' → settles h move plan → settles h' move plan.
Proof.
  intros Hs Hset Hh. destruct (Hset Hh) as [(? & ? & ?)|(t & ? & ? & ? & ?)]; [left|right; exists t]; split_and!;
    eauto using jobs_ended_later, in_use_later, is_target_later, unchanged_later, moved_onto_later.
Qed.

Lemma may_run_settled h move plan target :
  Agent_MemoryMove agent = Some move → settles h move plan → is_target h move target →
  at_phase h target movePhaseSwitched ∨ at_phase h target movePhaseAccepted →
  move_outcome h (Ok plan).
Proof. intros Hm Hs Ht Hp Hh. unfold may_run. rewrite Hm. split; [by exists target|auto]. Qed.

Lemma settle_switched_safe move plan target h :
  Agent_MemoryMove agent = Some move → is_target h move target → at_phase h target movePhaseSwitched →
  settles h move plan → safe P move_outcome h (settle_switched agent move plan target).
Proof.
  intros Hm Ht Hp Hset.
  assert (∀ h', h `suffix_of` h' → move_outcome h' (Ok plan)) as Hplan.
  { intros h' Hs. eapply may_run_settled; [done|by eapply settles_later|by eapply is_target_later|].
    left. by eapply at_phase_later. }
  assert (∀ h', h `suffix_of` h' → safe P move_outcome h' (_ ← starting target; mret (Ok plan))) as Hstart.
  { intros h' Hs. split; [done|]. intros []. apply Hplan. hist. }
  split; [done|]. intros [pod|err]; cbn -[starting].
  2:{ destruct (IsNotFound err); [apply Hstart; hist|done]. }
  destruct (bool_decide (podStateClaim pod = Claim_Name target)) eqn:Hclaim; cbn -[starting]; [|apply Hstart; hist].
  apply bool_decide_eq_true in Hclaim. set (h1 := Ev _ _ :: h).
  assert (read_pod h1 pod) as Hpod by (unfold read_pod; hist). assert (h `suffix_of` h1) as Hs1 by hist.
  assert (is_target h1 move target) as Ht1 by by eapply is_target_later.
  assert (at_phase h1 target movePhaseSwitched) as Hp1 by by eapply at_phase_later. clearbody h1.
  destruct (agentExitedNonZero pod) as [code|] eqn:Hexit.
  - rewrite safe_try_bind. eapply refuseMove_safe; [done..|discriminate|discriminate| |done].
    intros h2 t Hs2 Ht2 Hp2. eapply restoreSource_safe; [done|done|done| |done]. cbn. intros h3 p Hh Hf. congruence.
  - destruct (podReady pod) eqn:Hready; cbn -[starting]; [|by apply Hstart].
    rewrite safe_try_bind. eapply recordMovePhase_safe; [done|done| | |done].
    + by eapply step_accepted.
    + intros h2 t Hs2 Ht2 Hp2. eapply may_run_settled; [done| |done|by right].
      eapply settles_later; [|exact Hset]. hist.
Qed.

Lemma settleMove_safe move plan target h :
  Agent_MemoryMove agent = Some move → is_target h move target → settles h move plan →
  in_use h (targetClaimName agent (Move_ID move)) ∨ (podGone = true ∧ unchanged h target ∧ moved_onto h target) →
  safe P move_outcome h (settleMove agent move plan target).
Proof.
  intros Hm Ht Hset Hon. unfold settleMove. fold (noted target movePhaseAnnotation). fold (phase_of target).
  destruct (decide (phase_of target = movePhaseVerified)) as [Hp|Hnv].
  { rewrite bool_decide_true by done. rewrite safe_try_bind.
    eapply recordMovePhase_safe; [done|done|by apply step_switched| |done].
    intros h1 t Hs Ht1 Hp1. apply settle_switched_safe; [done..|by eapply settles_later]. }
  rewrite (bool_decide_false _ Hnv).
  destruct (decide (phase_of target = movePhaseSwitched)) as [Hp|Hns].
  { rewrite bool_decide_true by done. apply settle_switched_safe; [done..|by left|done]. }
  rewrite (bool_decide_false _ Hns).
  destruct (decide (phase_of target = movePhaseAccepted)) as [Hp|Hna].
  { rewrite bool_decide_true by done. split; [done|]. intros [].
    eapply may_run_settled; [done|eapply settles_later; [|exact Hset]; hist| |right; by left].
    eapply is_target_later; [|exact Ht]; hist. }
  rewrite (bool_decide_false _ Hna).
  destruct (decide (phase_of target = movePhaseRefused)) as [Hp|Hnr].
  { rewrite bool_decide_true by done. eapply restoreSource_safe; [done|done|by left| |done].
    cbn. intros h' p Hh Hf. congruence. }
  rewrite (bool_decide_false _ Hnr). rewrite safe_try_bind.
  eapply refuseMove_safe; [done|done|by left|done|done| |done]. cbn. done.
Qed.

Lemma switchMove_safe move target h :
  Agent_MemoryMove agent = Some move → is_target h move target → podGone = true → unchanged h target →
  phase_of target = movePhaseVerified →
  safe P move_outcome h (switchMove agent move target).
Proof.
  intros Hm Ht Hgone Hu Hp. unfold switchMove. rewrite safe_try_bind.
  apply (linkMove_safe move); [done| | |done].
  - intros h' c Hs Ha. apply patch_link; try done; [by eapply is_target_later|by eapply unchanged_later].
  - intros h' c Hs Ha Hl. assert (is_target h' move target) as Ht' by by eapply is_target_later.
    assert (unchanged h' target) as Hu' by by eapply unchanged_later.
    assert (moved_onto h' target) as Hon.
    { by exists c. }
    apply settleMove_safe; [done..| |by right]. intros _. right. by exists target.
Qed.

(** ** Advancing and beginning a move *)
Lemma held_outcome h plan : move_outcome h (Ok (held plan)).
Proof. done. Qed.

Lemma advanceMove_safe move plan target h :
  Agent_MemoryMove agent = Some move → is_target h move target →
  safe P move_outcome h (advanceMove r memoryFile agent move plan target podGone).
Proof.
  intros Hm Ht. unfold advanceMove. fold (noted target movePhaseAnnotation). fold (phase_of target).
  destruct (decide (phase_of target = movePhaseRefused)) as [Hp|Hnr].
  { rewrite bool_decide_true by done. split; [done|]. by intros []. }
  rewrite (bool_decide_false _ Hnr).
  destruct (bool_decide (phase_of target = movePhaseSwitched) || _) eqn:Hdone; [split; [done|]; by intros []|].
  rewrite orb_false_iff, !bool_decide_eq_false in Hdone. destruct Hdone as [Hns Hna].
  destruct podGone eqn:Hgone; cbn [negb]; [|split; [done|]; by intros []].
  rewrite safe_try_bind. apply sourceUnchanged_safe; [|done]. intros h1 refusal Hs Hu.
  assert (is_target h1 move target) as Ht1 by by eapply is_target_later.
  destruct refusal as [refusal|].
  { rewrite safe_try_bind. eapply refuseMove_safe; [done|done|by left|done|done| |done]. cbn. done. }
  specialize (Hu eq_refl). unfold advance_phase. fold (noted target movePhaseAnnotation). fold (phase_of target).
  destruct (decide (phase_of target = movePhaseCreated)) as [Hp|Hnc].
  { rewrite bool_decide_true by done. rewrite safe_try_bind. apply runCopy_safe; try done. by intros h2 [[]|]. }
  rewrite (bool_decide_false _ Hnc).
  destruct (decide (phase_of target = movePhaseCopied)) as [Hp|Hncp].
  { rewrite bool_decide_true by done. rewrite safe_try_bind. apply runVerify_safe; try done. by intros h2 [[]|]. }
  rewrite (bool_decide_false _ Hncp).
  destruct (decide (phase_of target = movePhaseVerified)) as [Hp|Hnv].
  { rewrite bool_decide_true by done. by apply switchMove_safe. }
  rewrite (bool_decide_false _ Hnv). rewrite safe_try_bind.
  eapply refuseMove_safe; [done|done|by left|done|done| |done]. cbn. done.
Qed.

Lemma begin_drained_safe move plan name h :
  Agent_MemoryMove agent = Some move → plan_hold plan = true → CopyImage r ≠ "" → in_use h name →
  (asked h (GetStatefulSet ns (Agent_Name agent)) (Ok true) ∨
    ∃ err, asked h (GetStatefulSet ns (Agent_Name agent)) (Err err) ∧ IsNotFound err = true) →
  safe P move_outcome h (begin_drained decode_error agent move plan name podGone).
Proof.
  intros Hm Hh Hi Huse Hset. assert (∀ h', move_outcome h' (Ok plan)) as Hplan by (cbn; congruence).
  unfold begin_drained. destruct podGone eqn:Hgone; cbn; [|split; [done|]; intros []; apply Hplan].
  split; [done|]. intros [source|err]; cbn.
  2:{ destruct (IsNotFound err); [|done]. split; [done|]. by intros []. }
  destruct (drainedCleanly decode_error source) as [refusal|] eqn:Hd; [split; [done|]; by intros []|].
  split.
  - exists move. split; [done|]. split_and!; [done|done| |].
    + destruct Hset as [?|(e & ? & ?)]; [left; hist|right; exists e; split; [hist|done]].
    + exists name, source. split_and!; [eapply in_use_later; [|exact Huse]; hist|hist|done|done].
  - intros created. cbn. case_match; [done|]. split; [done|]. intros []. split; [done|]. intros []. apply Hplan.
Qed.

Lemma beginMove_safe move plan name h :
  Agent_MemoryMove agent = Some move → in_use h name →
  safe P move_outcome h (beginMove r decode_error agent move plan name podGone).
Proof.
  intros Hm Huse. unfold beginMove. case_bool_decide as Hi; [split; [done|]; by intros []|].
  split; [done|]. intros [[]|err]; cbn.
  - apply begin_drained_safe; [done..|eapply in_use_later; [|exact Huse]; hist|left; hist].
  - split; [done|]. by intros [].
  - destruct (IsNotFound err) eqn:Hnf; [|done].
    apply begin_drained_safe; [done..|eapply in_use_later; [|exact Huse]; hist|right]. exists err. split; [hist|done].
Qed.

Lemma reconcileMove_safe : safe P move_outcome [] (reconcileMove r memoryFile decode_error agent podGone).
Proof.
  unfold reconcileMove. rewrite safe_try_bind. apply follow_moves_safe; [done| |done].
  intros h1 plan name Hs1 Huse. destruct (plan_hold plan) eqn:Hhold; [by cbn; congruence|].
  destruct (Huse eq_refl) as [Huse1 ->]. clear Huse. rewrite safe_try_bind.
  apply moveJobRunning_safe; [|done]. intros h2 running Hs2 Hrun.
  assert (in_use h2 name) as Huse2 by by eapply in_use_later.
  assert (mkPlan (plan_claim (plan_on name false)) (plan_requireStore (plan_on name false)) running =
    plan_on name running) as -> by (unfold plan_on; by case_bool_decide).
  destruct (Agent_MemoryMove agent) as [move|] eqn:Hm.
  2:{ split; [done|]. intros []. cbn. intros Hh. unfold may_run. rewrite Hm.
  assert (running = false) as -> by (unfold plan_on in Hh; by case_bool_decide).
  split; [eapply jobs_ended_later; [|by apply Hrun]; hist|]. exists name. split; [|done].
  eapply in_use_later; [|exact Huse2]; hist. }
  split; [done|]. intros [target|err]; cbn.
  2:{ destruct (IsNotFound err); [|done]. apply beginMove_safe; [done|]. eapply in_use_later; [|exact Huse2]; hist. }
  set (h3 := Ev _ _ :: h2). assert (h2 `suffix_of` h3) as Hs3 by hist.
  destruct (negb _ || _) eqn:Hours; [split; [done|]; by intros []|].
  rewrite orb_false_iff, !negb_false_iff, !bool_decide_eq_true in Hours. destruct Hours as [Hl Hid].
  assert (is_target h3 move target) as Ht by (apply target_read; [hist|done|done]).
  clearbody h3. case_bool_decide as Hname; [|by apply advanceMove_safe].
  subst name. apply settleMove_safe; [done|done| |left; by eapply in_use_later].
  intros Hh. left. assert (running = false) as -> by (unfold plan_on in Hh; by case_bool_decide).
  split_and!; [eapply jobs_ended_later; [exact Hs3|by apply Hrun]|by eapply in_use_later|done].
Qed.

(** ** A move goes on *)
Context (ok : event fullE → Prop) (ok_accepted : ∀ ev, ok ev → accepted ev = true).
Context (ok_patch : ∀ c w res, ok (Ev (InL (PatchClaim c w)) res) → res = Ok w).

Lemma recordMovePhase_taken target p extra reason message h (Q : history → result Claim → Prop) :
  (∀ h', let w := with_annotations target (extra ∪ <[movePhaseAnnotation := p]> (Claim_Annotations target)) in
    h `suffix_of` h' → asked h' (PatchClaim target w) (Ok w) → Q h' (Ok w)) →
  answered ok Q h (recordMovePhase target p extra reason message).
Proof.
  intros HQ. apply answered_wrap, answered_call. intros res ->%ok_patch. eexists. split; [done|].
  apply answered_call. intros [] _. apply answered_call. intros [] _. apply answered_ret, HQ; hist.
Qed.

(** The outcome of a step's Job that is there. *)
Lemma ensureMoveJob_taken move target step started job pods h (Q : history → result (jobOutcome * Claim) → Prop) :
  (∀ res, ok (Ev (InL (GetJob ns (moveJobName agent (Move_ID move) step))) res) → res = Ok job) →
  (∀ res, ok (Ev (InL (ListPodsOfJob (Job_Namespace job) (Job_Name job))) res) → res = Ok pods) →
  (∀ h', h `suffix_of` h' → Q h' (Ok (outcome_of job pods, target))) →
  answered ok Q h (ensureMoveJob r memoryFile agent move target step started).
Proof.
  intros Hj Hp HQ. apply answered_call. intros res ->%Hj. apply answered_try, answered_call.
  intros res ->%Hp. apply answered_ret. eexists. split; [done|]. apply answered_ret, HQ. hist.
Qed.

Lemma refuseMove_taken move target refusal h (Q : history → result Claim → Prop) :
  (∀ h' w, h `suffix_of` h' → phase_of w = movePhaseRefused → asked h' (PatchClaim target w) (Ok w) → Q h' (Ok w)) →
  answered ok Q h (refuseMove move target refusal).
Proof.
  intros HQ. apply answered_try, recordMovePhase_taken. intros h1 w Hs1 Hask. exists w. split; [done|].
  apply answered_call. intros [] _. apply answered_ret, HQ; [hist| |hist]. subst w. unfold phase_of, noted, annotation. cbn.
  rewrite lookup_union_r by (rewrite !lookup_insert_ne by done; apply lookup_empty). by rewrite lookup_insert_eq.
Qed.
End calls.

(** The answers of a cluster that holds claims, one Job and its Pods and the agent's Pod, and takes every write. *)
Definition move_answers `{K8s : Kubernetes} (claims : list Claim) (job : Job) (pods : list Pod) (pod : Pod)
    (ev : event fullE) : Prop :=
  accepted ev = true ∧
  match ev with
  | Ev (InL e) x =>
      match e in kubeE X return X → Prop with
      | GetClaim _ name => λ x, ∀ c, c ∈ claims → Claim_Name c = name → x = Ok c
      | GetJob _ _ => λ x, x = Ok job
      | ListJobs _ _ => λ x, x = Ok [job]
      | ListPodsOfJob _ _ => λ x, x = Ok pods
      | GetPod _ _ => λ x, x = Ok pod
      | PatchClaim _ w => λ x, x = Ok w
      | _ => λ _, True
      end x
  | Ev (InR _) _ => True
  end.

#[local] Arguments advanceMove : simpl never.
#[local] Arguments settleMove : simpl never.
#[local] Arguments any_running : simpl never.
#[local] Arguments sourceUnchanged : simpl never.

Section progress.
Context `{K8s : Kubernetes} (r : AgentReconciler) (memoryFile : string) (decode_error : string → string).
Context (agent : Kube.Agent) (move : MemoryMove) (older : list Claim) (source target : Claim) (job : Job) (pods : list Pod)
  (pod : Pod).

(** The claims the memory went through from the one called [name], and to its source. *)
Fixpoint chain (name : string) (claims : list Claim) : Prop :=
  match claims with
  | [] => Claim_Name source = name ∧ on_chain agent name source ∧ noted source movedToAnnotation = ""
  | c :: claims =>
    Claim_Name c = name ∧ on_chain agent name c ∧ noted c movedToAnnotation ≠ "" ∧
    chain (noted c movedToAnnotation) claims
  end.

(** The move asked for was begun from the claim the memory is on: the StatefulSet's own, or one other moves put it on. *)
Record begun : Prop := {
  begun_move : Agent_MemoryMove agent = Some move;
  begun_chain : chain (stateClaimName agent) older;
  begun_short : (length older < maxMoves)%nat;
  begun_target : Claim_Name target = targetClaimName agent (Move_ID move);
  begun_apart : NoDup (Claim_Name <$> older ++ [source; target]);
  begun_label : annotation (Claim_Labels target) moveAgentLabel = Agent_Name agent;
  begun_id : noted target moveIDAnnotation = Move_ID move;
  begun_from : noted target moveSourceAnnotation = Claim_Name source;
}.
(** The source is the claim the move began on, and no writer started on it since. *)
Definition kept : bool :=
  bool_decide (Claim_UID source = noted target moveSourceUIDAnnotation) &&
  bool_decide (noted source lastWriterAnnotation = noted target moveSourceWriterAnnotation).
Context (Hbegun : begun).
Abbreviation claims := (older ++ [source; target]).
Abbreviation ok := (move_answers claims job pods pod).
Abbreviation reconcile := (reconcileMove r memoryFile decode_error agent true).

Lemma claim_answered {A} (c : Claim) name (Q : list (event fullE) → A → Prop) h kns (k : result Claim → prog fullE A) :
  c ∈ claims → Claim_Name c = name →
  answered ok Q (Ev (InL (GetClaim kns name)) (Ok c) :: h) (k (Ok c)) → answered ok Q h (Vis (InL (GetClaim kns name)) k).
Proof. intros Hc Hn. apply answered_as. intros y [_ Hy]. by apply Hy. Qed.
Lemma ok_patched c w res : ok (Ev (InL (PatchClaim c w)) res) → res = Ok w.
Proof. by intros [_ Hr]. Qed.
Lemma source_held : source ∈ claims.
Proof. apply elem_of_app. right. by left. Qed.
Lemma target_held : target ∈ claims.
Proof. apply elem_of_app. right. right. by left. Qed.
Lemma target_apart : Claim_Name target ≠ Claim_Name source.
Proof.
  pose proof (begun_apart Hbegun) as Hn. rewrite fmap_app in Hn. apply NoDup_app in Hn as (_ & _ & Hn). cbn in Hn.
  apply NoDup_cons in Hn as [Hn _]. intros He. apply Hn. rewrite He. by left.
Qed.

Lemma chain_end name l : chain name l → noted source movedToAnnotation = "".
Proof.
  clear Hbegun decode_error. revert name. induction l as [|c l IH]; intros name; cbn; [tauto|]. intros (_ & _ & _ & Hc). by eapply IH.
Qed.

Lemma any_running_answered h : answered ok (λ h' res, h `suffix_of` h' ∧ ∃ b, res = Ok b) h (any_running [job]).
Proof.
  apply answered_try. eapply answered_as; [intros y [_ Hy]; exact Hy|]. apply answered_ret.
  eexists. split; [done|]. destruct (outcome_ended _); apply answered_ret; (split; [hist|by eexists]).
Qed.

(** The chain is followed to the source. *)
Lemma follow_answered n name l h (Q : list (event fullE) → result (statePlan * string) → Prop) :
  (length l < n)%nat → l ⊆ older → chain name l →
  (∀ h' plan, plan_hold plan = false → Q h' (Ok (plan, Claim_Name source))) → answered ok Q h (follow_moves agent n name).
Proof.
  intros Hn Hl Hc HQ. revert name l h Hn Hl Hc. induction n as [|n IH]; intros name l h Hn Hl Hc; [lia|]. cbn [follow_moves].
  assert (∀ c, on_chain agent name c → negb (bool_decide (name = stateClaimName agent)) &&
    negb (bool_decide (annotation (Claim_Labels c) moveAgentLabel = Agent_Name agent) &&
    negb (bool_decide (annotation (Claim_Annotations c) moveIDAnnotation = ""))) = false) as Hon.
  { intros c [->|[Ha Hid]]; [by rewrite (bool_decide_true (stateClaimName agent = _))|].
    rewrite (bool_decide_true _ Ha), (bool_decide_false _ Hid). by rewrite andb_false_r. }
  destruct l as [|c l]; cbn [chain] in Hc.
  - destruct Hc as (Hs & Hchain & Hun). apply (claim_answered source); [apply source_held|done|]. cbn. rewrite (Hon _ Hchain).
    fold (noted source movedToAnnotation). rewrite Hun, (bool_decide_true ("" = "")) by done. rewrite <- Hs. clear Hon.
    destruct (bool_decide (Claim_Name source = _)); by apply answered_ret, HQ.
  - destruct Hc as (Hs & Hchain & Hto & Hc). apply (claim_answered c); [apply elem_of_app; left; apply Hl; by left|done|]. cbn.
    rewrite (Hon _ Hchain). fold (noted c movedToAnnotation). rewrite (bool_decide_false _ Hto).
    apply (IH _ l); [cbn in Hn; lia| |done]. intros c' Hc'. apply Hl. by right.
Qed.

Lemma sourceUnchanged_answered h (Q : list (event fullE) → result (option moveRefusal) → Prop) :
  (kept = true → ∀ h', h `suffix_of` h' → Q h' (Ok None)) → (kept = false → ∀ h' refusal, Q h' (Ok (Some refusal))) →
  answered ok Q h (sourceUnchanged agent target).
Proof.
  intros Hk Hc. unfold sourceUnchanged. fold (noted target moveSourceAnnotation). rewrite (begun_from Hbegun).
  apply (claim_answered source); [apply source_held|done|]. cbn.
  fold (noted target moveSourceUIDAnnotation) (noted source lastWriterAnnotation) (noted target moveSourceWriterAnnotation).
  unfold kept in *. destruct (bool_decide (Claim_UID source = _)); [|by apply answered_ret, Hc].
  destruct (bool_decide (noted source lastWriterAnnotation = _)); [|by apply answered_ret, Hc].
  apply answered_ret, Hk; [done|hist].
Qed.

(** Where the phase is none of those that end a move, a pass comes to [advance_phase], or to refusing a move whose source
changed. *)
Lemma reconcile_advances (Q : list (event fullE) → result statePlan → Prop) :
  phase_of target ∈ [movePhaseCreated; movePhaseCopied; movePhaseVerified] →
  (kept = true → ∀ h plan, plan_hold plan = true → asked h (ListJobs (Agent_Namespace agent) (Agent_Name agent)) (Ok [job]) →
    answered ok Q h (advance_phase r memoryFile agent move plan target)) →
  (kept = false → ∀ h h' plan w, plan_hold plan = true → phase_of w = movePhaseRefused → h `suffix_of` h' →
    asked h' (PatchClaim target w) (Ok w) → Q h' (Ok plan)) →
  answered ok Q [] (reconcile : prog fullE _).
Proof.
  intros Hph Hadv Href. pose proof target_apart as Hapart. destruct Hbegun as [Hm Hchain Hshort Htgt _ Hl Hid Hfrom].
  unfold reconcileMove, stateInUse. apply answered_try, (follow_answered _ _ older); [done|done|done|].
  intros h1 plan Hplan. eexists. split; [done|]. cbn. rewrite Hplan. apply answered_try.
  apply answered_wrap. eapply answered_as; [intros y [_ Hy]; exact Hy|]. apply answered_ret. eexists. split; [done|].
  eapply answered_mono, any_running_answered. intros h2 ? [Hs2 [running ->]]. exists running. split; [done|].
  rewrite Hm. apply (claim_answered target); [apply target_held|done|]. cbn. rewrite Hl.
  fold (noted target moveIDAnnotation). rewrite Hid, !bool_decide_true by done. cbn.
  rewrite (bool_decide_false (Claim_Name source = _)) by congruence.
  unfold advanceMove. fold (noted target movePhaseAnnotation). fold (phase_of target).
  assert (phase_of target ≠ movePhaseRefused ∧ phase_of target ≠ movePhaseSwitched ∧
    phase_of target ≠ movePhaseAccepted) as (Hnr & Hns & Hna).
  { rewrite !elem_of_cons, elem_of_nil in Hph. destruct Hph as [->|[->|[->|[]]]]; done. }
  rewrite !bool_decide_false by done. cbn. apply answered_try, sourceUnchanged_answered.
  - intros Hk h3 Hs3. exists None. split; [done|]. apply Hadv; [done|done|hist].
  - intros Hk h3 refusal. exists (Some refusal). split; [done|]. apply answered_try, (refuseMove_taken _ ok_patched).
    intros h4 w Hs4 Hw Hask. exists w. split; [done|]. by eapply answered_ret, Href.
Qed.

Definition recorded (p : string) (extra : gmap string string) : Claim :=
  with_annotations target (extra ∪ <[movePhaseAnnotation := p]> (Claim_Annotations target)).

(** The step that is due where its Job has ended, and what it records: a copy's, where the Job exited 0 and reported the
digest of its source; a verification's, where it exited 0 and reported the copy's digest of both sides and nothing else
on the target. *)
Definition due : option (string * gmap string string) :=
  match moved_container pods with
  | None => None
  | Some t =>
    let message := Terminated_Message t in
    if negb (bool_decide (Terminated_ExitCode t = 0)) || bool_decide (reported message "source" = "") then None
    else if bool_decide (phase_of target = movePhaseCreated)
    then Some (movePhaseCopied, {[moveDigestAnnotation := reported message "source"]})
    else if bool_decide (reported message "source" = noted target moveDigestAnnotation) &&
    bool_decide (reported message "target" = noted target moveDigestAnnotation) &&
    bool_decide (reported message "extra" = "0")
    then Some (movePhaseVerified, ∅)
    else None
  end.
(** What a pass records: the step due, or that the move is refused. *)
Definition steps (h : list (event fullE)) (step : option (string * gmap string string)) : Prop :=
  match step with
  | Some (p, extra) => asked h (PatchClaim target (recorded p extra)) (Ok (recorded p extra))
  | None => ∃ w, phase_of w = movePhaseRefused ∧ asked h (PatchClaim target w) (Ok w)
  end.

Lemma refused_steps reason message h (Q : list (event fullE) → result () → Prop) :
  (∀ h', steps h' None → Q h' (Ok tt)) → answered ok Q h (refuse_step move target reason message).
Proof.
  intros HQ. apply answered_try, (refuseMove_taken _ ok_patched). intros h1 w Hs1 Hw Hask.
  exists w. split; [done|]. apply answered_ret, HQ. by exists w.
Qed.
Lemma recorded_steps p extra reason message h (Q : list (event fullE) → result () → Prop) :
  (∀ h', steps h' (Some (p, extra)) → Q h' (Ok tt)) →
  answered ok Q h (_ ←? recordMovePhase target p extra reason message; mret (Ok tt)).
Proof.
  intros HQ. apply answered_try, (recordMovePhase_taken _ ok_patched). intros h1 w Hs1 Hask.
  exists w. split; [done|]. by apply answered_ret, HQ.
Qed.

Lemma copy_taken h (Q : list (event fullE) → result () → Prop) :
  phase_of target = movePhaseCreated → outcome_ended (outcome_of job pods) = true →
  (∀ h', steps h' due → Q h' (Ok tt)) → answered ok Q h (runCopy r memoryFile agent move target).
Proof.
  intros Hp Hended HQ. apply answered_try, (ensureMoveJob_taken _ _ _ _ _ _ _ _ job pods).
  { by intros res [_ Hy]. } { by intros res [_ Hy]. }
  intros h1 Hs1. eexists. split; [done|]. unfold due in HQ. unfold outcome_of in *.
  destruct (moved_container pods) as [t|].
  - destruct (bool_decide (Terminated_ExitCode t = 0));
      cbn [outcome_refusal outcome_ended outcome_message negb orb] in HQ |- *; [|by apply refused_steps].
    fold (reported (Terminated_Message t) "source"). rewrite Hp in HQ.
    destruct (bool_decide (reported _ "source" = "")); [by apply refused_steps|by apply recorded_steps].
  - destruct (List.find _ _) as [c|]; [by apply refused_steps|done].
Qed.

Lemma verify_taken h (Q : list (event fullE) → result () → Prop) :
  phase_of target = movePhaseCopied → outcome_ended (outcome_of job pods) = true →
  (∀ h', steps h' due → Q h' (Ok tt)) → answered ok Q h (runVerify r memoryFile agent move target).
Proof.
  intros Hp Hended HQ. apply answered_try, (ensureMoveJob_taken _ _ _ _ _ _ _ _ job pods).
  { by intros res [_ Hy]. } { by intros res [_ Hy]. }
  intros h1 Hs1. eexists. split; [done|]. unfold due in HQ. unfold outcome_of in *.
  destruct (moved_container pods) as [t|].
  - destruct (bool_decide (Terminated_ExitCode t = 0));
      cbn [outcome_refusal outcome_ended outcome_message negb orb] in HQ |- *; [|by apply refused_steps].
    fold (noted target moveDigestAnnotation). pose proof (verify_mismatch_spec (Terminated_Message t) (noted target moveDigestAnnotation)) as Hm.
    rewrite Hp, (bool_decide_false (movePhaseCopied = movePhaseCreated)) in HQ by done.
    destruct (decide (verify_mismatch (Terminated_Message t) (noted target moveDigestAnnotation) = "")) as [Hz|Hz].
    + rewrite (bool_decide_true _ Hz). apply Hm in Hz as (H1 & H2 & H3 & H4).
      rewrite (bool_decide_false _ H1), (bool_decide_true _ H2), (bool_decide_true _ H3), (bool_decide_true _ H4) in HQ.
      by apply recorded_steps.
    + rewrite (bool_decide_false _ Hz). apply refused_steps. intros h2 Hsteps. apply HQ.
      destruct (bool_decide_reflect (reported (Terminated_Message t) "source" = "")); [done|].
      repeat (case_bool_decide; [|done]). destruct Hz. by apply Hm.
  - destruct (List.find _ _) as [c|]; [by apply refused_steps|done].
Qed.

Lemma due_taken h plan :
  phase_of target ∈ [movePhaseCreated; movePhaseCopied] → outcome_ended (outcome_of job pods) = true → plan_hold plan = true →
  answered ok (λ h res, (∃ plan, res = Ok plan ∧ plan_hold plan = true) ∧ steps h due)
  h (advance_phase r memoryFile agent move plan target : prog fullE _).
Proof.
  intros Hph Hended Hhold. unfold advance_phase. fold (noted target movePhaseAnnotation). fold (phase_of target).
  apply elem_of_cons in Hph as [Hp|Hp%list_elem_of_singleton]; rewrite Hp.
  - rewrite bool_decide_true by done. apply answered_try, copy_taken; [done|done|]. intros h1 Hsteps.
    exists tt. split; [done|]. apply answered_ret. split; [by exists plan|done].
  - rewrite bool_decide_false, bool_decide_true by done. apply answered_try, verify_taken; [done|done|]. intros h1 Hsteps.
    exists tt. split; [done|]. apply answered_ret. split; [by exists plan|done].
Qed.

(** The switch: the source made to name the target, the phase recorded, and the target run on. *)
Lemma switch_taken h plan :
  phase_of target = movePhaseVerified → podStateClaim pod ≠ Claim_Name target → Claim_Name target ≠ "" →
  answered ok (λ h' res, res = Ok (mkPlan (Claim_Name target) true false) ∧ h `suffix_of` h' ∧
    asked h' (PatchClaim source (annotated source movedToAnnotation (Claim_Name target)))
    (Ok (annotated source movedToAnnotation (Claim_Name target))) ∧
    asked h' (PatchClaim target (recorded movePhaseSwitched ∅)) (Ok (recorded movePhaseSwitched ∅)))
  h (advance_phase r memoryFile agent move plan target : prog fullE _).
Proof.
  clear decode_error. pose proof target_apart as Hapart. pose proof (begun_from Hbegun) as Hfrom. intros Hp Hpod Hname.
  assert (noted source movedToAnnotation = "") as Hunm by apply (chain_end _ _ (begun_chain Hbegun)).
  unfold advance_phase. fold (noted target movePhaseAnnotation). fold (phase_of target). rewrite Hp.
  do 2 (rewrite bool_decide_false by done). rewrite bool_decide_true by done.
  unfold switchMove. fold (noted target moveSourceAnnotation). rewrite Hfrom. apply answered_try.
  apply answered_wrap, (claim_answered source); [apply source_held|done|]. apply answered_ret. eexists. split; [done|].
  fold (noted source movedToAnnotation). rewrite Hunm, (bool_decide_false ("" = _)) by done.
  rewrite (bool_decide_false (Claim_Name target = "")) by done.
  apply answered_wrap, answered_call. intros res ->%ok_patched. apply answered_ret. eexists. split; [done|].
  apply answered_ret. exists tt. split; [done|]. unfold settleMove.
  fold (noted target movePhaseAnnotation). fold (phase_of target). rewrite Hp, bool_decide_true by done.
  set (h2 := Ev _ _ :: _). assert (asked h2 (PatchClaim source (annotated source movedToAnnotation (Claim_Name target)))
    (Ok (annotated source movedToAnnotation (Claim_Name target)))) as Hask2 by hist.
  assert (h `suffix_of` h2) as Hs2 by hist. clearbody h2.
  apply answered_try, (recordMovePhase_taken _ ok_patched). intros h3 w Hs3 Hask3. exists w. split; [done|].
  eapply answered_as; [intros y [_ Hy]; exact Hy|]. cbn. rewrite bool_decide_false by done. cbn.
  apply answered_call. intros [] _. apply answered_ret. split_and!; [done|hist..].
Qed.
End progress.

(** ** What is proved of a pass *)

(** C11: Whatever the API server answers, a pass over a move writes only as [move_call] allows: it creates
    the claim to move to only from the stopped agent's claim, drained cleanly; makes a step's Job only
    after its mark; records a phase only on what it read; and names the target on the source, or takes
    that name off, only from a verified or a refused move. The workload may run only on the claim the
    memory is on, with no move's Job left running and the move asked for, if any, switched or accepted;
    or on the target of the switch this pass made. *)
Theorem reconcileMove_guarded `{K8s : Kubernetes} r memoryFile decode_error agent podGone :
  safe (move_call r memoryFile decode_error agent podGone) (move_outcome agent) []
    (reconcileMove r memoryFile decode_error agent podGone).
Proof. apply reconcileMove_safe. Qed.

(** C12: The phase of a claim changes only along the order of a move: to copied from created, on a copy
    Job that ended with exit 0 and reported its source's digest; to verified from copied, where the
    verification's two digests are the one recorded and the target holds nothing else; to switched from
    verified, where the memory is on the target; to accepted from switched, on a Pod that mounts the
    target, is ready and did not exit; and to refused from anything but accepted or refused. *)
Theorem phase_follows_evidence `{K8s : Kubernetes} r memoryFile decode_error agent podGone h k claim wanted
    (Hcall : reaches (reconcileMove r memoryFile decode_error agent podGone) [] (Vis (InL (PatchClaim claim wanted)) k) h)
    (Hphase : phase_of wanted ≠ phase_of claim) :
  ∃ move extra, Agent_MemoryMove agent = Some move ∧ is_target agent h move claim ∧
    may_step agent podGone h move claim (phase_of wanted) extra.
Proof.
  destruct (safe_issued _ _ _ _ _ _ _ _ (reconcileMove_safe _ _ _ _ _) Hcall) as (move & Hm & Hp).
  assert (∀ c to, phase_of (relinked c to) = phase_of c) as Hrel.
  { intros c to. unfold relinked. case_bool_decide; unfold phase_of, noted, annotation; cbn;
      by rewrite ?lookup_delete_ne, ?lookup_insert_ne by done. }
  destruct Hp as [p extra Ht Hstep|step started Ht Hmark|? ? ? ? ? ?|? ? ? ?]; [|exfalso..].
  - exists move, extra. split_and!; [done..|].
    assert (phase_of (with_annotations claim (extra ∪ <[movePhaseAnnotation:=p]> (Claim_Annotations claim))) = p) as ->; [|done].
    unfold phase_of, noted, annotation. cbn. rewrite lookup_union_r by by eapply may_step_extra.
    by rewrite lookup_insert_eq.
  - destruct Hmark as (_ & _ & _ & _ & [(_ & -> & _)|(_ & -> & _)]); apply Hphase;
      unfold phase_of, noted, annotation; cbn; by rewrite lookup_insert_ne.
  - apply Hphase, Hrel.
  - apply Hphase, Hrel.
Qed.

(** C13: Where the memory is changes only from a verified copy, or back: a pass that changes what a claim
    says of where the memory moved has read a target of the move asked for whose source, read again in
    that pass, is the claim it began on with no writer since, is verified, and names it; or one whose
    move is refused, and names nothing. *)
Theorem memory_moves_verified `{K8s : Kubernetes} r memoryFile decode_error agent podGone h k claim wanted
    (Hcall : reaches (reconcileMove r memoryFile decode_error agent podGone) [] (Vis (InL (PatchClaim claim wanted)) k) h)
    (Hlink : noted wanted movedToAnnotation ≠ noted claim movedToAnnotation) :
  ∃ move target, Agent_MemoryMove agent = Some move ∧ is_target agent h move target ∧
    asked h (GetClaim (Agent_Namespace agent) (noted target moveSourceAnnotation)) (Ok claim) ∧
    ((podGone = true ∧ phase_of target = movePhaseVerified ∧ unchanged agent h target ∧
      wanted = relinked claim (Claim_Name target)) ∨
     (at_phase h target movePhaseRefused ∧ wanted = relinked claim "")).
Proof.
  destruct (safe_issued _ _ _ _ _ _ _ _ (reconcileMove_safe _ _ _ _ _) Hcall) as (move & Hm & Hp).
  destruct Hp as [p extra Ht Hstep|step started Ht Hmark|target ? ? ? ? ?|target ? ? ?].
  - exfalso. apply Hlink. unfold noted, annotation. cbn.
    assert (extra !! movedToAnnotation = None) as He by by destruct Hstep.
    by rewrite lookup_union_r, lookup_insert_ne.
  - exfalso. destruct Hmark as (_ & _ & _ & _ & [(_ & -> & _)|(_ & -> & _)]); apply Hlink;
      unfold noted, annotation; cbn; by rewrite lookup_insert_ne.
  - exists move, target. split_and!; try done. left. by split_and!.
  - exists move, target. split_and!; try done. right. by split_and!.
Qed.

(** Following the chain of claims ends: at most [maxMoves] claims are read, whatever they say, a
    cycle of them included; and where the chain is longer the agent is held at no replica. *)
Theorem stateInUse_bounded `{K8s : Kubernetes} agent :
  safe (λ _ _ _, True)
    (λ h res, (length h ≤ maxMoves + 1)%nat ∧
       ((maxMoves < length h)%nat → ∃ plan name, res = Ok (plan, name) ∧ plan_hold plan = true))
    [] (stateInUse agent : prog fullE _).
Proof.
  unfold stateInUse. generalize (stateClaimName agent) at 1 as name. intros name.
  enough (∀ n name (h : list (event fullE)),
    safe (λ _ _ _, True) (λ h' res, (length h' ≤ length h + n + 1)%nat ∧
      ((length h + n < length h')%nat → ∃ plan name, res = Ok (plan, name) ∧ plan_hold plan = true))
      h (follow_moves agent n name)) as Hn by exact (Hn maxMoves name []).
  clear name. intros n. induction n as [|n IH]; intros name h.
  { split; [done|]. intros []. cbn. split; [lia|]. eauto. }
  assert (∀ h' : list (event fullE), length h' = S (length h) → safe (λ _ _ _, True) (λ h' res, (length h' ≤ length h + S n + 1)%nat ∧
      ((length h + S n < length h')%nat → ∃ plan name, res = Ok (plan, name) ∧ plan_hold plan = true))
      h' (lost_chain name)) as Hlost.
  { intros h' Hl. split; [done|]. intros []. cbn. split; [lia|]. eauto. }
  split; [done|]. intros [c|err]; cbn -[lost_chain].
  - destruct (negb _ && negb _); [by apply Hlost|]. case_bool_decide as Hnext.
    + case_match; cbn; (split; [lia|lia]).
    + eapply safe_mono, IH. cbn. intros h' res [Hl Hh]. split; [lia|]. intros ?. apply Hh. lia.
  - destruct (negb (IsNotFound err)); [cbn; lia|]. case_bool_decide; [cbn; lia|by apply Hlost].
Qed.
End MoveSpec.
