(* ===== verification/MoveProps.v ===== *)
(** A move goes on, or is refused, where the cluster takes its writes; the examples the theorems on moves evaluate on, and what
    modelling moves showed. *)
From S2P Require Import Prelude GoStd Json Errors Types Samples Kube Names Fence KubeSamples FenceSpec Move MoveSpec.
Import GoStd Kube Names Fence FenceSpec Move MoveSpec.

Module MoveProps.

#[local] Existing Instance Samples.K8s.

(** ** A move of the sample agent, its copy made *)
Definition move : MemoryMove := mkMemoryMove "m1" None (20 : Z).
Definition moving : Kube.Agent := mkAgent "a" "garam" (Some move) true.
Definition writer : string := lastWriter_json (mkLastWriter "pod-1" writerStopped (Some 0)).
Definition source : Claim :=
  mkClaim "state-a-0" "garam" "claim-1" 5 ∅ {[lastWriterAnnotation := writer]} None (10 : Z).
Definition target_at (phase : string) : Claim :=
  annotated (annotated (new_target moving move source) movePhaseAnnotation phase) moveDigestAnnotation "abc".
Definition job : Job := mkJob "memory-move" "garam" [].
Definition job_pod (message : string) : Pod :=
  mkPod "memory-move-1" "garam" "pod-2" 70 None [] ∅ "node-1" [] [] [] "Succeeded" [] []
    [mkContainerStatus moveContainerName (mkState false false (Some (mkTerminated 0 message 80 "containerd://2")))
       zeroState false 0 "containerd://2"].
Definition digests : string := "source=abc target=abc extra=0".

Lemma sample_begun phase : begun moving move [] source (target_at phase).
Proof.
  split; try done; [by split_and!; [|left|]|cbn; unfold maxMoves; lia|].
  change (NoDup ["state-a-0"; "a-state-m1"]). apply (bool_decide_unpack (NoDup _)). by vm_compute.
Qed.





(** A verified move is switched in one pass, where its source was not written since: the source is made to
    name the target, the switch is recorded, and the workload is given the target, with the agent to refuse a
    store it cannot open. *)
Theorem move_switches `{K8s : Kubernetes} r memoryFile decode_error agent move older source target job pods pod
    (Hbegun : begun agent move older source target) (Hkept : kept source target = true)
    (Hverified : phase_of target = movePhaseVerified)
    (Hpod : podStateClaim pod ≠ Claim_Name target) (Hname : Claim_Name target ≠ "") :
  answered (move_answers (older ++ [source; target]) job pods pod)
    (λ h res, res = Ok (mkPlan (Claim_Name target) true false) ∧
       asked h (PatchClaim source (annotated source movedToAnnotation (Claim_Name target)))
         (Ok (annotated source movedToAnnotation (Claim_Name target))) ∧
       asked h (PatchClaim target (recorded target movePhaseSwitched ∅)) (Ok (recorded target movePhaseSwitched ∅)))
    [] (reconcileMove r memoryFile decode_error agent true).
Proof.
  eapply reconcile_advances; [done| | |congruence].
  - rewrite Hverified. by right; right; left.
  - intros _ h plan Hh _. eapply answered_mono; [|by eapply switch_taken]. cbn. tauto.
Qed.

Lemma move_switches_witness :
  answered (move_answers [source; target_at movePhaseVerified] job [] KubeSamples.stopped_pod)
    (λ h res, res = Ok (mkPlan "a-state-m1" true false) ∧
       asked h (PatchClaim source (annotated source movedToAnnotation "a-state-m1"))
         (Ok (annotated source movedToAnnotation "a-state-m1")) ∧
       asked h (PatchClaim (target_at movePhaseVerified) (recorded (target_at movePhaseVerified) movePhaseSwitched ∅))
         (Ok (recorded (target_at movePhaseVerified) movePhaseSwitched ∅)))
    [] (reconcileMove KubeSamples.reconciler "memory/memory.db" (λ s, s) moving true).
Proof.
  apply (move_switches _ _ _ moving move [] source (target_at movePhaseVerified) job [] KubeSamples.stopped_pod);
    [apply sample_begun|by vm_compute|by vm_compute|by vm_compute|by vm_compute].
Defined.

(** ** The passes of the sample *)

(** The cluster that holds the sample's move at a phase. *)
Definition sample_answer (phase : string) (pods : list Pod) : handler fullE () := λ X e s,
  (match e in sumE _ _ _ return X with
   | InL e =>
       match e in kubeE X return X with
       | GetClaim _ name => Ok (if bool_decide (name = Claim_Name (target_at phase)) then target_at phase else source)
       | GetJob _ _ => Ok job
       | ListJobs _ _ => Ok [job]
       | ListPodsOfJob _ _ => Ok pods
       | GetPod _ _ => Ok KubeSamples.stopped_pod
       | GetNode _ => Ok KubeSamples.node
       | GetStatefulSet _ _ => Ok true
       | PatchClaim _ w => Ok w
       | PatchPod _ w => Ok w
       | GetSecret _ _ | PatchWriterStopped _ _ | PatchSecret _ _ _ _ | CreateSecret _ _ _ _
       | CreateClaim _ | CreateJob _ => Ok tt
       end
   | InR e =>
       match e in controllerE X return X with
       | Now => 0
       | RandRead _ => Ok []
       | SetControllerReference _ _ => Ok tt
       | SetWriterFence _ _ _ | SetMemoryMove _ _ _ | SetPlacement _ _ | LogInfo _ _ => tt
       end
   end, s).

(** A call its pass makes, where whatever such a cluster answers the pass ends with it made. *)
Lemma sample_issues phase pods X (e : kubeE X) x :
  answered (move_answers [source; target_at phase] job pods KubeSamples.stopped_pod) (λ h _, asked h e x) []
    (reconcileMove KubeSamples.reconciler "memory/memory.db" (λ s, s) moving true) →
  ∃ k h, reaches (reconcileMove KubeSamples.reconciler "memory/memory.db" (λ s, s) moving true) []
    (Vis (InL e) k) h.
Proof.
  intros Ha. edestruct (run_reaches_answered (move_answers [source; target_at phase] job pods KubeSamples.stopped_pod)
    (sample_answer phase pods) (reconcileMove KubeSamples.reconciler "memory/memory.db" (λ s, s) moving true) tt [])
    as (h & a & Hr & Hok); [|done|].
  { intros Y [e'|e'] []; [|by destruct e']. destruct e'; try done.
    split; [done|]. intros c [->|Hc%list_elem_of_singleton]%elem_of_cons <-; [reflexivity|by rewrite Hc]. }
  pose proof (safe_result _ _ _ _ _ _ Ha Hr Hok) as Hin. by destruct (reaches_made _ _ _ _ _ Hr Hin) as [?%elem_of_nil|?].
Qed.

(** Its verification recorded. *)
Lemma phase_follows_evidence_witness :
  let wanted := recorded (target_at movePhaseCopied) movePhaseVerified ∅ in
  ∃ h move' extra, Agent_MemoryMove moving = Some move' ∧ is_target moving h move' (target_at movePhaseCopied) ∧
    may_step moving true h move' (target_at movePhaseCopied) (phase_of wanted) extra.
Proof.
  destruct (sample_issues movePhaseCopied [job_pod digests] _
    (PatchClaim (target_at movePhaseCopied) (recorded (target_at movePhaseCopied) movePhaseVerified ∅))
    (Ok (recorded (target_at movePhaseCopied) movePhaseVerified ∅))) as (k & h & Hr).
  { eapply (reconcile_advances _ _ _ _ _ []); [apply sample_begun|by right; left| |by intros [=]]. intros _ h plan Hh _.
    eapply answered_mono; [|eapply due_taken; [by right; left|done|done]].
    by intros h' res [_ ?]. }
  exists h. apply (phase_follows_evidence _ _ _ _ _ _ _ _ _ Hr). by vm_compute.
Defined.

(** Its switch: the source made to name the target. *)
Lemma memory_moves_verified_witness :
  let wanted := annotated source movedToAnnotation "a-state-m1" in
  ∃ h move' target, Agent_MemoryMove moving = Some move' ∧ is_target moving h move' target ∧
    asked h (GetClaim (Agent_Namespace moving) (noted target moveSourceAnnotation)) (Ok source) ∧
    ((true = true ∧ phase_of target = movePhaseVerified ∧ unchanged moving h target ∧
      wanted = relinked source (Claim_Name target)) ∨
     (at_phase h target movePhaseRefused ∧ wanted = relinked source "")).
Proof.
  destruct (sample_issues movePhaseVerified [] _ (PatchClaim source (annotated source movedToAnnotation "a-state-m1"))
    (Ok (annotated source movedToAnnotation "a-state-m1"))) as (k & h & Hr).
  { eapply (reconcile_advances _ _ _ _ _ []); [apply sample_begun|by right; right; left| |by intros [=]]. intros _ h plan Hh _.
    eapply answered_mono; [|eapply switch_taken; [apply sample_begun|by vm_compute..]].
    by intros h' res (_ & _ & ? & _). }
  exists h. apply (memory_moves_verified _ _ _ _ _ _ _ _ _ Hr). by vm_compute.
Defined.

(** ** What modelling moves showed *)

(** The pass that switches a move runs the agent though a Job of another move still runs: the plan
    of the switch is made anew, without the hold the running Job asked for. *)
Theorem switch_ignores_running_job `{K8s : Kubernetes} r memoryFile decode_error agent move older source target job pod
    (Hbegun : begun agent move older source target) (Hkept : kept source target = true) (Hverified : phase_of target = movePhaseVerified)
    (Hpod : podStateClaim pod ≠ Claim_Name target) (Hname : Claim_Name target ≠ "")
    (Hrunning : outcome_ended (outcome_of job []) = false) :
  answered (move_answers (older ++ [source; target]) job [] pod)
    (λ h res, asked h (ListJobs (Agent_Namespace agent) (Agent_Name agent)) (Ok [job]) ∧
       ∃ plan, res = Ok plan ∧ plan_hold plan = false)
    [] (reconcileMove r memoryFile decode_error agent true).
Proof.
  eapply reconcile_advances; [done| | |congruence].
  - rewrite Hverified. by right; right; left.
  - intros _ h plan Hh Hjobs. eapply answered_mono; [|by eapply switch_taken].
    intros h' res (-> & Hs & _). split; [hist|]. by eexists.
Qed.

Lemma switch_ignores_running_job_witness :
  answered (move_answers [source; target_at movePhaseVerified] job [] KubeSamples.stopped_pod)
    (λ h res, asked h (ListJobs "garam" "a") (Ok [job]) ∧ ∃ plan, res = Ok plan ∧ plan_hold plan = false)
    [] (reconcileMove KubeSamples.reconciler "memory/memory.db" (λ s, s) moving true).
Proof.
  apply (switch_ignores_running_job _ _ _ moving move [] source (target_at movePhaseVerified) job KubeSamples.stopped_pod);
    [apply sample_begun|by vm_compute..].
Defined.

(** A step's Job the server would not create, once, refuses the move for good: the pass that marked
    the claim fails and is retried, and the retry takes the Job, never made, for one that is gone. *)
Theorem unmade_job_refuses `{K8s : Kubernetes} r memoryFile agent move target err missing
    (Hunmarked : noted target moveCopyStartedAnnotation = "")
    (Herr : IsAlreadyExists err = false) (Hmissing : IsNotFound missing = true) :
  let ensure t := ensureMoveJob (E := fullE) r memoryFile agent move t moveStepCopy moveCopyStartedAnnotation in
  let marked := annotated target moveCopyStartedAnnotation (moveJobName agent (Move_ID move) moveStepCopy) in
  (∃ h e j, reaches (ensure target) [] (Ret (Err e)) h ∧ asked h (CreateJob j) (Err err) ∧
     asked h (PatchClaim target marked) (Ok marked)) ∧
  (∃ h refusal, reaches (ensure marked) [] (Ret (Ok (mkOutcome true "" (Some refusal), marked))) h ∧
     Forall (λ ev, wrote ev = false) h).
Proof.
  cbv zeta. unfold ensureMoveJob. split.
  - do 3 eexists. split_and!.
    + eapply (reaches_step _ _ _ (Err missing)). cbn. rewrite Hmissing. cbn.
      fold (noted target moveCopyStartedAnnotation). rewrite bool_decide_true by done. cbn.
      eapply (reaches_step _ _ _ (Ok _)). eapply (reaches_step _ _ _ (Ok tt)). eapply (reaches_step _ _ _ (Err err)).
      cbn. rewrite Herr. apply reaches_refl.
    + hist.
    + hist.
  - do 2 eexists. split.
    + eapply (reaches_step _ _ _ (Err missing)). cbn. rewrite Hmissing. cbn.
      rewrite bool_decide_false.
      2:{ unfold annotation. cbn. by rewrite lookup_insert_eq. }
      apply reaches_refl.
    + by repeat constructor.
Qed.

(** The sample's move, its Job refused once by the server. *)
Lemma unmade_job_refuses_witness :
  let target := target_at movePhaseCreated in
  let ensure t := ensureMoveJob (E := fullE) KubeSamples.reconciler "memory/memory.db" moving move t
                    moveStepCopy moveCopyStartedAnnotation in
  let marked := annotated target moveCopyStartedAnnotation (moveJobName moving (Move_ID move) moveStepCopy) in
  let err := ApiError ApiOther "the server is busy" in
  (∃ h e j, reaches (ensure target) [] (Ret (Err e)) h ∧ asked h (CreateJob j) (Err err) ∧
     asked h (PatchClaim target marked) (Ok marked)) ∧
  (∃ h refusal, reaches (ensure marked) [] (Ret (Ok (mkOutcome true "" (Some refusal), marked))) h ∧
     Forall (λ ev, wrote ev = false) h).
Proof.
  apply (unmade_job_refuses KubeSamples.reconciler "memory/memory.db" moving move (target_at movePhaseCreated)
    (ApiError ApiOther "the server is busy") (ApiError ApiNotFound "jobs not found")); by vm_compute.
Defined.

(** A Pod that serves on the copy can refuse it: whatever else the Pod shows, ready included, an
    agent's container that ended with another exit than 0, now or before its last restart, has the move
    refused and the memory put back on the source. *)
Theorem serving_pod_refuses `{K8s : Kubernetes} agent move plan target pod code
    (Hclaim : podStateClaim pod = Claim_Name target) (Hexit : agentExitedNonZero pod = Some code)
    (Hready : podReady pod = true) :
  ∃ k refused, reaches (settle_switched (E := fullE) agent move plan target) []
    (Vis (InL (PatchClaim target refused)) k) [Ev (InL (GetPod (Agent_Namespace agent) (agentPodName agent))) (Ok pod)] ∧
    phase_of refused = movePhaseRefused.
Proof.
  do 2 eexists. split.
  - unfold settle_switched. eapply (reaches_step _ _ _ (Ok pod)). cbn. rewrite Hclaim, bool_decide_true by done.
    rewrite Hexit. cbn. apply reaches_refl.
  - unfold phase_of, noted, annotation. cbn. rewrite lookup_union_r by done. by rewrite lookup_insert_eq.
Qed.

(** A Pod ready again after its agent ended once with exit 1. *)
Definition restarted_pod : Pod :=
  mkPod "a-0" "garam" "pod-3" 90 None [writerStoppedFinalizer] ∅ "node-1" []
    [mkContainer agentContainerName None] [mkVolume stateVolumeName (Some "a-state-m1")] "Running"
    [mkCondition PodReady "True" "" ""] []
    [mkContainerStatus agentContainerName (mkState true false None) (KubeSamples.exited 1) true 1 "containerd://4"].
Lemma serving_pod_refuses_witness :
  ∃ k refused, reaches (settle_switched (E := fullE) moving move zeroPlan (target_at movePhaseSwitched)) []
    (Vis (InL (PatchClaim (target_at movePhaseSwitched) refused)) k)
    [Ev (InL (GetPod (Agent_Namespace moving) (agentPodName moving))) (Ok restarted_pod)] ∧
    phase_of refused = movePhaseRefused.
Proof.
  apply (serving_pod_refuses moving move zeroPlan (target_at movePhaseSwitched) restarted_pod 1); by vm_compute.
Defined.
End MoveProps.
