(* ===== verification/ReconcileSpec.v ===== *)
(** What a pass over an Agent promises, whatever the API server answers: nothing is built before the Agent is
    fenced, a replica runs only where the spec and the move allow it, an object is deleted only as it was
    read, and the Agent is let go only once its Pod is gone. *)
From S2P Require Import Prelude GoStd Errors Types Kube Names AgentApi AgentTypes Fence FenceSpec Workload Move MoveSpec Build BuildSpec Reconcile AgentLoop.
Import GoStd Kube AgentApi AgentTypes Workload Build BuildSpec Reconcile AgentLoop.

Module ReconcileSpec.
#[local] Arguments try_bind : simpl never.
#[local] Arguments try_wrap : simpl never.
#[local] Arguments call : simpl never.

Section histories.
Context `{K8s : Kubernetes}.
Abbreviation history := (list (event reconcileE)).
Implicit Types (h : history).

Definition asked {X} h (e : kubeE X) (x : X) : Prop := Ev (InL (InL e)) x ∈ h.
Definition called {X} h (e : workloadE X) (x : X) : Prop := Ev (InR e) x ∈ h.

(** A part of the calls made, one program's, of which [Q] holds. *)
Definition happened (Q : list (event FenceSpec.fullE) → Prop) h : Prop :=
  ∃ later seg earlier, h = later ++ seg ++ earlier ∧ Q (narrow seg).

Lemma called_later {X} (e : workloadE X) x h h' : called h e x → h `suffix_of` h' → called h' e x.
Proof. intros H [k ->]. apply elem_of_app. by right. Qed.
Lemma happened_later Q h h' : happened Q h → h `suffix_of` h' → happened Q h'.
Proof. intros (later & seg & earlier & -> & HQ) [k ->]. exists (k ++ later), seg, earlier. by rewrite app_assoc. Qed.

Lemma safe_keeping {S : StatusMachinery} {A} (P : history → ∀ X, reconcileE X → Prop) Q g c n (p : prog reconcileE A) s h :
  safe P (λ h a, ∀ s, Q h (a, s)) h p → safe P Q h (keeping g c n p s).
Proof.
  revert n s h. induction p as [a|X e k IH]; intros n s h; cbn; [auto|].
  intros [He Hk]. split; [done|]. intros x. by apply IH.
Qed.

(** A program proved from the start, run within a pass. *)
Lemma safe_within {A} (P : list (event FenceSpec.fullE) → ∀ X, FenceSpec.fullE X → Prop)
  (Q : list (event FenceSpec.fullE) → A → Prop)
  (P' : history → ∀ X, reconcileE X → Prop) (Q' : history → A → Prop) (p : prog FenceSpec.fullE A) h :
  safe P Q [] p →
  (∀ seg X (e : FenceSpec.fullE X), P (narrow seg) X e → P' (seg ++ h) X (InL e)) →
  (∀ seg a, Q (narrow seg) a → Q' (seg ++ h) a) →
  safe P' Q' h (within p).
Proof.
  intros Hp HP HQ. unfold within.
  enough (∀ (p : prog FenceSpec.fullE A) seg, safe P Q (narrow seg) p → safe P' Q' (seg ++ h) (embed p)) as H
    by exact (H p [] Hp).
  clear p Hp. intros p. induction p as [a|X e k IH]; intros seg; cbn; [apply HQ|].
  intros [He Hk]. split; [by apply HP|]. intros x. exact (IH x (Ev (InL e) x :: seg) (Hk x)).
Qed.
End histories.

Section pass.
Context `{K8s : Kubernetes, SM : StatusMachinery}.
Context (canonical_json : WriterStoppedEvidence → result string) (decode_error : string → string)
  (yaml_Marshal : sherlockConfig → result string) (clock : nat → Time).
Context (r : Fence.AgentReconciler) (namespace name : string).
Abbreviation history := (list (event reconcileE)).
Implicit Types (h : history) (agent : Agent).

(** ** The Agent a pass works on *)
Definition read_agent h agent : Prop := called h (GetAgent namespace name) (Ok agent).

(** One that is not deleting and carries the workload's fence, as read or as this pass put it on. *)
Definition working h agent : Prop :=
  (read_agent h agent ∧ Agent_DeletionTimestamp agent = None ∧ agent_fenced agent workloadFencedFinalizer = true) ∨
  (∃ read, read_agent h read ∧ Agent_DeletionTimestamp read = None ∧
    called h (PatchAgent read (AddFinalizer read workloadFencedFinalizer)) (Ok agent)).
(** One that is deleting, and fenced. *)
Definition ending h agent : Prop :=
  read_agent h agent ∧ Agent_DeletionTimestamp agent ≠ None ∧ agent_fenced agent workloadFencedFinalizer = true.

(** ** The calls of a pass *)

(** A deletion the server took, or of nothing. *)
Definition deleted {A} (x : result A) : Prop := match x with Ok _ => True | Err err => IsNotFound err = true end.

Definition pod_gone agent (seg : list (event FenceSpec.fullE)) : Prop :=
  ∃ err, FenceSpec.asked seg (GetPod (Agent_Namespace agent) (Names.agentPodName (view agent))) (Err err) ∧
  IsNotFound err = true.

(** A replica runs only where neither the spec nor the move holds the agent, on the claim the memory is on. *)
Definition may_replicate h agent (s : StatefulSet) : Prop :=
  heldStopped agent = false ∧
  ∃ plan, happened (λ seg, MoveSpec.may_run (view agent) seg plan) h ∧
  (Move.plan_claim plan ≠ "" →
    claimVolume Names.stateVolumeName (Move.plan_claim plan) false ∈ T_Volumes (S_Template s)).

Definition may_write h agent (s : StatefulSet) : Prop :=
  working h agent ∧ T_Finalizers (S_Template s) = [Fence.writerStoppedFinalizer] ∧
  (S_Replicas s = Some 0 ∨ S_Replicas s = Some 1 ∧ may_replicate h agent s).

(** What a pass deletes the agent's Pod on: it belongs to the StatefulSet just written and runs another
revision than the one that StatefulSet's controller has observed. *)
Definition may_roll h agent pod_namespace pod_name uid : Prop :=
  heldStopped agent = false ∧
  ∃ wanted operation s pod,
  called h (EndCreateOrUpdate wanted) (Ok (operation, s)) ∧
  called h (ReadPod (S_Namespace s) (S_Name s +:+ "-0")) (Ok pod) ∧
  pod_namespace = S_Namespace s ∧ pod_name = WP_Name pod ∧ uid = WP_UID pod ∧
  WP_DeletionTimestamp pod = None ∧ WP_Controller pod = Some (S_UID s) ∧
  WP_Revision pod ≠ S_UpdateRevision s ∧ S_UpdateRevision s ≠ "" ∧ S_Generation s ≤ S_ObservedGeneration s.

(** Why a StatefulSet is deleted from under its Pod: its workspace shares the state claim, or its template
makes the claim the memory moved off. *)
Definition may_replace h agent sns sname (uid : option string) : Prop :=
  working h agent ∧ sns = Agent_Namespace agent ∧ sname = Agent_Name agent ∧
  ∃ s, called h (ReadStatefulSet sns sname) (Ok s) ∧ uid = Some (S_UID s) ∧
  (hasWorkspaceClaim s = false ∨ claimTemplate s Names.stateVolumeName ≠ None).

(** The placement token is first made before the workload that mounts it. *)
Definition token_call agent X (e : FenceSpec.fullE X) : Prop :=
  match e with
  | InL (CreateSecret ns secret _ previous) =>
    adapterBuilt r agent = true ∧ ns = Agent_Namespace agent ∧
    secret = Names.placementSecretName (view agent) ∧ previous = ∅
  | InL e => FenceSpec.writes e = false
  | InR _ => True
  end.

Definition pass_call h X (e : reconcileE X) : Prop :=
  match e with
  | InL e =>
    ∃ seg earlier agent, h = seg ++ earlier ∧ (working earlier agent ∨ ending earlier agent) ∧
    (FenceSpec.fence_call canonical_json r (view agent) (narrow seg) X e ∨
      (∃ file podGone, MoveSpec.move_call r file decode_error (view agent) podGone (narrow seg) X e) ∨
      token_call agent X e)
  | InR (PatchAgent read wanted) =>
    (read_agent h read ∧ Agent_DeletionTimestamp read = None ∧
      agent_fenced read workloadFencedFinalizer = false ∧ wanted = AddFinalizer read workloadFencedFinalizer) ∨
    (ending h read ∧ wanted = DropFinalizer read workloadFencedFinalizer ∧ happened (pod_gone read) h ∧
      ∃ x, called h (DeleteStatefulSet (Agent_Namespace read) (Agent_Name read) PropagationBackground None) x ∧ deleted x)
  | InR (PatchAgentStatus read wanted) =>
    (working h read ∨ ending h read) ∧ ∃ status, wanted = with_status read status ∧
    Forall (λ c, SC_Type c ∈ conditionTypes) (Status_Conditions status)
  | InR (DeleteStatefulSet sns sname p uid) =>
    match p with
    | PropagationBackground => uid = None ∧
      ∃ agent, ending h agent ∧ sns = Agent_Namespace agent ∧ sname = Agent_Name agent
    | PropagationOrphan => ∃ agent, may_replace h agent sns sname uid
    end
  | InR (EndCreateOrUpdate s) => ∃ agent, may_write h agent s
  | InR (DeletePod pns pname uid) => ∃ agent, working h agent ∧ may_roll h agent pns pname uid
  | InR _ => True
  end.

(** ** What was read stays read *)
Lemma working_later h h' agent : working h agent → h `suffix_of` h' → working h' agent.
Proof.
  intros [(Hr & ? & ?)|(read & Hr & ? & Hp)] Hs; [left|right; exists read];
    split_and?; try done; by eapply called_later.
Qed.
Lemma ending_later h h' agent : ending h agent → h `suffix_of` h' → ending h' agent.
Proof. intros (Hr & ? & ?) Hs. split_and!; try done. by eapply called_later. Qed.

Lemma suffix_of_cons {Y} (e : reconcileE Y) y h h' : Ev e y :: h `suffix_of` h' → h `suffix_of` h'.
Proof. intros [k ->]. exists (k ++ [Ev e y]). by rewrite <- app_assoc. Qed.
(** Walks the calls made since. *)
Ltac later :=
  match goal with
  | |- ?h `suffix_of` ?h => reflexivity
  | |- _ `suffix_of` Ev _ _ :: _ => apply suffix_cons_r; later
  | H : _ `suffix_of` ?h' |- _ `suffix_of` ?h' => etrans; [|exact H]; later
  end.
#[local] Hint Extern 1 (_ `suffix_of` _) => later : core.
#[local] Hint Resolve working_later ending_later happened_later : core.

(** ** The stages of a pass *)
Abbreviation P := (pass_call).

Lemma fence_stage {Q : history → _ → Prop} h agent :
  working h agent ∨ ending h agent →
  (∀ h' res, h `suffix_of` h' → (∀ u, res = Ok (true, u) → happened (pod_gone agent) h') → Q h' res) →
  safe P Q h (within (Fence.reconcileFence canonical_json r (view agent))).
Proof.
  intros Ha HQ. eapply safe_within; [apply FenceSpec.reconcileFence_safe|..].
  - intros seg X e Hf. exists seg, h, agent. split_and!; [done..|]. by left.
  - intros seg res Ho. apply HQ; [by exists seg|]. intros u ->. destruct Ho as (_ & _ & err & Hask & Herr).
    exists [], seg, h. split; [done|]. by exists err.
Qed.

Lemma move_stage {Q : history → _ → Prop} h agent file podGone :
  working h agent →
  (∀ h' res, h `suffix_of` h' →
    (∀ plan, res = Ok plan → Move.plan_hold plan = false →
      happened (λ seg, MoveSpec.may_run (view agent) seg plan) h') → Q h' res) →
  safe P Q h (within (Move.reconcileMove r file decode_error (view agent) podGone)).
Proof.
  intros Ha HQ. eapply safe_within; [apply MoveSpec.reconcileMove_safe|..].
  - intros seg X e Hm. exists seg, h, agent. split_and!; [done|by left|]. right; left. by exists file, podGone.
  - intros seg res Ho. apply HQ; [by exists seg|]. intros plan -> Hp. exists [], seg, h. split; [done|].
    by apply Ho.
Qed.

Lemma token_stage {Q : history → _ → Prop} h agent :
  working h agent → adapterBuilt r agent = true → (∀ h' res, h `suffix_of` h' → Q h' res) →
  safe P Q h (within (Fence.ensurePlacementToken (view agent))).
Proof.
  intros Ha Hb HQ.
  eapply (safe_within (λ _ X e, token_call agent X e) (λ _ _, True)).
  - unfold Fence.ensurePlacementToken, Fence.createPlacementToken, Fence.newPlacementToken.
    split; [done|]. intros [u|err]; [done|]. cbn. destruct (IsNotFound err); [|done]. cbn.
    split; [done|]. intros [raw|err']; [|done]. cbn. split; [done|]. intros [u|err']; [|done]. cbn.
    split; [done|]. intros [u'|err']; [done|]. cbn. by destruct (IsAlreadyExists err').
  - intros seg X e He. exists seg, h, agent. split_and!; [done|by left|]. by right; right.
  - intros seg res _. apply HQ. by exists seg.
Qed.

Lemma own_call h agent X (e : controllerE X) : working h agent ∨ ending h agent → P h X (InL (InR e)).
Proof. intros Ha. exists [], h, agent. split_and!; [done..|]. by right; right. Qed.

Lemma applied_fields agent d plan root (s s' : StatefulSet) :
  applied r agent d plan root s = Ok s' →
  T_Finalizers (S_Template s') = [Fence.writerStoppedFinalizer] ∧
  S_Replicas s' = Some (replicasFor agent plan) ∧
  (Move.plan_claim plan ≠ "" →
    claimVolume Names.stateVolumeName (Move.plan_claim plan) false ∈ T_Volumes (S_Template s')).
Proof.
  rewrite applied_rendered. destruct (rendered r agent d plan root) as [[args file]|e]; [|done].
  intros [= <-]. split_and!; [done..|]. intros Hc. cbn. unfold pod_volumes.
  rewrite bool_decide_false by done. apply list_elem_of_here.
Qed.

(** The plan a pass may run on, and the one [replaceStateTemplate] makes of it. *)
Definition may_plan h agent (plan : Move.statePlan) : Prop :=
  Move.plan_hold plan = false → happened (λ seg, MoveSpec.may_run (view agent) seg plan) h.
Definition may_apply h agent (plan : Move.statePlan) : Prop :=
  Move.plan_hold plan = false →
  ∃ plan', happened (λ seg, MoveSpec.may_run (view agent) seg plan') h ∧
  (Move.plan_claim plan' ≠ "" → Move.plan_claim plan' = Move.plan_claim plan).
Lemma may_apply_later h h' agent plan : may_apply h agent plan → h `suffix_of` h' → may_apply h' agent plan.
Proof. intros Hm Hs Hp. destruct (Hm Hp) as (plan' & ? & ?). eauto. Qed.
#[local] Hint Resolve may_apply_later : core.

Lemma applied_may_write h agent d plan root (s s' : StatefulSet) :
  working h agent → may_apply h agent plan → applied r agent d plan root s = Ok s' → may_write h agent s'.
Proof.
  intros Hw Hp (Hf & Hn & Hc)%applied_fields. split_and!; [done..|]. rewrite Hn. unfold replicasFor.
  destruct (heldStopped agent) eqn:Hh; [by left|]. destruct (Move.plan_hold plan) eqn:Hhold; [by left|].
  right. split; [done|]. split; [done|]. destruct (Hp Hhold) as (plan' & ? & Hcl). exists plan'.
  split; [done|]. intros Hne. rewrite (Hcl Hne). apply Hc. by rewrite <- (Hcl Hne).
Qed.

Lemma applyAgent_stage {Q : history → _ → Prop} h agent d plan s :
  working h agent → may_apply h agent plan →
  (∀ h' res, h `suffix_of` h' → (∀ s', res = Ok s' → may_write h' agent s') → Q h' res) →
  safe P Q h (applyAgent r agent d plan s).
Proof.
  intros Ha Hp HQ. unfold applyAgent. rewrite safe_try_bind.
  assert (∀ h' root, h `suffix_of` h' →
    safe P Q h' (s' ←? lift (applied r agent d plan root s);
    _ ←? call (SetControllerReference "StatefulSet" (S_Name s')); mret (Ok s'))) as Hrest.
  { intros h' root Hs. rewrite safe_try_bind. cbn. destruct (applied r agent d plan root s) as [s'|err] eqn:Happ; [|by apply HQ].
    rewrite safe_try_bind. split; [apply (own_call _ agent); eauto|].
    intros [u|err]; cbn; (apply HQ; [by eauto 3|]); [|done]. intros s'' [= <-].
    eapply applied_may_write; eauto. }
  unfold controlRootFor. destruct (negb (adapterBuilt r agent)); [by apply Hrest|].
  rewrite safe_try_wrap. split; [done|]. intros [root|err]; cbn; [apply Hrest; eauto|].
  by apply HQ; eauto.
Qed.

(** A deletion's answer is one taken, or an error it ends on. *)
Lemma deletion_stage {A} {Q : history → result A → Prop} h agent (x : result ()) wrapper message attributes
  (k : () → prog reconcileE (result A)) :
  working h agent → (∀ h' err, h `suffix_of` h' → Q h' (Err err)) →
  (∀ y h', h `suffix_of` h' → deleted x → safe P Q h' (k y)) →
  safe P Q h
  match match x with Err err => if IsNotFound err then None else Some err | Ok _ => None end with
  | Some err => mret (Err (wrapper err))
  | None => y ← call (LogInfo message attributes); k y
  end.
Proof.
  intros Ha HQ Hk. assert (deleted x → safe P Q h (y ← call (LogInfo message attributes); k y)) as Hlog.
  { intros Hd. split; [apply (own_call _ agent); by left|]. intros y. apply Hk; eauto. }
  destruct x as [u|err]; cbn in Hlog |- *; [by apply Hlog|].
  destruct (IsNotFound err); [by apply Hlog|]. by apply HQ.
Qed.

Lemma replaceSharedShape_stage {Q : history → _ → Prop} h agent :
  working h agent → (∀ h' res, h `suffix_of` h' → Q h' res) →
  safe P Q h (replaceSharedShape (Agent_Namespace agent) (Agent_Name agent)).
Proof.
  intros Ha HQ. split; [done|]. intros [s|err]; cbn; [|by destruct (IsNotFound err); apply HQ; eauto].
  destruct (hasWorkspaceClaim s) eqn:Hs; [by apply HQ; eauto|]. cbn. split.
  - exists agent. split_and!; [by eauto|done..|]. exists s. split_and!; [|done|by left]. apply list_elem_of_here.
  - intros x. eapply (deletion_stage _ agent x); [by eauto|by eauto 6|]. intros y h' Hh' _. apply HQ. by eauto.
Qed.

Lemma replaceStateTemplate_stage {Q : history → _ → Prop} h agent plan :
  working h agent → may_plan h agent plan →
  (∀ h' res, h `suffix_of` h' → (∀ plan', res = Ok plan' → may_apply h' agent plan') → Q h' res) →
  safe P Q h (replaceStateTemplate agent plan).
Proof.
  intros Ha Hp HQ.
  assert (∀ h', h `suffix_of` h' → may_apply h' agent plan) as Hsame.
  { intros h' Hs Hh. exists plan. split; [|done]. eauto. }
  split; [done|]. intros [s|err]; cbn; last first.
  { destruct (IsNotFound err); apply HQ; eauto; intros plan' [= <-]; eauto. }
  set (templated := bool_decide (is_Some (claimTemplate s Names.stateVolumeName))).
  set (plan' := if bool_decide (Move.plan_claim plan = "") && negb templated then _ else plan).
  assert (∀ h', h `suffix_of` h' → may_apply h' agent plan') as Hplan'.
  { intros h' Hs. subst plan'. destruct (bool_decide_reflect (Move.plan_claim plan = "")) as [Hc|]; [|by apply Hsame].
    destruct (negb templated); [|by apply Hsame]. cbn. intros Hh. exists plan. by split; eauto. }
  destruct (bool_decide (Move.plan_claim plan' = "") || negb templated) eqn:Hb.
  { apply HQ; [by eauto|]. intros p [= <-]. eauto. }
  split.
  - exists agent. split_and!; [by eauto|done..|]. exists s. split_and!; [apply list_elem_of_here|done|right].
    apply orb_false_iff in Hb as [_ Ht%negb_false_iff%bool_decide_eq_true]. by destruct Ht as [c ->].
  - intros x. eapply (deletion_stage _ agent x); [by eauto| |].
    + intros h' err Hs. apply HQ; [by eauto|done].
    + intros y h' Hs _. apply HQ; [by eauto|done].
Qed.

Lemma reconcileStatefulSet_stage {Q : history → _ → Prop} h agent d plan :
  working h agent → may_plan h agent plan →
  (∀ h' res, h `suffix_of` h' →
    (∀ s, res = Ok s → ∃ wanted operation, called h' (EndCreateOrUpdate wanted) (Ok (operation, s))) → Q h' res) →
  safe P Q h (reconcileStatefulSet r agent d plan).
Proof.
  intros Ha Hp HQ. unfold reconcileStatefulSet. rewrite safe_try_bind.
  apply (replaceSharedShape_stage _ agent); [done|]. intros h1 [u|err] H1; [|by apply HQ].
  rewrite safe_try_bind. apply replaceStateTemplate_stage; [by eauto|intros Hh; by eauto|].
  intros h2 [plan'|err] H2 Hplan'; [|apply HQ; [later|done]]. specialize (Hplan' plan' eq_refl).
  assert (h `suffix_of` h2) as H02 by by etrans.
  assert (∀ h3 lineage, h2 `suffix_of` h3 →
    safe P Q h3 ('(operation, s) ←? createOrUpdate r agent d plan' lineage
    wrap (λ err, Wrapf "create or update statefulset: " err "");
    _ ← (if negb (bool_decide (operation = operationResultNone))
    then call (LogInfo "Reconciled the StatefulSet" [("statefulSet", S_Name s); ("operation", operation)])
    else mret tt);
    mret (Ok s))) as Hrest.
  { intros h3 lineage H3. rewrite safe_try_wrap. unfold createOrUpdate. rewrite safe_try_bind.
    split; [done|]. intros [s|err]; cbn; [|apply HQ; [later|done]].
    rewrite safe_try_bind. apply applyAgent_stage; [by eauto|by eauto|].
    intros h4 [s'|err] H4 Hw; [|apply HQ; [later|done]].
    split; [exists agent; by apply Hw|]. intros [[operation s'']|err]; cbn; [|apply HQ; [later|done]].
    assert (∀ h5, h4 `suffix_of` h5 → called h5 (EndCreateOrUpdate s') (Ok (operation, s'')) → Q h5 (Ok s'')) as Hend.
    { intros h5 H5 Hc. apply HQ; [later|]. intros s0 [= <-]. eauto. }
    destruct (negb _); [|cbn; apply Hend; [later|apply list_elem_of_here]].
    split; [apply (own_call _ agent); left; by eauto|]. intros y. cbn. apply Hend; [later|].
    apply list_elem_of_further, list_elem_of_here. }
  rewrite safe_try_bind. split; [done|]. intros [annotations|err]; cbn; [apply Hrest; eauto|].
  destruct (IsNotFound err); cbn; [apply Hrest; eauto|]. apply HQ; [by eauto|done].
Qed.

Lemma rollOutdatedPod_stage {Q : history → _ → Prop} h agent wanted operation s :
  working h agent → heldStopped agent = false → called h (EndCreateOrUpdate wanted) (Ok (operation, s)) →
  (∀ h' res, h `suffix_of` h' → Q h' res) → safe P Q h (rollOutdatedPod s).
Proof.
  intros Ha Hh Hc HQ. split; [done|]. intros [pod|err]; cbn; [|destruct (IsNotFound err); apply HQ; later].
  destruct (bool_decide_reflect (S_UpdateRevision s = "")) as [|Hu]; [apply HQ; later|].
  destruct (bool_decide_reflect (S_ObservedGeneration s < S_Generation s)) as [|Hg]; [apply HQ; later|]. cbn.
  destruct (bool_decide_reflect (WP_Revision pod = S_UpdateRevision s)) as [|Hr]; [apply HQ; later|].
  destruct (bool_decide_reflect (WP_DeletionTimestamp pod = None)) as [Hd|]; [|apply HQ; later].
  destruct (bool_decide_reflect (WP_Controller pod = Some (S_UID s))) as [Ho|]; [|apply HQ; later]. cbn. split.
  - exists agent. split; [by eauto|]. split; [done|]. exists wanted, operation, s, pod.
    split_and!; try done; [by eapply called_later; eauto|apply list_elem_of_here|lia].
  - intros x. eapply (deletion_stage _ agent x); [by eauto|intros; apply HQ; later|].
    intros y h' H' _. apply HQ. later.
Qed.

(** A program that sets one condition. *)
Definition sets (p : prog reconcileE ()) : Prop :=
  ∃ type status reason message, p = call (SetCondition type status reason message).
Lemma sets_stage {A} {Q : history → A → Prop} h p (k : () → prog reconcileE A) :
  sets p → (∀ y h', h `suffix_of` h' → safe P Q h' (k y)) → safe P Q h (p ≫= k).
Proof. intros (type & status & reason & message & ->) Hk. split; [done|]. intros y. apply Hk. later. Qed.

Lemma report_synced_sets agent s rollout : sets (report_synced agent s rollout).
Proof. unfold report_synced. repeat case_match; by repeat eexists. Qed.
Lemma report_available_sets agent s rollout : sets (report_available agent s rollout).
Proof. unfold report_available, setAvailableFromWorkload. repeat case_match; by repeat eexists. Qed.
Lemma not_reconciled_sets : sets not_reconciled.
Proof. by repeat eexists. Qed.
Lemma setSynced_sets status reason message : sets (setSynced status reason message).
Proof. by repeat eexists. Qed.
Lemma setSuspendedFromPod_sets agent podGone : sets (setSuspendedFromPod agent podGone).
Proof. unfold setSuspendedFromPod. repeat case_match; by repeat eexists. Qed.
Lemma setRecovery_sets persisted : sets (setRecovery persisted).
Proof. unfold setRecovery. case_match; by repeat eexists. Qed.
Lemma call_sets type status reason message : sets (call (SetCondition type status reason message)).
Proof. by repeat eexists. Qed.
#[local] Hint Resolve call_sets report_synced_sets report_available_sets not_reconciled_sets setSynced_sets
  setSuspendedFromPod_sets setRecovery_sets : core.

Lemma secrets_present_stage {Q : history → _ → Prop} h agent required :
  (∀ h' res, h `suffix_of` h' → Q h' res) → safe P Q h (secrets_present agent required).
Proof.
  revert h. induction required as [|required rest IH]; intros h HQ; [by apply HQ|].
  cbn [secrets_present]. rewrite safe_bind. unfold secretExists. rewrite safe_try_bind.
  split; [done|]. intros [a|err]; cbn; [apply IH; intros; apply HQ; later|].
  destruct (IsNotFound err); [|cbn; apply HQ; later].
  apply sets_stage; [auto|]. intros y h1 H1. apply sets_stage; [auto|]. intros y' h2 H2. apply HQ. later.
Qed.

Lemma reconcile_built_stage {Q : history → _ → Prop} h agent d plan :
  working h agent → may_plan h agent plan → (∀ h' res, h `suffix_of` h' → Q h' res) →
  safe P Q h (reconcile_built r agent d plan).
Proof.
  intros Ha Hp HQ. unfold reconcile_built. rewrite safe_bind. apply reconcileStatefulSet_stage; [done..|].
  intros h1 [s|err] H1 Hs; last first.
  { destruct (errors_is err errReplacingForMove); [|destruct (errors_is err errReplacing); [|by apply HQ]].
    all: apply sets_stage; [auto|]; intros y h2 H2; apply sets_stage; [auto|]; intros y' h3 H3; apply HQ; later. }
  destruct (Hs s eq_refl) as (wanted & operation & Hc). rewrite safe_try_bind.
  assert (∀ h2 res, h1 `suffix_of` h2 →
    match res with
    | Ok rollout => safe P Q h2 (_ ← report_synced agent s rollout; _ ← report_available agent s rollout; mret (Ok tt))
    | Err e => Q h2 (Err e)
    end) as Hrest.
  { intros h2 [rollout|err] H2; [|apply HQ; later].
    apply sets_stage; [auto|]. intros y h3 H3. apply sets_stage; [auto|]. intros y' h4 H4. apply HQ. later. }
  destruct (heldStopped agent) eqn:Hh; cbn [negb]; [by apply (Hrest h1 (Ok noRollout))|].
  eapply (rollOutdatedPod_stage _ agent); [by eauto|done|exact Hc|]. intros h2 res H2. by apply Hrest.
Qed.

Lemma reconcileWorkload_stage {Q : history → _ → Prop} h agent podGone :
  working h agent → (∀ h' res, h `suffix_of` h' → Q h' res) →
  safe P Q h (reconcileWorkload decode_error yaml_Marshal r agent podGone).
Proof.
  intros Ha HQ. unfold reconcileWorkload. destruct (resolveAgentType _ _) as [d [|]]; last first.
  { apply sets_stage; [auto|]. intros y h1 H1. apply sets_stage; [auto|]. intros y' h2 H2. apply HQ. later. }
  rewrite safe_try_bind. apply secrets_present_stage. intros h1 [[|]|err] H1; [|by apply HQ..]. cbn [negb].
  rewrite safe_try_bind.
  assert (∀ h2, h1 `suffix_of` h2 →
    safe P Q h2 (plan ←? within (Move.reconcileMove r (memoryFile d) decode_error (view agent) podGone);
    reconcile_built r agent d plan)) as Hrest.
  { intros h2 H2. rewrite safe_try_bind. apply (move_stage _ agent); [by eauto|].
    intros h3 [plan|err] H3 Hplan; [|apply HQ; later].
    apply reconcile_built_stage; [eapply working_later; [done|later]|by intros Hh; apply Hplan|].
    intros h4 res H4. apply HQ. later. }
  destruct (adapterBuilt r agent) eqn:Hb; [|by apply (Hrest h1)].
  apply (token_stage _ agent); [by eauto|done|]. intros h2 [u|err] H2; [by apply Hrest|apply HQ; later].
Qed.

Lemma reconcile_agent_stage {Q : history → _ → Prop} h agent :
  working h agent → (∀ h' res, h `suffix_of` h' → Q h' res) →
  safe P Q h (reconcile_agent canonical_json decode_error yaml_Marshal r agent).
Proof.
  intros Ha HQ. unfold reconcile_agent. rewrite safe_try_bind. apply (fence_stage _ agent); [by left|].
  intros h1 [[podGone unverified]|err] H1 _; [|by apply HQ].
  rewrite safe_try_bind. apply reconcileWorkload_stage; [by eauto|].
  intros h2 [u|err] H2; [|apply HQ; later].
  apply sets_stage; [auto|]. intros y h3 H3. rewrite safe_try_bind.
  assert (∀ h4 (res : result ()), h3 `suffix_of` h4 →
    match res with
    | Ok _ => safe P Q h4 (_ ← call (SetObservedGeneration (Agent_Generation agent)); mret (Ok unverified))
    | Err e => Q h4 (Err e)
    end) as Hrest.
  { intros h4 [u'|err] H4; [|apply HQ; later]. split; [done|]. intros y'. apply HQ. later. }
  unfold reconcileRecovery. destruct (Spec_Identity (Agent_Spec agent)) as [identity|]; last first.
  { split; [done|]. intros y'. apply (Hrest _ (Ok tt)). later. }
  split; [done|]. intros [x|err]; [|cbn; destruct (IsNotFound err)]; cbn [negb].
  1,2: apply sets_stage; [auto|]; intros y' h4 H4; apply (Hrest _ (Ok tt)); later.
  apply (Hrest _ (Err _)). later.
Qed.

Lemma writeStatus_stage {Q : history → _ → Prop} h agent status :
  working h agent ∨ ending h agent → (∀ h' res, h `suffix_of` h' → Q h' res) →
  safe P Q h (writeStatus agent status).
Proof.
  intros Ha HQ. unfold writeStatus. set (kept := with_conditions _ status).
  destruct (StatusDeepEqual _ _); [by apply HQ|]. rewrite safe_try_wrap. split.
  - split; [done|]. exists kept. split; [done|]. apply Forall_forall. by intros c [? _]%list_elem_of_filter.
  - intros [u|err]; [|apply HQ; later]. split; [|intros y; apply HQ; later].
    apply (own_call _ agent). destruct Ha; [left|right]; eauto.
Qed.

Lemma reconcileDeletion_stage {Q : history → _ → Prop} h agent :
  read_agent h agent → Agent_DeletionTimestamp agent ≠ None → (∀ h' res, h `suffix_of` h' → Q h' res) →
  safe P Q h (reconcileDeletion canonical_json clock r agent).
Proof.
  intros Hr Hd HQ. unfold reconcileDeletion.
  destruct (agent_fenced agent workloadFencedFinalizer) eqn:Hf; [|by apply HQ]. cbn [negb].
  assert (ending h agent) as Ha by done. rewrite safe_bind.
  apply safe_keeping, (fence_stage _ agent); [by right|]. intros h1 res H1 Hgone status.
  rewrite safe_try_bind. destruct res as [[podGone unverified]|err]; [|by apply HQ]. split.
  { split; [done|]. exists agent. split_and!; [|done..]. eapply ending_later; [done|later]. }
  intros x.
  assert (deleted x → safe P Q (Ev (inject (DeleteStatefulSet (Agent_Namespace agent) (Agent_Name agent)
    PropagationBackground None)) x :: h1)
    (_ ←? writeStatus agent status;
    if negb podGone then mret (Ok (fenceResult unverified))
    else
    released ← call (PatchAgent agent (DropFinalizer agent workloadFencedFinalizer));
    match released with
    | Err err =>
    if IsNotFound err then mret (Ok (mkResult 0))
    else mret (Err (Wrapf "release the agent's workload fence: " err ""))
    | Ok _ => mret (Ok (mkResult 0))
    end)) as Hrest.
  { intros Hx. rewrite safe_try_bind.
    apply writeStatus_stage; [right; eapply ending_later; [done|later]|].
    intros h2 [u|err] H2; [|apply HQ; later].
    destruct podGone; cbn [negb]; [|apply HQ; later]. split.
    - right. split_and!; [eapply ending_later; [done|later]|done| |].
      + eapply happened_later; [by eapply Hgone|later].
      + exists x. split; [|done]. eapply called_later; [apply list_elem_of_here|done].
    - intros [a|err]; cbn; [|destruct (IsNotFound err)]; apply HQ; later. }
  destruct x as [u|err]; [by apply Hrest|]. cbn. destruct (IsNotFound err) eqn:He; [by apply Hrest|].
  apply HQ. later.
Qed.

Lemma Reconcile_safe :
  safe P (λ _ _, True) [] (Reconcile canonical_json decode_error yaml_Marshal clock r namespace name).
Proof.
  unfold Reconcile. split; [done|]. intros [agent|err]; [|cbn; by destruct (IsNotFound err)].
  set (h := [_]). assert (read_agent h agent) as Hr by apply list_elem_of_here.
  cbn. destruct (bool_decide_reflect (Agent_DeletionTimestamp agent = None)) as [Hd|Hd]; cbn [negb]; last first.
  { by apply reconcileDeletion_stage. }
  assert (∀ h' agent', working h' agent' →
    safe P (λ _ _, True) h'
    ('(outcome, status) ← keeping (Agent_Generation agent') clock 0
    (reconcile_agent canonical_json decode_error yaml_Marshal r agent') (Agent_Status agent');
    unverified ←? mret outcome;
    _ ←? writeStatus agent' status;
    mret (Ok (fenceResult unverified)))) as Hrest.
  { intros h' agent' Hw. rewrite safe_bind. apply safe_keeping, reconcile_agent_stage; [done|].
    intros h1 res H1 status. rewrite safe_try_bind. destruct res as [unverified|err]; [|done].
    cbn. rewrite safe_try_bind. apply writeStatus_stage; [left; by eauto|]. by intros h2 [u|err] H2. }
  rewrite safe_try_bind. unfold fenced.
  destruct (agent_fenced agent workloadFencedFinalizer) eqn:Hf; [apply Hrest; by left|].
  rewrite safe_try_wrap. split; [left; by split_and!|]. intros [patched|err]; [|done].
  apply Hrest. right. exists agent. split_and!; [by apply list_elem_of_further|done|apply list_elem_of_here].
Qed.
End pass.

(** ** What is proved of a pass *)

(** C10: Whatever the API server answers, every call of a pass over an Agent is one [pass_call] allows: the
    fence's and the move's own rules hold of what they write; the StatefulSet is written only for an Agent
    carrying the workload's finalizer, its Pods always carrying the writer fence, and with a replica only
    where neither the spec nor the move holds the agent; it is deleted from under its Pod only by the UID
    read; and the Agent's Pod is deleted only off a revision its StatefulSet has left. *)
Theorem Reconcile_guarded `{K8s : Kubernetes, SM : StatusMachinery} canonical_json decode_error yaml_Marshal clock r
    namespace name :
  safe (pass_call canonical_json decode_error r namespace name) (λ _ _, True) []
    (Reconcile canonical_json decode_error yaml_Marshal clock r namespace name).
Proof. apply Reconcile_safe. Qed.

(** The Agent lets go of its finalizer only in a pass the server answered that its Pod is gone, after the
    StatefulSet that would make another was deleted: so the Agent outlives the Pod, and the evidence
    recorded on it with it. *)
Theorem agent_released_after_pod `{K8s : Kubernetes, SM : StatusMachinery} canonical_json decode_error yaml_Marshal
    clock r namespace name h k read wanted
    (Hcall : reaches (Reconcile canonical_json decode_error yaml_Marshal clock r namespace name) []
               (Vis (InR (PatchAgent read wanted)) k) h)
    (Hdropped : workloadFencedFinalizer ∉ Agent_Finalizers wanted) :
  ending namespace name h read ∧ happened (pod_gone read) h ∧
  ∃ x, called h (DeleteStatefulSet (Agent_Namespace read) (Agent_Name read) PropagationBackground None) x ∧ deleted x.
Proof.
  destruct (safe_issued _ _ _ _ _ _ _ _ (Reconcile_safe _ _ _ _ _ _ _) Hcall) as [(_ & _ & Hf & ->)|(? & _ & ?)];
    [|done].
  destruct Hdropped. unfold AddFinalizer. rewrite Hf. apply elem_of_app. right. apply list_elem_of_here.
Qed.

(** A StatefulSet is written with a replica only for an Agent whose spec neither suspends nor stops it, and
    on what this pass read of the memory: with no move under way, or one switched, on the claim the memory
    is on, which the Pod then mounts. *)
Theorem replica_on_memory `{K8s : Kubernetes, SM : StatusMachinery} canonical_json decode_error yaml_Marshal
    clock r namespace name h k s
    (Hcall : reaches (Reconcile canonical_json decode_error yaml_Marshal clock r namespace name) []
               (Vis (InR (EndCreateOrUpdate s)) k) h)
    (Hruns : S_Replicas s ≠ Some 0) :
  ∃ agent plan, working namespace name h agent ∧ heldStopped agent = false ∧ S_Replicas s = Some 1 ∧
    happened (λ seg, MoveSpec.may_run (view agent) seg plan) h ∧
    (Move.plan_claim plan ≠ "" →
     claimVolume Names.stateVolumeName (Move.plan_claim plan) false ∈ T_Volumes (S_Template s)).
Proof.
  destruct (safe_issued _ _ _ _ _ _ _ _ (Reconcile_safe _ _ _ _ _ _ _) Hcall)
    as (agent & Hw & _ & [?|(? & ? & plan & ? & ?)]); [done|].
  by exists agent, plan.
Qed.

(** The agent's Pod is deleted only where its StatefulSet, as just written and observed by its controller,
    has left the Pod's revision, the Pod is that StatefulSet's and not yet deleting, and nothing holds the
    agent stopped; and only the Pod read, by its UID. *)
Theorem pod_rolled_when_outdated `{K8s : Kubernetes, SM : StatusMachinery} canonical_json decode_error yaml_Marshal
    clock r namespace name h k pns pname uid
    (Hcall : reaches (Reconcile canonical_json decode_error yaml_Marshal clock r namespace name) []
               (Vis (InR (DeletePod pns pname uid)) k) h) :
  ∃ agent, working namespace name h agent ∧ may_roll h agent pns pname uid.
Proof. apply (safe_issued _ _ _ _ _ _ _ _ (Reconcile_safe _ _ _ _ _ _ _) Hcall). Qed.
End ReconcileSpec.
