(* ===== verification/LoopSamples.v ===== *)
(** An Agent the examples of the workload evaluate on with the StatefulSet built for it, and passes over it on a cluster
    that answers every call: the theorems of [Isolation], [BuildSpec] and [ReconcileSpec] evaluated. *)
From S2P Require Import Prelude GoStd Errors Types Samples Kube Names AgentApi AgentTypes Fence KubeSamples Workload Move Build BuildSpec Isolation FenceSpec MoveSpec Reconcile AgentLoop ReconcileSpec.

Import GoStd Kube AgentApi AgentTypes Workload Build BuildSpec Isolation Samples.

Module WorkloadSamples.

Definition model : ModelSpec :=
  mkModelSpec "openai" "https://models" "large" (mkSecretKey "keys" "model")
    (Some (mkEmbeddingSpec "https://embed" "small" None)).
Definition spec : AgentSpec :=
  mkAgentSpec "" "sherlock:1" "credentials" (10 : Z) None false None false None noResources ∅ (Some model) "ego"
    (Some (mkIdentity "grn:agent:a" "1")) "1".
Definition agent : Agent := mkAgent "a" "garam" 1 None ["agent.garam.sh/workload-fenced"] spec (mkAgentStatus [] 0 None None).
Definition sherlock : agentTypeDescriptor := agentTypeSherlock (λ _, Ok "config").
Definition reconciler := KubeSamples.reconciler.
(** The same operator once it names no adapter. *)
Definition bare : Fence.AgentReconciler := Fence.mkReconciler "copy:1" "workspace:1" "" "" "" "" "".

Definition built_of (r : result StatefulSet) : StatefulSet :=
  match r with Ok s => s | Err _ => newStatefulSet "" "" end.
Definition built : StatefulSet :=
  built_of (applied reconciler agent sherlock Move.zeroPlan (Some "root") (applyLineage "" (newStatefulSet "a" "garam"))).
Definition rebuilt : StatefulSet :=
  built_of (applied bare agent sherlock Move.zeroPlan None (applyLineage "" (stamped "uid" 1 5 built))).

Lemma built_ok :
  applied reconciler agent sherlock Move.zeroPlan (Some "root") (applyLineage "" (newStatefulSet "a" "garam")) = Ok built.
Proof. reflexivity. Qed.
Lemma rebuilt_ok :
  applied bare agent sherlock Move.zeroPlan None (applyLineage "" (stamped "uid" 1 5 built)) = Ok rebuilt.
Proof. reflexivity. Qed.

Lemma adapter_root : root_read reconciler agent (Some "root").
Proof. split; [done|by eexists]. Qed.
Lemma built_run : run_for "a" (stamped "uid" 1 5 built).
Proof.
  apply (run_served _ built); [|apply served_stamped]. by eapply run_built, built_ok; [|apply adapter_root].
Qed.
Lemma built_maintained : maintained (stamped "uid" 1 5 built).
Proof. apply (run_maintained "a"), built_run. Qed.
Lemma built_claims : claims_agree Move.zeroPlan (stamped "uid" 1 5 built).
Proof. right. split; [reflexivity|]. split; [|reflexivity]. intros _. vm_compute. discriminate. Qed.
Lemma bare_root : root_read bare agent None.
Proof. split; [by intros []|done]. Qed.

(** The init containers are built in the order the Pod runs them, the adapter last. *)
Example built_inits :
  C_Name <$> T_InitContainers (S_Template built) = [configContainerName; outboxContainerName; adapterContainerName].
Proof. reflexivity. Qed.

Lemma applied_again_witness :
  applied reconciler agent sherlock Move.zeroPlan (Some "root") (stamped "uid" 1 5 built) =
  Ok (stamped "uid" 1 5 built).
Proof. apply (applied_again _ _ _ _ _ _ _ _ _ _ built_ok). Defined.

Lemma built_afresh_witness :
  ∃ s0, applied bare agent sherlock Move.zeroPlan None (applyLineage "" (newStatefulSet "a" "garam")) = Ok s0 ∧
        workload_of rebuilt = workload_of s0.
Proof. apply (built_afresh _ agent _ _ _ _ _ _ "garam" built_run bare_root built_claims rebuilt_ok). Defined.


Lemma mounts_exist_witness : NoDup (volume_names rebuilt).
Proof.
  exact (proj1 (mounts_exist _ _ _ _ _ _ _ _ built_maintained bare_root built_claims rebuilt_ok)).
Defined.
End WorkloadSamples.

Import GoStd Kube AgentApi AgentTypes Workload Build BuildSpec WorkloadSamples Reconcile AgentLoop ReconcileSpec.

Module LoopSamples.
#[local] Existing Instance Samples.K8s.

(** [meta.SetStatusCondition] and [RemoveStatusCondition] on lists, as they are documented. *)
Fixpoint set_condition (now : Time) (cs : list StatusCondition) (c : StatusCondition) : list StatusCondition :=
  match cs with
  | [] => [mkStatusCondition (SC_Type c) (SC_Status c) (SC_Reason c) (SC_Message c) (SC_ObservedGeneration c) now]
  | c' :: cs =>
      if bool_decide (SC_Type c' = SC_Type c)
      then mkStatusCondition (SC_Type c) (SC_Status c) (SC_Reason c) (SC_Message c) (SC_ObservedGeneration c)
             (if bool_decide (status_text (SC_Status c') = status_text (SC_Status c))
              then SC_LastTransitionTime c' else now) :: cs
      else c' :: set_condition now cs c
  end.
#[export] Instance condition_status_eq_dec : EqDecision condition_status.
Proof. solve_decision. Defined.
#[export] Instance StatusCondition_eq_dec : EqDecision StatusCondition.
Proof. solve_decision. Defined.
#[export] Instance Placement_eq_dec : EqDecision Placement.
Proof. solve_decision. Defined.
#[export] Instance TerminatedContainer_eq_dec : EqDecision TerminatedContainer.
Proof. solve_decision. Defined.
#[export] Instance WriterStoppedEvidence_eq_dec : EqDecision WriterStoppedEvidence.
Proof. solve_decision. Defined.
#[export] Instance AgentStatus_eq_dec : EqDecision AgentStatus.
Proof. solve_decision. Defined.

#[export] Instance SM : StatusMachinery := {|
    SetStatusCondition := set_condition;
    RemoveStatusCondition cs t := filter (λ c, SC_Type c ≠ t) cs;
    StatusDeepEqual a b := bool_decide (a = b);
  |}.

#[export] Instance SM_laws : StatusMachineryLaws SM.
Proof.
  unfold FindStatusCondition. split; cbn.
  - intros now cs c. induction cs as [|c' cs IH]; cbn; [by rewrite bool_decide_true|].
    case_bool_decide as Hc; cbn; [by rewrite bool_decide_true|]. by rewrite bool_decide_false.
  - intros now cs c t Ht. induction cs as [|c' cs IH]; cbn; [by rewrite bool_decide_false|].
    destruct (bool_decide_reflect (SC_Type c' = SC_Type c)); cbn; [|by rewrite IH].
    by rewrite !bool_decide_false by congruence.
  - intros cs t. induction cs as [|c cs IH]; [done|]. rewrite filter_cons. case_decide; cbn; [|done].
    by rewrite bool_decide_false.
  - intros cs t t' Ht. induction cs as [|c cs IH]; [done|]. rewrite filter_cons. case_decide as Hc; cbn; [by rewrite IH|].
    by rewrite bool_decide_false by congruence.
  - intros s. by apply bool_decide_eq_true.
Qed.

(** ** The cluster *)

(** What a cluster answers that holds [agent], its Pod [pod] where there is one, and the StatefulSet [s],
    and takes every write. *)
Definition absent {A} : result A := Err (ApiError ApiNotFound "not found").
Definition answer (agent : Agent) (pod : option WorkloadPod) (s : StatefulSet) : handler reconcileE () := λ X e u,
  (match e in sumE _ _ _ return X with
   | InL (InL e) =>
       match e in kubeE X return X with
       | GetSecret _ _ | PatchWriterStopped _ _ | PatchSecret _ _ _ _ | CreateSecret _ _ _ _
       | CreateClaim _ | CreateJob _ => Ok tt
       | ListJobs _ _ => Ok []
       | ListPodsOfJob _ _ => Ok []
       | GetStatefulSet _ _ => Ok true
       | PatchClaim _ w => Ok w
       | PatchPod _ w => Ok w
       | GetPod _ _ => absent
       | GetNode _ => absent
       | GetClaim _ _ => absent
       | GetJob _ _ => absent
       end
   | InL (InR e) =>
       match e in controllerE X return X with
       | Now => 0
       | RandRead _ => Ok []
       | SetControllerReference _ _ => Ok tt
       | SetWriterFence _ _ _ | SetMemoryMove _ _ _ | SetPlacement _ _ | LogInfo _ _ => tt
       end
   | InR e =>
       match e in workloadE X return X with
       | GetAgent _ _ => Ok agent
       | ListAgents _ => Ok [agent]
       | PatchAgent _ w => Ok w
       | PatchAgentStatus _ _ => Ok tt
       | DeleteStatefulSet _ _ _ _ => Ok tt
       | ReadStatefulSet _ _ => Ok s
       | BeginCreateOrUpdate _ _ => Ok s
       | EndCreateOrUpdate w => Ok ("updated", w)
       | SecretMetadata _ _ => Ok ∅
       | ReadPod _ _ => match pod with Some p => Ok p | None => absent end
       | DeletePod _ _ _ => Ok tt
       | ReadFile _ => Ok "root"
       | LogError _ _ | SetCondition _ _ _ _ | RemoveCondition _ | SetObservedGeneration _ => tt
       end
   end, u).

Definition pass : prog reconcileE (result Result) :=
  Reconcile (λ _, Ok "{}") (λ s, s) (λ _, Ok "config") (λ _, 0) reconciler "garam" "a".
Definition live : StatefulSet := stamped "uid" 1 5 built.

(** The sample Agent, deleting. *)
Definition deleting : Agent :=
  mkAgent "a" "garam" 1 (Some 9) ["agent.garam.sh/workload-fenced"] spec (mkAgentStatus [] 0 None None).

Definition lets_go X (e : reconcileE X) : bool :=
  match e with
  | InR (PatchAgent _ wanted) => negb (bool_decide (workloadFencedFinalizer ∈ Agent_Finalizers wanted))
  | _ => false
  end.

Lemma agent_released_after_pod_witness : ∃ h read, ending "garam" "a" h read ∧ happened (pod_gone read) h.
Proof.
  destruct (makes_reaches lets_go (answer deleting None live) pass tt []) as (X & e & k & h & Hr & Ht).
  { vm_compute. reflexivity. }
  destruct e as [[e|e]|e]; [done..|]. destruct e as [| |read wanted| | | | | | | | | | | | |]; try done.
  apply negb_true_iff, bool_decide_eq_false in Ht. exists h, read.
  by destruct (agent_released_after_pod _ _ _ _ _ _ _ _ _ _ _ Hr Ht) as (? & ? & _).
Defined.

Definition runs_replica X (e : reconcileE X) : bool :=
  match e with InR (EndCreateOrUpdate s) => bool_decide (S_Replicas s = Some 1) | _ => false end.

Lemma replica_on_memory_witness :
  ∃ h s agent plan, S_Replicas s = Some 1 ∧ working "garam" "a" h agent ∧
    happened (λ seg, MoveSpec.may_run (view agent) seg plan) h.
Proof.
  destruct (makes_reaches runs_replica (answer agent None live) pass tt []) as (X & e & k & h & Hr & Ht).
  { vm_compute. reflexivity. }
  destruct e as [[e|e]|e]; [done..|]. destruct e as [| | | | | | |s| | | | | | | |]; try done.
  apply bool_decide_eq_true in Ht.
  destruct (replica_on_memory _ _ _ _ _ _ _ _ _ _ Hr) as (agent & plan & Hw & _ & _ & Hp & _); [congruence|].
  by exists h, s, agent, plan.
Defined.

(** The Pod of the revision the StatefulSet was on before. *)
Definition outdated : WorkloadPod := mkWorkloadPod "a-0" "pod-1" "rev-1" None (Some "uid").
Definition moved_on : StatefulSet :=
  mkStatefulSet "a" "garam" "uid" 2 (Some 5) (S_Labels built) (S_Replicas built) (S_Selector built)
    (S_VolumeClaimTemplates built) (S_Template built) 1 "rev-2" 2.

Definition rolls X (e : reconcileE X) : bool := match e with InR (DeletePod _ _ _) => true | _ => false end.

Lemma pod_rolled_when_outdated_witness :
  ∃ h agent pns pname uid, working "garam" "a" h agent ∧ may_roll h agent pns pname uid.
Proof.
  destruct (makes_reaches rolls (answer agent (Some outdated) moved_on) pass tt []) as (X & e & k & h & Hr & Ht).
  { vm_compute. reflexivity. }
  destruct e as [[e|e]|e]; [done..|]. destruct e as [| | | | | | | | | |pns pname uid| | | | |]; try done.
  destruct (pod_rolled_when_outdated _ _ _ _ _ _ _ _ _ _ _ _ Hr) as (agent & Hw & Hm).
  by exists h, agent, pns, pname, uid.
Defined.
End LoopSamples.
