(* ===== verification/Commands.v ===== *)
(** The commands ([src/cmd], [src/hack/imageref]): how Go reads their flags; the control service's start, its subcommand
    that publishes profile versions and the redirects it answers as no route; the operator's start, which configures what
    it runs; and the tag an image may be pushed under. Then what each does, whatever its files and its calls answer. *)
From S2P Require Import Prelude GoStd GoTime Json JsonText Errors Types Validation Repository Service Desired Fence Machine MachineToken Certificate Migration.
From Stdlib Require Import Ascii.
Import GoStd Json JsonText Migration.

(** ** Go's package flag *)
Module Flag.

(** What a flag's name is bound to. *)
Inductive kind (F : Type) :=
| StringVar (set : string → F → F)
| BoolVar (set : bool → F → F)
| Func (set : string → F → result F).
Arguments StringVar {F} set.
Arguments BoolVar {F} set.
Arguments Func {F} set.

(** An argument read as a flag. *)
Inductive argument := NotFlag | Terminator | BadFlag | Named (name : string) (value : option string).
Definition flag_named (name : string) : argument :=
  match name with
  | EmptyString => BadFlag
  | String "-" _ => BadFlag
  | String "=" _ => BadFlag
  | _ => let '(name, value, ok) := Cut name "="%char in Named name (if ok : bool then Some value else None)
  end.
Definition flag_of (s : string) : argument :=
  match s with
  | "--" => Terminator
  | String "-" EmptyString => NotFlag
  | String "-" (String "-" name) => flag_named name
  | String "-" name => flag_named name
  | _ => NotFlag
  end.
(** [strconv.ParseBool]. *)
Definition ParseBool (s : string) : option bool :=
  if bool_decide (s ∈ ["1"; "t"; "T"; "TRUE"; "true"; "True"]) then Some true
  else if bool_decide (s ∈ ["0"; "f"; "F"; "FALSE"; "false"; "False"]) then Some false else None.

(** The flags set and the arguments left; the help asked for; or arguments refused. *)
Inductive parsed (F : Type) := Parsed (f : F) (rest : list string) | Help | Refused.
Arguments Parsed {F} f rest.
Arguments Help {F}.
Arguments Refused {F}.

Fixpoint Parse {F} (table : string → option (kind F)) (f : F) (args : list string) {struct args} : parsed F :=
  match args with
  | [] => Parsed f []
  | s :: args' =>
      match flag_of s with
      | NotFlag => Parsed f args
      | Terminator => Parsed f args'
      | BadFlag => Refused
      | Named name value =>
          match table name with
          | None => if bool_decide (name = "help") || bool_decide (name = "h") then Help else Refused
          | Some (BoolVar set) =>
              match value with
              | None => Parse table (set true f) args'
              | Some value => match ParseBool value with Some b => Parse table (set b f) args' | None => Refused end
              end
          | Some (StringVar set) =>
              match value, args' with
              | Some value, _ => Parse table (set value f) args'
              | None, value :: args' => Parse table (set value f) args'
              | None, [] => Refused
              end
          | Some (Func set) =>
              match value, args' with
              | Some value, _ => match set value f with Ok f => Parse table f args' | Err _ => Refused end
              | None, value :: args' => match set value f with Ok f => Parse table f args' | Err _ => Refused end
              | None, [] => Refused
              end
          end
      end
  end.
End Flag.
Import Flag.

Module Control.

(** ** redirect.go

    [net/http]'s response writer: the headers sent are those set when the status is, the first status is the one sent,
    an informational one sends nothing final, and a body's first bytes send 200. *)
Record responseWriter := mkWriter {
  header : gmap string string;
  sent : option (Z * gmap string string);
  body : string;
}.
Definition set_header (h : gmap string string) (w : responseWriter) : responseWriter := mkWriter h (sent w) (body w).
Definition is_informational (status : Z) : bool := bool_decide (100 ≤ status ≤ 199) && negb (bool_decide (status = 101)).
Definition inner_WriteHeader (status : Z) (w : responseWriter) : responseWriter :=
  match sent w with
  | Some _ => w
  | None => if is_informational status then w else mkWriter (header w) (Some (status, header w)) (body w)
  end.
(** [bodyAllowedForStatus], of a status sent. *)
Definition body_allowed (status : Z) : bool :=
  negb (bool_decide (100 ≤ status ≤ 199)) && negb (bool_decide (status = 204)) && negb (bool_decide (status = 304)).
Definition inner_Write (b : string) (w : responseWriter) : responseWriter :=
  let w := inner_WriteHeader 200 w in
  if from_option (λ sent, body_allowed sent.1) true (sent w) then mkWriter (header w) (sent w) (body w +:+ b) else w.

Record redirectRefuser := mkRefuser { ResponseWriter : responseWriter; refused : bool }.
Definition WriteHeader (status : Z) (w : redirectRefuser) : redirectRefuser :=
  let inner := ResponseWriter w in
  if bool_decide (300 ≤ status) && bool_decide (status < 400)
  then
    let inner := set_header (<["Content-Type" := "application/json"]> (delete "Location" (header inner))) inner in
    let inner := inner_WriteHeader 404 inner in
    mkRefuser (inner_Write (Encoded (JObject [("message", JString "not found")])) inner) true
  else mkRefuser (inner_WriteHeader status inner) (refused w).
Definition Write (b : string) (w : redirectRefuser) : redirectRefuser :=
  if refused w then w else mkRefuser (inner_Write b (ResponseWriter w)) (refused w).

(** What a handler does of its response. *)
Inductive response_op := SetHeader (name value : string) | DelHeader (name : string) | DoWriteHeader (status : Z) | DoWrite (b : string).
Definition served_by (w : responseWriter) (op : response_op) : responseWriter :=
  match op with
  | SetHeader name value => set_header (<[name := value]> (header w)) w
  | DelHeader name => set_header (delete name (header w)) w
  | DoWriteHeader status => inner_WriteHeader status w
  | DoWrite b => inner_Write b w
  end.
Definition served_through (w : redirectRefuser) (op : response_op) : redirectRefuser :=
  match op with
  | SetHeader name value => mkRefuser (served_by (ResponseWriter w) op) (refused w)
  | DelHeader name => mkRefuser (served_by (ResponseWriter w) op) (refused w)
  | DoWriteHeader status => WriteHeader status w
  | DoWrite b => Write b w
  end.
Definition new_writer : responseWriter := mkWriter ∅ None "".
(** A handler's response, and the response where its redirects are refused. *)
Definition response (ops : list response_op) : responseWriter := foldl served_by new_writer ops.
Definition noRedirects (ops : list response_op) : responseWriter :=
  ResponseWriter (foldl served_through (mkRefuser new_writer false) ops).

(** ** publish_profile.go *)
Definition databaseURLVariable := "CONTROL_DATABASE_URL".
Definition exitPublished : Z := 0.
Definition exitRefused : Z := 1.
Definition exitUsage : Z := 2.

Definition publishProfileCommand := "publish-profile".
(** The one flag of the subcommand, given as often as there are files. *)
Definition publish_flag (name : string) : option (kind (list string)) :=
  if bool_decide (name = "file") then Some (Func (λ path files, Ok (files ++ [path]))) else None.

(** The files read, the store opened and closed, and what is printed on either output. *)
Inductive commandE : Type → Type :=
| ReadFile (path : string) : commandE (result string)
| OpenStore (url : string) : commandE (result ())
| CloseStore : commandE ()
| PrintFlags : commandE ()
| Out (line : string) : commandE ()
| ErrOut (line : string) : commandE ().

Section command.
Context `{K8s : Kubernetes, SE : !SemanticEquality}.
Context {E : Type → Type} `{!SubEvent commandE E, !SubEvent migrateE E, !SubEvent repoE E}.

Record profileFile := mkProfileFile {
  file_Organization : string; file_Name : string; file_Version : Z; file_Resources : ResourceRequirements;
  file_StorageSize : Quantity; file_StorageClassName : option string; file_WorkspaceStorageSize : option Quantity;
}.
(** [yaml.UnmarshalStrict] of a file's text. *)
Context (UnmarshalStrict : string → result profileFile).

Definition profile_of_file (p : profileFile) : Profile :=
  mkProfile (file_Name p) (file_Version p)
  (mkExecutionSettings (file_Resources p) (file_StorageSize p) (file_StorageClassName p) (file_WorkspaceStorageSize p)).

Definition readProfileFile (path : string) : prog E (result profileFile) :=
  raw ←? call (ReadFile path);
  p ←? lift (UnmarshalStrict raw) wrap (λ err, Wrapf "not a profile file: " err "");
  if bool_decide (file_Organization p = "") || bool_decide (file_Name p = "")
  then mret (Err (Errorf "not a profile file: organization and name are required"))
  else mret (Ok p).

(** Every file read, [None] once one is refused. *)
Fixpoint read_files (files : list string) : prog E (option (list (string * profileFile))) :=
  match files with
  | [] => mret (Some [])
  | path :: files =>
    read ← readProfileFile path;
    match read with
    | Err err => _ ← call (ErrOut (path +:+ ": " +:+ error_text err)); mret None
    | Ok p => profiles ← read_files files; mret (cons (path, p) <$> profiles)
    end
  end.

Definition named (p : profileFile) : string := file_Organization p +:+ "/" +:+ file_Name p.
(** Published in order, until one is refused. *)
Fixpoint publish_each (profiles : list (string * profileFile)) : prog E Z :=
  match profiles with
  | [] => mret exitPublished
  | (path, p) :: profiles =>
    ended ← Service.PublishProfileVersion (file_Organization p) (profile_of_file p);
    match ended with
    | Err err =>
      _ ← call (Out ("refused " +:+ named p +:+ " version " +:+ FormatInt (file_Version p)));
      _ ← call (ErrOut (path +:+ ": " +:+ error_text err));
      mret exitRefused
    | Ok (published, created) =>
      _ ← call (Out ((if created : bool then "published" else "unchanged") +:+ " " +:+ file_Organization p +:+ "/" +:+
        Profile_Name published +:+ " version " +:+ FormatInt (Profile_Version published)));
      publish_each profiles
    end
  end.
Definition publish_opened (profiles : list (string * profileFile)) : prog E Z :=
  current ← RequireCurrentSchema;
  match current with
  | Err err =>
    _ ← call (Out "refused: the database's schema is not this binary's");
    _ ← call (ErrOut (error_text err));
    mret exitRefused
  | Ok _ => publish_each profiles
  end.
Definition publishProfiles (args : list string) (databaseURL : string) : prog E Z :=
  match Parse publish_flag [] args with
  | Help => _ ← call PrintFlags; mret exitUsage
  | Refused => _ ← call PrintFlags; mret exitUsage
  | Parsed files rest =>
    if bool_decide (files = []) || negb (bool_decide (rest = []))
    then _ ← call (ErrOut "usage: control publish-profile --file <profile.yaml> [--file ...]"); mret exitUsage
    else
    profiles ← read_files files;
    match profiles with
    | None => mret exitUsage
    | Some profiles =>
      if bool_decide (databaseURL = "")
      then _ ← call (ErrOut (databaseURLVariable +:+ " is not set")); mret exitUsage
      else
      opened ← call (OpenStore databaseURL);
      match opened with
      | Err err => _ ← call (ErrOut ("open store: " +:+ error_text err)); mret exitRefused
      | Ok _ => code ← publish_opened profiles; _ ← call CloseStore; mret code
      end
    end
  end.
End command.
(** ** main.go *)
Definition garamTokenPath := "/oauth/token".
Definition garamIdentityPath := "/identity".

Record options := mkOptions {
  probeAddr : string; apiAddr : string; apiCertificate : string; apiKey : string; garamURL : string; serverRootFile : string;
  operatorKeys : MachineToken.Files; consoleOrigins : list string;
}.
Definition default_options : options := mkOptions ":8081" ":8080" "" "" "" "" (MachineToken.mkFiles "" "" "") [].
Definition with_keys (f : MachineToken.Files → MachineToken.Files) (o : options) : options :=
  mkOptions (probeAddr o) (apiAddr o) (apiCertificate o) (apiKey o) (garamURL o) (serverRootFile o) (f (operatorKeys o)) (consoleOrigins o).

(** [net/url]'s reading of a URL: its parts, and its text again. *)
Record URL := mkURL {
  URL_Scheme : string; URL_Opaque : string; URL_User : bool; URL_Host : string; URL_Path : string; URL_RawQuery : string;
  URL_Fragment : string; URL_String : string;
}.
Class NetURL := url_Parse : string → result URL.

(** [originHost]: [^([a-z0-9.-]+|\[[0-9a-f:.]+\])(:[0-9]{1,5})?$]. *)
Definition is_host_char (c : ascii) : bool :=
  is_digit c || bool_decide (97 ≤ byte_of c ≤ 122) || Ascii.eqb c "." || Ascii.eqb c "-".
Definition is_address_char (c : ascii) : bool := is_lower_hex c || Ascii.eqb c ":" || Ascii.eqb c ".".
Definition is_port (s : string) : bool :=
  bool_decide (1 ≤ String.length s ≤ 5)%nat && string_forall is_digit s.
Definition originHost (s : string) : bool :=
  match s with
  | String "[" s =>
      let '(address, port, closed) := Cut s "]"%char in
      (closed : bool) && negb (bool_decide (address = "")) && string_forall is_address_char address &&
      match port with EmptyString => true | String ":" port => is_port port | _ => false end
  | _ =>
      let '(host, port, colon) := Cut s ":"%char in
      negb (bool_decide (host = "")) && string_forall is_host_char host && (negb colon || is_port port)
  end.
Definition consoleOrigin `{NetURL} (value : string) : result string :=
  let refused := Err (Errorf (quote value +:+ " is not an origin: want scheme://host[:port] with nothing after it")) in
  match url_Parse value with
  | Err _ => refused
  | Ok u =>
      if (negb (bool_decide (URL_Scheme u = "https")) && negb (bool_decide (URL_Scheme u = "http"))) || negb (originHost (URL_Host u)) ||
         URL_User u || negb (bool_decide (URL_Path u = "")) || negb (bool_decide (URL_RawQuery u = "")) ||
         negb (bool_decide (URL_Fragment u = "")) || negb (bool_decide (URL_Opaque u = "")) || negb (bool_decide (URL_String u = value))
      then refused else Ok value
  end.

(** The flags [main] reads. *)
Definition options_flag `{NetURL} (name : string) : option (kind options) :=
  list_find (λ f, f.1 = name) [
    ("health-probe-bind-address", StringVar (λ v o, mkOptions v (apiAddr o) (apiCertificate o) (apiKey o) (garamURL o)
       (serverRootFile o) (operatorKeys o) (consoleOrigins o)));
    ("api-bind-address", StringVar (λ v o, mkOptions (probeAddr o) v (apiCertificate o) (apiKey o) (garamURL o)
       (serverRootFile o) (operatorKeys o) (consoleOrigins o)));
    ("api-certificate-file", StringVar (λ v o, mkOptions (probeAddr o) (apiAddr o) v (apiKey o) (garamURL o)
       (serverRootFile o) (operatorKeys o) (consoleOrigins o)));
    ("api-key-file", StringVar (λ v o, mkOptions (probeAddr o) (apiAddr o) (apiCertificate o) v (garamURL o)
       (serverRootFile o) (operatorKeys o) (consoleOrigins o)));
    ("garam-machine-url", StringVar (λ v o, mkOptions (probeAddr o) (apiAddr o) (apiCertificate o) (apiKey o) v
       (serverRootFile o) (operatorKeys o) (consoleOrigins o)));
    ("garam-server-root-file", StringVar (λ v o, mkOptions (probeAddr o) (apiAddr o) (apiCertificate o) (apiKey o) (garamURL o)
       v (operatorKeys o) (consoleOrigins o)));
    ("operator-private-key-file", StringVar (λ v, with_keys (λ k,
       MachineToken.mkFiles v (MachineToken.Files_ClientID k) (MachineToken.Files_TokenURL k))));
    ("operator-client-id-file", StringVar (λ v, with_keys (λ k,
       MachineToken.mkFiles (MachineToken.Files_PrivateKey k) v (MachineToken.Files_TokenURL k))));
    ("operator-token-url-file", StringVar (λ v, with_keys (λ k,
       MachineToken.mkFiles (MachineToken.Files_PrivateKey k) (MachineToken.Files_ClientID k) v)));
    ("console-origin", Func (λ value o, origin ← consoleOrigin value;
       Ok (mkOptions (probeAddr o) (apiAddr o) (apiCertificate o) (apiKey o) (garamURL o) (serverRootFile o) (operatorKeys o)
         (consoleOrigins o ++ [origin]))))] ≫= λ '(_, f), Some f.2.

(** What the service starts and waits for: the token kept, each server, the first of them to end or the signal that
    stops the service, and a server drained; and its store asked whether it answers. *)
Inductive serviceE : Type → Type :=
| GoKeep (cfg : MachineToken.Config) : serviceE ()
| GoListenAndServe (addr : string) : serviceE ()
| GoListenAndServeTLS (addr : string) : serviceE ()
| Serving (audience : string) : serviceE ()
| Ended : serviceE (option (string * error))
| Shutdown (addr : string) : serviceE (result ())
| LogStopped (err : error) : serviceE ()
| Ping : serviceE (result ()).

Section service.
Context {pair : Type}.
Context {E : Type → Type} `{!SubEvent commandE E, !SubEvent serviceE E, !SubEvent migrateE E, !SubEvent (Certificate.filesE pair) E,
    !SubEvent MachineToken.sourceE E}.
(** [x509.CertPool.AppendCertsFromPEM] of a file's text: whether it holds a certificate. *)
Context (AppendCertsFromPEM : string → bool).

Definition apiTLSConfig (o : options) : prog E (result (Certificate.Reloader (pair := pair))) :=
  if bool_decide (apiCertificate o = "") || bool_decide (apiKey o = "")
  then mret (Err (Errorf "--api-certificate-file and --api-key-file are both required"))
  else
  reloader ←? Certificate.NewReloader (apiCertificate o) (apiKey o) wrap (λ err, Wrapf "load api certificate: " err "");
  mret (Ok reloader).

Definition garamClient (o : options) : prog E (result (MachineToken.Config * string)) :=
  let keys := operatorKeys o in
  if bool_decide (garamURL o = "") || bool_decide (serverRootFile o = "") || bool_decide (MachineToken.Files_PrivateKey keys = "") ||
  bool_decide (MachineToken.Files_ClientID keys = "") || bool_decide (MachineToken.Files_TokenURL keys = "")
  then mret (Err (Errorf ("--garam-machine-url, --garam-server-root-file, --operator-private-key-file, " +:+
    "--operator-client-id-file and --operator-token-url-file are all required")))
  else
  audience ←? MachineToken.ReadClientID (MachineToken.Files_ClientID keys) wrap (λ err, Wrapf "read this service's operator GRN: " err "");
  root ←? call (ReadFile (serverRootFile o)) wrap (λ err, Wrapf "read garam server root: " err "");
  if negb (AppendCertsFromPEM root) then mret (Err (Errorf "garam server root file holds no certificate"))
  else
  mret (Ok (MachineToken.mkConfig (Machine.TrimSuffix (garamURL o) "/"%char +:+ garamTokenPath) keys "" (Machine.TrimSuffix (garamURL o) "/"%char +:+ garamIdentityPath),
    audience)).

(** The servers drained, in order. *)
Fixpoint shutdown_each (servers : list string) : prog E (result ()) :=
  match servers with
  | [] => mret (Ok tt)
  | addr :: servers =>
    stopped ← call (Shutdown addr);
    match stopped with
    | Err err => if negb (errors_is err ErrServerClosed) then mret (Err (Wrapf ("stop " +:+ addr +:+ ": ") err "")) else shutdown_each servers
    | Ok _ => shutdown_each servers
    end
  end.
(** The service over its store, until a server or the service is stopped. *)
Definition run_opened (o : options) (cfg : MachineToken.Config) (audience : string) : prog E (result ()) :=
  _ ←? Migrate;
  _ ← call (GoKeep cfg);
  _ ← call (GoListenAndServe (probeAddr o));
  _ ← call (GoListenAndServeTLS (apiAddr o));
  _ ← call (Serving audience);
  ended ← call Ended;
  match ended with
  | Some (addr, err) => mret (Err (Wrapf ("serve " +:+ addr +:+ ": ") err ""))
  | None => shutdown_each [probeAddr o; apiAddr o]
  end.
Definition run (o : options) (databaseURL : string) : prog E (result ()) :=
  if bool_decide (databaseURL = "") then mret (Err (Errorf (databaseURLVariable +:+ " is not set")))
  else
  _ ←? apiTLSConfig o;
  '(cfg, audience) ←? garamClient o;
  _ ←? call (OpenStore databaseURL) wrap (λ err, Wrapf "open store: " err "");
  ended ← run_opened o cfg audience;
  _ ← call CloseStore;
  mret ended.

(** The health endpoint's answer: its status and its text. *)
Definition readyz (source : MachineToken.source) : prog E (Z * string) :=
  pinged ← call Ping;
  match pinged with
  | Err _ => mret (503, "store unreachable")
  | Ok _ =>
    checked ← MachineToken.Check_ source;
    match checked with
    | Err _ => mret (503, "garam authentication lost")
    | Ok _ => mret (200, "")
    end
  end.

(** The command: the exit code of its arguments, where it ends. *)
Definition serve_with `{NetURL} (args : list string) (databaseURL : string) : prog E Z :=
  match Parse options_flag default_options args with
  | Help => mret 0
  | Refused => mret 2
  | Parsed o _ =>
    ended ← run o databaseURL;
    match ended with
    | Err err => _ ← call (LogStopped err); mret 1
    | Ok _ => mret 0
    end
  end.
Definition main `{NetURL, Kubernetes, SE : !SemanticEquality, !SubEvent repoE E} (UnmarshalStrict : string → result profileFile)
  (args : list string) (databaseURL : string) : prog E Z :=
  match args with
  | command :: rest =>
    if bool_decide (command = publishProfileCommand) then publishProfiles UnmarshalStrict rest databaseURL else serve_with args databaseURL
  | [] => serve_with args databaseURL
  end.
End service.
End Control.

Module Operator.
Import Control.

(** The variables [main] reads its flags into, in groups, each after its default. *)
Record serverFlags := mkServer { metricsAddr : string; probeAddr : string; enableLeaderElection : bool; secureMetrics
  : bool; webhookCertPath : string; webhookCertName : string; webhookCertKey : string; metricsCertPath : string;
  metricsCertName : string; metricsCertKey : string; enableHTTP2 : bool }.
Record garamFlags := mkGaram { garamAddress : string; garamPrivateKey : string; garamClientID : string; garamTokenURL
  : string; garamTrustFile : string; garamIssuer : string }.
Record controlFlags := mkControl { controlAddress : string; controlTrustFile : string; controlGRN : string }.
Record agentFlags := mkAgent { agentImage : string; agentCopyImage : string; agentWorkspaceImage : string;
  agentAdapterImage : string }.
Record flags := mkFlags { server : serverFlags; garam : garamFlags; control : controlFlags; agent : agentFlags }.
Definition default_flags : flags := mkFlags (mkServer "0" ":8081" false true "" "tls.crt" "tls.key" "" "tls.crt"
  "tls.key" false) (mkGaram "" "" "" "" "" "") (mkControl "" "" "") (mkAgent "" "" "" "").
Definition with_server (f : serverFlags → serverFlags) (x : flags) : flags := mkFlags (f (server x)) (garam x) (control x) (agent x).
Definition with_garam (f : garamFlags → garamFlags) (x : flags) : flags := mkFlags (server x) (f (garam x)) (control x) (agent x).
Definition with_control (f : controlFlags → controlFlags) (x : flags) : flags := mkFlags (server x) (garam x) (f (control x)) (agent x).
Definition with_agent (f : agentFlags → agentFlags) (x : flags) : flags := mkFlags (server x) (garam x) (control x) (f (agent x)).
Definition flag_table : list (string * kind flags) := [
  ("metrics-bind-address", StringVar (λ v, with_server (λ x, mkServer v (probeAddr x) (enableLeaderElection x)
     (secureMetrics x) (webhookCertPath x) (webhookCertName x) (webhookCertKey x) (metricsCertPath x) (metricsCertName
     x) (metricsCertKey x) (enableHTTP2 x))));
  ("health-probe-bind-address", StringVar (λ v, with_server (λ x, mkServer (metricsAddr x) v (enableLeaderElection x)
     (secureMetrics x) (webhookCertPath x) (webhookCertName x) (webhookCertKey x) (metricsCertPath x) (metricsCertName
     x) (metricsCertKey x) (enableHTTP2 x))));
  ("leader-elect", BoolVar (λ v, with_server (λ x, mkServer (metricsAddr x) (probeAddr x) v (secureMetrics x)
     (webhookCertPath x) (webhookCertName x) (webhookCertKey x) (metricsCertPath x) (metricsCertName x)
     (metricsCertKey x) (enableHTTP2 x))));
  ("metrics-secure", BoolVar (λ v, with_server (λ x, mkServer (metricsAddr x) (probeAddr x) (enableLeaderElection x) v
     (webhookCertPath x) (webhookCertName x) (webhookCertKey x) (metricsCertPath x) (metricsCertName x)
     (metricsCertKey x) (enableHTTP2 x))));
  ("webhook-cert-path", StringVar (λ v, with_server (λ x, mkServer (metricsAddr x) (probeAddr x) (enableLeaderElection
     x) (secureMetrics x) v (webhookCertName x) (webhookCertKey x) (metricsCertPath x) (metricsCertName x)
     (metricsCertKey x) (enableHTTP2 x))));
  ("webhook-cert-name", StringVar (λ v, with_server (λ x, mkServer (metricsAddr x) (probeAddr x) (enableLeaderElection
     x) (secureMetrics x) (webhookCertPath x) v (webhookCertKey x) (metricsCertPath x) (metricsCertName x)
     (metricsCertKey x) (enableHTTP2 x))));
  ("webhook-cert-key", StringVar (λ v, with_server (λ x, mkServer (metricsAddr x) (probeAddr x) (enableLeaderElection
     x) (secureMetrics x) (webhookCertPath x) (webhookCertName x) v (metricsCertPath x) (metricsCertName x)
     (metricsCertKey x) (enableHTTP2 x))));
  ("metrics-cert-path", StringVar (λ v, with_server (λ x, mkServer (metricsAddr x) (probeAddr x) (enableLeaderElection
     x) (secureMetrics x) (webhookCertPath x) (webhookCertName x) (webhookCertKey x) v (metricsCertName x)
     (metricsCertKey x) (enableHTTP2 x))));
  ("metrics-cert-name", StringVar (λ v, with_server (λ x, mkServer (metricsAddr x) (probeAddr x) (enableLeaderElection
     x) (secureMetrics x) (webhookCertPath x) (webhookCertName x) (webhookCertKey x) (metricsCertPath x) v
     (metricsCertKey x) (enableHTTP2 x))));
  ("metrics-cert-key", StringVar (λ v, with_server (λ x, mkServer (metricsAddr x) (probeAddr x) (enableLeaderElection
     x) (secureMetrics x) (webhookCertPath x) (webhookCertName x) (webhookCertKey x) (metricsCertPath x)
     (metricsCertName x) v (enableHTTP2 x))));
  ("enable-http2", BoolVar (λ v, with_server (λ x, mkServer (metricsAddr x) (probeAddr x) (enableLeaderElection x)
     (secureMetrics x) (webhookCertPath x) (webhookCertName x) (webhookCertKey x) (metricsCertPath x) (metricsCertName
     x) (metricsCertKey x) v)));
  ("garam-address", StringVar (λ v, with_garam (λ x, mkGaram v (garamPrivateKey x) (garamClientID x) (garamTokenURL x)
     (garamTrustFile x) (garamIssuer x))));
  ("garam-private-key-file", StringVar (λ v, with_garam (λ x, mkGaram (garamAddress x) v (garamClientID x)
     (garamTokenURL x) (garamTrustFile x) (garamIssuer x))));
  ("garam-client-id-file", StringVar (λ v, with_garam (λ x, mkGaram (garamAddress x) (garamPrivateKey x) v
     (garamTokenURL x) (garamTrustFile x) (garamIssuer x))));
  ("garam-token-url-file", StringVar (λ v, with_garam (λ x, mkGaram (garamAddress x) (garamPrivateKey x)
     (garamClientID x) v (garamTrustFile x) (garamIssuer x))));
  ("garam-trust-file", StringVar (λ v, with_garam (λ x, mkGaram (garamAddress x) (garamPrivateKey x) (garamClientID x)
     (garamTokenURL x) v (garamIssuer x))));
  ("garam-issuer", StringVar (λ v, with_garam (λ x, mkGaram (garamAddress x) (garamPrivateKey x) (garamClientID x)
     (garamTokenURL x) (garamTrustFile x) v)));
  ("control-address", StringVar (λ v, with_control (λ x, mkControl v (controlTrustFile x) (controlGRN x))));
  ("control-trust-file", StringVar (λ v, with_control (λ x, mkControl (controlAddress x) v (controlGRN x))));
  ("control-grn", StringVar (λ v, with_control (λ x, mkControl (controlAddress x) (controlTrustFile x) v)));
  ("agent-image", StringVar (λ v, with_agent (λ x, mkAgent v (agentCopyImage x) (agentWorkspaceImage x)
     (agentAdapterImage x))));
  ("agent-copy-image", StringVar (λ v, with_agent (λ x, mkAgent (agentImage x) v (agentWorkspaceImage x)
     (agentAdapterImage x))));
  ("agent-workspace-image", StringVar (λ v, with_agent (λ x, mkAgent (agentImage x) (agentCopyImage x) v
     (agentAdapterImage x))));
  ("agent-adapter-image", StringVar (λ v, with_agent (λ x, mkAgent (agentImage x) (agentCopyImage x)
     (agentWorkspaceImage x) v)))].

(** The manager controller-runtime is asked for. *)
Record managerOptions := mkManagerOptions {
  metrics_BindAddress : string; metrics_SecureServing : bool; metrics_filtered : bool; metrics_cert : option (string * string * string);
  webhook_cert : option (string * string * string); http2 : bool; HealthProbeBindAddress : string;
  LeaderElection : bool; LeaderElectionID : string;
}.
Definition cert_of (path name key : string) : option (string * string * string) :=
  if bool_decide (path = "") then None else Some (path, name, key).
Definition manager_options (s : serverFlags) : managerOptions :=
  mkManagerOptions (metricsAddr s) (secureMetrics s) (secureMetrics s) (cert_of (metricsCertPath s) (metricsCertName s) (metricsCertKey s))
    (cert_of (webhookCertPath s) (webhookCertName s) (webhookCertKey s)) (enableHTTP2 s) (probeAddr s) (enableLeaderElection s)
    "b97af7b3.garam.sh".

(** What the manager runs beside the controller: a source's token kept, and each of the loops of the desired state. *)
Inductive runnable :=
| KeepToken (cfg : MachineToken.Config)
| PullDesired (address namespace image : string) (presented : MachineToken.Config)
| RefreshTokens (address namespace controlGRN : string) (presented : MachineToken.Config)
| RecoverCredentials (address namespace : string) (presented : MachineToken.Config)
| RegisterPlacements (address namespace : string) (presented : MachineToken.Config)
| ReportImages (address namespace pod : string) (images : list Desired.Image) (presented : MachineToken.Config).

(** What [main] asks of the manager and of its environment. *)
Inductive setupE : Type → Type :=
| GetConfig : setupE (result ())
| NewManager (o : managerOptions) : setupE (result ())
| SetupWithManager (r : Fence.AgentReconciler) : setupE (result ())
| Add (r : runnable) : setupE (result ())
| AddReadyzCheck (name : string) : setupE (result ())
| AddHealthzCheck (name : string) : setupE (result ())
| Start : setupE (result ())
| ReadTrust (path : string) : setupE (result string)
| Getenv (name : string) : setupE string
| Info (line : string) : setupE ().

Definition podNamespaceVariable := "POD_NAMESPACE".
Definition podNameVariable := "POD_NAME".

Section setup.
Context {E : Type → Type} `{!SubEvent setupE E}.
(** [x509.CertPool.AppendCertsFromPEM] of a file's text. *)
Context (AppendCertsFromPEM : string → bool).
Implicit Types (f : flags).

(** An error logged under a line ends the command: it is the error wrapped with the line. *)
Definition failed (line : string) (err : error) : error := Wrapf (line +:+ ": ") err "".
Definition told (line : string) (said : bool) : prog E () := if said then call (Info line) else mret tt.

Definition ServerTLS (trustFile : string) : prog E (result ()) :=
  trusted ←? call (ReadTrust trustFile) wrap (λ err, Wrapf "read the file garam is verified against: " err "");
  if negb (AppendCertsFromPEM trusted)
  then mret (Err (Errorf (trustFile +:+ " holds no PEM certificate for garam to be verified against")))
  else mret (Ok tt).

Definition reconciler f : Fence.AgentReconciler :=
  Fence.mkReconciler (agentCopyImage (agent f)) (agentWorkspaceImage (agent f)) (agentAdapterImage (agent f)) (garamAddress (garam f))
  (garamIssuer (garam f)) (controlAddress (control f)) (controlTrustFile (control f)).

Definition new_manager f : prog E (result ()) :=
  _ ← told "Initializing webhook certificate watcher using provided certificates" (negb (bool_decide (webhookCertPath (server f) = "")));
  _ ← told "Initializing metrics certificate watcher using provided certificates" (negb (bool_decide (metricsCertPath (server f) = "")));
  _ ←? call GetConfig;
  _ ←? call (NewManager (manager_options (server f))) wrap failed "Failed to start manager";
  mret (Ok tt).

(** Whether agents are built with no adapter. *)
Definition no_adapter f : bool :=
  bool_decide (agentAdapterImage (agent f) = "") || bool_decide (garamAddress (garam f) = "") || bool_decide (controlAddress (control f) = "").
Definition setup_controller f : prog E (result ()) :=
  if bool_decide (agentCopyImage (agent f) = "")
  then mret (Err (failed "Failed to configure the workload an Agent is built into" (Errorf "agent-copy-image is required")))
  else
  _ ← told ("Building agents with no workspace: agent-workspace-image is unset, so their file and exec tools will fail on a connection error")
  (bool_decide (agentWorkspaceImage (agent f) = ""));
  _ ← told ("Building agents with no adapter: agent-adapter-image, garam-address or control-address is unset, so garam delivers them no message")
  (no_adapter f);
  _ ← told ("Rendering no issuer: garam-issuer is set, but agents are built with no adapter to sign their messages")
  (negb (bool_decide (garamIssuer (garam f) = "")) && no_adapter f);
  _ ←? call (SetupWithManager (reconciler f)) wrap failed "Failed to create controller";
  mret (Ok tt).

(** Whether a flag of this operator's identity at garam is unset. *)
Definition no_identity f : bool :=
  let g := garam f in
  bool_decide (garamAddress g = "") || bool_decide (garamTrustFile g = "") || bool_decide (garamPrivateKey g = "") ||
  bool_decide (garamClientID g = "") || bool_decide (garamTokenURL g = "").
Definition setup_garam f : prog E (result ()) :=
  if bool_decide (controlAddress (control f) = "") then mret (Ok tt)
  else if no_identity f
  then mret (Err (failed "Failed to configure this operator's garam identity" (Errorf
    ("garam-address, garam-trust-file, garam-private-key-file, garam-client-id-file " +:+
      "and garam-token-url-file are all required where control-address is set"))))
  else
  _ ←? ServerTLS (garamTrustFile (garam f)) wrap failed "Failed to configure the connection to garam";
  mret (Ok tt).

Definition source_config f (audience : string) : MachineToken.Config :=
  let g := garam f in
  MachineToken.mkConfig ("https://" +:+ garamAddress g +:+ garamTokenPath)
  (MachineToken.mkFiles (garamPrivateKey g) (garamClientID g) (garamTokenURL g)) audience
  (if bool_decide (audience = "") then "https://" +:+ garamAddress g +:+ garamIdentityPath else "").
(** A source of a token for an audience: kept by the manager, which is not ready while it cannot be. *)
Definition tokenSource f (audience label : string) : prog E (result MachineToken.Config) :=
  _ ←? call (Add (KeepToken (source_config f audience))) wrap failed "Failed to keep a garam token";
  _ ←? call (AddReadyzCheck (label +:+ "-authentication")) wrap failed "Failed to set up the authentication check";
  mret (Ok (source_config f audience)).

(** What the operator runs for the control service, once all it needs is set. *)
Definition add_loops f (namespace : string) : prog E (result ()) :=
  let address := controlAddress (control f) in
  controlSource ←? tokenSource f (controlGRN (control f)) "control";
  _ ←? call (Add (PullDesired address namespace (agentImage (agent f)) controlSource)) wrap failed "Failed to add the desired-state puller";
  garamSource ←? tokenSource f "" "garam";
  _ ←? call (Add (RefreshTokens (garamAddress (garam f)) namespace (controlGRN (control f)) garamSource)) wrap
  failed "Failed to add the token refresher";
  _ ←? call (Add (RecoverCredentials address namespace controlSource)) wrap failed "Failed to add the managed-credential recoverer";
  _ ←? call (Add (RegisterPlacements address namespace controlSource)) wrap failed "Failed to add the placement registrar";
  pod ← call (Getenv podNameVariable);
  _ ←? call (Add (ReportImages address namespace pod (Desired.ConfiguredImages (agentImage (agent f)) (agentAdapterImage (agent f))
    (agentCopyImage (agent f)) (agentWorkspaceImage (agent f))) controlSource)) wrap failed "Failed to add the image reporter";
  mret (Ok tt).
Definition setup_control f : prog E (result ()) :=
  if bool_decide (controlAddress (control f) = "")
  then _ ← call (Info "Building no agents and pulling no desired state: control-address is unset"); mret (Ok tt)
  else if bool_decide (controlGRN (control f) = "")
  then mret (Err (failed "Failed to configure the connection to the control service" (Errorf "control-grn is required where control-address is set")))
  else
  _ ←? ServerTLS (controlTrustFile (control f)) wrap failed "Failed to configure the connection to the control service";
  namespace ← call (Getenv podNamespaceVariable);
  if bool_decide (namespace = "")
  then mret (Err (failed "Failed to name the namespace this operator writes in" (Errorf (podNamespaceVariable +:+ " is unset"))))
  else if bool_decide (agentImage (agent f) = "")
  then mret (Err (failed "Failed to render agents" (Errorf "agent-image is required where control-address is set")))
  else add_loops f namespace.

Definition start : prog E (result ()) :=
  _ ←? call (AddHealthzCheck "healthz") wrap failed "Failed to set up health check";
  _ ←? call (AddReadyzCheck "readyz") wrap failed "Failed to set up ready check";
  _ ← call (Info "Starting manager");
  _ ←? call Start wrap failed "Failed to run manager";
  mret (Ok tt).
(** Everything [main] does of its flags: an error ends it with code 1. *)
Definition run_flags f : prog E (result ()) :=
  _ ←? new_manager f;
  _ ←? setup_controller f;
  _ ←? setup_garam f;
  _ ←? setup_control f;
  start.

(** The flags the logger and controller-runtime read beside these. *)
Context {library : Type} (library_flag : string → option (kind library)) (library_defaults : library).
Definition in_flags (k : kind flags) : kind (flags * library) :=
  match k with
  | StringVar set => StringVar (λ v x, (set v x.1, x.2))
  | BoolVar set => BoolVar (λ v x, (set v x.1, x.2))
  | Func set => Func (λ v x, f ← set v x.1; Ok (f, x.2))
  end.
Definition in_library (k : kind library) : kind (flags * library) :=
  match k with
  | StringVar set => StringVar (λ v x, (x.1, set v x.2))
  | BoolVar set => BoolVar (λ v x, (x.1, set v x.2))
  | Func set => Func (λ v x, l ← set v x.2; Ok (x.1, l))
  end.
Definition operator_flag (name : string) : option (kind (flags * library)) :=
  match list_find (λ entry, entry.1 = name) flag_table with
  | Some (_, entry) => Some (in_flags entry.2)
  | None => in_library <$> library_flag name
  end.
Definition manager_main (args : list string) : prog E Z :=
  match Parse operator_flag (default_flags, library_defaults) args with
  | Help => mret 0
  | Refused => mret 2
  | Parsed f _ =>
    ended ← run_flags f.1;
    mret match ended with Ok _ => 0 | Err _ => 1 end
  end.
End setup.
End Operator.

(** ** hack/imageref *)
Module ImageReference.

(** [github.com/distribution/reference]: a reference's path, and the tag it has. *)
Class ReferenceParser := { named : Type; ParseNormalizedNamed : string → result named; Path : named → string; Tag : named → option string }.

Definition publishingRepository := "garam-agent-operator/".
Definition releaseWorkflow := "garamsh/garam-agent-operator/.github/workflows/release.yml@refs/tags/v".

(** [0|[1-9][0-9]*]. *)
Definition number (s : string) : bool :=
  match s with
  | EmptyString => false
  | String "0" rest => bool_decide (rest = "")
  | _ => string_forall is_digit s
  end.
Definition releaseVersion (s : string) : bool :=
  match split_on "."%char s with [major; minor; patch] => number major && number minor && number patch | _ => false end.
Definition commitHash (s : string) : bool := bool_decide (String.length s = 12%nat) && string_forall is_lower_hex s.

Section check.
Context `{RP : ReferenceParser}.
Definition check (ref workflowRef : string) : result string :=
  match ParseNormalizedNamed ref with
  | Err err => Err (Errorf ("not an image reference: " +:+ error_text err))
  | Ok named =>
    let path := Path named in
    match CutPrefix path publishingRepository with
    | None => Ok ("not under " +:+ publishingRepository +:+ ", so no rule applies")
    | Some _ =>
      let tag := default "" (Tag named) in
      if releaseVersion tag
      then if bool_decide (workflowRef = releaseWorkflow +:+ tag) then Ok "a release, pushed by the release workflow"
      else Err (Errorf ("an X.Y.Z tag is pushed only by .github/workflows/release.yml in its run for " +:+
        "vX.Y.Z (ADR 0078); push a development image as " +:+ path +:+ ":<12-hex commit hash> instead"))
      else if commitHash tag then Ok "a development image"
      else Err (Errorf ("a tag under " +:+ publishingRepository +:+ " is a release's X.Y.Z or a development image's 12-hex commit " +:+
        "hash alone, with no dev- prefix (ADR 0078), not " +:+ quote tag +:+ "; push " +:+ path +:+ ":<12-hex commit hash> instead"))
    end
  end.

(** The exit code, and what is printed on the output or, where it is refused, on the error output. *)
Definition check_run (args : list string) (workflowRef : string) : Z * (string + string) :=
  match args with
  | [ref] =>
    if bool_decide (ref = "") then (1, inr "image reference: pass exactly one reference to check")
    else match check ref workflowRef with
    | Err err => (1, inr ("image reference: " +:+ ref +:+ ": " +:+ error_text err))
    | Ok verdict => (0, inl ("image reference: " +:+ ref +:+ ": " +:+ verdict))
    end
  | _ => (1, inr "image reference: pass exactly one reference to check")
  end.
End check.
End ImageReference.

(** ** What the commands do *)
Module CommandsSpec.
Import Control.

(** *** The redirects *)
Definition is_redirect (status : Z) : bool := bool_decide (300 ≤ status) && bool_decide (status < 400).
Definition not_found_body : string := Encoded (JObject [("message", JString "not found")]).
(** A handler that writes no redirect over a response it began. *)
Definition redirects_first (ops : list response_op) : Prop :=
  ∀ pre status post, ops = pre ++ DoWriteHeader status :: post → is_redirect status = true → sent (response pre) = None.

Lemma response_snoc ops op : response (ops ++ [op]) = served_by (response ops) op.
Proof. unfold response. by rewrite foldl_app. Qed.
Definition refused_response ops : redirectRefuser := foldl served_through (mkRefuser new_writer false) ops.
Lemma refused_snoc ops op : refused_response (ops ++ [op]) = served_through (refused_response ops) op.
Proof. unfold refused_response. by rewrite foldl_app. Qed.

(** The headers a redirect is refused under. *)
Definition refused_headers (h : gmap string string) : gmap string string :=
  <["Content-Type" := "application/json"]> (delete "Location" h).

(** The response and the one refused, as far as the handler has come. *)
Definition alike (w : responseWriter) (v : redirectRefuser) : Prop :=
  match sent w with
  | Some (status, h) =>
      if is_redirect status
      then refused v = true ∧ sent (ResponseWriter v) = Some (404, refused_headers h) ∧ body (ResponseWriter v) = not_found_body
      else refused v = false ∧ ResponseWriter v = w
  | None => refused v = false ∧ ResponseWriter v = w ∧ body w = ""
  end.

Lemma informational_no_redirect status : is_redirect status = true → is_informational status = false.
Proof.
  unfold is_redirect, is_informational. intros [H1%bool_decide_eq_true H2%bool_decide_eq_true]%andb_prop.
  rewrite (bool_decide_false (100 ≤ status ≤ 199)) by lia. done.
Qed.

Lemma alike_header ops h : alike (response ops) (refused_response ops) →
  ∀ op, (op = DelHeader h ∨ ∃ value, op = SetHeader h value) →
  alike (served_by (response ops) op) (served_through (refused_response ops) op).
Proof.
  intros Ha op Hop. unfold alike in *.
  assert (sent (served_by (response ops) op) = sent (response ops)) as Hsent by (by destruct Hop as [->|[value ->]]). rewrite Hsent. clear Hsent.
  destruct (sent (response ops)) as [[status hs]|]; [case_match|].
  1: destruct Ha as (Hr & Hs & Hb).
  2: destruct Ha as (Hr & Hw).
  3: destruct Ha as (Hr & Hw & Hb).
  all: destruct Hop as [->|[value ->]]; cbn; rewrite ?Hw; by split_and!.
Qed.
Lemma sent_Write b w s : sent w = Some s → sent (inner_Write b w) = Some s.
Proof.
  intros Hs. unfold inner_Write, inner_WriteHeader. rewrite Hs. cbn. rewrite Hs. cbn. by destruct (body_allowed _).
Qed.
Lemma first_Write b w : sent w = None → inner_Write b w = mkWriter (header w) (Some (200, header w)) (body w +:+ b).
Proof. intros Hs. unfold inner_Write, inner_WriteHeader. by rewrite Hs. Qed.
Lemma alike_step ops op : alike (response ops) (refused_response ops) →
  (∀ status, op = DoWriteHeader status → is_redirect status = true → sent (response ops) = None) →
  alike (served_by (response ops) op) (served_through (refused_response ops) op).
Proof.
  intros Ha Hop. destruct op as [name value|name|status|b].
  - apply (alike_header ops name); [done|right; by exists value].
  - apply (alike_header ops name); [done|by left].
  - specialize (Hop status eq_refl). fold (is_redirect status) in *. cbn [served_by served_through]. unfold WriteHeader.
    fold (is_redirect status). unfold alike in *. destruct (is_redirect status) eqn:Hr.
    + rewrite (Hop eq_refl) in Ha. destruct Ha as (_ & Hw & Hb). unfold inner_WriteHeader at 1. rewrite (Hop eq_refl).
      rewrite informational_no_redirect by done. cbn [sent]. rewrite Hr. cbn. rewrite Hw.
      unfold inner_Write, inner_WriteHeader, set_header. cbn. rewrite (Hop eq_refl). cbn. by rewrite Hb.
    + unfold inner_WriteHeader at 1 2. destruct (sent (response ops)) as [[status' h]|] eqn:Hs.
      * rewrite Hs. destruct (is_redirect status'); [|destruct Ha as [? Hw]; rewrite Hw; unfold inner_WriteHeader; by rewrite Hs].
        destruct Ha as (? & Hv & ?). cbn. unfold inner_WriteHeader. by rewrite Hv.
      * destruct Ha as (? & Hw & Hb). cbn. rewrite Hw. unfold inner_WriteHeader. rewrite Hs.
        destruct (is_informational status); [rewrite Hs|cbn; rewrite Hr]; by split_and!.
  - cbn [served_by served_through]. unfold Write. unfold alike in *.
    destruct (sent (response ops)) as [[status' h]|] eqn:Hs.
    + rewrite (sent_Write b _ _ Hs). destruct (is_redirect status').
      * destruct Ha as (Hv & ? & ?). by rewrite Hv.
      * destruct Ha as (Hv & Hw). by rewrite Hv, Hw.
    + destruct Ha as (Hv & Hw & Hb). rewrite (first_Write b _ Hs). cbn. by rewrite Hv, Hw, (first_Write b _ Hs).
Qed.

Lemma never_redirected ops status h : sent (noRedirects ops) = Some (status, h) → is_redirect status = false.
Proof.
  change (noRedirects ops) with (ResponseWriter (refused_response ops)). revert status h.
  assert (∀ status w, is_redirect status = false → (∀ s h, sent w = Some (s, h) → is_redirect s = false) →
    ∀ s h, sent (inner_WriteHeader status w) = Some (s, h) → is_redirect s = false) as Hsend.
  { intros status w Hr Hw s h. unfold inner_WriteHeader. destruct (sent w) as [x|] eqn:Hs; [rewrite Hs; by apply Hw|].
    destruct (is_informational status); [by rewrite Hs|]. by intros [= <- _]. }
  assert (∀ b w, (∀ s h, sent w = Some (s, h) → is_redirect s = false) →
    ∀ s h, sent (inner_Write b w) = Some (s, h) → is_redirect s = false) as Hwrite.
  { intros b w Hw s h. unfold inner_Write. destruct (from_option _ _ _); cbn; by apply Hsend. }
  induction ops as [|op ops IH] using rev_ind; [done|]. rewrite refused_snoc.
  destruct op as [name value|name|status|b]; cbn; try exact IH.
  - unfold WriteHeader. fold (is_redirect status). destruct (is_redirect status) eqn:Hr; cbn; [|by apply Hsend].
    apply Hwrite, Hsend; [done|exact IH].
  - unfold Write. destruct (refused _); [exact IH|]. cbn. by apply Hwrite.
Qed.

(** Whatever a handler does of its response, no redirect of its is sent. Where it writes one over no response begun, it has the 404 of no route sent in the redirect's place, its headers less the Location, whatever it writes after; one that
writes none has its response sent as it wrote it. *)
Theorem noRedirects_response ops :
  (∀ status h, sent (noRedirects ops) = Some (status, h) → is_redirect status = false) ∧
  (redirects_first ops →
  match sent (response ops) with
  | Some (status, h) =>
      if is_redirect status
      then sent (noRedirects ops) = Some (404, refused_headers h) ∧ refused_headers h !! "Location" = None ∧
           body (noRedirects ops) = not_found_body
      else noRedirects ops = response ops
  | None => noRedirects ops = response ops
  end).
Proof.
  split; [intros status h; apply never_redirected|]. intros Hf. assert (alike (response ops) (refused_response ops)) as Ha.
  { induction ops as [|op ops IH] using rev_ind; [by split_and!|].
    rewrite response_snoc, refused_snoc. apply alike_step.
    - apply IH. intros pre status post -> Hr. apply (Hf pre status (post ++ [op])); [by rewrite <- app_assoc|done].
    - intros status -> Hr. by apply (Hf ops status []). }
  unfold alike in Ha. change (noRedirects ops) with (ResponseWriter (refused_response ops)).
  destruct (sent (response ops)) as [[status h]|]; [|by destruct Ha as (_ & -> & _)].
  destruct (is_redirect status); [|by destruct Ha]. destruct Ha as (_ & -> & ->). split_and!; try done.
  unfold refused_headers. rewrite lookup_insert_ne by done. apply lookup_delete_eq.
Qed.
(** What [http.ServeMux] does of a path it would clean. *)
Lemma noRedirects_response_witness :
  redirects_first [SetHeader "Location" "/v1/orgs/o"; DoWriteHeader 301; DoWrite "Moved Permanently"] ∧
  sent (noRedirects [SetHeader "Location" "/v1/orgs/o"; DoWriteHeader 301; DoWrite "Moved Permanently"]) =
    Some (404, {["Content-Type" := "application/json"]}).
Proof.
  assert (redirects_first [SetHeader "Location" "/v1/orgs/o"; DoWriteHeader 301; DoWrite "Moved Permanently"]) as Hf.
  { intros pre status post Hops _. do 3 (destruct pre as [|? pre]; [by try injection Hops as; subst|injection Hops as <- Hops]). by destruct pre. }
  split; [done|]. exact (proj1 (proj2 (noRedirects_response _) Hf)).
Defined.

(** *** Publishing profiles *)
Section publish.
Context `{K8s : Kubernetes, SE : !SemanticEquality}.
Context (UnmarshalStrict : string → result profileFile) (args : list string) (databaseURL : string).
Abbreviation calls := ((commandE +' migrateE) +' repoE).
Implicit Types (h : list (event calls)) (wanted : list (string * Profile)).

(** The files read so far, and the profile versions the store was given, each with whether it took it. *)
Definition read_of (ev : event calls) : option (string * string) :=
  match ev with @Ev _ X e x =>
    match e with
    | InL (InL e) =>
      match e in commandE X return X → option (string * string) with
      | ReadFile path => λ x, match x with Ok text => Some (path, text) | Err _ => None end
      | _ => λ _, None
      end x
    | _ => None
    end end.
Definition files_read h : list (string * string) := reverse (omap read_of h).
Definition publication_of (ev : event calls) : option ((string * Profile) * bool) :=
  match ev with @Ev _ X e x =>
    match e with
    | InR e =>
      match e in repoE X return X → option ((string * Profile) * bool) with
      | PublishProfileVersion org p => λ x, Some ((org, p), match x with Ok _ => true | Err _ => false end)
      | _ => λ _, None
      end x
    | _ => None
    end end.
Definition publications h : list ((string * Profile) * bool) := reverse (omap publication_of h).

(** What a file's text asks for. *)
Definition profile_text (file : string * string) : option (string * Profile) :=
  match UnmarshalStrict file.2 with
  | Ok p => if bool_decide (file_Organization p = "") || bool_decide (file_Name p = "") then None
    else Some (file_Organization p, profile_of_file p)
  | Err _ => None
  end.
(** Every file of the command line is read, in order, and asks for these. *)
Definition gathered h wanted : Prop :=
  Parse publish_flag [] args = Parsed (files_read h).*1 [] ∧ Forall2 (λ file w, profile_text file = Some w) (files_read h) wanted.
Definition schema_current h : Prop := ∃ v, Ev (InL (InR ReadSchemaVersion)) (Ok (v, false)) ∈ h ∧ uint v = 3.
Definition all_taken wanted : list ((string * Profile) * bool) := (λ w, (w, true)) <$> wanted.

(** When the store is opened, and when it is given a profile version: nothing else is asked of it. *)
Definition publish_call h X (e : calls X) : Prop :=
  match e with
  | InL (InL (OpenStore url)) => url = databaseURL ∧ databaseURL ≠ "" ∧ publications h = [] ∧ ∃ wanted, gathered h wanted
  | InL (InL _) => True
  | InL (InR e) => match e with ReadSchemaVersion => True | _ => False end
  | InR (PublishProfileVersion org p) =>
    schema_current h ∧ ∃ wanted n, gathered h wanted ∧ wanted !! n = Some (org, p) ∧ publications h = all_taken (take n wanted)
  | InR _ => False
  end.
(** How it ends. *)
Definition publish_ended h (code : Z) : Prop :=
  code = exitPublished ∧ (∃ wanted, gathered h wanted ∧ publications h = all_taken wanted ∧ schema_current h) ∨
  code = exitRefused ∧ (∃ wanted n, gathered h wanted ∧ (n < length wanted)%nat ∧ (publications h = all_taken (take n wanted) ∨
    ∃ w, wanted !! n = Some w ∧ publications h = all_taken (take n wanted) ++ [(w, false)])) ∨
  code = exitUsage ∧ publications h = [].

Lemma files_read_cons ev h : files_read (ev :: h) = files_read h ++ option_list (read_of ev).
Proof.
  unfold files_read. change (omap read_of (ev :: h)) with (match read_of ev with Some x => x :: omap read_of h | None => omap read_of h end).
  destruct (read_of ev); cbn [option_list]; by rewrite ?reverse_cons, ?app_nil_r.
Qed.
Lemma publications_cons ev h : publications (ev :: h) = publications h ++ option_list (publication_of ev).
Proof.
  unfold publications.
  change (omap publication_of (ev :: h)) with (match publication_of ev with Some x => x :: omap publication_of h | None => omap publication_of h end).
  destruct (publication_of ev); cbn [option_list]; by rewrite ?reverse_cons, ?app_nil_r.
Qed.
Lemma gathered_other ev h wanted : read_of ev = None → gathered h wanted → gathered (ev :: h) wanted.
Proof. intros Hr. unfold gathered. rewrite files_read_cons, Hr. cbn [option_list]. by rewrite app_nil_r. Qed.
Lemma publications_other ev h : publication_of ev = None → publications (ev :: h) = publications h.
Proof. intros Hp. rewrite publications_cons, Hp. apply app_nil_r. Qed.

Lemma schema_other ev h : schema_current h → schema_current (ev :: h).
Proof. intros (v & Hv & Hu). exists v. split; [by right|done]. Qed.
Lemma publish_ended_other ev h code : read_of ev = None → publication_of ev = None → publish_ended h code → publish_ended (ev :: h) code.
Proof.
  intros Hr Hp [(-> & w & Hg & Hw & Hs)|[(-> & w & n & Hg & Hn & Hw)|[-> Hw]]].
  - left. split; [done|]. exists w. rewrite publications_other by done. split_and!; [by apply gathered_other|done|by apply schema_other].
  - right. left. split; [done|]. exists w, n. rewrite publications_other by done. by split_and!; [apply gathered_other| |].
  - right. right. by rewrite publications_other.
Qed.

Lemma read_files_safe files h wanted : publications h = [] → Forall2 (λ file w, profile_text file = Some w) (files_read h) wanted →
  safe publish_call (λ h' r, publications h' = [] ∧ match r with
  | Some profiles => (files_read h').*1 = (files_read h).*1 ++ files ∧
    Forall2 (λ file w, profile_text file = Some w) (files_read h') (wanted ++ ((λ p, (file_Organization p.2, profile_of_file p.2)) <$> profiles))
  | None => True end) h (read_files UnmarshalStrict files).
Proof.
  revert h wanted. induction files as [|path files IH]; intros h wanted Hp Hw; cbn [read_files].
  { split; [done|]. by rewrite !app_nil_r. }
  unfold readProfileFile, try_bind, try_wrap, lift. split; [done|]. intros [text|err]; cbn.
  2: { split; [done|]. intros []. by split. }
  destruct (UnmarshalStrict text) as [p|err] eqn:Hu; cbn.
  2: { split; [done|]. intros []. by split. }
  destruct (bool_decide (file_Organization p = "") || bool_decide (file_Name p = "")) eqn:Hnone; cbn.
  { split; [done|]. intros []. by split. }
  set (h' := Ev _ (Ok text) :: h).
  assert (files_read h' = files_read h ++ [(path, text)]) as Hh' by apply files_read_cons.
  assert (publications h' = []) as Hp' by by (unfold h'; rewrite publications_other). clearbody h'.
  rewrite safe_bind. eapply safe_mono; [|apply (IH h' (wanted ++ [(file_Organization p, profile_of_file p)]))].
  - cbn. intros h1 [profiles|] [Hp1 Hr]; cbn; [|done]. split; [done|]. destruct Hr as [H1 H2]. rewrite H1, Hh'.
    rewrite fmap_app, <- !app_assoc in *. done.
  - done.
  - rewrite Hh'. apply Forall2_app; [done|]. constructor; [|constructor]. unfold profile_text. cbn. by rewrite Hu, Hnone.
Qed.

Definition version_of (p : string * profileFile) : string * Profile := (file_Organization p.2, profile_of_file p.2).
Lemma publish_each_safe todo h done_ : gathered h (done_ ++ (version_of <$> todo)) → publications h = all_taken done_ → schema_current h →
  safe publish_call publish_ended h (publish_each todo).
Proof.
  revert h done_. induction todo as [|[path p] todo IH]; intros h taken Hg Hp Hs; cbn [publish_each].
  { left. split; [done|]. exists taken. by rewrite app_nil_r in Hg. }
  assert (take (length taken) (taken ++ (version_of <$> (path, p) :: todo)) = taken) as Htake by by rewrite take_app_length.
  assert ((taken ++ (version_of <$> (path, p) :: todo)) !! length taken = Some (version_of (path, p))) as Hat.
  { rewrite lookup_app_r by done. by rewrite Nat.sub_diag. }
  assert (∀ h' err, h' = h ∨ h' = Ev (InR (PublishProfileVersion (file_Organization p) (profile_of_file p))) (Err err) :: h →
    safe publish_call publish_ended h' (_ ← call (Out ("refused " +:+ named p +:+ " version " +:+ FormatInt (file_Version p)));
    _ ← call (ErrOut (path +:+ ": " +:+ error_text err)); mret exitRefused)) as Hrefused.
  { intros h' err Hh. do 2 (split; [done|]; intros []). right. left. split; [done|].
    exists (taken ++ (version_of <$> (path, p) :: todo)), (length taken). split_and!.
    - do 2 (apply gathered_other; [done|]). destruct Hh as [->| ->]; [done|by apply gathered_other].
    - rewrite length_app. cbn. lia.
    - rewrite !publications_other by done. rewrite Htake. destruct Hh as [->| ->]; [by left|right].
      exists (version_of (path, p)). split; [done|]. by rewrite publications_cons, Hp. }
  assert (∀ err, safe publish_call publish_ended h (_ ← call (Out ("refused " +:+ named p +:+ " version " +:+ FormatInt (file_Version p)));
    _ ← call (ErrOut (path +:+ ": " +:+ error_text err)); mret exitRefused)) as Hearly.
  { intros err. apply Hrefused. by left. }
  unfold Service.PublishProfileVersion, try_bind, lift. case_match; [apply Hearly|]. case_match; [apply Hearly|].
  destruct (Validation.Settings_check _) as [[]|err]; [|apply Hearly]. cbn [Errors.try_bind mbind prog_mbind prog_bind mret prog_mret call inject].
  split.
  { split; [done|]. exists (taken ++ (version_of <$> (path, p) :: todo)), (length taken). split; [done|]. by rewrite Htake. }
  intros [[published created]|err].
  - split; [done|]. intros []. apply (IH _ (taken ++ [version_of (path, p)])).
    + rewrite <- app_assoc. by do 2 (apply gathered_other; [done|]).
    + rewrite publications_other by done. rewrite publications_cons, Hp. unfold all_taken. by rewrite fmap_app.
    + by do 2 apply schema_other.
  - apply Hrefused. by right.
Qed.

Lemma publish_opened_safe profiles h : profiles ≠ [] → gathered h (version_of <$> profiles) → publications h = [] →
  safe publish_call publish_ended h (publish_opened profiles).
Proof.
  intros Hne Hg Hp. unfold publish_opened, RequireCurrentSchema. rewrite latest_embedded.
  unfold requireSchema, try_bind, lift. cbn [mbind prog_mbind prog_bind mret prog_mret call inject].
  split; [done|]. intros read. set (h' := Ev _ read :: h).
  assert (gathered h' (version_of <$> profiles) ∧ publications h' = []) as [Hg' Hp'].
  { split; [by apply gathered_other|by unfold h'; rewrite publications_other]. }
  assert (∀ err, safe publish_call publish_ended h' (_ ← call (Out "refused: the database's schema is not this binary's");
    _ ← call (ErrOut (error_text err)); mret exitRefused)) as Hrefused.
  { intros err. do 2 (split; [done|]; intros []). right. left. split; [done|]. exists (version_of <$> profiles), 0%nat. split_and!.
    - by do 2 (apply gathered_other; [done|]).
    - destruct profiles; [done|cbn; lia].
    - left. by rewrite !publications_other. }
  destruct read as [[v dirty]|err].
  - destruct (schemaVerdict (mkSchemaRecord true (uint v) dirty) 3) as [[]|err] eqn:Hv; [|apply Hrefused].
    apply (publish_each_safe _ _ []); [done|done|]. exists v. unfold schemaVerdict in Hv. cbn in Hv.
    destruct dirty; [done|]. repeat (case_bool_decide; [done|]). split; [by left|lia].
  - destruct (errors_is err ErrNoRows || is_undefined_table err); apply Hrefused.
Qed.

(** C35: whatever the files hold, the store and its driver answer, the command gives the store a profile version only after
every file of its command line was read and asks for one, the store was opened at the URL, and its schema was read to be, clean,
at the version this binary knows, which it never migrates; it gives the store what the files ask for in their order, each once
those before were taken, and stops at the first refused. Its exit code is 0 exactly where every one was taken, and 2 only where
the store was never given any. *)
Theorem publishProfiles_ordered : safe publish_call publish_ended [] (publishProfiles UnmarshalStrict args databaseURL).
Proof.
  unfold publishProfiles. destruct (Parse publish_flag [] args) as [files rest| |] eqn:Hargs.
  2, 3: split; [done|]; intros []; right; right; done.
  case_match eqn:Huse; [split; [done|]; intros []; right; right; done|].
  apply orb_false_iff in Huse as [Hne Hrest]. apply bool_decide_eq_false in Hne. apply negb_false_iff, bool_decide_eq_true in Hrest. subst rest.
  rewrite safe_bind. eapply safe_mono; [|apply (read_files_safe files [] []); [done|constructor]].
  intros h [profiles|] [Hp Hr]; [|right; right; done]. destruct Hr as [Hfiles Hwanted]. cbn in Hfiles, Hwanted.
  assert (profiles ≠ []) as Hnone.
  { intros ->. apply Forall2_nil_inv_r in Hwanted. rewrite Hwanted in Hfiles. by cbn in Hfiles. }
  assert (gathered h (version_of <$> profiles)) as Hg by (split; [by rewrite Hfiles|done]).
  case_bool_decide; [split; [done|]; intros []; right; right; split; [done|]; by rewrite publications_other|].
  split; [by split_and!; [done..|exists (version_of <$> profiles)]|]. intros [[]|err].
  - match goal with |- safe _ _ ?h _ => change (safe publish_call publish_ended h (code ← publish_opened profiles; _ ← call CloseStore; mret code)) end.
    rewrite safe_bind. eapply safe_mono; [|apply (publish_opened_safe profiles)]; [|done|by apply gathered_other|by rewrite publications_other].
    intros h' code Hc. split; [done|]. intros []. by apply publish_ended_other.
  - split; [done|]. intros []. right. left. split; [done|]. exists (version_of <$> profiles), 0%nat. split_and!.
    + by do 2 (apply gathered_other; [done|]).
    + destruct profiles; [done|cbn; lia].
    + left. by rewrite !publications_other.
Qed.
End publish.

(** *** The control service's start *)
Section service_start.
Context {pair : Type} (AppendCertsFromPEM : string → bool) (o : options) (databaseURL : string).
Abbreviation calls := (commandE +' serviceE +' migrateE +' Certificate.filesE pair +' MachineToken.sourceE).
Implicit Types (h : list (event calls)).

(** What the service is served with: a certificate, its own GRN, garam's root, its store opened and every migration run. *)
Definition garam_config : MachineToken.Config :=
  MachineToken.mkConfig (Machine.TrimSuffix (garamURL o) "/"%char +:+ garamTokenPath) (operatorKeys o) ""
  (Machine.TrimSuffix (garamURL o) "/"%char +:+ garamIdentityPath).
Definition certified h : Prop :=
  ∃ loaded, Ev (inject (Certificate.LoadX509KeyPair (pair := pair) (apiCertificate o) (apiKey o))) (Ok loaded) ∈ h.
Definition identified h (audience : string) : Prop :=
  audience ≠ "" ∧ (∃ text, Ev (inject (MachineToken.ReadFile (MachineToken.Files_ClientID (operatorKeys o)))) (Ok text) ∈ h ∧
    MachineToken.TrimRight text MachineToken.is_line_end = audience) ∧
  ∃ root, Ev (inject (ReadFile (serverRootFile o))) (Ok root) ∈ h ∧ AppendCertsFromPEM root = true.
Definition configured h (audience : string) : Prop := certified h ∧ identified h audience.
Definition opened h : Prop := databaseURL ≠ "" ∧ Ev (inject (OpenStore databaseURL)) (Ok tt) ∈ h.
Definition ready h audience : Prop := configured h audience ∧ opened h ∧ migrations_ran h.

Definition start_call h X (e : calls X) : Prop :=
  match e with
  | InL (InL (InL (InR e))) =>
    match e with
    | GoKeep cfg => cfg = garam_config ∧ ∃ audience, ready h audience
    | GoListenAndServe addr => addr = probeAddr o ∧ ∃ audience, ready h audience
    | GoListenAndServeTLS addr => addr = apiAddr o ∧ ∃ audience, ready h audience
    | Serving audience => ready h audience
    | Shutdown _ => Ev (inject Ended) None ∈ h
    | _ => True
    end
  | InL (InL (InR _)) => opened h
  | InL (InL (InL (InL (OpenStore url)))) => url = databaseURL ∧ ∃ audience, configured h audience
  | _ => True
  end.
Definition drained h addr : Prop :=
  ∃ stopped, Ev (inject (Shutdown addr)) stopped ∈ h ∧ (stopped = Ok tt ∨ err_is stopped ErrServerClosed = true).
(** How it ends. *)
Definition start_ended h (r : result ()) : Prop :=
  (Ev (inject (OpenStore databaseURL)) (Ok tt) ∈ h → ∃ h', h = Ev (inject CloseStore) tt :: h') ∧
  (r = Ok tt → Ev (inject Ended) None ∈ h ∧
    ∀ addr, addr ∈ [probeAddr o; apiAddr o] → drained h addr).

Lemma configured_later ev h audience : configured h audience → configured (ev :: h) audience.
Proof.
  intros ((l & Hl) & Hne & (t & Ht & Ha) & (r & Hr & Hc)). split; [exists l; by right|].
  split_and!; [done|exists t; split; [by right|done]|exists r; split; [by right|done]].
Qed.
Lemma configured_suffix h h' audience : h `suffix_of` h' → configured h audience → configured h' audience.
Proof. intros [l ->] Hc. induction l as [|ev l IH]; [done|]. by apply configured_later. Qed.
Lemma opened_suffix h h' : h `suffix_of` h' → opened h → opened h'.
Proof. intros [l ->] [Hu Ho]. split; [done|]. apply elem_of_app. by right. Qed.

Lemma ready_later ev h audience : ready h audience → ready (ev :: h) audience.
Proof.
  intros (Hc & [Hu Ho] & (up & Hup & Hok)). split; [by apply configured_later|]. split; [split; [done|by right]|].
  exists up. split; [by right|done].
Qed.

Lemma drained_suffix h h' addr : h `suffix_of` h' → drained h addr → drained h' addr.
Proof. intros [l ->] (x & Hx & Hok). exists x. split; [apply elem_of_app; by right|done]. Qed.
Lemma shutdown_each_safe servers h : Ev (inject Ended) None ∈ h →
  safe start_call (λ h' r, h `suffix_of` h' ∧ (r = Ok tt → ∀ addr, addr ∈ servers → drained h' addr)) h (shutdown_each servers).
Proof.
  revert h. induction servers as [|addr servers IH]; intros h He; [split; [done|]; by intros _ ? ?%not_elem_of_nil|].
  cbn [shutdown_each]. split; [done|]. intros stopped.
  assert ((stopped = Ok tt ∨ err_is stopped ErrServerClosed = true) →
    safe start_call (λ h' r, h `suffix_of` h' ∧ (r = Ok tt → ∀ addr', addr' ∈ addr :: servers → drained h' addr'))
    (Ev (inject (Shutdown addr)) stopped :: h) (shutdown_each servers)) as Hgo.
  { intros Hok. eapply safe_mono; [|apply IH; by right]. intros h' r [Hs Hd]. split; [etrans; [by apply suffix_cons_r|exact Hs]|].
    intros Hr a [->|Ha]%elem_of_cons; [|by apply Hd]. eapply drained_suffix; [exact Hs|]. exists stopped. split; [by left|done]. }
  destruct stopped as [[]|err]; [apply Hgo; by left|]. cbn. destruct (errors_is err ErrServerClosed) eqn:Hc; cbn.
  - apply Hgo. by right.
  - split; [by apply suffix_cons_r|done].
Qed.

Lemma run_opened_safe audience h : configured h audience → opened h →
  safe start_call (λ h' r, r = Ok tt → Ev (inject Ended) None ∈ h' ∧
    ∀ addr, addr ∈ [probeAddr o; apiAddr o] → drained h' addr) h (run_opened o garam_config audience).
Proof.
  intros Hc Ho. unfold run_opened, try_bind. rewrite safe_bind.
  eapply safe_mono; [|apply Migrate_ends; intros h' X e Hsuf; exact (opened_suffix _ _ Hsuf Ho)].
  intros h1 [[]|err] [Hsuf Hran]; [|done]. specialize (Hran eq_refl).
  pose proof (configured_suffix _ _ _ Hsuf Hc) as Hc1. pose proof (opened_suffix _ _ Hsuf Ho) as Ho1.
  change (safe start_call (λ h' r, r = Ok tt → Ev (inject Ended) None ∈ h' ∧
    ∀ addr, addr ∈ [probeAddr o; apiAddr o] → drained h' addr) h1
    (_ ← call (GoKeep garam_config); _ ← call (GoListenAndServe (probeAddr o)); _ ← call (GoListenAndServeTLS (apiAddr o));
    _ ← call (Serving audience); ended ← call Ended;
    match ended with Some (addr, err) => mret (Err (Wrapf ("serve " +:+ addr +:+ ": ") err "")) | None => shutdown_each [probeAddr o; apiAddr o] end)).
  assert (ready h1 audience) as Hr by done. clear Hc1 Ho1 Hran Hsuf Hc Ho.
  split; [split; [done|by exists audience]|]. intros []. pose proof (ready_later (Ev (inject (GoKeep garam_config)) tt) _ _ Hr) as Hr1.
  split; [split; [done|by exists audience]|]. intros []. pose proof (ready_later (Ev (inject (GoListenAndServe (probeAddr o))) tt) _ _ Hr1) as Hr2.
  split; [split; [done|by exists audience]|]. intros []. pose proof (ready_later (Ev (inject (GoListenAndServeTLS (apiAddr o))) tt) _ _ Hr2) as Hr3.
  split; [done|]. intros []. split; [done|]. intros [[addr err]|]; [done|].
  cbn [mbind prog_mbind prog_bind mret prog_mret call safe].
  set (h2 := Ev _ None :: _). assert (Ev (inject Ended) None ∈ h2) as Hended by by left. clearbody h2.
  eapply safe_mono; [|by apply shutdown_each_safe]. intros h' r [Hs Hr'] Hok. split; [destruct Hs as [l ->]; apply elem_of_app; by right|by apply Hr'].
Qed.

(** Before the store is opened. *)
Definition opens (ev : event calls) : bool :=
  match ev with @Ev _ X e x =>
    match e with
    | InL (InL (InL (InL e))) =>
      match e in commandE X return X → bool with OpenStore _ => λ x, match x with Ok _ => true | Err _ => false end | _ => λ _, false end x
    | _ => false
    end end.
Definition unopened h : Prop := Forall (λ ev, opens ev = false) h.
Lemma unopened_ended h err : unopened h → start_ended h (Err err).
Proof. intros Hu. split; [|done]. intros Hin. unfold unopened in Hu. rewrite Forall_forall in Hu. by specialize (Hu _ Hin). Qed.
Lemma unopened_later ev h : opens ev = false → unopened h → unopened (ev :: h).
Proof. by constructor. Qed.

Lemma certified_suffix h h' : h `suffix_of` h' → certified h → certified h'.
Proof. intros [l ->] (x & Hx). exists x. apply elem_of_app. by right. Qed.
Lemma apiTLSConfig_safe h : unopened h →
  safe start_call (λ h' r, h `suffix_of` h' ∧ unopened h' ∧ ∀ x, r = Ok x → certified h') h (apiTLSConfig o).
Proof.
  intros Hu. apply safe_suffix. unfold apiTLSConfig, Certificate.NewReloader, Certificate.reloadLocked, Certificate.stamps, try_bind, try_wrap, lift.
  case_match; [by split|]. explore I; (split; [by repeat apply unopened_later|]); try done.
  intros _ _. eexists. by left.
Qed.
Lemma garamClient_safe h : unopened h →
  safe start_call (λ h' r, h `suffix_of` h' ∧ unopened h' ∧ ∀ cfg audience, r = Ok (cfg, audience) → cfg = garam_config ∧ identified h' audience)
  h (garamClient AppendCertsFromPEM o).
Proof.
  intros Hu. apply safe_suffix. unfold garamClient, MachineToken.ReadClientID, MachineToken.readValue, try_bind, try_wrap, lift.
  case_match; [by split|]. explore I; (split; [by repeat apply unopened_later|]); try done.
  rename select (bool_decide _ = false) into Hvalue. rename select (negb _ = false) into Hroot.
  apply bool_decide_eq_false in Hvalue. apply negb_false_iff in Hroot. intros cfg audience [= <- <-]. split; [done|].
  split; [done|]. split; eexists; (split; [|done]); [right; by left|by left].
Qed.

(** C34: whatever its files, its database, its servers and its signals do, the service keeps its token, listens on either address
and says it serves only where its certificate loaded, its own operator's GRN and a root of garam's were read, its store was opened
at its URL and every migration had run there; it migrates and opens nothing before it is configured, drains its servers only once
it is told to stop, ends well only where both are drained, and closes a store it opened last of all. *)
Theorem service_started : safe start_call start_ended [] (run (pair := pair) AppendCertsFromPEM o databaseURL).
Proof.
  unfold run. case_bool_decide as Hurl; [by apply unopened_ended, Forall_nil_2|].
  unfold try_bind, try_wrap. rewrite safe_bind. eapply safe_mono; [|by apply (apiTLSConfig_safe []), Forall_nil_2].
  intros h [reloader|err] (_ & Hu & Hcert); [|by apply unopened_ended]. specialize (Hcert _ eq_refl).
  rewrite safe_bind. eapply safe_mono; [|by apply garamClient_safe].
  intros h1 [[cfg audience]|err] (Hs & Hu1 & Hid); [|by apply unopened_ended]. destruct (Hid _ _ eq_refl) as [-> Hid'].
  assert (configured h1 audience) as Hc by (split; [by eapply certified_suffix|done]).
  split; [by split; [|exists audience]|]. intros [[]|err]; [|by apply unopened_ended, unopened_later].
  set (h2 := Ev _ _ :: h1). assert (opened h2) as Ho by (split; [done|by left]).
  assert (configured h2 audience) as Hc2 by by apply configured_later. clearbody h2.
  change (safe start_call start_ended h2 (ended ← run_opened o garam_config audience; _ ← call CloseStore; mret ended)).
  rewrite safe_bind. eapply safe_mono; [|by apply run_opened_safe].
  intros h3 r Hr. split; [done|]. intros []. split; [intros _; by exists h3|].
  intros Hok. destruct (Hr Hok) as [He Hd]. split; [by right|]. intros addr Ha. destruct (Hd addr Ha) as (x & Hx & Hx').
  exists x. split; [by right|done].
Qed.
End service_start.

(** *** The operator's start *)
Section operator_start.
Import Operator.
Context (AppendCertsFromPEM : string → bool) (f : flags).
Implicit Types (h : list (event setupE)).

(** What the manager was given to run, and the checks its readiness is of, in their order. *)
Definition added_of (ev : event setupE) : option runnable :=
  match ev with @Ev _ X e x =>
    match e in setupE X return X → option runnable with Add r => λ x, match x with Ok _ => Some r | Err _ => None end | _ => λ _, None end x end.
Definition added h : list runnable := reverse (omap added_of h).
Definition check_of (ev : event setupE) : option string :=
  match ev with @Ev _ X e x =>
    match e in setupE X return X → option string with AddReadyzCheck name => λ x, match x with Ok _ => Some name | Err _ => None end | _ => λ _, None end x end.
Definition checks h : list string := reverse (omap check_of h).

(** What an operator of a control service runs: a token for the control service and one of garam's own, each kept, and its loops,
each presenting the one the service it calls takes. *)
Definition wiring (namespace pod : string) : list runnable :=
  let address := controlAddress (control f) in
  let controlSource := source_config f (controlGRN (control f)) in
  [KeepToken controlSource; PullDesired address namespace (agentImage (agent f)) controlSource; KeepToken (source_config f "");
    RefreshTokens (garamAddress (garam f)) namespace (controlGRN (control f)) (source_config f "");
    RecoverCredentials address namespace controlSource; RegisterPlacements address namespace controlSource;
    ReportImages address namespace pod (Desired.ConfiguredImages (agentImage (agent f)) (agentAdapterImage (agent f))
      (agentCopyImage (agent f)) (agentWorkspaceImage (agent f))) controlSource].
Definition trusted h (file : string) : Prop := ∃ text, Ev (ReadTrust file) (Ok text) ∈ h ∧ AppendCertsFromPEM text = true.
(** All that running agents for a control service needs. *)
Definition equipped h (namespace : string) : Prop :=
  controlAddress (control f) ≠ "" ∧ no_identity f = false ∧ controlGRN (control f) ≠ "" ∧ agentImage (agent f) ≠ "" ∧
  namespace ≠ "" ∧ Ev (Getenv podNamespaceVariable) namespace ∈ h ∧ trusted h (garamTrustFile (garam f)) ∧
  trusted h (controlTrustFile (control f)).
Definition controller_set h : Prop :=
  agentCopyImage (agent f) ≠ "" ∧ Ev (NewManager (manager_options (server f))) (Ok tt) ∈ h ∧ Ev (SetupWithManager (reconciler f)) (Ok tt) ∈ h.
Definition setup_call h X (e : setupE X) : Prop :=
  match e with
  | Add r => ∃ namespace pod, equipped h namespace ∧ controller_set h ∧ (r ∈ wiring namespace pod)
  | Start =>
    controller_set h ∧ Ev (AddHealthzCheck "healthz") (Ok tt) ∈ h ∧
    (controlAddress (control f) = "" ∧ added h = [] ∧ checks h = ["readyz"] ∨
      ∃ namespace pod, equipped h namespace ∧ Ev (Getenv podNameVariable) pod ∈ h ∧ added h = wiring namespace pod ∧
      checks h = ["control-authentication"; "garam-authentication"; "readyz"])
  | _ => True
  end.
Definition setup_ended h (r : result ()) : Prop := r = Ok tt → Ev Start (Ok tt) ∈ h.

Lemma added_cons ev h : added (ev :: h) = added h ++ option_list (added_of ev).
Proof.
  unfold added. change (omap added_of (ev :: h)) with (match added_of ev with Some x => x :: omap added_of h | None => omap added_of h end).
  destruct (added_of ev); cbn [option_list]; by rewrite ?reverse_cons, ?app_nil_r.
Qed.
Lemma checks_cons ev h : checks (ev :: h) = checks h ++ option_list (check_of ev).
Proof.
  unfold checks. change (omap check_of (ev :: h)) with (match check_of ev with Some x => x :: omap check_of h | None => omap check_of h end).
  destruct (check_of ev); cbn [option_list]; by rewrite ?reverse_cons, ?app_nil_r.
Qed.

Definition nothing_yet h : Prop := added h = [] ∧ checks h = [].
Lemma nothing_later ev h : added_of ev = None → check_of ev = None → nothing_yet h → nothing_yet (ev :: h).
Proof. intros Ha Hc [H1 H2]. split; [by rewrite added_cons, Ha, H1|by rewrite checks_cons, Hc, H2]. Qed.

Ltac units := repeat match goal with u : unit |- _ => destruct u end.
Lemma new_manager_safe :
  safe setup_call (λ h' r, nothing_yet h' ∧ (r = Ok tt → Ev (NewManager (manager_options (server f))) (Ok tt) ∈ h')) [] (new_manager f).
Proof.
  unfold new_manager, told, try_bind, try_wrap.
  explore I; (split; [by repeat apply nothing_later|]); try done; intros _; units; by left.
Qed.
Lemma setup_controller_safe h : nothing_yet h → Ev (NewManager (manager_options (server f))) (Ok tt) ∈ h →
  safe setup_call (λ h' r, h `suffix_of` h' ∧ nothing_yet h' ∧ (r = Ok tt → controller_set h')) h (setup_controller f).
Proof.
  intros Hn Hm. apply safe_suffix. unfold setup_controller, told, try_bind, try_wrap. case_bool_decide as Hcopy; [by split|].
  explore I; (split; [by repeat apply nothing_later|]); try done; intros _; units;
    (split; [done|split; [by repeat right|by left]]).
Qed.
Lemma ServerTLS_safe h file :
  safe setup_call (λ h' r, h `suffix_of` h' ∧ (nothing_yet h → nothing_yet h') ∧ (r = Ok tt → trusted h' file)) h (ServerTLS AppendCertsFromPEM file).
Proof.
  apply safe_suffix. unfold ServerTLS, try_bind, try_wrap. explore I; (split; [by intros; apply nothing_later|]); try done.
  intros _. eexists. split; [by left|]. by apply negb_false_iff.
Qed.
Lemma setup_garam_safe h : nothing_yet h →
  safe setup_call (λ h' r, h `suffix_of` h' ∧ nothing_yet h' ∧
    (r = Ok tt → controlAddress (control f) ≠ "" → no_identity f = false ∧ trusted h' (garamTrustFile (garam f)))) h (setup_garam AppendCertsFromPEM f).
Proof.
  intros Hn. unfold setup_garam. case_bool_decide; [done|]. destruct (no_identity f) eqn:Hid; [done|].
  unfold try_wrap. rewrite safe_bind. eapply safe_mono; [|apply ServerTLS_safe].
  intros h' [[]|err] (Hs & Hn' & Ht); (split; [done|split; [by apply Hn'|]]); [|done]. intros _ _. split; [done|by apply Ht].
Qed.

Lemma trusted_suffix h h' file : h `suffix_of` h' → trusted h file → trusted h' file.
Proof. intros [l ->] (x & Hx & Hok). exists x. split; [apply elem_of_app; by right|done]. Qed.
Lemma equipped_suffix h h' namespace : h `suffix_of` h' → equipped h namespace → equipped h' namespace.
Proof.
  intros Hs (H1 & H2 & H3 & H4 & H5 & H6 & H7 & H8). repeat (split; [done|]). split; [|split; by eapply trusted_suffix].
  destruct Hs as [l ->]. apply elem_of_app. by right.
Qed.
Lemma controller_suffix h h' : h `suffix_of` h' → controller_set h → controller_set h'.
Proof. intros [l ->] (H1 & H2 & H3). split; [done|]. split; apply elem_of_app; by right. Qed.

Ltac add_step Hnth :=
  match goal with |- setup_call ?h' _ (inject (Add _)) =>
    let go n := (apply (Hnth h' ltac:(by repeat apply suffix_cons_r) _ n); intros; reflexivity) in
    first [go 0%nat|go 1%nat|go 2%nat|go 3%nat|go 4%nat|go 5%nat|go 6%nat]
  | |- _ => exact I
  end.

(** What the loops are added after, and leave. *)
Lemma add_loops_safe h namespace : nothing_yet h → equipped h namespace → controller_set h →
  safe setup_call (λ h' r, h `suffix_of` h' ∧ (r = Ok tt → ∃ pod, Ev (Getenv podNameVariable) pod ∈ h' ∧ added h' = wiring namespace pod ∧
    checks h' = ["control-authentication"; "garam-authentication"])) h (add_loops f namespace).
Proof.
  intros [Ha Hc] He Hset. apply safe_suffix.
  assert (∀ h' r, h `suffix_of` h' → (∃ pod, r ∈ wiring namespace pod) → setup_call h' _ (Add r)) as Hadd.
  { intros h' r Hs [pod Hr]. exists namespace, pod. split; [by eapply equipped_suffix|]. split; [by eapply controller_suffix|done]. }
  assert (∀ h', h `suffix_of` h' → ∀ r n, (∀ pod, wiring namespace pod !! n = Some r) → setup_call h' _ (Add r)) as Hnth.
  { intros h' Hs r n Hr. apply Hadd; [done|]. exists "". by eapply list_elem_of_lookup_2. }
  unfold add_loops, tokenSource, try_bind, try_wrap. cbn [mbind prog_mbind prog_bind mret prog_mret call].
  repeat (split; [add_step Hnth|]; intros [[]|?]; [|done]; cbn [mbind prog_mbind prog_bind mret prog_mret call]).
  split; [exact I|]. intros pod. split.
  { apply Hadd; [by repeat apply suffix_cons_r|]. exists pod. by do 6 right; left. }
  intros [[]|err]; [|done]. intros _. exists pod. split; [right; by left|]. split.
  - rewrite !added_cons, Ha. reflexivity.
  - rewrite !checks_cons, Hc. reflexivity.
Qed.
Lemma setup_control_safe h : nothing_yet h → controller_set h →
  (controlAddress (control f) ≠ "" → no_identity f = false ∧ trusted h (garamTrustFile (garam f))) →
  safe setup_call (λ h' r, h `suffix_of` h' ∧ (r = Ok tt → controlAddress (control f) = "" ∧ nothing_yet h' ∨
    ∃ namespace pod, equipped h' namespace ∧ Ev (Getenv podNameVariable) pod ∈ h' ∧ added h' = wiring namespace pod ∧
    checks h' = ["control-authentication"; "garam-authentication"])) h (setup_control AppendCertsFromPEM f).
Proof.
  intros Hn Hset Hg. unfold setup_control. case_bool_decide as Haddr.
  { split; [done|]. intros []. split; [by apply suffix_cons_r|]. intros _. left. split; [done|]. by apply nothing_later. }
  destruct (Hg Haddr) as [Hid Ht]. case_bool_decide as Hgrn; [done|]. unfold try_wrap. rewrite safe_bind.
  eapply safe_mono; [|apply ServerTLS_safe]. intros h1 [[]|err] (Hs & Hn1 & Ht1); [|by split].
  specialize (Ht1 eq_refl). split; [done|]. intros namespace. cbn.
  case_bool_decide as Hns; [split; [by apply suffix_cons_r|done]|]. case_bool_decide as Himg; [split; [by apply suffix_cons_r|done]|].
  assert (h `suffix_of` Ev (inject (Getenv podNamespaceVariable)) namespace :: h1) as Hs' by by apply suffix_cons_r.
  assert (equipped (Ev (inject (Getenv podNamespaceVariable)) namespace :: h1) namespace) as Heq.
  { assert (trusted (Ev (inject (Getenv podNamespaceVariable)) namespace :: h1) (garamTrustFile (garam f))) as Htr by by eapply trusted_suffix.
    assert (trusted (Ev (inject (Getenv podNamespaceVariable)) namespace :: h1) (controlTrustFile (control f))) as Htr1 by (apply (trusted_suffix h1); [by apply suffix_cons_r|done]).
    repeat (split; [done|]). split; [by left|done]. }
  eapply safe_mono; [|apply add_loops_safe; [by apply nothing_later, Hn1|done|by eapply controller_suffix]].
  intros h2 r [Hs2 Hr]. split; [by etrans|]. intros Hok. destruct (Hr Hok) as (pod & Hpod & Ha & Hc). right.
  exists namespace, pod. split; [by eapply equipped_suffix|done].
Qed.

(** C36: whatever the manager, its files and its environment answer, the operator's manager is started only with the controller
set up as its flags say and an image for the containers it adds. Where no control service is named, it runs nothing else;
where one is, only what the identity at garam, either trust, the agents' image and the namespace are all set for: a source of a
token for the control service and one of garam's own, each kept and part of what being ready means, and the five loops, each
presenting the token of the service it calls. Nothing is added otherwise, and the command ends well only once the manager has
run. *)
Theorem manager_started : safe setup_call setup_ended [] (run_flags AppendCertsFromPEM f).
Proof.
  unfold run_flags, try_bind. rewrite safe_bind. eapply safe_mono; [|apply new_manager_safe].
  intros h [[]|err] [Hn Hm]; [|done]. rewrite safe_bind. eapply safe_mono; [|apply setup_controller_safe; [done|by apply Hm]].
  intros h1 [[]|err] (_ & Hn1 & Hset); [|done]. specialize (Hset eq_refl). rewrite safe_bind. eapply safe_mono; [|by apply setup_garam_safe].
  intros h2 [[]|err] (Hs2 & Hn2 & Hg); [|done]. rewrite safe_bind.
  eapply safe_mono; [|apply setup_control_safe; [done|by eapply controller_suffix|by apply Hg]].
  intros h3 [[]|err] [Hs3 Hr]; [|done]. specialize (Hr eq_refl).
  assert (controller_set h3) as Hset3 by (apply (controller_suffix h2); [done|by apply (controller_suffix h1)]).
  unfold start, try_wrap. split; [done|]. intros [[]|err]; [|done]. split; [done|]. intros [[]|err]; [|done].
  split; [done|]. intros []. split; [|intros [[]|err]; [by left|done]]. split; [by apply (controller_suffix h3); [repeat apply suffix_cons_r|]|].
  split; [do 2 right; by left|]. destruct Hr as [(Ha & Hadd & Hchk)|(namespace & pod & He & Hpod & Hadd & Hchk)]; [left|right].
  - rewrite !added_cons, !checks_cons, Hadd, Hchk. done.
  - exists namespace, pod. rewrite !added_cons, !checks_cons, Hadd, Hchk. split; [by apply (equipped_suffix h3); [repeat apply suffix_cons_r|]|].
    split; [by do 3 right|]. done.
Qed.
End operator_start.

(** *** The tags an image is pushed under *)
Example release_tags : ImageReference.releaseVersion <$> ["1.2.3"; "10.0.0"; "01.2.3"; "1.2"; "1.2.3-rc"; ""] = [true; true; false; false; false; false].
Proof. vm_compute. reflexivity. Qed.
Example origin_hosts : originHost <$> ["console.garam.sh"; "localhost:5173"; "[::1]:80"; "*.garam.sh"; "Host"; "h:"; "h:123456"] =
  [true; true; true; false; false; false; false].
Proof. vm_compute. reflexivity. Qed.
End CommandsSpec.
